(** * llm-chat-app: streaming multiplexer, SSE client and markdown renderer

    A shallow embedding of the worker (src/index.ts, the three-tone version)
    and of the browser client (public/chat.js: [consumeSseEvents],
    the read loop of [sendMessage], [parseMarkdown]), followed by the
    properties of the specification that were checked against them and by
    further properties of the code: the router, the page, the renderer on
    each of its constructs, and the way from the streams of the model to
    the history of the chat.

    JavaScript strings are sequences of UTF-16 code units; a code unit is a
    number [N].  Everything the program does with a string (comparison with
    a literal, [indexOf], [slice], [split], [trim], regular expressions) is
    written on these sequences. *)

From Stdlib Require Import String Ascii.
From Stdlib Require Import List NArith Bool Lia Arith.
Import ListNotations.

(* ================================================================== *)
(** * Part I: the program                                              *)
(* ================================================================== *)

(** ** JavaScript strings *)

Module JS.

Abbreviation jsstring := (list N).

(** An ASCII literal of the source, as code units. *)
Definition lit (s : string) : jsstring :=
  map N_of_ascii (list_ascii_of_string s).

Definition LF : N := 10.
Definition CR : N := 13.
Definition QUOT : N := 34.   (* the double quote *)
Definition APOS : N := 39.   (* the single quote *)

Definition str_eqb (a b : jsstring) : bool :=
  if list_eq_dec N.eq_dec a b then true else false.

(** [s.startsWith(p)] *)
Fixpoint startsWith (p s : jsstring) : bool :=
  match p, s with
  | [], _ => true
  | _ :: _, [] => false
  | a :: p', b :: s' => N.eqb a b && startsWith p' s'
  end.

(** [s.indexOf(needle)], [None] standing for -1. *)
Fixpoint indexOf (needle s : jsstring) : option nat :=
  if startsWith needle s then Some 0
  else match s with
       | [] => None
       | _ :: s' => option_map S (indexOf needle s')
       end.

(** [s.split(sep)] for a one-unit separator: never the empty list. *)
Fixpoint split (sep : N) (s : jsstring) : list jsstring :=
  match s with
  | [] => [[]]
  | c :: s' =>
      if N.eqb c sep then [] :: split sep s'
      else match split sep s' with
           | l :: ls => (c :: l) :: ls
           | [] => [[c]]
           end
  end.

(** [parts.join(sep)] *)
Fixpoint join (sep : jsstring) (parts : list jsstring) : jsstring :=
  match parts with
  | [] => []
  | [p] => p
  | p :: rest => p ++ sep ++ join sep rest
  end.

(** WhiteSpace and LineTerminator of ECMAScript: what [trim], [trimStart]
    and the class [\s] strip or match. *)
Definition isWhiteSpace (c : N) : bool :=
  (N.leb 9 c && N.leb c 13) || N.eqb c 32 || N.eqb c 160 || N.eqb c 5760
  || (N.leb 8192 c && N.leb c 8202) || N.eqb c 8232 || N.eqb c 8233
  || N.eqb c 8239 || N.eqb c 8287 || N.eqb c 12288 || N.eqb c 65279.

(** LineTerminator: what [.] does not match and what [^] and [$] look at
    under the [m] flag. *)
Definition isLineTerminator (c : N) : bool :=
  N.eqb c 10 || N.eqb c 13 || N.eqb c 8232 || N.eqb c 8233.

Fixpoint dropWhile (p : N -> bool) (s : jsstring) : jsstring :=
  match s with
  | [] => []
  | c :: s' => if p c then dropWhile p s' else s
  end.

Fixpoint takeWhile (p : N -> bool) (s : jsstring) : jsstring :=
  match s with
  | [] => []
  | c :: s' => if p c then c :: takeWhile p s' else []
  end.

(** No newline in [l]. *)
Definition noLF (l : jsstring) : Prop := Forall (fun c => N.eqb c LF = false) l.

(** [s.length > 0], the truthiness of a string. *)
Definition nonEmpty (s : jsstring) : bool :=
  match s with [] => false | _ :: _ => true end.

Definition trimStart (s : jsstring) : jsstring := dropWhile isWhiteSpace s.
Definition trimEnd (s : jsstring) : jsstring := rev (dropWhile isWhiteSpace (rev s)).
Definition trim (s : jsstring) : jsstring := trimEnd (trimStart s).

End JS.

(** ** The frame decoder of the client: [consumeSseEvents] *)

Module Sse.
Import JS.

Definition delimiter : jsstring := [LF; LF].
Definition dataPrefix : jsstring := lit "data:".

(** [buffer.replace(/\r/g, "")] *)
Definition normalize (buffer : jsstring) : jsstring :=
  filter (fun c => negb (N.eqb c CR)) buffer.

(** The body of the [for (const line of lines)] loop: the data lines of one
    raw event, each without its prefix and trimmed at the start. *)
Definition dataLinesOf (rawEvent : jsstring) : list jsstring :=
  map (fun line => trimStart (skipn (length dataPrefix) line))
      (filter (startsWith dataPrefix) (split LF rawEvent)).

(** What one raw event contributes: nothing when it has no data line
    ([if (dataLines.length === 0) continue;]), otherwise its data lines
    joined by a newline ([events.push(dataLines.join("\n"))]). *)
Definition payloadOf (rawEvent : jsstring) : option jsstring :=
  match dataLinesOf rawEvent with
  | [] => None
  | dataLines => Some (join [LF] dataLines)
  end.

(** The [while ((eventEndIndex = normalized.indexOf("\n\n")) !== -1)] loop.
    Every turn removes at least the two units of the delimiter, so the
    length of [normalized] bounds the number of turns: [fuel] is that
    bound, and [consume_loop_fuel] shows that a larger one changes nothing. *)
Fixpoint consume_loop (fuel : nat) (normalized : jsstring)
    (events : list jsstring) : list jsstring * jsstring :=
  match fuel with
  | O => (events, normalized)
  | S fuel' =>
      match indexOf delimiter normalized with
      | None => (events, normalized)
      | Some eventEndIndex =>
          let rawEvent := firstn eventEndIndex normalized in
          let normalized' := skipn (eventEndIndex + 2) normalized in
          match payloadOf rawEvent with
          | None => consume_loop fuel' normalized' events
          | Some payload => consume_loop fuel' normalized' (events ++ [payload])
          end
      end
  end.

(** The loop on an already normalized string, and what one raw event adds
    to [events]; both only name parts of [consumeSseEvents]. *)
Definition decode (s : jsstring) : list jsstring * jsstring :=
  consume_loop (length s) s [].

Definition frameEvents (rawEvent : jsstring) : list jsstring :=
  match payloadOf rawEvent with Some p => [p] | None => [] end.

(** [consumeSseEvents(buffer)]: the pair [{ events, buffer: normalized }]. *)
Definition consumeSseEvents (buffer : jsstring) : list jsstring * jsstring :=
  let normalized := normalize buffer in
  consume_loop (length normalized) normalized [].

(** Feeding chunks one at a time, each call given the previous remainder
    followed by the new chunk, as the read loop does with
    [buffer += chunk; parsed = consumeSseEvents(buffer); buffer = parsed.buffer]. *)
Fixpoint decodeChunks (events : list jsstring) (buffer : jsstring)
    (chunks : list jsstring) : list jsstring * jsstring :=
  match chunks with
  | [] => (events, buffer)
  | chunk :: rest =>
      let parsed := consumeSseEvents (buffer ++ chunk) in
      decodeChunks (events ++ fst parsed) (snd parsed) rest
  end.

End Sse.

(** ** JSON values and the coercions the client applies to them *)

Module Json.
Import JS.

(** What [JSON.parse] returns.  A number keeps the text it was written
    with: the double it denotes is not modelled, and the two things the
    client can observe of it come from the runtime below.  The members of
    an object are in source order; a later duplicate key wins. *)
#[local] Unset Elimination Schemes.
Inductive value : Type :=
| JNull
| JBool (b : bool)
| JNumber (lexeme : jsstring)
| JString (s : jsstring)
| JArray (items : list value)
| JObject (members : list (jsstring * value)).
#[local] Set Elimination Schemes.

(** The built-ins of the host that the program calls and that are not part
    of the repository. *)
Class Runtime : Type := {
  (** [JSON.parse(text)]; [None] when it throws a SyntaxError. *)
  JSON_parse : jsstring -> option value;
  (** [ToBoolean] of the number written [lexeme]. *)
  Number_truthy : jsstring -> bool;
  (** [ToString] of the number written [lexeme]. *)
  Number_toString : jsstring -> jsstring;
  (** [String.prototype.toLowerCase]. *)
  toLowerCase : jsstring -> jsstring
}.

Fixpoint lookupLast (key : jsstring) (members : list (jsstring * value)) : option value :=
  match members with
  | [] => None
  | (k, v) :: rest =>
      match lookupLast key rest with
      | Some v' => Some v'
      | None => if str_eqb k key then Some v else None
      end
  end.

Definition hasOwn (key : jsstring) (members : list (jsstring * value)) : bool :=
  existsb (fun kv => str_eqb (fst kv) key) members.

(** [jsonData.key] for the keys the client reads ([tone], [thinking],
    [response]): outer [None] is the TypeError of reading a property of
    [null], inner [None] is [undefined].  No prototype defines these keys,
    so only an object can have them. *)
Definition getProp (jsonData : value) (key : jsstring) : option (option value) :=
  match jsonData with
  | JNull => None
  | JObject members => Some (lookupLast key members)
  | _ => Some None
  end.

Section Coercions.
Context {rt : Runtime}.

(** [ToBoolean] *)
Definition truthy (v : option value) : bool :=
  match v with
  | None => false
  | Some JNull => false
  | Some (JBool b) => b
  | Some (JNumber n) => Number_truthy n
  | Some (JString s) => negb (str_eqb s [])
  | Some (JArray _) => true
  | Some (JObject _) => true
  end.

(** [ToString], used by [text += v] and by [responseElements[v]]; [None]
    is the TypeError raised for an object whose own [toString] member, a
    JSON value, is not callable.  An array is joined with commas, [null]
    elements giving the empty string. *)
Fixpoint ToString (v : value) : option jsstring :=
  match v with
  | JNull => Some (lit "null")
  | JBool true => Some (lit "true")
  | JBool false => Some (lit "false")
  | JNumber n => Some (Number_toString n)
  | JString s => Some s
  | JArray items =>
      let fix elements (l : list value) : option (list jsstring) :=
        match l with
        | [] => Some []
        | x :: l' =>
            match (match x with JNull => Some [] | _ => ToString x end), elements l' with
            | Some a, Some b => Some (a :: b)
            | _, _ => None
            end
        end in
      option_map (join (lit ",")) (elements items)
  | JObject members =>
      if hasOwn (lit "toString") members then None
      else Some (lit "[object Object]")
  end.

End Coercions.
End Json.

(** ** The client: routing decoded payloads to the per-tone buffers *)

Module Client.
Import JS Sse Json.

Inductive Tone : Type := friendly | rude | professional.

Definition tones : list Tone := [friendly; rude; professional].

Definition toneName (t : Tone) : jsstring :=
  match t with
  | friendly => lit "friendly"
  | rude => lit "rude"
  | professional => lit "professional"
  end.

Definition Tone_eqb (a b : Tone) : bool :=
  match a, b with
  | friendly, friendly | rude, rude | professional, professional => true
  | _, _ => false
  end.

(** The text part of [responseElements[tone]]. *)
Record StreamBuffer : Type := {
  thinkingText : jsstring;
  responseText : jsstring
}.

(** [responseElements]: one entry per tone, created empty. *)
Definition ResponseElements := Tone -> StreamBuffer.

Definition initialElements : ResponseElements :=
  fun _ => {| thinkingText := []; responseText := [] |}.

Definition update (els : ResponseElements) (t : Tone) (b : StreamBuffer) : ResponseElements :=
  fun t' => if Tone_eqb t' t then b else els t'.

(** The own entry of [responseElements] under [key], if any.  Under another
    key the lookup yields [undefined], skipped by [continue], or a member
    of [Object.prototype]: then the texts are appended to properties of
    that member and [flushThinking] or [flushResponse] throws inside the
    [try].  Either way the three buffers are left as they were. *)
Definition ownEntry (key : jsstring) : option Tone :=
  find (fun t => str_eqb (toneName t) key) tones.

Definition sentinel : jsstring := lit "[DONE]".

Section Routing.
Context {rt : Runtime}.

(** [text += v] when [v] is truthy; [None] when the coercion throws. *)
Definition appendTruthy (text : jsstring) (v : option value) : option jsstring :=
  match v with
  | Some x => if truthy v then option_map (app text) (ToString x) else Some text
  | None => Some text
  end.

(** The body of the [try] for one payload that is not the sentinel.  Every
    [catch] and every [continue] leaves the loop running with the buffers
    as they are at that point. *)
Definition handleData (els : ResponseElements) (data : jsstring) : ResponseElements :=
  match JSON_parse data with
  | None => els
  | Some jsonData =>
      match getProp jsonData (lit "tone") with
      | None => els
      | Some tone =>
          if negb (truthy tone) then els
          else
            match tone with
            | None => els
            | Some toneValue =>
                match ToString toneValue with
                | None => els
                | Some key =>
                    match ownEntry key with
                    | None => els
                    | Some t =>
                        match getProp jsonData (lit "thinking"), getProp jsonData (lit "response") with
                        | Some thinking, Some response =>
                            match appendTruthy (thinkingText (els t)) thinking with
                            | None => els
                            | Some thinkingText' =>
                                let els1 := update els t
                                  {| thinkingText := thinkingText';
                                     responseText := responseText (els t) |} in
                                match appendTruthy (responseText (els t)) response with
                                | None => els1
                                | Some responseText' =>
                                    update els1 t
                                      {| thinkingText := thinkingText';
                                         responseText := responseText' |}
                                end
                            end
                        | _, _ => els
                        end
                    end
                end
            end
      end
  end.

(** [for (const data of parsed.events)]: stops at the sentinel; the flag
    tells whether it was met. *)
Fixpoint processEvents (els : ResponseElements) (events : list jsstring)
    : ResponseElements * bool :=
  match events with
  | [] => (els, false)
  | data :: rest =>
      if str_eqb data sentinel then (els, true)
      else processEvents (handleData els data) rest
  end.

(** The [while (true)] read loop of [sendMessage].  [chunks] are the texts
    [decoder.decode(value, { stream: true })] of the successive reads; the
    end of the list is the read that reports [done], where the buffer is
    flushed once more with a closing delimiter. *)
Fixpoint readLoop (els : ResponseElements) (buffer : jsstring)
    (chunks : list jsstring) : ResponseElements :=
  match chunks with
  | [] => fst (processEvents els (fst (consumeSseEvents (buffer ++ delimiter))))
  | value :: rest =>
      let parsed := consumeSseEvents (buffer ++ value) in
      let (els', sawDone) := processEvents els (fst parsed) in
      if sawDone then els' else readLoop els' (snd parsed) rest
  end.

(** The buffers when the read loop of [sendMessage] is left. *)
Definition sendMessage (chunks : list jsstring) : ResponseElements :=
  readLoop initialElements [] chunks.

End Routing.
End Client.

(** ** A reader of JSON text

    The theorems below hold for every [Runtime].  To run the client on
    concrete streams a runtime is needed: this one reads JSON text by the
    grammar of ECMA-404.  Its three other members are exact on what the
    examples contain (integers written canonically, ASCII letters) and are
    not claimed to be beyond that. *)

Module JsonText.
Import JS Json.

Definition isJsonWs (c : N) : bool :=
  N.eqb c 32 || N.eqb c 9 || N.eqb c 10 || N.eqb c 13.

Definition isDigit (c : N) : bool := N.leb 48 c && N.leb c 57.

Definition hexVal (c : N) : option N :=
  if N.leb 48 c && N.leb c 57 then Some (c - 48)%N
  else if N.leb 97 c && N.leb c 102 then Some (c - 87)%N
  else if N.leb 65 c && N.leb c 70 then Some (c - 55)%N
  else None.

Definition hex4 (a b c d : N) : option N :=
  match hexVal a, hexVal b, hexVal c, hexVal d with
  | Some x, Some y, Some z, Some w => Some (((x * 16 + y) * 16 + z) * 16 + w)%N
  | _, _, _, _ => None
  end.

(** The one-letter escapes: quote, backslash, slash, b, f, n, r, t. *)
Definition escapeUnit (e : N) : option N :=
  if N.eqb e 34 then Some 34%N
  else if N.eqb e 92 then Some 92%N
  else if N.eqb e 47 then Some 47%N
  else if N.eqb e 98 then Some 8%N
  else if N.eqb e 102 then Some 12%N
  else if N.eqb e 110 then Some 10%N
  else if N.eqb e 114 then Some 13%N
  else if N.eqb e 116 then Some 9%N
  else None.

(** The units of a string after its opening quote, up to the closing one. *)
Fixpoint stringBody (s : jsstring) : option (jsstring * jsstring) :=
  match s with
  | [] => None
  | c :: s' =>
      if N.eqb c 34 then Some ([], s')
      else if N.eqb c 92 then
        match s' with
        | [] => None
        | e :: s'' =>
            if N.eqb e 117 then
              match s'' with
              | h1 :: h2 :: h3 :: h4 :: s3 =>
                  match hex4 h1 h2 h3 h4, stringBody s3 with
                  | Some u, Some (body, rest) => Some (u :: body, rest)
                  | _, _ => None
                  end
              | _ => None
              end
            else
              match escapeUnit e, stringBody s'' with
              | Some u, Some (body, rest) => Some (u :: body, rest)
              | _, _ => None
              end
        end
      else if N.ltb c 32 then None
      else
        match stringBody s' with
        | Some (body, rest) => Some (c :: body, rest)
        | None => None
        end
  end.

Definition digits1 (s : jsstring) : option (jsstring * jsstring) :=
  match takeWhile isDigit s with
  | [] => None
  | ds => Some (ds, dropWhile isDigit s)
  end.

(** A number: an optional minus, then zero or a digit run not starting
    with zero, then an optional fraction, then an optional exponent. *)
Definition numberLexeme (s : jsstring) : option (jsstring * jsstring) :=
  let '(sign, s1) := match s with
                     | 45%N :: r => ([45%N], r)
                     | _ => ([], s)
                     end in
  match (match s1 with
         | 48%N :: r => Some ([48%N], r)
         | _ => digits1 s1
         end) with
  | None => None
  | Some (int, s2) =>
      match (match s2 with
             | 46%N :: r => option_map (fun p => (46%N :: fst p, snd p)) (digits1 r)
             | _ => Some ([], s2)
             end) with
      | None => None
      | Some (frac, s3) =>
          match (match s3 with
                 | e :: r =>
                     if N.eqb e 101 || N.eqb e 69 then
                       match r with
                       | g :: r' =>
                           if N.eqb g 43 || N.eqb g 45
                           then option_map (fun p => (e :: g :: fst p, snd p)) (digits1 r')
                           else option_map (fun p => (e :: fst p, snd p)) (digits1 r)
                       | [] => None
                       end
                     else Some ([], s3)
                 | [] => Some ([], s3)
                 end) with
          | None => None
          | Some (exp, s4) => Some (sign ++ int ++ frac ++ exp, s4)
          end
      end
  end.

Definition literal (word : jsstring) (v : value) (s : jsstring) : option (value * jsstring) :=
  if startsWith word s then Some (v, skipn (length word) s) else None.

Fixpoint parseValue (fuel : nat) (s : jsstring) : option (value * jsstring) :=
  match fuel with
  | O => None
  | S fuel' =>
      match dropWhile isJsonWs s with
      | [] => None
      | c :: r =>
          if N.eqb c 123 then
            match dropWhile isJsonWs r with
            | 125%N :: r' => Some (JObject [], r')
            | _ => option_map (fun p => (JObject (fst p), snd p)) (parseMembers fuel' r)
            end
          else if N.eqb c 91 then
            match dropWhile isJsonWs r with
            | 93%N :: r' => Some (JArray [], r')
            | _ => option_map (fun p => (JArray (fst p), snd p)) (parseElements fuel' r)
            end
          else if N.eqb c 34 then
            option_map (fun p => (JString (fst p), snd p)) (stringBody r)
          else if N.eqb c 116 then literal (lit "true") (JBool true) (c :: r)
          else if N.eqb c 102 then literal (lit "false") (JBool false) (c :: r)
          else if N.eqb c 110 then literal (lit "null") JNull (c :: r)
          else option_map (fun p => (JNumber (fst p), snd p)) (numberLexeme (c :: r))
      end
  end
with parseMembers (fuel : nat) (s : jsstring) : option (list (jsstring * value) * jsstring) :=
  match fuel with
  | O => None
  | S fuel' =>
      match dropWhile isJsonWs s with
      | 34%N :: r =>
          match stringBody r with
          | None => None
          | Some (key, r1) =>
              match dropWhile isJsonWs r1 with
              | 58%N :: r2 =>
                  match parseValue fuel' r2 with
                  | None => None
                  | Some (v, r3) =>
                      match dropWhile isJsonWs r3 with
                      | 44%N :: r4 =>
                          option_map (fun p => ((key, v) :: fst p, snd p)) (parseMembers fuel' r4)
                      | 125%N :: r4 => Some ([(key, v)], r4)
                      | _ => None
                      end
                  end
              | _ => None
              end
          end
      | _ => None
      end
  end
with parseElements (fuel : nat) (s : jsstring) : option (list value * jsstring) :=
  match fuel with
  | O => None
  | S fuel' =>
      match parseValue fuel' s with
      | None => None
      | Some (v, r1) =>
          match dropWhile isJsonWs r1 with
          | 44%N :: r2 => option_map (fun p => (v :: fst p, snd p)) (parseElements fuel' r2)
          | 93%N :: r2 => Some ([v], r2)
          | _ => None
          end
      end
  end.

(** The whole text must be one value, white space around it allowed. *)
Definition parse (text : jsstring) : option value :=
  match parseValue (2 * length text + 2) text with
  | Some (v, rest) =>
      match dropWhile isJsonWs rest with
      | [] => Some v
      | _ :: _ => None
      end
  | None => None
  end.

Definition asciiLower (s : jsstring) : jsstring :=
  map (fun c => if N.leb 65 c && N.leb c 90 then (c + 32)%N else c) s.

Definition nonZeroLexeme (lexeme : jsstring) : bool :=
  existsb (fun c => N.leb 49 c && N.leb c 57)
          (takeWhile (fun c => negb (N.eqb c 101 || N.eqb c 69)) lexeme).

Definition runtime : Runtime := {|
  JSON_parse := parse;
  Number_truthy := nonZeroLexeme;
  Number_toString := fun lexeme => lexeme;
  toLowerCase := asciiLower
|}.

End JsonText.

(** ** The worker: [handleChatRequest] and its multiplexer *)

Module Worker.
Import JS Client.

Inductive Role : Type := system | user | assistant.

Record ChatMessage : Type := { role : Role; content : jsstring }.

(** [env.Z_AI_API_KEY]; [None] when the secret is not configured. *)
Record Env : Type := { Z_AI_API_KEY : option jsstring }.

Definition TONE_PROMPTS (tone : Tone) : jsstring :=
  match tone with
  | friendly => lit "You are a warm, friendly, and enthusiastic assistant. Use a casual, upbeat tone with emojis and encouraging language. Provide helpful responses in a cheerful manner."
  | rude => lit "You are a blunt, sarcastic assistant. Be direct and somewhat dismissive in your responses, but still provide accurate information. Use a condescending tone."
  | professional => lit "You are a formal, professional assistant. Provide precise, well-structured responses using formal language. Be thorough and maintain a business-like tone."
  end.

(** *** [JSON.stringify] of an object whose values are strings *)

Definition isHighSurrogate (c : N) : bool := N.leb 55296 c && N.leb c 56319.
Definition isLowSurrogate (c : N) : bool := N.leb 56320 c && N.leb c 57343.

Definition hexDigit (n : N) : N := if N.ltb n 10 then (48 + n)%N else (87 + n)%N.

(** Backslash, u and four lower-case hexadecimal digits. *)
Definition unicodeEscape (c : N) : jsstring :=
  [92%N; 117%N; hexDigit (c / 4096 mod 16); hexDigit (c / 256 mod 16);
   hexDigit (c / 16 mod 16); hexDigit (c mod 16)].

Definition quoteUnit (c : N) : jsstring :=
  if N.eqb c 8 then lit "\b"
  else if N.eqb c 9 then lit "\t"
  else if N.eqb c 10 then lit "\n"
  else if N.eqb c 12 then lit "\f"
  else if N.eqb c 13 then lit "\r"
  else if N.eqb c 34 then [92%N; 34%N]
  else if N.eqb c 92 then [92%N; 92%N]
  else if N.ltb c 32 then unicodeEscape c
  else [c].

(** The units between the quotes: control characters, the quote and the
    backslash are escaped, and so is a surrogate that has no partner. *)
Fixpoint quoteUnits (s : jsstring) : jsstring :=
  match s with
  | [] => []
  | c :: s' =>
      if isHighSurrogate c then
        match s' with
        | d :: s'' =>
            if isLowSurrogate d then c :: d :: quoteUnits s''
            else unicodeEscape c ++ quoteUnits s'
        | [] => unicodeEscape c
        end
      else if isLowSurrogate c then unicodeEscape c ++ quoteUnits s'
      else quoteUnit c ++ quoteUnits s'
  end.

Definition quote (s : jsstring) : jsstring := [QUOT] ++ quoteUnits s ++ [QUOT].

Definition stringifyObject (members : list (jsstring * jsstring)) : jsstring :=
  lit "{" ++ join (lit ",") (map (fun kv => quote (fst kv) ++ lit ":" ++ quote (snd kv)) members)
  ++ lit "}".

(** *** [new TextEncoder().encode]: UTF-8 *)

Definition replacementBytes : list N := [239; 191; 189]%N.

Fixpoint encode (s : jsstring) : list N :=
  match s with
  | [] => []
  | c :: s' =>
      if isHighSurrogate c then
        match s' with
        | d :: s'' =>
            if isLowSurrogate d then
              let cp := (65536 + (c - 55296) * 1024 + (d - 56320))%N in
              [240 + cp / 262144; 128 + cp / 4096 mod 64; 128 + cp / 64 mod 64; 128 + cp mod 64]%N
              ++ encode s''
            else replacementBytes ++ encode s'
        | [] => replacementBytes
        end
      else if isLowSurrogate c then replacementBytes ++ encode s'
      else if N.ltb c 128 then c :: encode s'
      else if N.ltb c 2048 then [192 + c / 64; 128 + c mod 64]%N ++ encode s'
      else [224 + c / 4096; 128 + c / 64 mod 64; 128 + c mod 64]%N ++ encode s'
  end.

(** *** The upstream model API *)

(** [chunk.choices[0]?.delta]: the two fields the worker reads. *)
Record Delta : Type := {
  reasoning_content : option jsstring;
  delta_content : option jsstring        (* [delta.content] *)
}.

(** How the asynchronous iteration over one upstream stream ends. *)
Inductive StreamEnd : Type := Finished | Failed.

(** One upstream stream: the chunks it yields, [None] for a chunk without
    [choices[0]] or without [delta], and how it ends. *)
Record Stream : Type := { chunks : list (option Delta); ending : StreamEnd }.

(** [openai.chat.completions.create(...)] for a tone and its messages;
    [None] when the call rejects. *)
Definition Upstream := Tone -> list ChatMessage -> option Stream.

(** *** The response *)

Inductive Channel : Type := Open | Closed | Errored.

Inductive Body : Type :=
| JsonBody (text : jsstring)
| StreamBody (enqueued : list (list N)) (channel : Channel).

Record Response : Type := {
  status : nat;
  contentType : jsstring;
  body : Body
}.

Definition jsonError (message : jsstring) : Response :=
  {| status := 500;
     contentType := lit "application/json";
     body := JsonBody (stringifyObject [(lit "error", message)]) |}.

(** *** The multiplexer: [start(controller)] *)

Definition sseFrame (payload : jsstring) : jsstring := lit "data: " ++ payload ++ [LF; LF].

Definition orEmpty (x : option jsstring) : jsstring :=
  match x with Some s => s | None => [] end.

Definition thinkingFrame (tone : Tone) (thinking : jsstring) : list N :=
  encode (sseFrame (stringifyObject [(lit "tone", toneName tone); (lit "thinking", thinking)])).

Definition responseFrame (tone : Tone) (content : jsstring) : list N :=
  encode (sseFrame (stringifyObject [(lit "tone", toneName tone); (lit "response", content)])).

(** One turn of [for await (const chunk of stream)]: what it enqueues. *)
Definition framesOfChunk (tone : Tone) (chunk : option Delta) : list (list N) :=
  let thinking := match chunk with Some delta => orEmpty (reasoning_content delta) | None => [] end in
  let content := match chunk with Some delta => orEmpty (delta_content delta) | None => [] end in
  (if nonEmpty thinking then [thinkingFrame tone thinking] else [])
  ++ (if nonEmpty content then [responseFrame tone content] else []).

(** One of the three tasks given to [Promise.all]. *)
Inductive Task : Type :=
| Running (rest : list (option Delta)) (ending : StreamEnd)
| Done.

Record Mux : Type := {
  tasks : Tone -> Task;
  enqueued : list (list N);
  channel : Channel
}.

Definition isDone (t : Task) : bool :=
  match t with Done => true | Running _ _ => false end.

Definition setTask (ts : Tone -> Task) (tone : Tone) (t : Task) : Tone -> Task :=
  fun tone' => if Tone_eqb tone' tone then t else ts tone'.

(** The task of [tone] resumes at its [await].  While the channel is open
    it enqueues the frames of its next chunk, or ends; the last task to end
    lets [Promise.all] resolve and the controller is closed; a stream that
    fails makes [Promise.all] reject and the controller is put in error.
    Once the channel is closed or in error nothing more goes out. *)
Definition step (m : Mux) (tone : Tone) : Mux :=
  match channel m with
  | Open =>
      match tasks m tone with
      | Running (chunk :: rest) e =>
          {| tasks := setTask (tasks m) tone (Running rest e);
             enqueued := enqueued m ++ framesOfChunk tone chunk;
             channel := Open |}
      | Running [] Finished =>
          let ts := setTask (tasks m) tone Done in
          {| tasks := ts;
             enqueued := enqueued m;
             channel := if forallb (fun t => isDone (ts t)) tones then Closed else Open |}
      | Running [] Failed =>
          {| tasks := tasks m; enqueued := enqueued m; channel := Errored |}
      | Done => m
      end
  | _ => m
  end.

Definition startMux (streams : Tone -> Stream) : Mux :=
  {| tasks := fun tone => Running (chunks (streams tone)) (ending (streams tone));
     enqueued := [];
     channel := Open |}.

(** The tasks interleave at their [await]s in an order the program does
    not control: [schedule] lists which task resumes next. *)
Definition multiplex (streams : Tone -> Stream) (schedule : list Tone) : Mux :=
  fold_left step schedule (startMux streams).

(** *** [handleChatRequest] *)

Definition isSystem (msg : ChatMessage) : bool :=
  match role msg with system => true | _ => false end.

Definition messagesWithTone (tone : Tone) (userMessages : list ChatMessage) : list ChatMessage :=
  {| role := system; content := TONE_PROMPTS tone |} :: userMessages.

(** [!apiKey || apiKey.trim() === ""] *)
Definition credentialMissing (env : Env) : bool :=
  match Z_AI_API_KEY env with
  | None => true
  | Some apiKey => negb (nonEmpty apiKey) || negb (nonEmpty (trim apiKey))
  end.

Fixpoint allStreams (opened : list (Tone * option Stream)) : option (Tone -> Stream) :=
  match opened with
  | [] => Some (fun _ => {| chunks := []; ending := Finished |})
  | (tone, Some stream) :: rest =>
      option_map (fun f tone' => if Tone_eqb tone' tone then stream else f tone') (allStreams rest)
  | (_, None) :: _ => None
  end.

(** [handleChatRequest(request, env)].  [requestMessages] is the [messages]
    array of the request body, [None] when reading it throws.  The second
    component lists the calls made to the model API, in order. *)
Definition handleChatRequest (requestMessages : option (list ChatMessage)) (env : Env)
    (upstream : Upstream) (schedule : list Tone)
    : Response * list (Tone * list ChatMessage) :=
  match requestMessages with
  | None => (jsonError (lit "Failed to process request"), [])
  | Some messages =>
      let userMessages := filter (fun msg => negb (isSystem msg)) messages in
      if credentialMissing env then
        (jsonError (lit "Server configuration error: Z_AI_API_KEY is not set"), [])
      else
        let calls := map (fun tone => (tone, messagesWithTone tone userMessages)) tones in
        let opened := map (fun call => (fst call, upstream (fst call) (snd call))) calls in
        match allStreams opened with
        | None => (jsonError (lit "Failed to process request"), calls)
        | Some streams =>
            let m := multiplex streams schedule in
            ({| status := 200;
                contentType := lit "text/event-stream; charset=utf-8";
                body := StreamBody (enqueued m) (channel m) |}, calls)
        end
  end.

(** The sentinel frame of the specification, as bytes. *)
Definition terminalFrame : list N := encode (sseFrame (lit "[DONE]")).

End Worker.

(** ** The worker: the router [fetch] *)

Module Router.
Import JS Client Worker.

(** What the router reads of a request: the path of its URL, its method,
    and what [handleChatRequest] reads of its body. *)
Record Request : Type := {
  pathname : jsstring;
  method : jsstring;
  messages : option (list ChatMessage)
}.

(** Who answers: the static assets ([env.ASSETS.fetch(request)]), the chat
    handler, or the router itself with a status and a text. *)
Inductive Reply : Type :=
| FromAssets (request : Request)
| FromChat (response : Response)
| Plain (status : nat) (text : jsstring).

(** [fetch(request, env, ctx)], with the calls made to the model API. *)
Definition fetch (request : Request) (env : Env) (upstream : Upstream) (schedule : list Tone)
    : Reply * list (Tone * list ChatMessage) :=
  if str_eqb (pathname request) (lit "/")
     || negb (startsWith (lit "/api/") (pathname request))
  then (FromAssets request, [])
  else if str_eqb (pathname request) (lit "/api/chat") then
    if str_eqb (method request) (lit "POST") then
      let handled := handleChatRequest (messages request) env upstream schedule in
      (FromChat (fst handled), snd handled)
    else (Plain 405 (lit "Method not allowed"), [])
  else (Plain 404 (lit "Not found"), []).

End Router.

(** ** The markdown renderer of the client: [parseMarkdown] *)

Module Markdown.
Import JS Json.

(** [s.replace(/c/g, by)] for a single unit [c]. *)
Definition replaceUnit (c : N) (by_ : jsstring) (s : jsstring) : jsstring :=
  flat_map (fun x => if N.eqb x c then by_ else [x]) s.

Definition AMP : N := 38.
Definition LT : N := 60.
Definition GT : N := 62.

Definition escapeHtml (unsafe : jsstring) : jsstring :=
  replaceUnit APOS (lit "&#039;")
    (replaceUnit QUOT (lit "&quot;")
      (replaceUnit GT (lit "&gt;")
        (replaceUnit LT (lit "&lt;")
          (replaceUnit AMP (lit "&amp;") unsafe)))).

(** *** Global replacement by a regular expression

    A matcher is a regular expression tried at one position: given whether
    the position is at the start of a line and the text from there on, it
    returns the replacement and the number of units matched, which is at
    least one for every expression of the renderer. *)
Definition Matcher := bool -> jsstring -> option (jsstring * nat).

(** [s.replace(regex, ...)] with the [g] flag: the text is scanned from
    left to right; where the expression matches, the replacement is put out
    and the scan resumes after the match ([skip] counts the units of the
    match still to pass); elsewhere the unit is copied.  [bol] tells
    whether the unit before the position is a line terminator, or the
    position is the start of the text: what [^] tests under the [m] flag. *)
Fixpoint replaceAll (m : Matcher) (skip : nat) (bol : bool) (s : jsstring) : jsstring :=
  match s with
  | [] => []
  | c :: s' =>
      match skip with
      | S k => replaceAll m k (isLineTerminator c) s'
      | O =>
          match m bol s with
          | Some (replacement, n) => replacement ++ replaceAll m (pred n) (isLineTerminator c) s'
          | None => c :: replaceAll m 0 (isLineTerminator c) s'
          end
      end
  end.

Definition replaceGlobal (m : Matcher) (s : jsstring) : jsstring :=
  replaceAll m 0 true s.

Definition isNot (stop : N) (c : N) : bool := negb (N.eqb c stop).

(** [opening ([^stop]+) closing] at the start of [s]: the group and the
    text after the match.  The class is greedy and cannot give back: a
    shorter run would be followed by a unit of the class, not by
    [closing]. *)
Definition delimited (opening : jsstring) (stop : N) (closing : jsstring) (s : jsstring)
    : option (jsstring * jsstring) :=
  if startsWith opening s then
    let s1 := skipn (length opening) s in
    let run := takeWhile (isNot stop) s1 in
    let s2 := dropWhile (isNot stop) s1 in
    if nonEmpty run && startsWith closing s2
    then Some (run, skipn (length closing) s2)
    else None
  else None.

(** The replacement pattern [before $1 after] for [opening ([^stop]+) closing]. *)
Definition wrapDelimited (opening : jsstring) (stop : N) (closing : jsstring)
    (before after : jsstring) : Matcher :=
  fun _ s =>
    match delimited opening stop closing s with
    | Some (group, _) =>
        Some (before ++ group ++ after, length opening + length group + length closing)
    | None => None
    end.

Definition BACKTICK : N := 96.
Definition STAR : N := 42.
Definition UNDERSCORE : N := 95.
Definition fence : jsstring := [BACKTICK; BACKTICK; BACKTICK].

(** [\w] *)
Definition isWordChar (c : N) : bool :=
  (N.leb 48 c && N.leb c 57) || (N.leb 65 c && N.leb c 90)
  || (N.leb 97 c && N.leb c 122) || N.eqb c 95.

(** [\d] *)
Definition isDigit (c : N) : bool := N.leb 48 c && N.leb c 57.

(** The fence, an optional word, a newline, then lazily anything up to the
    next fence; the callback drops the word and trims the code. *)
Definition codeBlock : Matcher :=
  fun _ s =>
    if startsWith fence s then
      let s1 := skipn 3 s in
      let lang := takeWhile isWordChar s1 in
      match dropWhile isWordChar s1 with
      | c :: s3 =>
          if N.eqb c LF then
            match indexOf fence s3 with
            | Some k =>
                let code := firstn k s3 in
                Some (lit "<pre><code>" ++ trim code ++ lit "</code></pre>",
                      3 + length lang + 1 + k + 3)
            | None => None
            end
          else None
      | [] => None
      end
    else None.

Definition inlineCode : Matcher :=
  wrapDelimited [BACKTICK] BACKTICK [BACKTICK] (lit "<code>") (lit "</code>").
Definition boldStars : Matcher :=
  wrapDelimited [STAR; STAR] STAR [STAR; STAR] (lit "<strong>") (lit "</strong>").
Definition boldUnderscores : Matcher :=
  wrapDelimited [UNDERSCORE; UNDERSCORE] UNDERSCORE [UNDERSCORE; UNDERSCORE]
    (lit "<strong>") (lit "</strong>").
Definition italicStar : Matcher :=
  wrapDelimited [STAR] STAR [STAR] (lit "<em>") (lit "</em>").
Definition italicUnderscore : Matcher :=
  wrapDelimited [UNDERSCORE] UNDERSCORE [UNDERSCORE] (lit "<em>") (lit "</em>").

(** A line rule under the flags [gim]: at the start of a line, the marker,
    then the rest of the line, which must not be empty when [needsText]
    (a group with [+] rather than with a star). *)
Definition lineRule (marker : jsstring) (needsText : bool) (before after : jsstring) : Matcher :=
  fun bol s =>
    if bol && startsWith marker s then
      let rest := takeWhile (fun c => negb (isLineTerminator c)) (skipn (length marker) s) in
      if needsText && negb (nonEmpty rest) then None
      else Some (before ++ rest ++ after, length marker + length rest)
    else None.

Definition header3 : Matcher := lineRule (lit "### ") false (lit "<h3>") (lit "</h3>").
Definition header2 : Matcher := lineRule (lit "## ") false (lit "<h2>") (lit "</h2>").
Definition header1 : Matcher := lineRule (lit "# ") false (lit "<h1>") (lit "</h1>").
Definition blockquote : Matcher :=
  lineRule (lit "> ") true (lit "<blockquote>") (lit "</blockquote>").

Section Links.
Context {rt : Runtime}.

(** The sanitizing of the link callback. *)
Definition safeUrl (url : jsstring) : jsstring :=
  let trimmedUrl := trim url in
  let lowerUrl := toLowerCase trimmedUrl in
  let isAllowedScheme :=
    startsWith (lit "http://") lowerUrl
    || startsWith (lit "https://") lowerUrl
    || startsWith (lit "mailto:") lowerUrl in
  let isRelativeOrHash :=
    startsWith (lit "/") trimmedUrl
    || startsWith (lit "#") trimmedUrl
    || match indexOf (lit ":") trimmedUrl with None => true | Some _ => false end in
  if isAllowedScheme || isRelativeOrHash then trimmedUrl else lit "#".

Definition anchor (text url : jsstring) : jsstring :=
  lit "<a href=" ++ [QUOT] ++ safeUrl url ++ [QUOT]
  ++ lit " target=" ++ [QUOT] ++ lit "_blank" ++ [QUOT]
  ++ lit " rel=" ++ [QUOT] ++ lit "noopener noreferrer" ++ [QUOT] ++ lit ">"
  ++ text ++ lit "</a>".

(** A bracketed text, then a parenthesised target. *)
Definition link : Matcher :=
  fun _ s =>
    match delimited (lit "[") 93 (lit "](") s with
    | Some (text, s1) =>
        match delimited [] 41 (lit ")") s1 with
        | Some (url, _) => Some (anchor text url, 1 + length text + 2 + length url + 1)
        | None => None
        end
    | None => None
    end.

End Links.

(** *** Lists, line by line *)

Definition plainRest (rest : jsstring) : bool :=
  nonEmpty rest && forallb (fun c => negb (isLineTerminator c)) rest.

(** [/^[*-] (.+)$/] on one line: the group, if the line matches. *)
Definition ulItem (line : jsstring) : option jsstring :=
  match line with
  | c :: sp :: rest =>
      if (N.eqb c STAR || N.eqb c 45) && N.eqb sp 32 && plainRest rest
      then Some rest else None
  | _ => None
  end.

(** [/^\d+\. (.+)$/] on one line. *)
Definition olItem (line : jsstring) : option jsstring :=
  match takeWhile isDigit line, dropWhile isDigit line with
  | _ :: _, dot :: sp :: rest =>
      if N.eqb dot 46 && N.eqb sp 32 && plainRest rest then Some rest else None
  | _, _ => None
  end.

Definition listItem (item : jsstring) : jsstring := lit "<li>" ++ item ++ lit "</li>".

(** The [for] loop over the lines and the closing of what is still open. *)
Fixpoint listLoop (lines : list jsstring) (inUl inOl : bool) : list jsstring :=
  match lines with
  | [] => (if inUl then [lit "</ul>"] else []) ++ (if inOl then [lit "</ol>"] else [])
  | line :: rest =>
      match ulItem line with
      | Some item =>
          (if inUl then [] else [lit "<ul>"]) ++ listItem item :: listLoop rest true inOl
      | None =>
          match olItem line with
          | Some item =>
              (if inOl then [] else [lit "<ol>"]) ++ listItem item :: listLoop rest inUl true
          | None =>
              (if inUl then [lit "</ul>"] else []) ++ (if inOl then [lit "</ol>"] else [])
              ++ line :: listLoop rest false false
          end
      end
  end.

Definition processLists (html : jsstring) : jsstring :=
  join [LF] (listLoop (split LF html) false false).

(** *** Line breaks outside blocks *)

(** [opening [\s\S]*? closing] at the start of [s]: the length of the match. *)
Definition lazyBlock (opening closing : jsstring) (s : jsstring) : option nat :=
  if startsWith opening s then
    match indexOf closing (skipn (length opening) s) with
    | Some k => Some (length opening + k + length closing)
    | None => None
    end
  else None.

(** [blockRegex] at the start of [s]. *)
Definition blockAt (s : jsstring) : option nat :=
  match lazyBlock (lit "<pre><code>") (lit "</code></pre>") s with
  | Some n => Some n
  | None =>
      match lazyBlock (lit "<ul>") (lit "</ul>") s with
      | Some n => Some n
      | None => lazyBlock (lit "<ol>") (lit "</ol>") s
      end
  end.

(** [replaceNewlinesOutsideBlocks]: the segments are the matches of
    [blockRegex], found from left to right, and the texts between them; a
    unit inside a match is copied ([skip] counts what is left of the
    match), a newline outside becomes a line break. *)
Fixpoint newlinesOutside (skip : nat) (s : jsstring) : jsstring :=
  match s with
  | [] => []
  | c :: s' =>
      match skip with
      | S k => c :: newlinesOutside k s'
      | O =>
          match blockAt s with
          | Some n => c :: newlinesOutside (pred n) s'
          | None => (if N.eqb c LF then lit "<br>" else [c]) ++ newlinesOutside 0 s'
          end
      end
  end.

Definition replaceNewlinesOutsideBlocks (htmlContent : jsstring) : jsstring :=
  newlinesOutside 0 htmlContent.

Section Render.
Context {rt : Runtime}.

(** The passes that follow the escaping, in the order of the source. *)
Definition inlinePasses (html : jsstring) : jsstring :=
  let html := replaceGlobal inlineCode html in
  let html := replaceGlobal boldStars html in
  let html := replaceGlobal boldUnderscores html in
  let html := replaceGlobal italicStar html in
  let html := replaceGlobal italicUnderscore html in
  let html := replaceGlobal header3 html in
  let html := replaceGlobal header2 html in
  let html := replaceGlobal header1 html in
  html.

Definition blockPasses (html : jsstring) : jsstring :=
  let html := replaceGlobal link html in
  let html := processLists html in
  let html := replaceGlobal blockquote html in
  replaceNewlinesOutsideBlocks html.

Definition parseMarkdown (text : jsstring) : jsstring :=
  let html := escapeHtml text in
  let html := replaceGlobal codeBlock html in
  blockPasses (inlinePasses html).

End Render.
End Markdown.

(** ** The page: [sendMessage] and [addMessageToChat]

    The part of the page that outlives a call: the history of the chat and
    the flag that a call is being processed.  Of the document only the
    message elements added to the list of messages are kept; the panels
    of the three tones, rendered at a throttled rate while the stream is
    read, are described by the texts they are rendered from. *)

Module Page.
Import JS Sse Json Client Worker Markdown.

Record State : Type := {
  chatHistory : list ChatMessage;
  isProcessing : bool
}.

(** The state when the script is loaded. *)
Definition initialState : State :=
  {| chatHistory :=
       [{| role := assistant;
           content := lit "Hello! I'm an LLM chat app powered by Cloudflare Workers AI. How can I help you today?" |}];
     isProcessing := false |}.

(** An element added to the list of messages: a message, with what its
    content element received and how ([p.textContent = content] or
    [contentDiv.innerHTML = parseMarkdown(content)]), or the container of
    the three panels. *)
Inductive Element : Type :=
| TextMessage (role : Role) (textContent : jsstring)
| HtmlMessage (role : Role) (innerHTML : jsstring)
| ResponsesContainer.

(** What the reads of the body yield: the decoded texts, then either the
    end of the stream or a read that rejects. *)
Record Reading : Type := {
  texts : list jsstring;
  rejects : bool
}.

(** What [fetch] comes to: it rejects, or it resolves with a response
    that is [ok] or not and has a body or none. *)
Inductive Exchange : Type :=
| NoResponse
| Responded (ok : bool) (body : option Reading).

Section Page.
Context {rt : Runtime}.

(** [addMessageToChat(role, content)]: the element it appends. *)
Definition addMessageToChat (role : Role) (content : jsstring) : Element :=
  match role with
  | assistant => HtmlMessage role (parseMarkdown content)
  | _ => TextMessage role content
  end.

(** The read loop of [sendMessage], with a read that can reject: [None]
    when it throws out of the loop. *)
Fixpoint readLoop (els : ResponseElements) (buffer : jsstring) (reads : list jsstring)
    (rejects : bool) : option ResponseElements :=
  match reads with
  | [] =>
      if rejects then None
      else Some (fst (processEvents els (fst (consumeSseEvents (buffer ++ delimiter)))))
  | value :: rest =>
      let parsed := consumeSseEvents (buffer ++ value) in
      let (els', sawDone) := processEvents els (fst parsed) in
      if sawDone then Some els' else readLoop els' (snd parsed) rest rejects
  end.

(** The body of the [try]: the buffers when it is left normally, [None]
    when it throws. *)
Definition exchange (result : Exchange) : option ResponseElements :=
  match result with
  | Responded true (Some reading) => readLoop initialElements [] (texts reading) (rejects reading)
  | _ => None
  end.

Definition apology : jsstring := lit "Sorry, there was an error processing your request.".

Record Outcome : Type := {
  state : State;
  (** the [messages] of the request sent to [/api/chat], if one was sent *)
  requested : option (list ChatMessage);
  (** the elements appended to the list of messages, in order *)
  appended : list Element;
  (** the final rendering of the three panels, when the [try] is left
      normally *)
  rendered : option (Tone -> jsstring)
}.

(** [sendMessage()], called with [value] in the input field; [server]
    gives what the exchange comes to for the messages sent. *)
Definition sendMessage (st : State) (value : jsstring)
    (server : list ChatMessage -> Exchange) : Outcome :=
  let message := trim value in
  if negb (nonEmpty message) || isProcessing st then
    {| state := st; requested := None; appended := []; rendered := None |}
  else
    let history := chatHistory st ++ [{| role := user; content := message |}] in
    match exchange (server history) with
    | Some els =>
        {| state :=
             {| chatHistory :=
                  if nonEmpty (responseText (els professional))
                  then history ++ [{| role := assistant;
                                      content := responseText (els professional) |}]
                  else history;
                isProcessing := false |};
           requested := Some history;
           appended := [addMessageToChat user message; ResponsesContainer];
           rendered := Some (fun tone => parseMarkdown (responseText (els tone))) |}
    | None =>
        {| state := {| chatHistory := history; isProcessing := false |};
           requested := Some history;
           appended := [addMessageToChat user message; ResponsesContainer;
                        addMessageToChat assistant apology];
           rendered := None |}
    end.

(** A session: calls of [sendMessage] one after the other, each with the
    value typed and the server met; the requests sent, in order. *)
Fixpoint session (st : State) (calls : list (jsstring * (list ChatMessage -> Exchange)))
    : State * list (list ChatMessage) :=
  match calls with
  | [] => (st, [])
  | (value, server) :: rest =>
      let out := sendMessage st value server in
      let (final, requests) := session (state out) rest in
      (final, match requested out with
              | Some sent => sent :: requests
              | None => requests
              end)
  end.

End Page.
End Page.

(** ** Vocabulary of the specification

    What the statements of Part II need besides the program: the notions
    the specification uses to describe it. *)

Module Spec.
Import JS Sse Json Client Worker Markdown.

(** *** Frames *)

(** A line: no newline and no carriage return in it. *)
Definition unbroken (line : jsstring) : bool :=
  forallb (fun c => negb (N.eqb c LF) && negb (N.eqb c CR)) line.

Definition plainLine (line : jsstring) : bool := nonEmpty line && unbroken line.

(** The lines of a delimited region, as the decoder finds them in a
    normalized buffer: only the first can be empty, an empty line further
    on would have ended the region before. *)
Definition regionLines (lines : list jsstring) : bool :=
  match lines with
  | [] => false
  | first :: others => unbroken first && forallb plainLine others
  end.

Definition isDataLine (line : jsstring) : bool := startsWith (lit "data:") line.

(** The payload of the region made of [lines]: its data lines, each
    without the prefix and without the white space that follows it, joined
    by newlines; no payload when there is no data line. *)
Definition framePayload (lines : list jsstring) : list jsstring :=
  match filter isDataLine lines with
  | [] => []
  | dataLines =>
      [join [LF] (map (fun line => dropWhile isWhiteSpace (skipn 5 line)) dataLines)]
  end.

(** The reading of the specification: the prefix and one leading space are
    stripped, and no more. *)
Definition stripOneSpace (line : jsstring) : jsstring :=
  match skipn 5 line with
  | 32%N :: rest => rest
  | rest => rest
  end.

Definition framePayloadAsSpecified (lines : list jsstring) : jsstring :=
  join [LF] (map stripOneSpace (filter isDataLine lines)).

(** The frame that carries [payload] on one data line. *)
Definition dataFrame (payload : jsstring) : jsstring :=
  lit "data: " ++ payload ++ delimiter.

(** *** Decoded frames of a stream *)

Fixpoint beforeSentinel (events : list jsstring) : list jsstring :=
  match events with
  | [] => []
  | data :: rest => if str_eqb data sentinel then [] else data :: beforeSentinel rest
  end.

(** The payloads the client decodes from the whole text of a stream, up to
    the sentinel if there is one. *)
Definition decodedFrames (stream : jsstring) : list jsstring :=
  beforeSentinel (fst (consumeSseEvents (stream ++ delimiter))).

(** A well-formed frame: a JSON object whose [tone], [thinking] and
    [response], where present, are strings. *)
Record Frame : Type := {
  tone : option jsstring;
  thinking : option jsstring;
  response : option jsstring
}.

Definition stringMember (key : jsstring) (members : list (jsstring * value))
    : option (option jsstring) :=
  match lookupLast key members with
  | None => Some None
  | Some (JString s) => Some (Some s)
  | Some _ => None
  end.

Definition frameOf (v : value) : option Frame :=
  match v with
  | JObject members =>
      match stringMember (lit "tone") members,
            stringMember (lit "thinking") members,
            stringMember (lit "response") members with
      | Some t, Some th, Some r => Some {| tone := t; thinking := th; response := r |}
      | _, _, _ => None
      end
  | _ => None
  end.

Section Frames.
Context {rt : Runtime}.

(** A payload is either malformed (it does not parse) or a well-formed
    frame. *)
Definition malformedOrWellFormed (payload : jsstring) : bool :=
  match JSON_parse payload with
  | None => true
  | Some v => match frameOf v with Some _ => true | None => false end
  end.

(** What one payload, handled alone, adds to the response text of [t]. *)
Definition routedResponse (t : Tone) (payload : jsstring) : jsstring :=
  responseText (handleData initialElements payload t).

(** The [response] fragment that a payload holds for the tone [t]: that of
    a well-formed frame whose [tone] is the name of [t]; nothing
    otherwise. *)
Definition responseFragment (t : Tone) (payload : jsstring) : jsstring :=
  match JSON_parse payload with
  | Some v =>
      match frameOf v with
      | Some f =>
          match tone f, response f with
          | Some name, Some fragment => if str_eqb name (toneName t) then fragment else []
          | _, _ => []
          end
      | None => []
      end
  | None => []
  end.

End Frames.

(** *** The outbound channel *)

(** How many times the task of [tone] is resumed by [schedule]. *)
Definition turns (tone : Tone) (schedule : list Tone) : nat :=
  length (filter (Tone_eqb tone) schedule).

(** How many of the [enqueued] chunks are the chunk [frame]. *)
Definition occurrences (frame : list N) (enqueued : list (list N)) : nat :=
  length (filter (str_eqb frame) enqueued).

(** *** The tasks of the multiplexer *)

(** A chunk put on the channel by one of the tasks. *)
Definition tokenFrame (chunk : list N) : Prop :=
  exists tone text, text <> [] /\
    (chunk = thinkingFrame tone text \/ chunk = responseFrame tone text).

(** What [Promise.all] waits for. *)
Definition allDone (m : Mux) : Prop := forall tone, tasks m tone = Done.

(** The task of [tone] after it has been resumed [n] times, when no stream
    fails and the channel is still open. *)
Definition taskAfter (streams : Tone -> Stream) (tone : Tone) (n : nat) : Task :=
  if n <=? length (chunks (streams tone))
  then Running (skipn n (chunks (streams tone))) Finished
  else Done.

(** The tasks follow their streams, and the channel is closed only when
    all of them are done. *)
Definition consistent (streams : Tone -> Stream) (m : Mux) : Prop :=
  (forall tone, tasks m tone = Done -> ending (streams tone) = Finished)
  /\ (forall tone rest e, tasks m tone = Running rest e -> e = ending (streams tone))
  /\ (channel m = Closed -> allDone m).

(** The same when no stream fails, after the turns [done]. *)
Definition onTrack (streams : Tone -> Stream) (done : list Tone) (m : Mux) : Prop :=
  match channel m with
  | Open =>
      (forall tone, tasks m tone = taskAfter streams tone (turns tone done))
      /\ exists tone, tasks m tone <> Done
  | Closed => True
  | Errored => False
  end.

(** *** Marks and windows in rendered text

    A mark is a unit that must not stand alone in the output: the opening
    angle bracket, the ampersand.  It is guarded when the text goes on,
    from the mark, with one of the given windows: a tag of the renderer
    for the bracket, an entity for the ampersand. *)

Definition opens (windows : list jsstring) (s : jsstring) : bool :=
  existsb (fun w => startsWith w s) windows.

Fixpoint guarded (mark : N) (windows : list jsstring) (s : jsstring) : bool :=
  match s with
  | [] => true
  | c :: s' => (negb (N.eqb c mark) || opens windows s) && guarded mark windows s'
  end.

(** The units that occur in a window after its mark. *)
Definition inWindows (windows : list jsstring) (c : N) : bool :=
  existsb (fun w => existsb (N.eqb c) (tl w)) windows.

(** The units at which the expressions of the renderer start or stop. *)
Definition isDelimiter (c : N) : bool :=
  N.eqb c 96 || N.eqb c 42 || N.eqb c 95 || N.eqb c 91 || N.eqb c 93
  || N.eqb c 40 || N.eqb c 41.

(** Windows start with the mark and hold, after it, neither the mark nor a
    line terminator nor a delimiter. *)
Definition cleanWindows (mark : N) (windows : list jsstring) : bool :=
  negb (isLineTerminator mark) && negb (isDelimiter mark)
  && forallb (fun w =>
       match w with
       | [] => false
       | c :: t =>
           N.eqb c mark
           && forallb (fun x => negb (N.eqb x mark) && negb (isLineTerminator x)
                                && negb (isDelimiter x)) t
       end) windows.

Definition spaceFree (windows : list jsstring) : bool :=
  forallb (fun w => forallb (fun x => negb (isWhiteSpace x)) (tl w)) windows.

(** A text may be cut before [b] without cutting a window: [b] is empty
    or starts with a unit that no window holds after its mark. *)
Definition cutSafe (windows : list jsstring) (b : jsstring) : bool :=
  match b with [] => true | x :: _ => negb (inWindows windows x) end.

(** The texts that the passes write around what they keep. *)
Definition codeTemplates : list jsstring := [lit "<pre><code>"; lit "</code></pre>"].

Definition inlineTemplates : list jsstring :=
  [lit "<code>"; lit "</code>"; lit "<strong>"; lit "</strong>"; lit "<em>"; lit "</em>";
   lit "<h3>"; lit "</h3>"; lit "<h2>"; lit "</h2>"; lit "<h1>"; lit "</h1>"].

Definition anchorOpen : jsstring := lit "<a href=" ++ [QUOT].

Definition anchorMiddle : jsstring :=
  [QUOT] ++ lit " target=" ++ [QUOT] ++ lit "_blank" ++ [QUOT]
  ++ lit " rel=" ++ [QUOT] ++ lit "noopener noreferrer" ++ [QUOT] ++ lit ">".

Definition listTemplates : list jsstring :=
  [lit "<ul>"; lit "</ul>"; lit "<ol>"; lit "</ol>"; lit "<li>"; lit "</li>"; lit "<br>"].

Definition blockTemplates : list jsstring :=
  [anchorOpen; anchorMiddle; lit "</a>"; lit "#"; lit "<blockquote>"; lit "</blockquote>"]
  ++ listTemplates.

(** The tags written by the passes up to the headers, and by all passes. *)
Definition inlineTags : list jsstring :=
  [lit "<pre>"; lit "</pre>"; lit "<code>"; lit "</code>";
   lit "<strong>"; lit "</strong>"; lit "<em>"; lit "</em>";
   lit "<h3>"; lit "</h3>"; lit "<h2>"; lit "</h2>"; lit "<h1>"; lit "</h1>"].

Definition blockTags : list jsstring :=
  [lit "<a href=" ++ [QUOT]; lit "</a>"; lit "<ul>"; lit "</ul>"; lit "<ol>"; lit "</ol>";
   lit "<li>"; lit "</li>"; lit "<blockquote>"; lit "</blockquote>"; lit "<br>"].

Definition rendererTags : list jsstring := inlineTags ++ blockTags.

(** The same without the tags of a code block. *)
Definition inlineTagsNoPre : list jsstring := skipn 2 inlineTags.
Definition rendererTagsNoPre : list jsstring := inlineTagsNoPre ++ blockTags.

(** The tags of the renderer without those of a quotation. *)
Definition blockTagsNoQuote : list jsstring :=
  [lit "<a href=" ++ [QUOT]; lit "</a>"; lit "<ul>"; lit "</ul>"; lit "<ol>"; lit "</ol>";
   lit "<li>"; lit "</li>"; lit "<br>"].

Definition rendererTagsNoQuote : list jsstring := inlineTags ++ blockTagsNoQuote.

Definition entities : list jsstring :=
  [lit "&amp;"; lit "&lt;"; lit "&gt;"; lit "&quot;"; lit "&#039;"].

(** What [escapeHtml] does to one unit. *)
Definition escapeOne (c : N) : jsstring :=
  if N.eqb c AMP then lit "&amp;"
  else if N.eqb c LT then lit "&lt;"
  else if N.eqb c GT then lit "&gt;"
  else if N.eqb c QUOT then lit "&quot;"
  else if N.eqb c APOS then lit "&#039;"
  else [c].

Definition isMeta (c : N) : bool :=
  N.eqb c LT || N.eqb c GT || N.eqb c QUOT || N.eqb c APOS.

Section Rendered.
Context {rt : Runtime}.

(** The text as the link pass receives it. *)
Definition beforeLinks (text : jsstring) : jsstring :=
  inlinePasses (replaceGlobal codeBlock (escapeHtml text)).

End Rendered.

(** *** Links *)

Section Targets.
Context {rt : Runtime}.

(** A target the specification lets through: its scheme is [http:],
    [https:] or [mailto:], in any case, or it has none: it starts with a
    slash or a hash, or holds no colon. *)
Definition allowedTarget (target : jsstring) : bool :=
  startsWith (lit "http:") (toLowerCase target)
  || startsWith (lit "https:") (toLowerCase target)
  || startsWith (lit "mailto:") (toLowerCase target)
  || startsWith (lit "/") target
  || startsWith (lit "#") target
  || match indexOf (lit ":") target with None => true | Some _ => false end.

(** The test of the link callback: [isAllowedScheme || isRelativeOrHash]
    for a trimmed target. *)
Definition keptTarget (target : jsstring) : bool :=
  (startsWith (lit "http://") (toLowerCase target)
   || startsWith (lit "https://") (toLowerCase target)
   || startsWith (lit "mailto:") (toLowerCase target))
  || (startsWith (lit "/") target
      || startsWith (lit "#") target
      || match indexOf (lit ":") target with None => true | Some _ => false end).

End Targets.

Definition placeholder : jsstring := lit "#".

(** The anchor written for a link, given the target it ends up with. *)
Definition anchorWith (href text : jsstring) : jsstring :=
  lit "<a href=" ++ [QUOT] ++ href ++ [QUOT]
  ++ lit " target=" ++ [QUOT] ++ lit "_blank" ++ [QUOT]
  ++ lit " rel=" ++ [QUOT] ++ lit "noopener noreferrer" ++ [QUOT] ++ lit ">"
  ++ text ++ lit "</a>".

(** *** Fences *)

(** The text has a fence marker, the first one, and none after it: the
    fence it opens is not terminated. *)
Definition unterminatedFence (text : jsstring) : bool :=
  match indexOf fence text with
  | Some i =>
      match indexOf fence (skipn (i + 3) text) with
      | None => true
      | Some _ => false
      end
  | None => false
  end.

(** A run of backticks. *)
Definition backticks (p : jsstring) : Prop := Forall (fun b => b = BACKTICK) p.

(** How many times [tag] occurs in [html]. *)
Fixpoint countTag (tag : jsstring) (html : jsstring) : nat :=
  match html with
  | [] => 0
  | _ :: html' => (if startsWith tag html then 1 else 0) + countTag tag html'
  end.

Definition contains (needle s : jsstring) : bool :=
  match indexOf needle s with Some _ => true | None => false end.

(** *** The text of the frames and the chunks served

    What a task writes for one chunk of its stream, before the encoder
    turns it into bytes, and the chunks that the tasks have taken from
    their streams, in the order in which they were taken. *)

Definition thinkingOf (chunk : option Delta) : jsstring :=
  match chunk with Some delta => orEmpty (reasoning_content delta) | None => [] end.

Definition contentOf (chunk : option Delta) : jsstring :=
  match chunk with Some delta => orEmpty (delta_content delta) | None => [] end.

Definition thinkingPayload (tone : Tone) (thinking : jsstring) : jsstring :=
  stringifyObject [(lit "tone", toneName tone); (lit "thinking", thinking)].

Definition responsePayload (tone : Tone) (content : jsstring) : jsstring :=
  stringifyObject [(lit "tone", toneName tone); (lit "response", content)].

Definition payloadsOfChunk (tone : Tone) (chunk : option Delta) : list jsstring :=
  (if nonEmpty (thinkingOf chunk) then [thinkingPayload tone (thinkingOf chunk)] else [])
  ++ (if nonEmpty (contentOf chunk) then [responsePayload tone (contentOf chunk)] else []).

Definition dataOfChunk (tone : Tone) (chunk : option Delta) : list jsstring :=
  map sseFrame (payloadsOfChunk tone chunk).

Definition Served := list (Tone * option Delta).

(** The chunks taken from the stream of [tone]. *)
Definition servedTo (tone : Tone) (served : Served) : list (option Delta) :=
  map snd (filter (fun tc => Tone_eqb (fst tc) tone) served).

Definition framesOfServed (served : Served) : list (list N) :=
  flat_map (fun tc => framesOfChunk (fst tc) (snd tc)) served.

Definition payloadsOfServed (served : Served) : list jsstring :=
  flat_map (fun tc => payloadsOfChunk (fst tc) (snd tc)) served.

Definition textOfServed (served : Served) : jsstring :=
  concat (flat_map (fun tc => dataOfChunk (fst tc) (snd tc)) served).

Section ReadBack.
Context {rt : Runtime}.

(** [JSON.parse] reads the payloads of the chunks served as the objects
    that [JSON.stringify] wrote. *)
Definition readsBack (served : Served) : Prop :=
  forall tone chunk, In (tone, chunk) served ->
    JSON_parse (thinkingPayload tone (thinkingOf chunk))
    = Some (JObject [(lit "tone", JString (toneName tone));
                     (lit "thinking", JString (thinkingOf chunk))])
    /\ JSON_parse (responsePayload tone (contentOf chunk))
       = Some (JObject [(lit "tone", JString (toneName tone));
                        (lit "response", JString (contentOf chunk))]).

End ReadBack.

(** [served] accounts for a run of the multiplexer after the turns [done]:
    the channel holds the frames of the chunks served, and the task of
    each tone stands in its stream behind the chunks it was served. *)
Definition accounts (streams : Tone -> Stream) (done : list Tone) (m : Mux)
    (served : Served) : Prop :=
  enqueued m = framesOfServed served
  /\ forall tone, exists k,
       k <= turns tone done
       /\ k <= length (chunks (streams tone))
       /\ servedTo tone served = firstn k (chunks (streams tone))
       /\ (tasks m tone = Running (skipn k (chunks (streams tone))) (ending (streams tone))
           \/ (tasks m tone = Done /\ k = length (chunks (streams tone)))).

(** A message that is not a system prompt. *)
Definition notSystem (msg : ChatMessage) : bool := negb (isSystem msg).

Section Thinking.
Context {rt : Runtime}.

(** What one payload, handled alone, adds to the thinking text of [t]. *)
Definition routedThinking (t : Tone) (payload : jsstring) : jsstring :=
  thinkingText (handleData initialElements payload t).

(** The [thinking] fragment that a payload holds for the tone [t]: that of
    a well-formed frame whose [tone] is the name of [t]; nothing
    otherwise. *)
Definition thinkingFragment (t : Tone) (payload : jsstring) : jsstring :=
  match JSON_parse payload with
  | Some v =>
      match frameOf v with
      | Some f =>
          match tone f, thinking f with
          | Some name, Some fragment => if str_eqb name (toneName t) then fragment else []
          | _, _ => []
          end
      | None => []
      end
  | None => []
  end.

End Thinking.

(** *** Ordinary text for the renderer

    A unit is special when an expression of the renderer looks for it
    anywhere in a line; a line of ordinary units can still be taken for a
    header or for a list item by what it begins with. *)

Definition special (c : N) : bool :=
  isMeta c || N.eqb c AMP || N.eqb c BACKTICK || N.eqb c STAR || N.eqb c UNDERSCORE
  || N.eqb c 91 || isLineTerminator c.

Definition ordinary (s : jsstring) : bool := forallb (fun c => negb (special c)) s.

(** The line does not begin with a hash, a dash or a digit. *)
Definition plainStart (line : jsstring) : bool :=
  match line with
  | [] => true
  | c :: _ => negb (N.eqb c 35 || N.eqb c 45 || Markdown.isDigit c)
  end.

Definition textLine (line : jsstring) : bool := ordinary line && plainStart line.

(** The start of a line that no line rule takes: no hash, dash, star,
    closing angle bracket or digit. *)
Definition freeStart (s : jsstring) : bool :=
  match s with
  | [] => true
  | c :: _ =>
      negb (N.eqb c 35 || N.eqb c 45 || N.eqb c STAR || N.eqb c GT || Markdown.isDigit c)
  end.

(** No [mark] stands at the start of a line of [s]; [bol] tells whether
    [s] itself starts a line. *)
Fixpoint offBol (mark : N) (bol : bool) (s : jsstring) : bool :=
  match s with
  | [] => true
  | c :: s' => negb (bol && N.eqb c mark) && offBol mark (isLineTerminator c) s'
  end.

(** Whether the position after [u] starts a line, [bol] telling whether
    the position before [u] does. *)
Definition bolAfter (bol : bool) (u : jsstring) : bool :=
  fold_left (fun _ c => isLineTerminator c) u bol.

(** A text that a pass writes around the parts it keeps: the mark starts
    no line in it, and it does not end with a line terminator. *)
Definition template (mark : N) (t : jsstring) : Prop :=
  (forall bol, offBol mark bol t = true) /\ (forall bol, bolAfter bol t = false).

(** No block of [blockRegex] starts anywhere in [s]. *)
Fixpoint noBlock (s : jsstring) : bool :=
  match s with
  | [] => true
  | _ :: s' => match blockAt s with Some _ => false | None => noBlock s' end
  end.

(** The marks of emphasis and the tag each one gives. *)
Definition inlineMarks : list (jsstring * jsstring) :=
  [([BACKTICK], lit "code"); ([STAR; STAR], lit "strong");
   ([UNDERSCORE; UNDERSCORE], lit "strong"); ([STAR], lit "em"); ([UNDERSCORE], lit "em")].

(** The marker of a header of a level from 1 to 3, and the name of its
    tag. *)
Definition headerMarker (level : nat) : jsstring := repeat 35%N level ++ lit " ".
Definition headerTag (level : nat) : jsstring := [104%N; (48 + N.of_nat level)%N].

Definition openTag (name : jsstring) : jsstring := lit "<" ++ name ++ lit ">".
Definition closeTag (name : jsstring) : jsstring := lit "</" ++ name ++ lit ">".

(** A line of a numbered list, given its number and its text: the digits,
    a dot, a space and the text. *)
Definition numberedLine (entry : jsstring * jsstring) : jsstring :=
  fst entry ++ lit ". " ++ snd entry.

Definition numberedEntry (entry : jsstring * jsstring) : bool :=
  nonEmpty (fst entry) && forallb Markdown.isDigit (fst entry)
  && ordinary (snd entry) && nonEmpty (snd entry).

(** A fenced block: the fence, the name of a language, the code on lines
    of its own, the fence. *)
Definition fenced (lang code : jsstring) : jsstring :=
  fence ++ lang ++ [LF] ++ code ++ [LF] ++ fence.

(** A unit that no expression of emphasis looks for. *)
Definition unmarked (c : N) : bool :=
  isNot BACKTICK c && isNot STAR c && isNot UNDERSCORE c.

(** The marks of emphasis made of stars or underscores. *)
Definition emphasisMarks : list (jsstring * jsstring) :=
  [([STAR; STAR], lit "strong"); ([UNDERSCORE; UNDERSCORE], lit "strong");
   ([STAR], lit "em"); ([UNDERSCORE], lit "em")].

Definition codeOpen : jsstring := lit "<pre><code>".
Definition codeClose : jsstring := lit "</code></pre>".

(** *** What the output is made of

    The texts that the renderer writes of its own: its tags, the
    attributes of an anchor after its target, the five entities. *)

Definition templates : list jsstring := rendererTags ++ anchorMiddle :: entities.

(** Those that the passes before the links write. *)
Definition inlineTemplatesAll : list jsstring := inlineTags ++ entities.

(** A unit that is none of the five metacharacters. *)
Definition safeUnit (c : N) : bool := negb (isMeta c || N.eqb c AMP).

(** [s] read from the left is made of templates of [W] and of units that
    are not metacharacters: such a unit stands for itself, a metacharacter
    must open a template, which is passed as a whole ([skip] counts what
    is left of it). *)
Fixpoint composedFrom (W : list jsstring) (skip : nat) (s : jsstring) : bool :=
  match s with
  | [] => true
  | c :: s' =>
      match skip with
      | S k => composedFrom W k s'
      | O =>
          if safeUnit c then composedFrom W 0 s'
          else match find (fun w => startsWith w s) W with
               | Some w => nonEmpty w && composedFrom W (pred (length w)) s'
               | None => false
               end
      end
  end.

Definition composed (W : list jsstring) (s : jsstring) : bool := composedFrom W 0 s.

(** The same as a decomposition: [s] is the concatenation of tokens, each
    a template or one unit that is not a metacharacter. *)
Definition token (W : list jsstring) (t : jsstring) : Prop :=
  In t W \/ exists c, t = [c] /\ safeUnit c = true.

Definition Composed (W : list jsstring) (s : jsstring) : Prop :=
  exists tokens, Forall (token W) tokens /\ s = concat tokens.

(** Templates start with a metacharacter and hold no line terminator
    after it. *)
Definition properTemplates (W : list jsstring) : bool :=
  forallb (fun w =>
             match w with
             | [] => false
             | c :: t => negb (safeUnit c) && forallb (fun x => negb (isLineTerminator x)) t
             end) W.

(** After their first unit, the templates of the passes before the links
    hold no delimiter of an expression and no white space. *)
Definition plainTemplates (W : list jsstring) : bool :=
  forallb (fun w => forallb (fun x => negb (isDelimiter x) && negb (isWhiteSpace x)) (tl w)) W.

(** No template is the start of another. *)
Definition prefixFree (W : list jsstring) : bool :=
  forallb (fun a =>
             forallb (fun b => negb (startsWith a b) || Nat.leb (length b) (length a)) W) W.

(** No [<] of [s] is followed by the first letter of the tag of a block
    ([pre], [ul], [ol]). *)
Fixpoint noBlockStart (s : jsstring) : bool :=
  match s with
  | [] => true
  | c :: s' =>
      negb (N.eqb c LT
            && match s' with
               | d :: _ => N.eqb d 112 || N.eqb d 117 || N.eqb d 111
               | [] => false
               end)
      && noBlockStart s'
  end.

(** The tags written by the passes up to the links. *)
Definition linkTags : list jsstring := inlineTags ++ [lit "<a href=" ++ [QUOT]; lit "</a>"].

(** How many of the [lines] are the line [tag]. *)
Definition countLine (tag : jsstring) (lines : list jsstring) : nat :=
  length (filter (str_eqb tag) lines).

(** Lists of one kind are well opened in [lines], [isOpen] telling whether
    one is open before them: whatever number of lines has been seen, no
    list was closed that was not open and at most one list is open. *)
Definition wellOpened (opening closing : jsstring) (isOpen : bool)
    (lines : list jsstring) : Prop :=
  forall k,
    countLine closing (firstn k lines)
      <= countLine opening (firstn k lines) + (if isOpen then 1 else 0)
    /\ countLine opening (firstn k lines) + (if isOpen then 1 else 0)
      <= countLine closing (firstn k lines) + 1.

(** A line that is none of the four tags of a list. *)
Definition notListTag (line : jsstring) : Prop :=
  lit "<ul>" <> line /\ lit "</ul>" <> line /\ lit "<ol>" <> line /\ lit "</ol>" <> line.

(** The lines that the loop over the lines has pushed when the text is
    rendered. *)
Definition listedLines {rt : Runtime} (text : jsstring) : list jsstring :=
  listLoop (split LF (replaceGlobal link (beforeLinks text))) false false.

End Spec.

(** ** Streams used as examples *)

Module Examples.
Import JS Sse Client Worker Spec.


(** The text of a frame as the worker writes it. *)
Definition responseText_frame (tone fragment : jsstring) : jsstring :=
  sseFrame (stringifyObject [(lit "tone", tone); (lit "response", fragment)]).

Definition thinkingText_frame (tone fragment : jsstring) : jsstring :=
  sseFrame (stringifyObject [(lit "tone", tone); (lit "thinking", fragment)]).

(** Frames of two tones, a frame for a tone that does not exist, a frame
    that is not JSON; the last frame lacks its closing blank line. *)
Definition mixedStream : jsstring :=
  responseText_frame (lit "friendly") (lit "Hel")
  ++ responseText_frame (lit "rude") (lit "No")
  ++ lit "data: {not json" ++ delimiter
  ++ responseText_frame (lit "pirate") (lit "Arr")
  ++ thinkingText_frame (lit "friendly") (lit "hm")
  ++ lit "data: " ++ stringifyObject [(lit "tone", lit "friendly"); (lit "response", lit "lo")].

(** The same stream cut in the middle of frames and of a delimiter. *)
Definition mixedChunks : list jsstring :=
  [firstn 10 mixedStream;
   firstn 33 (skipn 10 mixedStream);
   firstn 60 (skipn 43 mixedStream);
   skipn 103 mixedStream].

Definition frameBefore : jsstring := responseText_frame (lit "friendly") (lit "Hello").
Definition frameAfter : jsstring := responseText_frame (lit "friendly") (lit " world").
Definition notJson : jsstring := lit "{not json".

Definition withMalformed : list jsstring :=
  [frameBefore ++ lit "data: {no"; lit "t json" ++ [LF]; [LF] ++ frameAfter].

Definition withoutMalformed : list jsstring := [frameBefore ++ frameAfter].

(** A payload whose [tone] is an array holding the name of a tone. *)
Definition coercedTone : jsstring :=
  lit "{" ++ [QUOT] ++ lit "tone" ++ [QUOT] ++ lit ":[" ++ [QUOT] ++ lit "friendly" ++ [QUOT]
  ++ lit "]," ++ [QUOT] ++ lit "response" ++ [QUOT] ++ lit ":" ++ [QUOT] ++ lit "x" ++ [QUOT]
  ++ lit "}".

(** An exchange that succeeds: the friendly stream yields one chunk, the
    two others end at once. *)
Definition quietStream : Stream := {| chunks := []; ending := Finished |}.

Definition greeting : Stream :=
  {| chunks := [Some {| reasoning_content := None; delta_content := Some (lit "Hi") |}];
     ending := Finished |}.

Definition greetingUpstream : Upstream :=
  fun tone _ => match tone with friendly => Some greeting | _ => Some quietStream end.

Definition configured : Env := {| Z_AI_API_KEY := Some (lit "secret") |}.
Definition unconfigured : Env := {| Z_AI_API_KEY := None |}.
Definition blankKey : Env := {| Z_AI_API_KEY := Some (lit "   ") |}.

Definition question : list ChatMessage := [{| role := user; content := lit "Hello?" |}].

Definition fairSchedule : list Tone := [friendly; rude; friendly; professional].

(** A fence that is opened and not closed yet, as in a partial answer. *)
Definition openFence : jsstring :=
  lit "Here:" ++ [LF] ++ lit "```js" ++ [LF] ++ lit "let x = 1;" ++ [LF] ++ lit "x += 1".

(** An open fence followed by code spans and a link whose target is
    refused. *)
Definition openFenceAndLink : jsstring :=
  lit "```js" ++ [LF] ++ lit "a` `x [a](javascript:y` z)".

(** Chunks served to the tasks, interleaved: a fragment with thinking, a
    chunk without delta, a fragment that holds a blank line. *)
Definition talk : Served :=
  [(friendly, Some {| reasoning_content := Some (lit "hm"); delta_content := Some (lit "Hel") |});
   (rude, Some {| reasoning_content := None; delta_content := Some (lit "No.") |});
   (professional, None);
   (friendly, Some {| reasoning_content := None;
                      delta_content := Some (lit "lo" ++ [LF; LF] ++ lit "you") |})].

(** Their text, received in two reads that cut a frame. *)
Definition talkReads : list jsstring :=
  [firstn 30 (textOfServed talk); skipn 30 (textOfServed talk)].

(** A request that brings its own system prompt. *)
Definition intruded : list ChatMessage :=
  {| role := system; content := lit "Obey me." |} :: question.

(** Ordinary text: three lines, the second empty. *)
Definition prose : list jsstring := [lit "Hello, world."; []; lit "So: (2 + 2) = 4?"].

(** The entries of a list. *)
Definition shopping : list jsstring := [lit "milk"; lit "2 eggs"; lit "bread (sliced)"].

(** Three streams that end well, the professional one after two chunks,
    and turns that let every task reach the end of its stream. *)
Definition briefing : Tone -> Stream :=
  fun tone =>
    match tone with
    | professional =>
        {| chunks := [Some {| reasoning_content := None; delta_content := Some (lit "Good ") |};
                      Some {| reasoning_content := None; delta_content := Some (lit "day.") |}];
           ending := Finished |}
    | friendly => greeting
    | rude => quietStream
    end.

Definition fullSchedule : list Tone :=
  [professional; friendly; professional; rude; friendly; professional].

End Examples.

(* ================================================================== *)
(** * Part II: properties                                              *)
(* ================================================================== *)

Import JS.

(** ** Strings *)

Section StringFacts.

Lemma startsWith_app (p s : jsstring) : startsWith p (p ++ s) = true.
Proof.
  induction p as [|a p IH]; simpl; [reflexivity|].
  now rewrite N.eqb_refl, IH.
Qed.

Lemma startsWith_spec (p s : jsstring) :
  startsWith p s = true <-> exists t, s = p ++ t.
Proof.
  split.
  - revert s. induction p as [|a p IH]; intros s H.
    + now exists s.
    + destruct s as [|b s]; simpl in H; [discriminate|].
      apply andb_true_iff in H as [Hab Hp].
      apply N.eqb_eq in Hab. subst b.
      destruct (IH _ Hp) as [t ->]. now exists t.
  - intros [t ->]. apply startsWith_app.
Qed.

(** A prefix test only looks at the first [length p] units. *)
Lemma startsWith_app_l (p s t : jsstring) :
  length p <= length s -> startsWith p (s ++ t) = startsWith p s.
Proof.
  revert s. induction p as [|a p IH]; intros s Hlen; simpl; [reflexivity|].
  destruct s as [|b s]; simpl in *; [lia|].
  rewrite IH by lia. reflexivity.
Qed.

Lemma indexOf_bound (needle s : jsstring) (i : nat) :
  indexOf needle s = Some i -> i + length needle <= length s.
Proof.
  revert i. induction s as [|c s IH]; intros i; cbn [indexOf].
  - destruct (startsWith needle []) eqn:E; [|discriminate].
    intros [= <-]. destruct needle; simpl in *; [lia|discriminate].
  - destruct (startsWith needle (c :: s)) eqn:E.
    + intros [= <-]. apply startsWith_spec in E as [t Ht].
      rewrite Ht, length_app. lia.
    + destruct (indexOf needle s) as [j|]; simpl; [|discriminate].
      intros [= <-]. specialize (IH j eq_refl). simpl. lia.
Qed.

End StringFacts.

(** ** The frame decoder *)

Import Sse Json Client Worker Markdown Spec Examples.

Section DecoderFacts.

Lemma indexOf_app_l (needle a b : jsstring) (i : nat) :
  indexOf needle a = Some i -> indexOf needle (a ++ b) = Some i.
Proof.
  revert i. induction a as [|c a IH]; intros i H.
  - cbn [indexOf] in H. destruct (startsWith needle []) eqn:E; [|discriminate].
    injection H as <-. destruct needle; [|discriminate].
    destruct b; reflexivity.
  - pose proof (indexOf_bound _ _ _ H) as Hb.
    cbn [indexOf] in H. cbn [app indexOf].
    change (c :: a ++ b) with ((c :: a) ++ b).
    rewrite startsWith_app_l by lia.
    destruct (startsWith needle (c :: a)); [assumption|].
    destruct (indexOf needle a) as [j|]; [|discriminate].
    now rewrite (IH j eq_refl).
Qed.

Lemma consume_loop_events (fuel : nat) (s : jsstring) (events : list jsstring) :
  consume_loop fuel s events =
  (events ++ fst (consume_loop fuel s []), snd (consume_loop fuel s [])).
Proof.
  revert s events. induction fuel as [|fuel IH]; intros s events; cbn [consume_loop].
  - now rewrite app_nil_r.
  - destruct (indexOf delimiter s) as [i|]; [|now rewrite app_nil_r].
    destruct (payloadOf (firstn i s)) as [p|].
    + rewrite (IH _ (events ++ [p])), (IH _ ([] ++ [p])). cbn [fst snd app].
      now rewrite <- app_assoc.
    + apply IH.
Qed.

(** The loop never runs out of fuel: any bound at least the length of the
    string gives the same result. *)
Lemma consume_loop_fuel (f1 f2 : nat) (s : jsstring) (events : list jsstring) :
  length s <= f1 -> length s <= f2 ->
  consume_loop f1 s events = consume_loop f2 s events.
Proof.
  revert f2 s events. induction f1 as [|f1 IH]; intros f2 s events H1 H2.
  - destruct s; [|simpl in H1; lia]. destruct f2; reflexivity.
  - destruct f2 as [|f2].
    + destruct s; [|simpl in H2; lia]. reflexivity.
    + cbn [consume_loop]. destruct (indexOf delimiter s) as [i|]; [|reflexivity].
      assert (length (skipn (i + 2) s) <= f1 /\ length (skipn (i + 2) s) <= f2)
        as [L1 L2] by (rewrite length_skipn; lia).
      destruct (payloadOf (firstn i s)); now apply IH.
Qed.

Lemma decode_none (s : jsstring) :
  indexOf delimiter s = None -> decode s = ([], s).
Proof.
  intros H. unfold decode. destruct (length s); cbn [consume_loop]; [reflexivity|].
  now rewrite H.
Qed.

Lemma decode_some (s : jsstring) (i : nat) :
  indexOf delimiter s = Some i ->
  decode s = (frameEvents (firstn i s) ++ fst (decode (skipn (i + 2) s)),
              snd (decode (skipn (i + 2) s))).
Proof.
  intros H. pose proof (indexOf_bound _ _ _ H) as Hb. simpl in Hb.
  unfold decode at 1. destruct (length s) as [|n] eqn:En; [lia|].
  cbn [consume_loop]. rewrite H. unfold frameEvents, decode.
  assert (L : length (skipn (i + 2) s) <= n) by (rewrite length_skipn; lia).
  destruct (payloadOf (firstn i s)) as [p|].
  - rewrite consume_loop_events. cbn [app].
    now rewrite (consume_loop_fuel n (length (skipn (i + 2) s))) by lia.
  - cbn [app]. rewrite (consume_loop_fuel n (length (skipn (i + 2) s))) by lia.
    now destruct (consume_loop _ _ _).
Qed.

(** Resuming: decoding [a ++ b] is decoding [a], then decoding what [a]
    left over followed by [b]. *)
Lemma decode_app (a b : jsstring) :
  decode (a ++ b) =
  (fst (decode a) ++ fst (decode (snd (decode a) ++ b)),
   snd (decode (snd (decode a) ++ b))).
Proof.
  remember (length a) as n eqn:En. revert a En.
  induction n as [n IH] using lt_wf_ind. intros a En.
  destruct (indexOf delimiter a) as [i|] eqn:Hi.
  - pose proof (indexOf_bound _ _ _ Hi) as Hb. simpl in Hb.
    rewrite (decode_some _ _ (indexOf_app_l _ _ b _ Hi)), (decode_some _ _ Hi).
    cbn [fst snd].
    rewrite firstn_app, skipn_app.
    replace (i - length a) with 0 by lia.
    replace (i + 2 - length a) with 0 by lia.
    cbn [firstn skipn]. rewrite app_nil_r.
    rewrite (IH (length (skipn (i + 2) a))); [|rewrite length_skipn; lia|reflexivity].
    cbn [fst snd]. now rewrite app_assoc.
  - rewrite (decode_none _ Hi). cbn [fst snd app].
    now destruct (decode (a ++ b)).
Qed.

Lemma decode_remainder_suffix (s : jsstring) :
  exists k, snd (decode s) = skipn k s.
Proof.
  remember (length s) as n eqn:En. revert s En.
  induction n as [n IH] using lt_wf_ind. intros s En.
  destruct (indexOf delimiter s) as [i|] eqn:Hi.
  - pose proof (indexOf_bound _ _ _ Hi) as Hb. simpl in Hb.
    rewrite (decode_some _ _ Hi). cbn [snd].
    destruct (IH (length (skipn (i + 2) s))) with (s := skipn (i + 2) s) as [k Hk];
      [rewrite length_skipn; lia|reflexivity|].
    exists (k + (i + 2)). now rewrite Hk, skipn_skipn.
  - exists 0. now rewrite (decode_none _ Hi).
Qed.

Lemma normalize_app (a b : jsstring) :
  normalize (a ++ b) = normalize a ++ normalize b.
Proof. apply filter_app. Qed.

Lemma normalize_fixed (s : jsstring) :
  Forall (fun c => negb (N.eqb c CR) = true) s -> normalize s = s.
Proof.
  induction 1 as [|c s Hc _ IH]; [reflexivity|].
  unfold normalize in *. cbn [filter]. now rewrite Hc, IH.
Qed.

Lemma normalize_Forall (s : jsstring) :
  Forall (fun c => negb (N.eqb c CR) = true) (normalize s).
Proof.
  apply Forall_forall. intros c Hc. now apply filter_In in Hc.
Qed.

Lemma Forall_skipn (A : Type) (P : A -> Prop) (k : nat) (l : list A) :
  Forall P l -> Forall P (skipn k l).
Proof.
  revert l. induction k as [|k IH]; intros l H; [assumption|].
  destruct H; [constructor|]. now apply IH.
Qed.

Lemma consumeSseEvents_decode (buffer : jsstring) :
  consumeSseEvents buffer = decode (normalize buffer).
Proof. reflexivity. Qed.

(** The remainder that [consumeSseEvents] returns holds no carriage return. *)
Lemma remainder_normalized (buffer : jsstring) :
  normalize (snd (consumeSseEvents buffer)) = snd (consumeSseEvents buffer).
Proof.
  rewrite consumeSseEvents_decode.
  destruct (decode_remainder_suffix (normalize buffer)) as [k ->].
  apply normalize_fixed, Forall_skipn, normalize_Forall.
Qed.

(** [consumeSseEvents] is resumable. *)
Lemma consumeSseEvents_app (a b : jsstring) :
  consumeSseEvents (a ++ b) =
  (fst (consumeSseEvents a) ++ fst (consumeSseEvents (snd (consumeSseEvents a) ++ b)),
   snd (consumeSseEvents (snd (consumeSseEvents a) ++ b))).
Proof.
  rewrite (consumeSseEvents_decode (snd (consumeSseEvents a) ++ b)).
  rewrite normalize_app, remainder_normalized.
  rewrite !consumeSseEvents_decode, normalize_app.
  apply decode_app.
Qed.

(** A remainder holds no complete frame: decoding it again finds nothing. *)
Lemma remainder_fixed (buffer : jsstring) :
  consumeSseEvents (snd (consumeSseEvents buffer)) = ([], snd (consumeSseEvents buffer)).
Proof.
  pose proof (consumeSseEvents_app buffer []) as H.
  rewrite !app_nil_r in H.
  destruct (consumeSseEvents buffer) as [e r] eqn:E1. cbn [fst snd] in *.
  destruct (consumeSseEvents r) as [e' r'] eqn:E2. cbn [fst snd] in *.
  injection H as He Hr.
  f_equal; [|congruence].
  apply (f_equal (@length _)) in He. rewrite length_app in He.
  destruct e'; [reflexivity|simpl in He; lia].
Qed.

Lemma decodeChunks_concat (chunks : list jsstring) (events : list jsstring) (buffer : jsstring) :
  consumeSseEvents buffer = ([], buffer) ->
  decodeChunks events buffer chunks =
  (events ++ fst (consumeSseEvents (buffer ++ concat chunks)),
   snd (consumeSseEvents (buffer ++ concat chunks))).
Proof.
  revert events buffer. induction chunks as [|chunk rest IH]; intros events buffer Hb.
  - cbn [decodeChunks concat]. rewrite !app_nil_r, Hb. cbn [fst snd].
    now rewrite app_nil_r.
  - cbn [decodeChunks concat].
    rewrite IH by apply remainder_fixed.
    rewrite (app_assoc buffer chunk), (consumeSseEvents_app (buffer ++ chunk)).
    cbn [fst snd]. now rewrite app_assoc.
Qed.

End DecoderFacts.

(** C2. Chunk-boundary independence of the frame decoder: however a string
    is cut into chunks, calling the decoder chunk after chunk, each time on
    the previous remainder followed by the next chunk, yields the same
    ordered payloads and the same final remainder as one call on the whole
    string. *)
Theorem C2_decode_chunk_boundary_independent (chunks : list jsstring) :
  decodeChunks [] [] chunks = consumeSseEvents (concat chunks).
Proof.
  rewrite decodeChunks_concat by reflexivity.
  cbn [app]. now destruct (consumeSseEvents (concat chunks)).
Qed.

(** ** One frame *)

Section FrameFacts.

Lemma indexOf_delimiter_skip (l t : jsstring) :
  noLF l ->
  indexOf delimiter (l ++ t) = option_map (Nat.add (length l)) (indexOf delimiter t).
Proof.
  induction 1 as [|c l Hc _ IH].
  - cbn [app length]. now destruct (indexOf delimiter t).
  - cbn [app length indexOf]. unfold delimiter at 1. cbn [startsWith].
    rewrite N.eqb_sym, Hc. cbn [andb]. rewrite IH.
    now destruct (indexOf delimiter t).
Qed.

Lemma indexOf_cons_false (needle : jsstring) (c : N) (s : jsstring) :
  startsWith needle (c :: s) = false ->
  indexOf needle (c :: s) = option_map S (indexOf needle s).
Proof. intros H. cbn [indexOf]. now rewrite H. Qed.

Lemma unbroken_inv (line : jsstring) :
  unbroken line = true ->
  noLF line /\ Forall (fun c => negb (N.eqb c CR) = true) line.
Proof.
  unfold unbroken. rewrite forallb_forall. intros H.
  split; apply Forall_forall; intros x Hx; specialize (H x Hx);
    apply andb_true_iff in H as [H1 H2].
  - now apply negb_true_iff in H1.
  - assumption.
Qed.

Lemma plainLine_inv (line : jsstring) :
  plainLine line = true -> exists c l, line = c :: l /\ unbroken line = true.
Proof.
  unfold plainLine. destruct line as [|c l]; [discriminate|]. cbn [nonEmpty andb].
  intros H. now exists c, l.
Qed.

(** The lines after the first, each behind its newline. *)
Lemma join_first (first : jsstring) (others : list jsstring) :
  join [LF] (first :: others) = first ++ flat_map (fun l => LF :: l) others.
Proof.
  revert first. induction others as [|l ls IH]; intros first.
  - cbn. now rewrite app_nil_r.
  - change (join [LF] (first :: l :: ls)) with (first ++ [LF] ++ join [LF] (l :: ls)).
    rewrite IH. reflexivity.
Qed.

Lemma others_delimiter (others : list jsstring) (rest : jsstring) :
  forallb plainLine others = true ->
  indexOf delimiter (flat_map (fun l => LF :: l) others ++ delimiter ++ rest)
  = Some (length (flat_map (fun l => LF :: l) others)).
Proof.
  induction others as [|l ls IH]; intros Hp; [reflexivity|].
  cbn [forallb] in Hp. apply andb_true_iff in Hp as [Hl Hls].
  destruct (plainLine_inv _ Hl) as (c & l' & -> & Hu).
  destruct (unbroken_inv _ Hu) as [Hnl _].
  cbn [flat_map]. rewrite <- !app_assoc.
  change ((LF :: c :: l') ++ ?x) with (LF :: (c :: l') ++ x).
  rewrite indexOf_cons_false.
  - rewrite indexOf_delimiter_skip, (IH Hls) by assumption. cbn [option_map].
    f_equal. cbn [length]. rewrite length_app. cbn [length]. lia.
  - unfold delimiter. cbn [app startsWith].
    inversion Hnl as [|? ? Hc _]; subst. rewrite (N.eqb_sym LF c), Hc.
    now rewrite andb_false_r.
Qed.

Lemma region_delimiter (lines : list jsstring) (rest : jsstring) :
  regionLines lines = true ->
  indexOf delimiter (join [LF] lines ++ delimiter ++ rest) = Some (length (join [LF] lines)).
Proof.
  destruct lines as [|first others]; [discriminate|]. cbn [regionLines]. intros H.
  apply andb_true_iff in H as [Hf Ho]. destruct (unbroken_inv _ Hf) as [Hnl _].
  rewrite join_first, <- app_assoc, indexOf_delimiter_skip, others_delimiter by assumption.
  cbn [option_map]. now rewrite length_app.
Qed.

Lemma split_plain (l : jsstring) : noLF l -> split LF l = [l].
Proof.
  induction 1 as [|c l Hc _ IH]; [reflexivity|].
  cbn [split]. now rewrite Hc, IH.
Qed.

Lemma split_plain_app (l t : jsstring) :
  noLF l -> split LF (l ++ LF :: t) = l :: split LF t.
Proof.
  induction 1 as [|c l Hc _ IH].
  - cbn [app split]. now rewrite N.eqb_refl.
  - cbn [app split]. now rewrite Hc, IH.
Qed.

Lemma split_join (lines : list jsstring) :
  regionLines lines = true -> split LF (join [LF] lines) = lines.
Proof.
  destruct lines as [|first others]; [discriminate|]. cbn [regionLines]. intros H.
  apply andb_true_iff in H as [Hf Ho]. destruct (unbroken_inv _ Hf) as [Hnl _].
  rewrite join_first. clear Hf. revert first Hnl.
  induction others as [|l ls IH]; intros first Hnl.
  - cbn [flat_map]. rewrite app_nil_r. now apply split_plain.
  - cbn [forallb] in Ho. apply andb_true_iff in Ho as [Hl Hls].
    destruct (plainLine_inv _ Hl) as (c & l' & -> & Hu).
    destruct (unbroken_inv _ Hu) as [Hnl' _].
    cbn [flat_map]. change ((LF :: c :: l') ++ ?x) with (LF :: (c :: l') ++ x).
    rewrite split_plain_app by assumption. f_equal. now apply IH.
Qed.

Lemma normalize_join (lines : list jsstring) :
  regionLines lines = true -> normalize (join [LF] lines) = join [LF] lines.
Proof.
  destruct lines as [|first others]; [discriminate|]. cbn [regionLines]. intros H.
  apply andb_true_iff in H as [Hf Ho]. destruct (unbroken_inv _ Hf) as [_ Hcr].
  rewrite join_first. apply normalize_fixed, Forall_app. split; [assumption|].
  induction others as [|l ls IH]; [constructor|].
  cbn [forallb] in Ho. apply andb_true_iff in Ho as [Hl Hls].
  destruct (plainLine_inv _ Hl) as (c & l' & -> & Hu).
  destruct (unbroken_inv _ Hu) as [_ Hcr'].
  cbn [flat_map]. change ((LF :: c :: l') ++ ?x) with ([LF] ++ (c :: l') ++ x).
  apply Forall_app. split; [now repeat constructor|].
  apply Forall_app. split; [assumption|now apply IH].
Qed.

Lemma frameEvents_region (lines : list jsstring) :
  regionLines lines = true -> frameEvents (join [LF] lines) = framePayload lines.
Proof.
  intros Hp. unfold frameEvents, payloadOf, dataLinesOf, framePayload.
  rewrite split_join by assumption.
  change (startsWith dataPrefix) with isDataLine.
  change (length dataPrefix) with 5.
  now destruct (filter isDataLine lines).
Qed.

Lemma consumeSseEvents_region (lines : list jsstring) (rest : jsstring) :
  regionLines lines = true ->
  consumeSseEvents (join [LF] lines ++ delimiter ++ rest) =
  (framePayload lines ++ fst (consumeSseEvents rest), snd (consumeSseEvents rest)).
Proof.
  intros Hp.
  rewrite !consumeSseEvents_decode, !normalize_app, normalize_join by assumption.
  change (normalize delimiter) with delimiter.
  rewrite (decode_some _ _ (region_delimiter lines (normalize rest) Hp)).
  rewrite firstn_app, firstn_all, Nat.sub_diag. cbn [firstn]. rewrite app_nil_r.
  rewrite frameEvents_region by assumption.
  rewrite skipn_app.
  replace (length (join [LF] lines) + 2 - length (join [LF] lines)) with 2 by lia.
  rewrite skipn_all2 by lia. cbn [app skipn delimiter]. reflexivity.
Qed.

End FrameFacts.

(** C7, as amended.  For a delimited region, given by its lines, the
    decoder keeps exactly the lines that begin with [data:], strips from
    each the prefix and all the white space that follows it (not one space
    only), joins them with a single newline and returns the result as one
    payload; a region without data line yields no payload.  Decoding then
    goes on with what follows the delimiter. *)
Theorem C7_frame_payload (lines : list jsstring) (rest : jsstring) :
  regionLines lines = true ->
  consumeSseEvents (join [LF] lines ++ delimiter ++ rest) =
  (framePayload lines ++ fst (consumeSseEvents rest), snd (consumeSseEvents rest)).
Proof.
  intros Hlines.
  (* the buffer is normalized: the region has no carriage return *)
  rewrite !consumeSseEvents_decode, !normalize_app, normalize_join by assumption.
  change (normalize delimiter) with delimiter.
  (* the first delimiter found is the one that ends the region *)
  rewrite (decode_some _ _ (region_delimiter lines (normalize rest) Hlines)).
  rewrite firstn_app, firstn_all, Nat.sub_diag. cbn [firstn]. rewrite app_nil_r.
  (* the raw event splits into the lines it was made of *)
  rewrite frameEvents_region by assumption.
  (* the loop goes on after the delimiter *)
  rewrite skipn_app.
  replace (length (join [LF] lines) + 2 - length (join [LF] lines)) with 2 by lia.
  rewrite skipn_all2 by lia. reflexivity.
Qed.

Lemma C7_frame_payload_witness :
  consumeSseEvents (join [LF] [[]; lit "event: token"; lit "data:   first"; lit "data:second"]
                    ++ delimiter ++ lit "data: tail") =
  ([lit "first" ++ [LF] ++ lit "second"], lit "data: tail").
Proof.
  rewrite (C7_frame_payload [[]; lit "event: token"; lit "data:   first"; lit "data:second"]
             (lit "data: tail")).
  - reflexivity.
  - reflexivity.
Defined.

(** C7 as stated fails: of a data line with two spaces after the prefix
    the decoder keeps neither space, where the claim strips only one. *)
Lemma C7_counterexample :
  fst (consumeSseEvents (join [LF] [lit "data:  x"] ++ delimiter)) = [lit "x"]
  /\ framePayloadAsSpecified [lit "data:  x"] = lit " x"
  /\ fst (consumeSseEvents (join [LF] [lit "data:  x"] ++ delimiter))
     <> [framePayloadAsSpecified [lit "data:  x"]].
Proof. repeat split. vm_compute. discriminate. Qed.

(** ** The read loop and the routing *)

Section ClientFacts.
Context {rt : Runtime}.

Lemma str_eqb_eq (a b : jsstring) : str_eqb a b = true <-> a = b.
Proof. unfold str_eqb. destruct (list_eq_dec N.eq_dec a b); split; congruence. Qed.

Lemma str_eqb_refl (a : jsstring) : str_eqb a a = true.
Proof. now apply str_eqb_eq. Qed.

Lemma processEvents_app (els : ResponseElements) (a b : list jsstring) :
  processEvents els (a ++ b) =
  (if snd (processEvents els a) then processEvents els a
   else processEvents (fst (processEvents els a)) b).
Proof.
  revert els. induction a as [|data a IH]; intros els; cbn [app processEvents].
  - reflexivity.
  - destruct (str_eqb data sentinel); [reflexivity|]. apply IH.
Qed.

(** The read loop sees the stream as if it had come in one piece. *)
Lemma readLoop_whole (chunks : list jsstring) (els : ResponseElements) (buffer : jsstring) :
  consumeSseEvents buffer = ([], buffer) ->
  readLoop els buffer chunks =
  fst (processEvents els (fst (consumeSseEvents (buffer ++ concat chunks ++ delimiter)))).
Proof.
  revert els buffer. induction chunks as [|value rest IH]; intros els buffer Hb.
  - reflexivity.
  - cbn [readLoop concat].
    rewrite <- app_assoc, (app_assoc buffer value), (consumeSseEvents_app (buffer ++ value)).
    cbn [fst]. rewrite processEvents_app.
    destruct (processEvents els (fst (consumeSseEvents (buffer ++ value)))) as [els' sawDone].
    cbn [fst snd]. destruct sawDone; [reflexivity|].
    apply IH, remainder_fixed.
Qed.

Lemma processEvents_fold (els : ResponseElements) (events : list jsstring) :
  fst (processEvents els events) = fold_left handleData (beforeSentinel events) els.
Proof.
  revert els. induction events as [|data rest IH]; intros els; cbn [processEvents beforeSentinel].
  - reflexivity.
  - destruct (str_eqb data sentinel); [reflexivity|]. apply IH.
Qed.

(** What the buffers hold when the read loop is left is the fold of
    [handleData] over the frames decoded from the whole stream. *)
Lemma sendMessage_frames (chunks : list jsstring) :
  sendMessage chunks = fold_left handleData (decodedFrames (concat chunks)) initialElements.
Proof.
  unfold sendMessage, decodedFrames.
  rewrite readLoop_whole by reflexivity. cbn [app]. apply processEvents_fold.
Qed.

Lemma toneName_inj (a b : Tone) : toneName a = toneName b -> a = b.
Proof. destruct a, b; (reflexivity || discriminate). Qed.

Lemma ownEntry_toneName (key : jsstring) (t : Tone) :
  ownEntry key = Some t <-> key = toneName t.
Proof.
  unfold ownEntry, tones. cbn [find].
  destruct (str_eqb (toneName friendly) key) eqn:E1;
    [apply str_eqb_eq in E1; subst; split; [now intros [= <-]|intros H; apply toneName_inj in H; now subst]|].
  destruct (str_eqb (toneName rude) key) eqn:E2;
    [apply str_eqb_eq in E2; subst; split; [now intros [= <-]|intros H; apply toneName_inj in H; now subst]|].
  destruct (str_eqb (toneName professional) key) eqn:E3;
    [apply str_eqb_eq in E3; subst; split; [now intros [= <-]|intros H; apply toneName_inj in H; now subst]|].
  split; [discriminate|]. intros ->.
  destruct t; rewrite str_eqb_refl in *; discriminate.
Qed.

Lemma ownEntry_none (key : jsstring) :
  ownEntry key = None -> forall t, key <> toneName t.
Proof.
  intros H t ->. pose proof (proj2 (ownEntry_toneName (toneName t) t) eq_refl). congruence.
Qed.

Lemma Tone_eqb_eq (a b : Tone) : Tone_eqb a b = true <-> a = b.
Proof. destruct a, b; cbn; split; congruence. Qed.

Lemma Tone_eqb_refl (a : Tone) : Tone_eqb a a = true.
Proof. now destruct a. Qed.

(** Appending a string member: nothing can throw, and an empty string
    adds nothing. *)
Lemma appendTruthy_string (text : jsstring) (members : list (jsstring * value))
    (key : jsstring) (field : option jsstring) :
  stringMember key members = Some field ->
  appendTruthy text (lookupLast key members) =
  Some (text ++ match field with Some s => s | None => [] end).
Proof.
  unfold stringMember, appendTruthy.
  destruct (lookupLast key members) as [[| | |s| |]|]; try discriminate.
  - intros [= <-]. cbn [truthy ToString option_map].
    destruct s; cbn; [now rewrite app_nil_r|reflexivity].
  - intros [= <-]. now rewrite app_nil_r.
Qed.

(** One well-formed or malformed payload: what it adds to the response
    text of each tone. *)
Lemma handleData_response (els : ResponseElements) (data : jsstring) (t : Tone) :
  malformedOrWellFormed data = true ->
  responseText (handleData els data t) = responseText (els t) ++ responseFragment t data.
Proof.
  unfold malformedOrWellFormed, responseFragment, handleData.
  destruct (JSON_parse data) as [v|]; [|intros _; now rewrite app_nil_r].
  destruct (frameOf v) as [f|] eqn:Hf; [intros _|discriminate].
  destruct v as [| | | | |members]; try discriminate.
  cbn [frameOf] in Hf.
  destruct (stringMember (lit "tone") members) as [ft|] eqn:Ht; [|discriminate].
  destruct (stringMember (lit "thinking") members) as [fth|] eqn:Hth; [|discriminate].
  destruct (stringMember (lit "response") members) as [fr|] eqn:Hr; [|discriminate].
  injection Hf as <-. cbn [Spec.tone Spec.response getProp].
  unfold stringMember in Ht.
  destruct (lookupLast (lit "tone") members) as [[| | |name| |]|]; try discriminate.
  - injection Ht as <-. cbn [truthy ToString].
    destruct (str_eqb name []) eqn:En.
    + apply str_eqb_eq in En. subst name. cbn [negb].
      destruct fr; [|now rewrite app_nil_r].
      destruct (str_eqb [] (toneName t)) eqn:E; [|now rewrite app_nil_r].
      apply str_eqb_eq in E. destruct t; discriminate.
    + cbn [negb]. destruct (ownEntry name) as [t'|] eqn:Ho.
      * apply ownEntry_toneName in Ho. subst name.
        rewrite (appendTruthy_string _ _ _ _ Hth), (appendTruthy_string _ _ _ _ Hr).
        unfold update.
        destruct (Tone_eqb t t') eqn:Ett.
        -- apply Tone_eqb_eq in Ett. subst t'. cbn [responseText].
           rewrite str_eqb_refl. now destruct fr.
        -- destruct (str_eqb (toneName t') (toneName t)) eqn:E.
           ++ apply str_eqb_eq, toneName_inj in E. subst. now rewrite Tone_eqb_refl in Ett.
           ++ destruct fr; now rewrite app_nil_r.
      * destruct (str_eqb name (toneName t)) eqn:E.
        -- apply str_eqb_eq in E. now apply ownEntry_none with (t := t) in Ho.
        -- destruct fr; now rewrite app_nil_r.
  - injection Ht as <-. cbn [truthy negb]. now rewrite app_nil_r.
Qed.

Lemma appendTruthy_from_empty (text : jsstring) (v : option value) :
  appendTruthy text v = option_map (app text) (appendTruthy [] v).
Proof.
  unfold appendTruthy. destruct v as [x|]; cbn [option_map]; [|now rewrite app_nil_r].
  destruct (truthy (Some x)); cbn [option_map]; [|now rewrite app_nil_r].
  now destruct (ToString x).
Qed.

(** What a payload adds to a response text does not depend on what the
    buffers hold. *)
Lemma handleData_routed (els : ResponseElements) (data : jsstring) (t : Tone) :
  responseText (handleData els data t) = responseText (els t) ++ routedResponse t data.
Proof.
  unfold routedResponse, handleData.
  destruct (JSON_parse data) as [jsonData|]; [|now rewrite app_nil_r].
  destruct (getProp jsonData (lit "tone")) as [tone|]; [|now rewrite app_nil_r].
  destruct (negb (truthy tone)); [now rewrite app_nil_r|].
  destruct tone as [toneValue|]; [|now rewrite app_nil_r].
  destruct (ToString toneValue) as [key|]; [|now rewrite app_nil_r].
  destruct (ownEntry key) as [t'|]; [|now rewrite app_nil_r].
  destruct (getProp jsonData (lit "thinking")) as [thinking|]; [|now rewrite app_nil_r].
  destruct (getProp jsonData (lit "response")) as [response|]; [|now rewrite app_nil_r].
  rewrite (appendTruthy_from_empty (thinkingText (els t'))),
          (appendTruthy_from_empty (responseText (els t'))).
  cbn [initialElements thinkingText responseText].
  destruct (appendTruthy [] thinking) as [th|]; cbn [option_map]; [|now rewrite app_nil_r].
  destruct (appendTruthy [] response) as [r|]; cbn [option_map];
    unfold update; destruct (Tone_eqb t t') eqn:E; cbn [responseText initialElements];
    rewrite ?app_nil_r; try reflexivity.
  all: apply Tone_eqb_eq in E; now subst t'.
Qed.

Lemma fold_handleData_routed (frames : list jsstring) (els : ResponseElements) (t : Tone) :
  responseText (fold_left handleData frames els t) =
  responseText (els t) ++ concat (map (routedResponse t) frames).
Proof.
  revert els. induction frames as [|data rest IH]; intros els; cbn [fold_left map concat].
  - now rewrite app_nil_r.
  - rewrite IH, handleData_routed. now rewrite app_assoc.
Qed.

Lemma routedResponse_fragment (t : Tone) (data : jsstring) :
  malformedOrWellFormed data = true -> routedResponse t data = responseFragment t data.
Proof.
  intros H. unfold routedResponse.
  now rewrite (handleData_response initialElements data t H).
Qed.

(** What a payload adds to a thinking text does not depend on what the
    buffers hold. *)
Lemma handleData_routedThinking (els : ResponseElements) (data : jsstring) (t : Tone) :
  thinkingText (handleData els data t) = thinkingText (els t) ++ routedThinking t data.
Proof.
  unfold routedThinking, handleData.
  destruct (JSON_parse data) as [jsonData|]; [|now rewrite app_nil_r].
  destruct (getProp jsonData (lit "tone")) as [tone|]; [|now rewrite app_nil_r].
  destruct (negb (truthy tone)); [now rewrite app_nil_r|].
  destruct tone as [toneValue|]; [|now rewrite app_nil_r].
  destruct (ToString toneValue) as [key|]; [|now rewrite app_nil_r].
  destruct (ownEntry key) as [t'|]; [|now rewrite app_nil_r].
  destruct (getProp jsonData (lit "thinking")) as [thinking|]; [|now rewrite app_nil_r].
  destruct (getProp jsonData (lit "response")) as [response|]; [|now rewrite app_nil_r].
  rewrite (appendTruthy_from_empty (thinkingText (els t'))),
          (appendTruthy_from_empty (responseText (els t'))).
  cbn [initialElements thinkingText responseText].
  destruct (appendTruthy [] thinking) as [th|]; cbn [option_map]; [|now rewrite app_nil_r].
  destruct (appendTruthy [] response) as [r|]; cbn [option_map];
    unfold update; destruct (Tone_eqb t t') eqn:E; cbn [thinkingText initialElements];
    rewrite ?app_nil_r; try reflexivity.
  all: apply Tone_eqb_eq in E; now subst t'.
Qed.

Lemma fold_handleData_routedThinking (frames : list jsstring) (els : ResponseElements)
    (t : Tone) :
  thinkingText (fold_left handleData frames els t) =
  thinkingText (els t) ++ concat (map (routedThinking t) frames).
Proof.
  revert els. induction frames as [|data rest IH]; intros els; cbn [fold_left map concat].
  - now rewrite app_nil_r.
  - rewrite IH, handleData_routedThinking. now rewrite app_assoc.
Qed.

(** One well-formed or malformed payload: what it adds to the thinking
    text of each tone. *)
Lemma handleData_thinking (els : ResponseElements) (data : jsstring) (t : Tone) :
  malformedOrWellFormed data = true ->
  thinkingText (handleData els data t) = thinkingText (els t) ++ thinkingFragment t data.
Proof.
  unfold malformedOrWellFormed, thinkingFragment, handleData.
  destruct (JSON_parse data) as [v|]; [|intros _; now rewrite app_nil_r].
  destruct (frameOf v) as [f|] eqn:Hf; [intros _|discriminate].
  destruct v as [| | | | |members]; try discriminate.
  cbn [frameOf] in Hf.
  destruct (stringMember (lit "tone") members) as [ft|] eqn:Ht; [|discriminate].
  destruct (stringMember (lit "thinking") members) as [fth|] eqn:Hth; [|discriminate].
  destruct (stringMember (lit "response") members) as [fr|] eqn:Hr; [|discriminate].
  injection Hf as <-. cbn [Spec.tone Spec.thinking getProp].
  unfold stringMember in Ht.
  destruct (lookupLast (lit "tone") members) as [[| | |name| |]|]; try discriminate.
  - injection Ht as <-. cbn [truthy ToString].
    destruct (str_eqb name []) eqn:En.
    + apply str_eqb_eq in En. subst name. cbn [negb].
      destruct fth; [|now rewrite app_nil_r].
      destruct (str_eqb [] (toneName t)) eqn:E; [|now rewrite app_nil_r].
      apply str_eqb_eq in E. destruct t; discriminate.
    + cbn [negb]. destruct (ownEntry name) as [t'|] eqn:Ho.
      * apply ownEntry_toneName in Ho. subst name.
        rewrite (appendTruthy_string _ _ _ _ Hth), (appendTruthy_string _ _ _ _ Hr).
        unfold update.
        destruct (Tone_eqb t t') eqn:Ett.
        -- apply Tone_eqb_eq in Ett. subst t'. cbn [thinkingText].
           rewrite str_eqb_refl. now destruct fth.
        -- destruct (str_eqb (toneName t') (toneName t)) eqn:E.
           ++ apply str_eqb_eq, toneName_inj in E. subst. now rewrite Tone_eqb_refl in Ett.
           ++ destruct fth; now rewrite app_nil_r.
      * destruct (str_eqb name (toneName t)) eqn:E.
        -- apply str_eqb_eq in E. now apply ownEntry_none with (t := t) in Ho.
        -- destruct fth; now rewrite app_nil_r.
  - injection Ht as <-. cbn [truthy negb]. now rewrite app_nil_r.
Qed.

Lemma routedThinking_fragment (t : Tone) (data : jsstring) :
  malformedOrWellFormed data = true -> routedThinking t data = thinkingFragment t data.
Proof.
  intros H. unfold routedThinking.
  now rewrite (handleData_thinking initialElements data t H).
Qed.

End ClientFacts.

(** C3.  When the read loop is left, the [responseText] of a tone is the
    concatenation, in arrival order, of what each decoded frame adds to
    it, each frame counted once whatever the buffers hold; and a frame
    adds the [response] fragment it carries when it is well-formed and its
    [tone] names that tone, nothing when its tone is unknown or absent or
    when it is malformed.  The frames are those the client decodes from
    the stream, up to the sentinel.  When every decoded frame is malformed
    or well-formed, the text is the concatenation of the fragments; a
    frame that parses and is not well-formed is routed by what its [tone]
    coerces to. *)
Theorem C3_responseText_is_concatenation {rt : Runtime}
    (chunks : list jsstring) (t : Tone) :
  responseText (sendMessage chunks t) =
  concat (map (routedResponse t) (decodedFrames (concat chunks)))
  /\ (forall payload,
        malformedOrWellFormed payload = true ->
        routedResponse t payload = responseFragment t payload)
  /\ (forallb malformedOrWellFormed (decodedFrames (concat chunks)) = true ->
      responseText (sendMessage chunks t) =
      concat (map (responseFragment t) (decodedFrames (concat chunks)))).
Proof.
  rewrite sendMessage_frames, fold_handleData_routed. cbn [initialElements responseText app].
  split; [reflexivity|]. split; [apply routedResponse_fragment|].
  intros H. f_equal. apply map_ext_in. intros payload Hin.
  apply routedResponse_fragment. rewrite forallb_forall in H. now apply H.
Qed.

Lemma C3_responseText_is_concatenation_witness :
  forallb (malformedOrWellFormed (rt := JsonText.runtime))
          (decodedFrames (concat mixedChunks)) = true
  /\ responseText (sendMessage (rt := JsonText.runtime) mixedChunks friendly) = lit "Hello".
Proof.
  split; [reflexivity|].
  destruct (C3_responseText_is_concatenation (rt := JsonText.runtime) mixedChunks friendly)
    as (_ & _ & H).
  rewrite H; reflexivity.
Defined.

(** A frame whose [tone] is not a string is not well-formed, yet it is
    routed when its tone coerces to the name of a tone: the buffers are
    looked up with [responseElements[tone]], which turns the array
    [["friendly"]] into the key [friendly].  The fragment reaches the
    buffer, while no well-formed frame names the tone. *)
Lemma C3_counterexample :
  decodedFrames (concat [dataFrame coercedTone]) = [coercedTone]
  /\ JSON_parse (Runtime := JsonText.runtime) coercedTone
     = Some (JObject [(lit "tone", JArray [JString (lit "friendly")]);
                      (lit "response", JString (lit "x"))])
  /\ malformedOrWellFormed (rt := JsonText.runtime) coercedTone = false
  /\ responseText (sendMessage (rt := JsonText.runtime) [dataFrame coercedTone] friendly)
     = lit "x"
  /\ concat (map (responseFragment (rt := JsonText.runtime) friendly)
                 (decodedFrames (concat [dataFrame coercedTone]))) = []
  /\ responseText (sendMessage (rt := JsonText.runtime) [dataFrame coercedTone] friendly)
     <> concat (map (responseFragment (rt := JsonText.runtime) friendly)
                    (decodedFrames (concat [dataFrame coercedTone]))).
Proof. repeat split. vm_compute. discriminate. Qed.

Section MalformedFrame.
Context {rt : Runtime}.

Lemma handleData_malformed (els : ResponseElements) (data : jsstring) :
  JSON_parse data = None -> handleData els data = els.
Proof. intros H. unfold handleData. now rewrite H. Qed.

Lemma fold_skip_malformed (before after : list jsstring) (bad : jsstring)
    (els : ResponseElements) :
  JSON_parse bad = None -> bad <> sentinel ->
  fold_left handleData (beforeSentinel (before ++ bad :: after)) els =
  fold_left handleData (beforeSentinel (before ++ after)) els.
Proof.
  intros Hbad Hs. revert els.
  induction before as [|data before IH]; intros els; cbn [app beforeSentinel].
  - destruct (str_eqb bad sentinel) eqn:E; [now apply str_eqb_eq in E|].
    cbn [fold_left]. now rewrite handleData_malformed.
  - destruct (str_eqb data sentinel); [reflexivity|]. cbn [fold_left]. apply IH.
Qed.

Lemma dataFrame_events (payload rest : jsstring) :
  unbroken payload = true -> trimStart payload = payload ->
  consumeSseEvents (dataFrame payload ++ rest) =
  (payload :: fst (consumeSseEvents rest), snd (consumeSseEvents rest)).
Proof.
  intros Hp Ht. unfold dataFrame. rewrite <- !app_assoc.
  change (lit "data: " ++ payload ++ delimiter ++ rest)
    with (join [LF] [lit "data: " ++ payload] ++ delimiter ++ rest).
  rewrite consumeSseEvents_region.
  - unfold framePayload. cbn. unfold trimStart in Ht. now rewrite Ht.
  - cbn [regionLines forallb]. rewrite andb_true_r. exact Hp.
Qed.

Lemma decodedFrames_with_frame (before after payload : jsstring) :
  snd (consumeSseEvents before) = [] ->
  unbroken payload = true -> trimStart payload = payload ->
  decodedFrames (before ++ dataFrame payload ++ after) =
  beforeSentinel (fst (consumeSseEvents before)
                  ++ payload :: fst (consumeSseEvents (after ++ delimiter))).
Proof.
  intros Hb Hp Ht. unfold decodedFrames.
  rewrite <- !app_assoc, consumeSseEvents_app, Hb. cbn [fst app].
  now rewrite dataFrame_events.
Qed.

Lemma decodedFrames_app (before after : jsstring) :
  snd (consumeSseEvents before) = [] ->
  decodedFrames (before ++ after) =
  beforeSentinel (fst (consumeSseEvents before) ++ fst (consumeSseEvents (after ++ delimiter))).
Proof.
  intros Hb. unfold decodedFrames.
  now rewrite <- !app_assoc, consumeSseEvents_app, Hb.
Qed.

End MalformedFrame.

(** C8.  A frame whose payload does not parse as JSON, placed between two
    runs of frames, is decoded and skipped, and nothing else is: however
    the stream is cut into chunks, the buffers of every tone end as they
    do for the stream without that frame, and the frames before and after
    it are parsed and routed: the texts of a tone are the concatenation,
    in order, of what each of them adds, and a well-formed one adds its
    fragments to the buffers of the tone it names.  The frame is one data
    line [data: bad]; what comes before it ends on a frame boundary. *)
Theorem C8_malformed_frame_skipped {rt : Runtime}
    (chunks chunks' : list jsstring) (before after bad : jsstring) (t : Tone) :
  concat chunks = before ++ dataFrame bad ++ after ->
  concat chunks' = before ++ after ->
  snd (consumeSseEvents before) = [] ->
  unbroken bad = true -> trimStart bad = bad ->
  JSON_parse bad = None -> bad <> sentinel ->
  let framesBefore := fst (consumeSseEvents before) in
  let framesAfter := fst (consumeSseEvents (after ++ delimiter)) in
  let others := beforeSentinel (framesBefore ++ framesAfter) in
  decodedFrames (concat chunks) = beforeSentinel (framesBefore ++ bad :: framesAfter)
  /\ decodedFrames (concat chunks') = others
  /\ sendMessage chunks t = sendMessage chunks' t
  /\ responseText (sendMessage chunks t) = concat (map (routedResponse t) others)
  /\ thinkingText (sendMessage chunks t) = concat (map (routedThinking t) others)
  /\ (forall payload,
        malformedOrWellFormed payload = true ->
        routedResponse t payload = responseFragment t payload
        /\ routedThinking t payload = thinkingFragment t payload)
  /\ (forallb malformedOrWellFormed others = true ->
      responseText (sendMessage chunks t) = concat (map (responseFragment t) others)
      /\ thinkingText (sendMessage chunks t) = concat (map (thinkingFragment t) others)).
Proof.
  intros Hc Hc' Hb Hp Ht Hbad Hs. cbv zeta.
  assert (Hf : decodedFrames (concat chunks)
               = beforeSentinel (fst (consumeSseEvents before)
                                 ++ bad :: fst (consumeSseEvents (after ++ delimiter))))
    by (rewrite Hc; now apply decodedFrames_with_frame).
  assert (Hf' : decodedFrames (concat chunks')
                = beforeSentinel (fst (consumeSseEvents before)
                                  ++ fst (consumeSseEvents (after ++ delimiter))))
    by (rewrite Hc'; now apply decodedFrames_app).
  split; [exact Hf|]. split; [exact Hf'|].
  assert (Hsame : sendMessage chunks = sendMessage chunks').
  { rewrite !sendMessage_frames, Hf, Hf'. now rewrite fold_skip_malformed. }
  split; [now rewrite Hsame|].
  rewrite Hsame, sendMessage_frames, Hf'.
  rewrite fold_handleData_routed, fold_handleData_routedThinking.
  cbn [initialElements responseText thinkingText app].
  split; [reflexivity|]. split; [reflexivity|].
  split; [intros payload Hp'; split;
          [now apply routedResponse_fragment|now apply routedThinking_fragment]|].
  intros Hwell. rewrite forallb_forall in Hwell.
  split; f_equal; apply map_ext_in; intros payload Hin.
  - now apply routedResponse_fragment, Hwell.
  - now apply routedThinking_fragment, Hwell.
Qed.

Lemma C8_malformed_frame_skipped_witness :
  decodedFrames (concat withMalformed)
  = [stringifyObject [(lit "tone", lit "friendly"); (lit "response", lit "Hello")];
     notJson;
     stringifyObject [(lit "tone", lit "friendly"); (lit "response", lit " world")]]
  /\ sendMessage (rt := JsonText.runtime) withMalformed friendly
     = sendMessage (rt := JsonText.runtime) withoutMalformed friendly
  /\ responseText (sendMessage (rt := JsonText.runtime) withMalformed friendly)
     = lit "Hello world".
Proof.
  destruct (C8_malformed_frame_skipped (rt := JsonText.runtime)
              withMalformed withoutMalformed frameBefore frameAfter notJson friendly)
    as (Hframes & _ & Hsame & _ & _ & _ & Hrouted);
    try reflexivity; try discriminate.
  split; [exact Hframes|]. split; [exact Hsame|].
  destruct (Hrouted eq_refl) as [Hresponse _]. exact Hresponse.
Defined.

(** The example of the specification, run: both well-formed frames reach
    the buffer of their tone. *)
Example malformed_between_two_frames :
  responseText (sendMessage (rt := JsonText.runtime) withMalformed friendly)
  = lit "Hello world".
Proof. reflexivity. Qed.

(** ** The worker *)

Section WorkerFacts.

(** Every frame of the multiplexer opens a JSON object after the field
    name; the sentinel does not. *)
Lemma thinkingFrame_seventh (tone : Tone) (text : jsstring) :
  nth_error (thinkingFrame tone text) 6 = Some 123%N.
Proof. reflexivity. Qed.

Lemma responseFrame_seventh (tone : Tone) (text : jsstring) :
  nth_error (responseFrame tone text) 6 = Some 123%N.
Proof. reflexivity. Qed.

Lemma terminalFrame_seventh : nth_error terminalFrame 6 = Some 91%N.
Proof. reflexivity. Qed.


Lemma tokenFrame_not_terminal (chunk : list N) :
  tokenFrame chunk -> chunk <> terminalFrame.
Proof.
  intros (tone & text & _ & [-> | ->]) H;
    apply (f_equal (fun l => nth_error l 6)) in H;
    rewrite terminalFrame_seventh in H.
  - now rewrite thinkingFrame_seventh in H.
  - now rewrite responseFrame_seventh in H.
Qed.

Lemma nonEmpty_neq (s : jsstring) : nonEmpty s = true -> s <> [].
Proof. now destruct s. Qed.

Lemma framesOfChunk_tokenFrames (tone : Tone) (chunk : option Delta) :
  Forall tokenFrame (framesOfChunk tone chunk).
Proof.
  unfold framesOfChunk. apply Forall_app. split.
  - destruct (nonEmpty _) eqn:E; constructor; [|constructor].
    eexists tone, _. split; [exact (nonEmpty_neq _ E)|now left].
  - destruct (nonEmpty _) eqn:E; constructor; [|constructor].
    eexists tone, _. split; [exact (nonEmpty_neq _ E)|now right].
Qed.

Lemma step_tokenFrames (m : Mux) (tone : Tone) :
  Forall tokenFrame (enqueued m) -> Forall tokenFrame (enqueued (step m tone)).
Proof.
  intros H. unfold step.
  destruct (channel m); [|assumption|assumption].
  destruct (tasks m tone) as [[|chunk rest] [|]|]; cbn [enqueued]; try assumption.
  all: apply Forall_app; split; [assumption|apply framesOfChunk_tokenFrames].
Qed.

Lemma fold_step_tokenFrames (schedule : list Tone) (m : Mux) :
  Forall tokenFrame (enqueued m) ->
  Forall tokenFrame (enqueued (fold_left step schedule m)).
Proof.
  revert m. induction schedule as [|tone rest IH]; intros m H; [assumption|].
  cbn [fold_left]. now apply IH, step_tokenFrames.
Qed.



Lemma forallb_tones (P : Tone -> bool) :
  forallb P tones = true <-> forall tone, P tone = true.
Proof.
  unfold tones. cbn [forallb]. rewrite !andb_true_iff. split.
  - intros (H1 & H2 & H3 & _) []; assumption.
  - intros H. repeat split; apply H.
Qed.

Lemma setTask_same (ts : Tone -> Task) (tone : Tone) (t : Task) :
  setTask ts tone t tone = t.
Proof. unfold setTask. now rewrite Tone_eqb_refl. Qed.

Lemma setTask_other (ts : Tone -> Task) (tone tone' : Tone) (t : Task) :
  tone' <> tone -> setTask ts tone t tone' = ts tone'.
Proof.
  intros H. unfold setTask. destruct (Tone_eqb tone' tone) eqn:E; [|reflexivity].
  now apply Tone_eqb_eq in E.
Qed.

Lemma Tone_eq_dec (a b : Tone) : {a = b} + {a <> b}.
Proof. decide equality. Defined.

Section Safety.
Variable streams : Tone -> Stream.


Lemma consistent_start : consistent streams (startMux streams).
Proof.
  repeat split; cbn; intros; try discriminate. congruence.
Qed.

Lemma consistent_step (m : Mux) (tone : Tone) :
  consistent streams m -> consistent streams (step m tone).
Proof.
  intros H. pose proof H as (HD & HR & HC). unfold step.
  destruct (channel m) eqn:Ech; [|exact H..].
  destruct (tasks m tone) as [[|chunk rest] [|]|] eqn:Et.
  - (* the stream of [tone] ends *)
    split; [|split]; cbn [tasks channel].
    + intros tone' H'. destruct (Tone_eq_dec tone' tone) as [->|Hne].
      * symmetry. exact (HR _ _ _ Et).
      * rewrite setTask_other in H' by assumption. now apply HD.
    + intros tone' rest' e' H'. destruct (Tone_eq_dec tone' tone) as [->|Hne].
      * now rewrite setTask_same in H'.
      * rewrite setTask_other in H' by assumption. now apply HR in H'.
    + destruct (forallb _ tones) eqn:Eall; [|discriminate].
      intros _ tone'. rewrite forallb_tones in Eall. specialize (Eall tone').
      cbv beta in Eall. cbn [tasks]. now destruct (setTask (tasks m) tone Done tone').
  - (* the stream of [tone] fails *)
    repeat split; cbn [tasks channel]; try assumption. discriminate.
  - split; [|split]; cbn [tasks channel]; [| |discriminate].
    + intros tone' H'. destruct (Tone_eq_dec tone' tone) as [->|Hne].
      * now rewrite setTask_same in H'.
      * rewrite setTask_other in H' by assumption. now apply HD.
    + intros tone' rest' e' H'. destruct (Tone_eq_dec tone' tone) as [->|Hne].
      * rewrite setTask_same in H'. injection H' as _ <-. exact (HR _ _ _ Et).
      * rewrite setTask_other in H' by assumption. now apply HR in H'.
  - split; [|split]; cbn [tasks channel]; [| |discriminate].
    + intros tone' H'. destruct (Tone_eq_dec tone' tone) as [->|Hne].
      * now rewrite setTask_same in H'.
      * rewrite setTask_other in H' by assumption. now apply HD.
    + intros tone' rest' e' H'. destruct (Tone_eq_dec tone' tone) as [->|Hne].
      * rewrite setTask_same in H'. injection H' as _ <-. exact (HR _ _ _ Et).
      * rewrite setTask_other in H' by assumption. now apply HR in H'.
  - repeat split; try assumption. congruence.
Qed.

Lemma consistent_fold (schedule : list Tone) (m : Mux) :
  consistent streams m -> consistent streams (fold_left step schedule m).
Proof.
  revert m. induction schedule as [|tone rest IH]; intros m H; [assumption|].
  cbn [fold_left]. now apply IH, consistent_step.
Qed.

(** Progress when no stream fails. *)
Hypothesis noFailure : forall tone, ending (streams tone) = Finished.


Lemma turns_snoc_same (tone : Tone) (done : list Tone) :
  turns tone (done ++ [tone]) = S (turns tone done).
Proof.
  unfold turns. rewrite filter_app, length_app. cbn [filter].
  rewrite Tone_eqb_refl. cbn [length]. lia.
Qed.

Lemma turns_snoc_other (tone tone' : Tone) (done : list Tone) :
  tone' <> tone -> turns tone' (done ++ [tone]) = turns tone' done.
Proof.
  intros H. unfold turns. rewrite filter_app, length_app. cbn [filter].
  destruct (Tone_eqb tone' tone) eqn:E; [now apply Tone_eqb_eq in E|].
  cbn [length]. lia.
Qed.

Lemma skipn_cons_inv (A : Type) (n : nat) (l : list A) (x : A) (rest : list A) :
  skipn n l = x :: rest -> skipn (S n) l = rest /\ n < length l.
Proof.
  revert l. induction n as [|n IH]; intros l H.
  - cbn in H. subst l. cbn. split; [reflexivity|lia].
  - destruct l as [|y l]; [discriminate|]. cbn [skipn] in H.
    destruct (IH _ H) as [H1 H2]. split; [exact H1|cbn [length]; lia].
Qed.

Lemma onTrack_start : onTrack streams [] (startMux streams).
Proof.
  cbn. split.
  - intros tone. unfold taskAfter. cbn. now rewrite noFailure.
  - now exists friendly.
Qed.

Lemma onTrack_step (done : list Tone) (m : Mux) (tone : Tone) :
  onTrack streams done m -> onTrack streams (done ++ [tone]) (step m tone).
Proof.
  unfold onTrack, step. destruct (channel m) eqn:Ech; [|now rewrite Ech|contradiction].
  intros [Ht Hex]. pose proof (Ht tone) as Htone. unfold taskAfter in Htone.
  destruct (turns tone done <=? length (chunks (streams tone))) eqn:Ele.
  - apply Nat.leb_le in Ele. rewrite Htone.
    destruct (skipn (turns tone done) (chunks (streams tone))) as [|chunk rest] eqn:Esk.
    + (* the last turn: the task ends *)
      assert (Elen : turns tone done = length (chunks (streams tone))).
      { apply (f_equal (@length _)) in Esk. rewrite length_skipn in Esk. cbn in Esk. lia. }
      assert (Hts : forall tone', setTask (tasks m) tone Done tone'
                                  = taskAfter streams tone' (turns tone' (done ++ [tone]))).
      { intros tone'. destruct (Tone_eq_dec tone' tone) as [->|Hne].
        - rewrite setTask_same, turns_snoc_same. unfold taskAfter.
          destruct (S (turns tone done) <=? length (chunks (streams tone))) eqn:E; [|reflexivity].
          apply Nat.leb_le in E. lia.
        - rewrite setTask_other, turns_snoc_other by assumption. apply Ht. }
      cbn [channel tasks].
      destruct (forallb _ tones) eqn:Eall; [trivial|].
      split; [exact Hts|].
      destruct (setTask (tasks m) tone Done friendly) eqn:E1;
        [exists friendly; now rewrite E1|].
      destruct (setTask (tasks m) tone Done rude) eqn:E2;
        [exists rude; now rewrite E2|].
      destruct (setTask (tasks m) tone Done professional) eqn:E3;
        [exists professional; now rewrite E3|].
      unfold tones in Eall. cbn [forallb] in Eall. rewrite E1, E2, E3 in Eall. discriminate.
    + destruct (skipn_cons_inv _ _ _ _ _ Esk) as [Hrest Hlt].
      cbn [channel tasks]. split.
      * intros tone'. destruct (Tone_eq_dec tone' tone) as [->|Hne].
        -- rewrite setTask_same, turns_snoc_same. unfold taskAfter.
           destruct (S (turns tone done) <=? length (chunks (streams tone))) eqn:E.
           ++ now rewrite Hrest.
           ++ apply Nat.leb_gt in E. lia.
        -- rewrite setTask_other, turns_snoc_other by assumption. apply Ht.
      * exists tone. now rewrite setTask_same.
  - rewrite Htone, Ech. split; [|exact Hex].
    intros tone'. destruct (Tone_eq_dec tone' tone) as [->|Hne].
    + rewrite turns_snoc_same, Htone. unfold taskAfter.
      apply Nat.leb_gt in Ele.
      destruct (S (turns tone done) <=? length (chunks (streams tone))) eqn:E; [|reflexivity].
      apply Nat.leb_le in E. lia.
    + rewrite turns_snoc_other by assumption. apply Ht.
Qed.

Lemma onTrack_fold (schedule done : list Tone) (m : Mux) :
  onTrack streams done m -> onTrack streams (done ++ schedule) (fold_left step schedule m).
Proof.
  revert done m. induction schedule as [|tone rest IH]; intros done m H.
  - now rewrite app_nil_r.
  - cbn [fold_left]. replace (done ++ tone :: rest) with ((done ++ [tone]) ++ rest)
      by now rewrite <- app_assoc.
    now apply IH, onTrack_step.
Qed.

(** Every task resumed once more than its stream has chunks: the channel
    has been closed. *)
Lemma closed_when_all_served (schedule : list Tone) :
  (forall tone, length (chunks (streams tone)) < turns tone schedule) ->
  channel (multiplex streams schedule) = Closed.
Proof.
  intros Hserved. pose proof (onTrack_fold schedule [] _ onTrack_start) as H.
  cbn [app] in H. unfold onTrack in H. fold (multiplex streams schedule) in H.
  destruct (channel (multiplex streams schedule)); [|reflexivity|contradiction].
  destruct H as [Ht [tone Hnd]]. exfalso. apply Hnd. rewrite Ht. unfold taskAfter.
  specialize (Hserved tone).
  destruct (turns tone schedule <=? length (chunks (streams tone))) eqn:E; [|reflexivity].
  apply Nat.leb_le in E. lia.
Qed.

End Safety.
End WorkerFacts.

(** C1, as amended.  The multiplexer puts no sentinel frame on the
    outbound channel: every chunk it enqueues is the frame of a non-empty
    thinking or response fragment tagged with its tone.  The end of a
    successful exchange is the closing of the channel, which happens only
    when all three upstream streams have been read to their end; and it
    does happen once every task has had its turns. *)
Theorem C1_channel_closed_without_sentinel (streams : Tone -> Stream) (schedule : list Tone) :
  let m := multiplex streams schedule in
  (forall chunk, In chunk (enqueued m) -> tokenFrame chunk /\ chunk <> terminalFrame)
  /\ occurrences terminalFrame (enqueued m) = 0
  /\ (channel m = Closed ->
      forall tone, tasks m tone = Done /\ ending (streams tone) = Finished)
  /\ ((forall tone, ending (streams tone) = Finished) ->
      (forall tone, length (chunks (streams tone)) < turns tone schedule) ->
      channel m = Closed).
Proof.
  intros m.
  assert (HF : Forall tokenFrame (enqueued m))
    by (apply fold_step_tokenFrames; constructor).
  rewrite Forall_forall in HF.
  split; [|split; [|split]].
  - intros chunk Hin. split; [now apply HF|now apply tokenFrame_not_terminal, HF].
  - unfold occurrences.
    destruct (filter (str_eqb terminalFrame) (enqueued m)) as [|x l] eqn:E; [reflexivity|].
    assert (Hx : In x (filter (str_eqb terminalFrame) (enqueued m))) by (rewrite E; now left).
    apply filter_In in Hx as [Hin Heq]. apply str_eqb_eq in Heq. subst x.
    now apply HF, tokenFrame_not_terminal in Hin.
  - intros Hc.
    destruct (consistent_fold streams schedule _ (consistent_start streams)) as (HD & _ & HC).
    intros tone. split; [now apply HC|]. apply HD. now apply HC.
  - intros Hfin Hserved. now apply closed_when_all_served.
Qed.

Lemma C1_channel_closed_without_sentinel_witness :
  channel (multiplex (fun tone => match tone with friendly => greeting | _ => quietStream end)
                     fairSchedule) = Closed.
Proof.
  destruct (C1_channel_closed_without_sentinel
              (fun tone => match tone with friendly => greeting | _ => quietStream end)
              fairSchedule) as (_ & _ & _ & Hclosed).
  apply Hclosed.
  - intros []; reflexivity.
  - intros []; vm_compute; repeat constructor.
Defined.

(** C1 as stated fails: in an exchange that succeeds, the channel is
    closed after the only frame of the friendly stream, and the sentinel is
    nowhere on it. *)
Lemma C1_counterexample :
  exists out,
    body (fst (handleChatRequest (Some question) configured greetingUpstream fairSchedule))
    = StreamBody out Closed
    /\ occurrences terminalFrame out <> 1
    /\ last out [] <> terminalFrame.
Proof.
  exists [responseFrame friendly (lit "Hi")].
  split; [reflexivity|]. split; vm_compute; discriminate.
Qed.

(** C9.  When the credential is missing, empty or blank, the handler
    answers at once with status 500 and the JSON body of an error
    message, whatever the request; the model API is not called and no
    stream is opened. *)
Theorem C9_missing_credential_fails_fast
    (requestMessages : option (list ChatMessage)) (env : Env)
    (upstream : Upstream) (schedule : list Tone) :
  Z_AI_API_KEY env = None
  \/ (exists apiKey, Z_AI_API_KEY env = Some apiKey /\ trim apiKey = []) ->
  exists message,
    handleChatRequest requestMessages env upstream schedule =
    ({| status := 500;
        contentType := lit "application/json";
        body := JsonBody (lit "{" ++ quote (lit "error") ++ lit ":" ++ quote message ++ lit "}") |},
     []).
Proof.
  intros Hkey.
  assert (Hmiss : credentialMissing env = true).
  { unfold credentialMissing. destruct Hkey as [-> | (apiKey & -> & Htrim)]; [reflexivity|].
    rewrite Htrim. cbn. apply orb_true_r. }
  unfold handleChatRequest. destruct requestMessages as [messages|].
  - rewrite Hmiss. now eexists.
  - now eexists.
Qed.

Lemma C9_missing_credential_fails_fast_witness :
  exists message,
    handleChatRequest (Some question) blankKey greetingUpstream fairSchedule =
    ({| status := 500;
        contentType := lit "application/json";
        body := JsonBody (lit "{" ++ quote (lit "error") ++ lit ":" ++ quote message ++ lit "}") |},
     []).
Proof.
  apply (C9_missing_credential_fails_fast (Some question) blankKey greetingUpstream fairSchedule).
  right. exists (lit "   "). split; reflexivity.
Defined.

(** With the credential in place the same request is answered by a
    stream, after the three calls to the model API. *)
Example configured_request_streams :
  status (fst (handleChatRequest (Some question) configured greetingUpstream fairSchedule)) = 200
  /\ map fst (snd (handleChatRequest (Some question) configured greetingUpstream fairSchedule))
     = tones.
Proof. split; reflexivity. Qed.

(** ** The markdown renderer: links *)

Section LinkFacts.
Context {rt : Runtime}.

Lemma takeWhile_dropWhile (p : N -> bool) (s : jsstring) :
  takeWhile p s ++ dropWhile p s = s.
Proof.
  induction s as [|c s IH]; [reflexivity|].
  cbn [takeWhile dropWhile]. destruct (p c); [cbn; now rewrite IH|reflexivity].
Qed.

Lemma takeWhile_app_stop (p : N -> bool) (run rest : jsstring) (c : N) :
  forallb p run = true -> p c = false ->
  takeWhile p (run ++ c :: rest) = run /\ dropWhile p (run ++ c :: rest) = c :: rest.
Proof.
  intros Hrun Hc. induction run as [|x run IH]; cbn [app takeWhile dropWhile].
  - now rewrite Hc.
  - cbn [forallb] in Hrun. apply andb_true_iff in Hrun as [Hx Hrun].
    rewrite Hx. destruct (IH Hrun) as [-> ->]. now split.
Qed.

Lemma skipn_app_exact (A : Type) (a b : list A) : skipn (length a) (a ++ b) = b.
Proof. induction a; [reflexivity|assumption]. Qed.

(** The expression of a delimited group, on a text built to match it. *)
Lemma delimited_built (opening closing group rest : jsstring) (stop : N) :
  group <> [] -> forallb (isNot stop) group = true ->
  startsWith [stop] closing = true ->
  delimited opening stop closing (opening ++ group ++ closing ++ rest) = Some (group, rest).
Proof.
  intros Hne Hgroup Hstop. unfold delimited.
  rewrite startsWith_app, skipn_app_exact.
  destruct closing as [|c closing]; [discriminate|].
  cbn [startsWith] in Hstop. rewrite andb_true_r in Hstop. apply N.eqb_eq in Hstop. subst c.
  assert (Hs : isNot stop stop = false) by (unfold isNot; now rewrite N.eqb_refl).
  cbn [app].
  destruct (takeWhile_app_stop (isNot stop) group (closing ++ rest) stop Hgroup Hs) as [-> ->].
  change (stop :: closing ++ rest) with ((stop :: closing) ++ rest).
  rewrite startsWith_app, skipn_app_exact.
  destruct group; [congruence|reflexivity].
Qed.

Lemma link_built (bol : bool) (text url rest : jsstring) :
  text <> [] -> url <> [] ->
  forallb (isNot 93) text = true -> forallb (isNot 41) url = true ->
  link bol (lit "[" ++ text ++ lit "](" ++ url ++ lit ")" ++ rest) =
  Some (anchor text url, 1 + length text + 2 + length url + 1).
Proof.
  intros Ht Hu Htext Hurl. unfold link.
  rewrite (delimited_built (lit "[") (lit "](") text (url ++ lit ")" ++ rest) 93)
    by (assumption || reflexivity).
  change (url ++ lit ")" ++ rest) with ([] ++ url ++ lit ")" ++ rest).
  rewrite (delimited_built [] (lit ")") url rest 41) by (assumption || reflexivity).
  reflexivity.
Qed.

Lemma safeUrl_cases (url : jsstring) :
  (safeUrl url = trim url /\ allowedTarget (trim url) = true)
  \/ (safeUrl url = placeholder /\
      startsWith (lit "http://") (toLowerCase (trim url)) = false /\
      startsWith (lit "https://") (toLowerCase (trim url)) = false /\
      startsWith (lit "mailto:") (toLowerCase (trim url)) = false /\
      startsWith (lit "/") (trim url) = false /\
      startsWith (lit "#") (trim url) = false /\
      indexOf (lit ":") (trim url) <> None).
Proof.
  unfold safeUrl, allowedTarget.
  set (t := trim url). set (l := toLowerCase t).
  assert (P : forall p q x, startsWith (p ++ q) x = true -> startsWith p x = true).
  { intros p q x H. apply startsWith_spec in H as [r ->]. rewrite <- app_assoc.
    apply startsWith_app. }
  destruct (startsWith (lit "http://") l) eqn:E1.
  { left. split; [reflexivity|].
    now rewrite (P (lit "http:") (lit "//") l E1). }
  destruct (startsWith (lit "https://") l) eqn:E2.
  { left. split; [reflexivity|].
    rewrite (P (lit "https:") (lit "//") l E2). now rewrite orb_true_r. }
  destruct (startsWith (lit "mailto:") l) eqn:E3.
  { left. split; [reflexivity|]. now rewrite !orb_true_r. }
  destruct (startsWith (lit "/") t) eqn:E4.
  { left. split; [reflexivity|]. now rewrite !orb_true_r. }
  destruct (startsWith (lit "#") t) eqn:E5.
  { left. split; [reflexivity|]. now rewrite !orb_true_r. }
  destruct (indexOf (lit ":") t) eqn:E6.
  - right. repeat split; try reflexivity. discriminate.
  - left. split; [reflexivity|]. now rewrite !orb_true_r.
Qed.

End LinkFacts.

(** The example of the specification, rendered. *)
Example javascript_link_rendered :
  parseMarkdown (rt := JsonText.runtime) (lit "[click](javascript:alert(1))")
  = anchorWith placeholder (lit "click") ++ lit ")".
Proof. reflexivity. Qed.

(** ** The markdown renderer: marks stay guarded *)

(** From [Some (x, n) = Some (r, m)] to [x = r], without computing [x]. *)
Ltac replacement_of H :=
  apply (f_equal (fun o : option (list N * nat) =>
                    match o with Some (x, _) => x | None => [] end)) in H;
  cbv beta iota in H; subst.

Section Guarded.
Variable mark : N.

Section AnyWindows.
Variable V : list jsstring.

Lemma guarded_cons (c : N) (s : jsstring) :
  guarded mark V (c :: s) = true <->
  (N.eqb c mark = false \/ opens V (c :: s) = true) /\ guarded mark V s = true.
Proof.
  cbn [guarded]. rewrite andb_true_iff, orb_true_iff, negb_true_iff. reflexivity.
Qed.

Lemma startsWith_weaken (w a b : jsstring) :
  startsWith w a = true -> startsWith w (a ++ b) = true.
Proof.
  intros H. apply startsWith_spec in H as [t ->]. rewrite <- app_assoc.
  apply startsWith_app.
Qed.

Lemma opens_app (a b : jsstring) : opens V a = true -> opens V (a ++ b) = true.
Proof.
  unfold opens. rewrite !existsb_exists. intros (w & Hw & Hs).
  exists w. split; [assumption|]. now apply startsWith_weaken.
Qed.

Lemma guarded_app (a b : jsstring) :
  guarded mark V a = true -> guarded mark V b = true -> guarded mark V (a ++ b) = true.
Proof.
  intros Ha Hb. induction a as [|c a IH]; [assumption|].
  apply guarded_cons in Ha as [Hc Ha]. cbn [app]. apply guarded_cons. split.
  - destruct Hc as [Hc|Hc]; [now left|right].
    change (c :: a ++ b) with ((c :: a) ++ b). now apply opens_app.
  - now apply IH.
Qed.

Lemma guarded_skipn (n : nat) (s : jsstring) :
  guarded mark V s = true -> guarded mark V (skipn n s) = true.
Proof.
  revert s. induction n as [|n IH]; intros s H; [assumption|].
  destruct s as [|c s]; [reflexivity|]. apply guarded_cons in H as [_ H]. now apply IH.
Qed.

Lemma dropWhile_skipn (p : N -> bool) (s : jsstring) :
  exists n, dropWhile p s = skipn n s.
Proof.
  induction s as [|c s [n IH]]; [now exists 0|].
  cbn [dropWhile]. destruct (p c); [now exists (S n)|now exists 0].
Qed.

Lemma guarded_dropWhile (p : N -> bool) (s : jsstring) :
  guarded mark V s = true -> guarded mark V (dropWhile p s) = true.
Proof. intros H. destruct (dropWhile_skipn p s) as [n ->]. now apply guarded_skipn. Qed.

Lemma guarded_unmarked (s : jsstring) :
  forallb (isNot mark) s = true -> guarded mark V s = true.
Proof.
  induction s as [|c s IH]; [reflexivity|]. cbn [forallb]. intros H.
  apply andb_true_iff in H as [Hc Hs]. apply guarded_cons. split; [|now apply IH].
  left. unfold isNot in Hc. now apply negb_true_iff in Hc.
Qed.

Lemma guarded_concat (parts : list jsstring) :
  forallb (guarded mark V) parts = true -> guarded mark V (concat parts) = true.
Proof.
  induction parts as [|p parts IH]; [reflexivity|]. cbn [forallb concat]. intros H.
  apply andb_true_iff in H as [Hp Hs]. apply guarded_app; [assumption|now apply IH].
Qed.

End AnyWindows.

Variable W : list jsstring.
Hypothesis Wclean : cleanWindows mark W = true.

Lemma mark_plain : isLineTerminator mark = false /\ isDelimiter mark = false.
Proof.
  unfold cleanWindows in Wclean. rewrite !andb_true_iff, !negb_true_iff in Wclean.
  tauto.
Qed.

Lemma window_shape (w : jsstring) :
  In w W ->
  exists t, w = mark :: t /\
    forall x, In x t ->
      N.eqb x mark = false /\ isLineTerminator x = false /\ isDelimiter x = false.
Proof.
  intros Hw. unfold cleanWindows in Wclean. apply andb_true_iff in Wclean as [_ Hall].
  rewrite forallb_forall in Hall. specialize (Hall w Hw).
  destruct w as [|c t]; [discriminate|]. apply andb_true_iff in Hall as [Hc Ht].
  apply N.eqb_eq in Hc. subst c. exists t. split; [reflexivity|].
  intros x Hx. rewrite forallb_forall in Ht. specialize (Ht x Hx).
  rewrite !andb_true_iff, !negb_true_iff in Ht. tauto.
Qed.

Lemma inWindows_plain (x : N) :
  inWindows W x = true ->
  N.eqb x mark = false /\ isLineTerminator x = false /\ isDelimiter x = false.
Proof.
  unfold inWindows. rewrite existsb_exists. intros (w & Hw & Hx).
  destruct (window_shape w Hw) as (t & -> & Ht). cbn [tl] in Hx.
  apply existsb_exists in Hx as (y & Hy & E). apply N.eqb_eq in E. subst y. now apply Ht.
Qed.

Lemma inWindows_tail (w : jsstring) (x : N) :
  In w W -> In x (tl w) -> inWindows W x = true.
Proof.
  intros Hw Hx. unfold inWindows. apply existsb_exists. exists w. split; [assumption|].
  apply existsb_exists. exists x. split; [assumption|apply N.eqb_refl].
Qed.

(** A text that opens a window is the mark, the tail of the window, and
    the rest. *)
Lemma opens_shape (s : jsstring) :
  opens W s = true ->
  exists t rest, In (mark :: t) W /\ s = mark :: t ++ rest.
Proof.
  unfold opens. rewrite existsb_exists. intros (w & Hw & Hs).
  destruct (window_shape w Hw) as (t & -> & _). apply startsWith_spec in Hs as [rest ->].
  now exists t, rest.
Qed.

Lemma startsWith_cut (w a b : jsstring) :
  startsWith w (a ++ b) = true ->
  startsWith w a = true \/ exists w1 x w2, w = a ++ x :: w2 /\ b = x :: w1.
Proof.
  revert a. induction w as [|c w IH]; intros a H; [now left|].
  destruct a as [|d a].
  - right. cbn [app] in H. destruct b as [|x b]; [discriminate|].
    cbn [startsWith] in H. apply andb_true_iff in H as [E _]. apply N.eqb_eq in E. subst x.
    now exists b, c, w.
  - cbn [app startsWith] in H. apply andb_true_iff in H as [E H].
    destruct (IH a H) as [H1|(w1 & x & w2 & -> & ->)].
    + left. cbn [startsWith]. now rewrite E, H1.
    + right. apply N.eqb_eq in E. subst d. now exists w1, x, w2.
Qed.

Lemma opens_cut (c : N) (a b : jsstring) :
  opens W ((c :: a) ++ b) = true -> cutSafe W b = true -> opens W (c :: a) = true.
Proof.
  unfold opens. rewrite !existsb_exists. intros (w & Hw & Hs) Hb.
  exists w. split; [assumption|].
  destruct (startsWith_cut _ _ _ Hs) as [H|(w1 & x & w2 & -> & ->)]; [assumption|].
  exfalso. cbn [cutSafe] in Hb. apply negb_true_iff in Hb.
  rewrite (inWindows_tail _ x Hw) in Hb; [discriminate|].
  cbn [app tl]. apply in_or_app. right. now left.
Qed.

Lemma guarded_cut (a b : jsstring) :
  guarded mark W (a ++ b) = true -> cutSafe W b = true -> guarded mark W a = true.
Proof.
  intros H Hb. induction a as [|c a IH]; [reflexivity|].
  cbn [app] in H. apply guarded_cons in H as [Hc H]. apply guarded_cons.
  split; [|now apply IH]. destruct Hc as [Hc|Hc]; [now left|right].
  now apply opens_cut with (b := b).
Qed.

Lemma dropWhile_head (p : N -> bool) (s : jsstring) :
  match dropWhile p s with [] => True | x :: _ => p x = false end.
Proof.
  induction s as [|c s IH]; [exact I|]. cbn [dropWhile].
  destruct (p c) eqn:E; [assumption|exact E].
Qed.

Lemma guarded_takeWhile (p : N -> bool) (s : jsstring) :
  (forall x, p x = false -> inWindows W x = false) ->
  guarded mark W s = true -> guarded mark W (takeWhile p s) = true.
Proof.
  intros Hp H. rewrite <- (takeWhile_dropWhile p s) in H.
  apply guarded_cut in H; [assumption|].
  pose proof (dropWhile_head p s) as Hd. destruct (dropWhile p s) as [|x r]; [reflexivity|].
  cbn [cutSafe]. now rewrite (Hp x Hd).
Qed.

Lemma indexOf_split (needle s : jsstring) (k : nat) :
  indexOf needle s = Some k -> exists rest, skipn k s = needle ++ rest.
Proof.
  revert k. induction s as [|c s IH]; intros k; cbn [indexOf].
  - destruct (startsWith needle []) eqn:E; [|discriminate]. intros [= <-].
    now apply startsWith_spec in E.
  - destruct (startsWith needle (c :: s)) eqn:E.
    + intros [= <-]. now apply startsWith_spec in E.
    + destruct (indexOf needle s) as [j|]; [|discriminate]. intros [= <-]. now apply IH.
Qed.

Lemma guarded_before_needle (needle s : jsstring) (k : nat) :
  cutSafe W needle = true -> needle <> [] ->
  indexOf needle s = Some k ->
  guarded mark W s = true -> guarded mark W (firstn k s) = true.
Proof.
  intros Hn Hne Hk H. destruct (indexOf_split _ _ _ Hk) as [rest Hrest].
  rewrite <- (firstn_skipn k s), Hrest in H. apply guarded_cut in H; [assumption|].
  destruct needle; [congruence|exact Hn].
Qed.

Lemma trimEnd_tail (s : jsstring) :
  exists tail, s = trimEnd s ++ tail /\ forallb isWhiteSpace tail = true.
Proof.
  unfold trimEnd. exists (rev (takeWhile isWhiteSpace (rev s))). split.
  - rewrite <- rev_app_distr, takeWhile_dropWhile. now rewrite rev_involutive.
  - apply forallb_forall. intros x Hx. apply in_rev in Hx.
    induction (rev s) as [|c r IH]; [contradiction|].
    cbn [takeWhile] in Hx. destruct (isWhiteSpace c) eqn:E; [|contradiction].
    destruct Hx as [<-|Hx]; [assumption|now apply IH].
Qed.

Hypothesis Wspace : spaceFree W = true.

Lemma space_not_inWindows (x : N) : isWhiteSpace x = true -> inWindows W x = false.
Proof.
  intros Hx. unfold inWindows. apply not_true_is_false. intros H.
  apply existsb_exists in H as (w & Hw & Hin).
  apply existsb_exists in Hin as (y & Hy & E). apply N.eqb_eq in E. subst y.
  unfold spaceFree in Wspace. rewrite forallb_forall in Wspace. specialize (Wspace w Hw).
  rewrite forallb_forall in Wspace. specialize (Wspace x Hy).
  now rewrite Hx in Wspace.
Qed.

Lemma guarded_trim (s : jsstring) :
  guarded mark W s = true -> guarded mark W (trim s) = true.
Proof.
  intros H. unfold trim. apply (guarded_dropWhile W isWhiteSpace) in H.
  fold (trimStart s) in H. destruct (trimEnd_tail (trimStart s)) as (tail & E & Htail).
  rewrite E in H. apply guarded_cut in H; [assumption|].
  destruct tail as [|x tail]; [reflexivity|]. cbn [forallb] in Htail.
  apply andb_true_iff in Htail as [Hx _]. cbn [cutSafe]. now rewrite space_not_inWindows.
Qed.


(** *** Global replacement keeps marks guarded *)

Variable Wout : list jsstring.
Hypothesis Wsub : forall w, In w W -> In w Wout.

Lemma opens_mono (s : jsstring) : opens W s = true -> opens Wout s = true.
Proof.
  unfold opens. rewrite !existsb_exists. intros (w & Hw & Hs). exists w. auto.
Qed.

Lemma guarded_mono (s : jsstring) :
  guarded mark W s = true -> guarded mark Wout s = true.
Proof.
  induction s as [|c s IH]; [reflexivity|]. intros H.
  apply guarded_cons in H as [Hc H]. apply guarded_cons. split; [|now apply IH].
  destruct Hc as [Hc|Hc]; [now left|right; now apply opens_mono].
Qed.

Section Combinator.
Variable m : Matcher.
Hypothesis m_guarded : forall bol s r n,
  m bol s = Some (r, n) -> guarded mark W s = true -> guarded mark Wout r = true.
Hypothesis m_inert : forall c s, inWindows W c = true -> m false (c :: s) = None.

Lemma replaceAll_inert (u t : jsstring) :
  forallb (inWindows W) u = true ->
  replaceAll m 0 false (u ++ t) = u ++ replaceAll m 0 false t.
Proof.
  induction u as [|c u IH]; [reflexivity|]. cbn [forallb]. intros H.
  apply andb_true_iff in H as [Hc Hu]. cbn [app replaceAll].
  rewrite (m_inert c (u ++ t) Hc).
  destruct (inWindows_plain c Hc) as (_ & -> & _). now rewrite IH.
Qed.

Lemma replaceAll_guarded (s : jsstring) (skip : nat) (bol : bool) :
  guarded mark W (skipn skip s) = true ->
  guarded mark Wout (replaceAll m skip bol s) = true.
Proof.
  revert skip bol. induction s as [|c s IH]; intros skip bol H; [reflexivity|].
  cbn [replaceAll]. destruct skip as [|k]; [|now apply IH].
  cbn [skipn] in H. pose proof H as Hcs. apply guarded_cons in H as [Hc Hs].
  destruct (m bol (c :: s)) as [[r n]|] eqn:Em.
  - apply guarded_app; [now apply (m_guarded _ _ _ _ Em)|].
    apply IH. now apply guarded_skipn.
  - apply guarded_cons. split; [|now apply IH].
    destruct Hc as [Hc|Hc]; [now left|right].
    destruct (opens_shape _ Hc) as (t & rest & Hw & E).
    injection E as -> ->.
    destruct mark_plain as [-> _].
    rewrite replaceAll_inert.
    + change (mark :: t ++ replaceAll m 0 false rest)
        with ((mark :: t) ++ replaceAll m 0 false rest).
      apply opens_app. apply opens_mono. unfold opens. apply existsb_exists.
      exists (mark :: t). split; [assumption|]. rewrite <- (app_nil_r (mark :: t)) at 2.
      apply startsWith_app.
    + apply forallb_forall. intros x Hx. now apply (inWindows_tail (mark :: t)).
Qed.

Lemma replaceGlobal_guarded (s : jsstring) :
  guarded mark W s = true -> guarded mark Wout (replaceGlobal m s) = true.
Proof. intros H. now apply replaceAll_guarded. Qed.

End Combinator.

(** *** The expressions of the renderer *)

Lemma delimiter_not_inWindows (x : N) : isDelimiter x = true -> inWindows W x = false.
Proof.
  intros Hx. apply not_true_is_false. intros H.
  destruct (inWindows_plain x H) as (_ & _ & E). congruence.
Qed.

Lemma wrapDelimited_guarded (opening closing before after : jsstring) (stop : N) :
  guarded mark Wout before = true -> guarded mark Wout after = true ->
  isDelimiter stop = true ->
  forall bol s r n,
    wrapDelimited opening stop closing before after bol s = Some (r, n) ->
    guarded mark W s = true -> guarded mark Wout r = true.
Proof.
  intros Hb Ha Hstop bol s r n Hm Hs. unfold wrapDelimited, delimited in Hm.
  destruct (startsWith opening s); [|discriminate].
  destruct (nonEmpty _ && startsWith closing _); [|discriminate].
  replacement_of Hm.
  apply guarded_app; [assumption|]. apply guarded_app; [|assumption].
  apply guarded_mono, guarded_takeWhile; [|now apply guarded_skipn].
  intros x Hx. unfold isNot in Hx. apply negb_false_iff, N.eqb_eq in Hx. subst x.
  now apply delimiter_not_inWindows.
Qed.

Lemma wrapDelimited_inert (o : N) (opening closing before after : jsstring) (stop : N) :
  isDelimiter o = true ->
  forall c s, inWindows W c = true ->
    wrapDelimited (o :: opening) stop closing before after false (c :: s) = None.
Proof.
  intros Ho c s Hc. unfold wrapDelimited, delimited. cbn [startsWith].
  destruct (N.eqb o c) eqn:E; [|reflexivity].
  apply N.eqb_eq in E. subst c. rewrite delimiter_not_inWindows in Hc by assumption.
  discriminate.
Qed.

Lemma lineRule_guarded (marker before after : jsstring) (needsText : bool) :
  guarded mark Wout before = true -> guarded mark Wout after = true ->
  forall bol s r n,
    lineRule marker needsText before after bol s = Some (r, n) ->
    guarded mark W s = true -> guarded mark Wout r = true.
Proof.
  intros Hb Ha bol s r n Hm Hs. unfold lineRule in Hm.
  destruct (bol && startsWith marker s); [|discriminate].
  destruct (needsText && _); [discriminate|]. replacement_of Hm.
  apply guarded_app; [assumption|]. apply guarded_app; [|assumption].
  apply guarded_mono, guarded_takeWhile; [|now apply guarded_skipn].
  intros x Hx. apply negb_false_iff in Hx. apply not_true_is_false. intros H.
  destruct (inWindows_plain x H) as (_ & E & _). congruence.
Qed.

Lemma lineRule_inert (marker before after : jsstring) (needsText : bool) :
  forall c s, inWindows W c = true ->
    lineRule marker needsText before after false (c :: s) = None.
Proof. reflexivity. Qed.

Lemma codeBlock_guarded :
  guarded mark Wout (lit "<pre><code>") = true ->
  guarded mark Wout (lit "</code></pre>") = true ->
  forall bol s r n,
    codeBlock bol s = Some (r, n) ->
    guarded mark W s = true -> guarded mark Wout r = true.
Proof.
  intros Hb Ha bol s r n Hm Hs. unfold codeBlock in Hm.
  destruct (startsWith fence s); [|discriminate].
  pose proof (guarded_dropWhile W isWordChar _ (guarded_skipn W 3 _ Hs)) as Hd.
  destruct (dropWhile isWordChar (skipn 3 s)) as [|c s3]; [discriminate|].
  destruct (N.eqb c LF); [|discriminate].
  destruct (indexOf fence s3) as [k|] eqn:Ek; [|discriminate].
  replacement_of Hm.
  apply guarded_app; [assumption|]. apply guarded_app; [|assumption].
  apply guarded_mono, guarded_trim.
  apply (guarded_before_needle fence s3 k); try assumption.
  - cbn [cutSafe fence]. now rewrite delimiter_not_inWindows.
  - discriminate.
  - now apply guarded_cons in Hd.
Qed.

Lemma codeBlock_inert :
  forall c s, inWindows W c = true -> codeBlock false (c :: s) = None.
Proof.
  intros c s Hc. unfold codeBlock, fence. cbn [startsWith].
  destruct (N.eqb BACKTICK c) eqn:E; [|reflexivity].
  apply N.eqb_eq in E. subst c. rewrite delimiter_not_inWindows in Hc by reflexivity.
  discriminate.
Qed.

Section LinkGuard.
Context {rt : Runtime}.

Lemma link_guarded :
  guarded mark Wout (lit "<a href=" ++ [QUOT]) = true ->
  guarded mark Wout ([QUOT] ++ lit " target=" ++ [QUOT] ++ lit "_blank" ++ [QUOT]
                     ++ lit " rel=" ++ [QUOT] ++ lit "noopener noreferrer" ++ [QUOT]
                     ++ lit ">") = true ->
  guarded mark Wout (lit "</a>") = true ->
  guarded mark Wout placeholder = true ->
  forall bol s r n,
    link bol s = Some (r, n) ->
    guarded mark W s = true -> guarded mark Wout r = true.
Proof.
  intros H1 H2 H3 H4 bol s r n Hm Hs. unfold link, delimited in Hm.
  destruct (startsWith (lit "[") s); [|discriminate].
  set (s1 := skipn (length (lit "[")) s) in *.
  destruct (nonEmpty _ && startsWith (lit "](") _); [|discriminate].
  set (s2 := skipn (length (lit "](")) (dropWhile (isNot 93) s1)) in *.
  destruct (startsWith [] s2); [|discriminate].
  destruct (nonEmpty _ && startsWith (lit ")") _); [|discriminate].
  replacement_of Hm.
  assert (Hs1 : guarded mark W s1 = true) by now apply guarded_skipn.
  assert (Hs2 : guarded mark W s2 = true)
    by now apply guarded_skipn, guarded_dropWhile.
  assert (Htext : guarded mark W (takeWhile (isNot 93) s1) = true).
  { apply guarded_takeWhile; [|assumption].
    intros x Hx. unfold isNot in Hx. apply negb_false_iff, N.eqb_eq in Hx. subst x.
    now apply delimiter_not_inWindows. }
  assert (Hurl : guarded mark W (takeWhile (isNot 41) (skipn (length (@nil N)) s2)) = true).
  { apply guarded_takeWhile; [|now apply guarded_skipn].
    intros x Hx. unfold isNot in Hx. apply negb_false_iff, N.eqb_eq in Hx. subst x.
    now apply delimiter_not_inWindows. }
  unfold anchor.
  set (text := takeWhile (isNot 93) s1) in *.
  set (url := takeWhile (isNot 41) (skipn (length (@nil N)) s2)) in *.
  assert (Hsafe : guarded mark Wout (safeUrl url) = true).
  { destruct (safeUrl_cases url) as [[-> _]|[-> _]]; [|assumption].
    now apply guarded_mono, guarded_trim. }
  change (lit "<a href=" ++ [QUOT] ++ safeUrl url ++ [QUOT] ++ lit " target=" ++ [QUOT]
          ++ lit "_blank" ++ [QUOT] ++ lit " rel=" ++ [QUOT] ++ lit "noopener noreferrer"
          ++ [QUOT] ++ lit ">" ++ text ++ lit "</a>")
    with ((lit "<a href=" ++ [QUOT]) ++ safeUrl url
          ++ ([QUOT] ++ lit " target=" ++ [QUOT] ++ lit "_blank" ++ [QUOT]
              ++ lit " rel=" ++ [QUOT] ++ lit "noopener noreferrer" ++ [QUOT] ++ lit ">")
          ++ text ++ lit "</a>").
  repeat (apply guarded_app; [assumption|]).
  apply guarded_app; [now apply guarded_mono|assumption].
Qed.

Lemma link_inert :
  forall c s, inWindows W c = true -> link false (c :: s) = None.
Proof.
  intros c s Hc. unfold link, delimited. cbn [lit list_ascii_of_string map startsWith].
  destruct (N.eqb _ c) eqn:E; [|reflexivity].
  apply N.eqb_eq in E. subst c. rewrite delimiter_not_inWindows in Hc by reflexivity.
  discriminate.
Qed.

End LinkGuard.


(** *** Lists and line breaks *)

Section Lines.

Lemma split_nonempty (sep : N) (s : jsstring) : split sep s <> [].
Proof.
  destruct s as [|c s]; [discriminate|]. cbn [split].
  destruct (N.eqb c sep); [discriminate|]. destruct (split sep s); discriminate.
Qed.

Lemma LF_cutSafe (rest : jsstring) : cutSafe W (LF :: rest) = true.
Proof.
  cbn [cutSafe]. apply negb_true_iff, not_true_is_false. intros H.
  destruct (inWindows_plain LF H) as (_ & E & _). discriminate.
Qed.

Lemma split_guarded (s : jsstring) :
  guarded mark W s = true -> forallb (guarded mark W) (split LF s) = true.
Proof.
  induction s as [|c s IH]; [reflexivity|]. intros H.
  pose proof H as Hcs. apply guarded_cons in H as [Hc Hs]. specialize (IH Hs).
  cbn [split]. destruct (N.eqb c LF) eqn:Ec; [exact IH|].
  destruct (split LF s) as [|l ls] eqn:Esp; [now apply split_nonempty in Esp|].
  cbn [forallb] in *. apply andb_true_iff in IH as [Hl Hls].
  rewrite Hls, andb_true_r. apply guarded_cons. split; [|assumption].
  destruct Hc as [Hc|Hc]; [now left|right].
  (* the line is cut at a newline, or is the end of the text *)
  assert (Hd : s = l \/ exists rest, s = l ++ LF :: rest).
  { clear -Esp. revert l ls Esp. induction s as [|d s IHs]; intros l ls Esp.
    - cbn in Esp. injection Esp as <- <-. now left.
    - cbn [split] in Esp. destruct (N.eqb d LF) eqn:Ed.
      + injection Esp as <- <-. apply N.eqb_eq in Ed. subst d. right. now exists s.
      + destruct (split LF s) as [|l' ls'] eqn:E'; [now apply split_nonempty in E'|].
        injection Esp as <- <-. destruct (IHs l' ls' eq_refl) as [->|[rest ->]].
        * now left.
        * right. now exists rest. }
  destruct Hd as [->|[rest ->]]; [assumption|].
  apply opens_cut with (b := LF :: rest); [assumption|apply LF_cutSafe].
Qed.

Lemma join_guarded (V : list jsstring) (sep : jsstring) (parts : list jsstring) :
  guarded mark V sep = true -> forallb (guarded mark V) parts = true ->
  guarded mark V (join sep parts) = true.
Proof.
  intros Hsep. induction parts as [|p parts IH]; [reflexivity|].
  cbn [forallb]. intros H. apply andb_true_iff in H as [Hp Hs].
  destruct parts as [|p2 parts]; [exact Hp|].
  change (join sep (p :: p2 :: parts)) with (p ++ sep ++ join sep (p2 :: parts)).
  apply guarded_app; [assumption|]. apply guarded_app; [assumption|now apply IH].
Qed.

Lemma ulItem_suffix (line item : jsstring) :
  ulItem line = Some item -> item = skipn 2 line.
Proof.
  unfold ulItem. destruct line as [|c [|sp rest]]; try discriminate.
  destruct (_ && _); [|discriminate]. now intros [= <-].
Qed.

Lemma olItem_suffix (line item : jsstring) :
  olItem line = Some item -> exists n, item = skipn n line.
Proof.
  unfold olItem. destruct (takeWhile isDigit line); [discriminate|].
  destruct (dropWhile_skipn isDigit line) as [k ->].
  destruct (skipn k line) as [|dot [|sp rest]] eqn:E; try discriminate.
  destruct (_ && _); [|discriminate]. intros [= <-].
  exists (2 + k). rewrite <- skipn_skipn, E. reflexivity.
Qed.

Hypothesis listTags : forallb (guarded mark W) listTemplates = true.

Lemma listTag_guarded (tag : jsstring) :
  In tag listTemplates ->
  guarded mark W tag = true.
Proof. intros H. rewrite forallb_forall in listTags. now apply listTags. Qed.

Lemma listItem_guarded (item : jsstring) :
  guarded mark W item = true -> guarded mark W (listItem item) = true.
Proof.
  intros H. unfold listItem.
  apply guarded_app; [apply listTag_guarded; cbn; tauto|].
  apply guarded_app; [assumption|apply listTag_guarded; cbn; tauto].
Qed.

Lemma listLoop_guarded (lines : list jsstring) (inUl inOl : bool) :
  forallb (guarded mark W) lines = true ->
  forallb (guarded mark W) (listLoop lines inUl inOl) = true.
Proof.
  assert (Hul := listTag_guarded (lit "<ul>") ltac:(cbn; tauto)).
  assert (Hul' := listTag_guarded (lit "</ul>") ltac:(cbn; tauto)).
  assert (Hol := listTag_guarded (lit "<ol>") ltac:(cbn; tauto)).
  assert (Hol' := listTag_guarded (lit "</ol>") ltac:(cbn; tauto)).
  revert inUl inOl. induction lines as [|line rest IH]; intros inUl inOl H.
  - cbn [listLoop]. rewrite forallb_app.
    destruct inUl, inOl; cbn [forallb andb]; now rewrite ?Hul', ?Hol'.
  - cbn [forallb] in H. apply andb_true_iff in H as [Hline Hrest].
    cbn [listLoop]. destruct (ulItem line) as [item|] eqn:Eu.
    + apply ulItem_suffix in Eu. subst item.
      rewrite forallb_app. cbn [forallb].
      rewrite listItem_guarded by now apply guarded_skipn.
      rewrite IH by assumption. destruct inUl; cbn [forallb andb]; now rewrite ?Hul.
    + destruct (olItem line) as [item|] eqn:Eo.
      * apply olItem_suffix in Eo as [n ->].
        rewrite forallb_app. cbn [forallb].
        rewrite listItem_guarded by now apply guarded_skipn.
        rewrite IH by assumption. destruct inOl; cbn [forallb andb]; now rewrite ?Hol.
      * rewrite !forallb_app. cbn [forallb]. rewrite Hline, IH by assumption.
        destruct inUl, inOl; cbn [forallb andb]; now rewrite ?Hul', ?Hol'.
Qed.

Lemma processLists_guarded (html : jsstring) :
  guarded mark W html = true -> guarded mark W (processLists html) = true.
Proof.
  intros H. unfold processLists. apply join_guarded.
  - apply guarded_unmarked. cbn [forallb]. rewrite andb_true_r. unfold isNot.
    apply negb_true_iff, not_true_is_false. intros E. apply N.eqb_eq in E.
    destruct mark_plain as [M _]. now rewrite <- E in M.
  - now apply listLoop_guarded, split_guarded.
Qed.

Lemma newlinesOutside_copy (u t : jsstring) (skip : nat) :
  forallb (isNot LF) u = true ->
  exists skip', newlinesOutside skip (u ++ t) = u ++ newlinesOutside skip' t.
Proof.
  revert skip. induction u as [|c u IH]; intros skip H; [now exists skip|].
  cbn [forallb] in H. apply andb_true_iff in H as [Hc Hu].
  unfold isNot in Hc. apply negb_true_iff in Hc.
  cbn [app newlinesOutside]. destruct skip as [|k].
  - destruct (blockAt (c :: u ++ t)) as [n|].
    + destruct (IH (pred n) Hu) as [skip' ->]. now exists skip'.
    + rewrite Hc. destruct (IH 0 Hu) as [skip' ->]. now exists skip'.
  - destruct (IH k Hu) as [skip' ->]. now exists skip'.
Qed.

Lemma newlinesOutside_guarded (s : jsstring) (skip : nat) :
  guarded mark W s = true -> guarded mark W (newlinesOutside skip s) = true.
Proof.
  assert (Hbr := listTag_guarded (lit "<br>") ltac:(cbn; tauto)).
  revert skip. induction s as [|c s IH]; intros skip H; [reflexivity|].
  apply guarded_cons in H as [Hc Hs].
  assert (Hcopy : forall k, guarded mark W (c :: newlinesOutside k s) = true).
  { intros k. apply guarded_cons. split; [|now apply IH].
    destruct Hc as [Hc|Hc]; [now left|right].
    destruct (opens_shape _ Hc) as (t & rest & Hw & E). injection E as -> ->.
    destruct (newlinesOutside_copy t rest k) as [skip' ->].
    - apply forallb_forall. intros x Hx. unfold isNot. apply negb_true_iff.
      destruct (window_shape _ Hw) as (t' & Et & Ht). injection Et as <-.
      destruct (Ht x Hx) as (_ & E & _). apply not_true_is_false. intros EL.
      apply N.eqb_eq in EL. subst x. discriminate.
    - change (mark :: t ++ newlinesOutside skip' rest)
        with ((mark :: t) ++ newlinesOutside skip' rest).
      apply opens_app. unfold opens. apply existsb_exists. exists (mark :: t).
      split; [assumption|]. rewrite <- (app_nil_r (mark :: t)) at 2. apply startsWith_app. }
  cbn [newlinesOutside]. destruct skip as [|k]; [|apply Hcopy].
  destruct (blockAt (c :: s)); [apply Hcopy|].
  destruct (N.eqb c LF) eqn:Ec; [|apply Hcopy].
  apply guarded_app; [assumption|now apply IH].
Qed.

End Lines.

End Guarded.

(** *** The passes, one after the other *)

Section RenderGuard.
Context {rt : Runtime}.
Variable mark : N.
Variable W Wout : list jsstring.
Hypothesis Wclean : cleanWindows mark W = true.
Hypothesis Wspace : spaceFree W = true.
Hypothesis WoutClean : cleanWindows mark Wout = true.
Hypothesis Wsub : forall w, In w W -> In w Wout.
Hypothesis inlineOk : forallb (guarded mark W) inlineTemplates = true.
Hypothesis blockOk : forallb (guarded mark Wout) blockTemplates = true.

Lemma inlineTemplate (t : jsstring) : In t inlineTemplates -> guarded mark W t = true.
Proof. intros H. rewrite forallb_forall in inlineOk. now apply inlineOk. Qed.

Lemma blockTemplate (t : jsstring) : In t blockTemplates -> guarded mark Wout t = true.
Proof. intros H. rewrite forallb_forall in blockOk. now apply blockOk. Qed.

Lemma codePass_guarded (s : jsstring) :
  forallb (guarded mark W) codeTemplates = true ->
  guarded mark W s = true -> guarded mark W (replaceGlobal codeBlock s) = true.
Proof.
  intros Hc. cbn [forallb codeTemplates] in Hc. rewrite !andb_true_iff in Hc.
  destruct Hc as (H1 & H2 & _).
  apply (replaceGlobal_guarded mark W Wclean W (fun _ H => H)).
  - now apply (codeBlock_guarded mark W Wclean Wspace W (fun _ H => H)).
  - now apply (codeBlock_inert mark W Wclean).
Qed.

Lemma wrapPass_guarded (o : N) (opening closing before after : jsstring) (stop : N) (s : jsstring) :
  In before inlineTemplates -> In after inlineTemplates ->
  isDelimiter o = true -> isDelimiter stop = true ->
  guarded mark W s = true ->
  guarded mark W (replaceGlobal (wrapDelimited (o :: opening) stop closing before after) s) = true.
Proof.
  intros Hb Ha Ho Hstop.
  apply (replaceGlobal_guarded mark W Wclean W (fun _ H => H)).
  - apply (wrapDelimited_guarded mark W Wclean W (fun _ H => H)); auto using inlineTemplate.
  - now apply (wrapDelimited_inert mark W Wclean).
Qed.

Lemma headerPass_guarded (marker before after : jsstring) (s : jsstring) :
  In before inlineTemplates -> In after inlineTemplates ->
  guarded mark W s = true ->
  guarded mark W (replaceGlobal (lineRule marker false before after) s) = true.
Proof.
  intros Hb Ha.
  apply (replaceGlobal_guarded mark W Wclean W (fun _ H => H)).
  - apply (lineRule_guarded mark W Wclean W (fun _ H => H)); auto using inlineTemplate.
  - apply lineRule_inert.
Qed.

Lemma inlinePasses_guarded (s : jsstring) :
  guarded mark W s = true -> guarded mark W (inlinePasses s) = true.
Proof.
  intros H. unfold inlinePasses.
  do 3 (apply headerPass_guarded; [cbn; tauto|cbn; tauto|]).
  do 5 (apply wrapPass_guarded; [cbn; tauto|cbn; tauto|reflexivity|reflexivity|]).
  exact H.
Qed.

Lemma blockPasses_guarded (s : jsstring) :
  guarded mark W s = true -> guarded mark Wout (blockPasses s) = true.
Proof.
  intros H. unfold blockPasses.
  apply (newlinesOutside_guarded mark Wout WoutClean).
  { rewrite forallb_forall. intros t Ht. apply blockTemplate.
    unfold blockTemplates. apply in_or_app. now right. }
  apply (replaceGlobal_guarded mark Wout WoutClean Wout (fun _ H => H)).
  { apply (lineRule_guarded mark Wout WoutClean Wout (fun _ H => H));
      apply blockTemplate; cbn; tauto. }
  { apply lineRule_inert. }
  apply (processLists_guarded mark Wout WoutClean).
  { rewrite forallb_forall. intros t Ht. apply blockTemplate.
    unfold blockTemplates. apply in_or_app. now right. }
  apply (replaceGlobal_guarded mark W Wclean Wout Wsub).
  - apply (link_guarded mark W Wclean Wspace Wout Wsub); apply blockTemplate; cbn; tauto.
  - now apply (link_inert mark W Wclean).
  - exact H.
Qed.

End RenderGuard.

(** *** Escaping *)

Section Escaping.

Lemma flat_map_compose (f g : N -> jsstring) (s : jsstring) :
  flat_map g (flat_map f s) = flat_map (fun x => flat_map g (f x)) s.
Proof.
  induction s as [|c s IH]; [reflexivity|].
  cbn [flat_map]. now rewrite flat_map_app, IH.
Qed.

Lemma escapeHtml_units (unsafe : jsstring) :
  escapeHtml unsafe = flat_map escapeOne unsafe.
Proof.
  unfold escapeHtml, replaceUnit. rewrite !flat_map_compose.
  apply flat_map_ext. intros c. unfold escapeOne.
  destruct (N.eqb c AMP) eqn:E1; [reflexivity|]. cbn [flat_map app].
  destruct (N.eqb c LT) eqn:E2; [reflexivity|]. cbn [flat_map app].
  destruct (N.eqb c GT) eqn:E3; [reflexivity|]. cbn [flat_map app].
  destruct (N.eqb c QUOT) eqn:E4; [reflexivity|]. cbn [flat_map app].
  destruct (N.eqb c APOS) eqn:E5; reflexivity.
Qed.

Lemma escapeOne_plain (c : N) : forallb (fun x => negb (isMeta x)) (escapeOne c) = true.
Proof.
  unfold escapeOne.
  destruct (N.eqb c AMP) eqn:E1; [reflexivity|].
  destruct (N.eqb c LT) eqn:E2; [reflexivity|].
  destruct (N.eqb c GT) eqn:E3; [reflexivity|].
  destruct (N.eqb c QUOT) eqn:E4; [reflexivity|].
  destruct (N.eqb c APOS) eqn:E5; [reflexivity|].
  cbn [forallb]. unfold isMeta. now rewrite E2, E3, E4, E5.
Qed.

Lemma escapeHtml_plain (unsafe : jsstring) :
  forallb (fun x => negb (isMeta x)) (escapeHtml unsafe) = true.
Proof.
  rewrite escapeHtml_units. induction unsafe as [|c s IH]; [reflexivity|].
  cbn [flat_map]. now rewrite forallb_app, escapeOne_plain, IH.
Qed.

Lemma plain_unmarked (mark : N) (s : jsstring) :
  isMeta mark = true ->
  forallb (fun x => negb (isMeta x)) s = true -> forallb (isNot mark) s = true.
Proof.
  intros Hm H. rewrite forallb_forall in *. intros x Hx. specialize (H x Hx).
  unfold isNot. apply negb_true_iff. apply negb_true_iff in H.
  destruct (N.eqb x mark) eqn:E; [|reflexivity]. apply N.eqb_eq in E. congruence.
Qed.

Lemma escapeHtml_entities (unsafe : jsstring) :
  guarded AMP entities (escapeHtml unsafe) = true.
Proof.
  rewrite escapeHtml_units. induction unsafe as [|c s IH]; [reflexivity|].
  cbn [flat_map]. apply guarded_app; [|assumption].
  unfold escapeOne.
  destruct (N.eqb c AMP) eqn:E1; [reflexivity|].
  destruct (N.eqb c LT) eqn:E2; [reflexivity|].
  destruct (N.eqb c GT) eqn:E3; [reflexivity|].
  destruct (N.eqb c QUOT) eqn:E4; [reflexivity|].
  destruct (N.eqb c APOS) eqn:E5; [reflexivity|].
  cbn [guarded]. now rewrite E1.
Qed.

Lemma guarded_no_window (mark : N) (s : jsstring) :
  guarded mark [] s = true -> forallb (isNot mark) s = true.
Proof.
  induction s as [|c s IH]; [reflexivity|]. cbn [guarded forallb opens existsb].
  rewrite orb_false_r. intros H. apply andb_true_iff in H as [Hc Hs].
  unfold isNot at 1. now rewrite Hc, IH.
Qed.

End Escaping.

Section Rendering.
Context {rt : Runtime}.

Lemma In_app_l (A : Type) (a b : list A) (x : A) : In x a -> In x (a ++ b).
Proof. intros H. apply in_or_app. now left. Qed.

Lemma beforeLinks_guarded (mark : N) (W : list jsstring) (text : jsstring) :
  cleanWindows mark W = true -> spaceFree W = true ->
  forallb (guarded mark W) inlineTemplates = true ->
  forallb (guarded mark W) codeTemplates = true ->
  guarded mark W (escapeHtml text) = true ->
  guarded mark W (beforeLinks text) = true.
Proof.
  intros Hc Hs Hi Hcode H. unfold beforeLinks.
  apply (inlinePasses_guarded mark W Hc Hi).
  now apply (codePass_guarded mark W Hc Hs).
Qed.

Lemma parseMarkdown_beforeLinks (text : jsstring) :
  parseMarkdown text = blockPasses (beforeLinks text).
Proof. reflexivity. Qed.

(** Every opening bracket of the output opens a tag of the renderer. *)
Lemma parseMarkdown_tags (text : jsstring) :
  guarded LT rendererTags (parseMarkdown text) = true.
Proof.
  rewrite parseMarkdown_beforeLinks.
  apply (blockPasses_guarded LT inlineTags rendererTags); try reflexivity.
  - intros w. apply In_app_l.
  - apply beforeLinks_guarded; try reflexivity.
    apply guarded_unmarked, (plain_unmarked LT); [reflexivity|apply escapeHtml_plain].
Qed.

(** Every ampersand of the output starts an entity. *)
Lemma parseMarkdown_entities (text : jsstring) :
  guarded AMP entities (parseMarkdown text) = true.
Proof.
  rewrite parseMarkdown_beforeLinks.
  apply (blockPasses_guarded AMP entities entities); try reflexivity.
  - auto.
  - apply beforeLinks_guarded; try reflexivity. apply escapeHtml_entities.
Qed.

(** No single quote in the output. *)
Lemma parseMarkdown_no_apostrophe (text : jsstring) :
  forallb (isNot APOS) (parseMarkdown text) = true.
Proof.
  apply guarded_no_window. rewrite parseMarkdown_beforeLinks.
  apply (blockPasses_guarded APOS [] []); try reflexivity.
  - auto.
  - apply beforeLinks_guarded; try reflexivity.
    apply guarded_unmarked, (plain_unmarked APOS); [reflexivity|apply escapeHtml_plain].
Qed.

(** No double quote in the text where the links are looked for: none can
    end the attribute that receives the target. *)
Lemma beforeLinks_no_quote (text : jsstring) :
  forallb (isNot QUOT) (beforeLinks text) = true.
Proof.
  apply guarded_no_window.
  apply beforeLinks_guarded; try reflexivity.
  apply guarded_unmarked, (plain_unmarked QUOT); [reflexivity|apply escapeHtml_plain].
Qed.

End Rendering.

(** The example of the specification: a script tag in the text comes out
    escaped. *)
Example script_tag_escaped :
  parseMarkdown (rt := JsonText.runtime) (lit "**bold** <script>alert(1)</script> `code`")
  = lit "<strong>bold</strong> &lt;script&gt;alert(1)&lt;/script&gt; <code>code</code>".
Proof. reflexivity. Qed.

(** ** The markdown renderer: fences *)

Section FenceFacts.

Lemma indexOf_none_skipn (needle s : jsstring) (n : nat) :
  indexOf needle s = None -> indexOf needle (skipn n s) = None.
Proof.
  revert s. induction n as [|n IH]; intros s H; [assumption|].
  destruct s as [|c s]; [assumption|]. cbn [skipn]. apply IH.
  cbn [indexOf] in H. destruct (startsWith needle (c :: s)); [discriminate|].
  now destruct (indexOf needle s).
Qed.

Lemma indexOf_first (needle s : jsstring) (i k : nat) :
  indexOf needle s = Some i -> k < i -> startsWith needle (skipn k s) = false.
Proof.
  revert s i. induction k as [|k IH]; intros s i H Hk.
  - destruct s as [|c s]; cbn [indexOf skipn] in *.
    + destruct (startsWith needle []); [injection H as <-; lia|reflexivity].
    + destruct (startsWith needle (c :: s)); [injection H as <-; lia|reflexivity].
  - destruct s as [|c s]; cbn [indexOf] in H.
    + destruct (startsWith needle []); [injection H as <-; lia|discriminate].
    + destruct (startsWith needle (c :: s)); [injection H as <-; lia|].
      destruct (indexOf needle s) as [j|] eqn:Ej; [|discriminate].
      injection H as <-. cbn [skipn]. apply (IH s j); [assumption|lia].
Qed.

(** With an unterminated fence the expression of code blocks matches
    nowhere in the text. *)
Lemma codeBlock_no_match (s : jsstring) (k : nat) (bol : bool) :
  unterminatedFence s = true -> codeBlock bol (skipn k s) = None.
Proof.
  unfold unterminatedFence. destruct (indexOf fence s) as [i|] eqn:Ei; [|discriminate].
  destruct (indexOf fence (skipn (i + 3) s)) eqn:Ej; [discriminate|]. intros _.
  unfold codeBlock. destruct (startsWith fence (skipn k s)) eqn:Es; [|reflexivity].
  assert (Hk : i <= k).
  { destruct (Nat.lt_ge_cases k i) as [Hlt|Hge]; [|assumption].
    rewrite (indexOf_first _ _ _ _ Ei Hlt) in Es. discriminate. }
  rewrite skipn_skipn.
  destruct (dropWhile_skipn isWordChar (skipn (3 + k) s)) as [n ->].
  rewrite skipn_skipn.
  destruct (skipn (n + (3 + k)) s) as [|c s3] eqn:E3; [reflexivity|].
  destruct (N.eqb c LF); [|reflexivity].
  assert (Hs3 : s3 = skipn (S (n + (3 + k)) - (i + 3)) (skipn (i + 3) s)).
  { rewrite skipn_skipn. replace (S (n + (3 + k)) - (i + 3) + (i + 3)) with (S (n + (3 + k))) by lia.
    change (S (n + (3 + k))) with (1 + (n + (3 + k))). rewrite <- skipn_skipn, E3. reflexivity. }
  rewrite Hs3, indexOf_none_skipn by assumption. reflexivity.
Qed.

(** Where the expression of code blocks matches, the text is an opening
    fence, a word, a newline, the code and a closing fence. *)
Lemma codeBlock_shape (bol : bool) (s r : jsstring) (n : nat) :
  codeBlock bol s = Some (r, n) ->
  exists lang code rest,
    s = fence ++ lang ++ LF :: code ++ fence ++ rest
    /\ r = lit "<pre><code>" ++ trim code ++ lit "</code></pre>".
Proof.
  unfold codeBlock. destruct (startsWith fence s) eqn:Es; [|discriminate].
  apply startsWith_spec in Es as [s1 ->]. change (skipn 3 (fence ++ s1)) with s1.
  pose proof (takeWhile_dropWhile isWordChar s1) as Hs1.
  destruct (dropWhile isWordChar s1) as [|c s3]; [discriminate|].
  destruct (N.eqb c LF) eqn:Ec; [|discriminate]. apply N.eqb_eq in Ec. subst c.
  destruct (indexOf fence s3) as [k|] eqn:Ek; [|discriminate].
  intros Hm. replacement_of Hm.
  destruct (indexOf_split _ _ _ Ek) as [rest Hrest].
  exists (takeWhile isWordChar s1), (firstn k s3), rest. split; [|reflexivity].
  now rewrite <- Hrest, firstn_skipn, Hs1.
Qed.

Lemma replaceAll_no_match (m : Matcher) (s : jsstring) (bol : bool) :
  (forall k b, m b (skipn k s) = None) -> replaceAll m 0 bol s = s.
Proof.
  revert bol. induction s as [|c s IH]; intros bol H; [reflexivity|].
  pose proof (H 0 bol) as H0. cbn [skipn] in H0.
  cbn [replaceAll]. rewrite H0. f_equal. apply IH.
  intros k b. exact (H (S k) b).
Qed.

(** Escaping neither makes nor breaks a fence. *)
Lemma escapeOne_backtick (c : N) :
  (N.eqb c BACKTICK = true /\ escapeOne c = [c])
  \/ (N.eqb c BACKTICK = false /\ exists d u, escapeOne c = d :: u
      /\ forallb (isNot BACKTICK) (d :: u) = true).
Proof.
  destruct (N.eqb c BACKTICK) eqn:E.
  - left. apply N.eqb_eq in E. subst c. split; reflexivity.
  - right. split; [reflexivity|]. unfold escapeOne.
    destruct (N.eqb c AMP); [eexists _, _; split; reflexivity|].
    destruct (N.eqb c LT); [eexists _, _; split; reflexivity|].
    destruct (N.eqb c GT); [eexists _, _; split; reflexivity|].
    destruct (N.eqb c QUOT); [eexists _, _; split; reflexivity|].
    destruct (N.eqb c APOS); [eexists _, _; split; reflexivity|].
    exists c, []. split; [reflexivity|]. cbn [forallb]. unfold isNot. now rewrite E.
Qed.

Lemma startsWith_escaped (p x : jsstring) :
  backticks p -> startsWith p (flat_map escapeOne x) = startsWith p x.
Proof.
  intros Hp. revert x. induction Hp as [|b p Hb Hp IH]; intros x; [reflexivity|].
  subst b. destruct x as [|c x]; [reflexivity|]. cbn [flat_map].
  destruct (escapeOne_backtick c) as [[Ec ->]|[Ec (d & u & -> & Hu)]].
  - cbn [app startsWith]. now rewrite IH.
  - cbn [app startsWith]. cbn [forallb] in Hu. apply andb_true_iff in Hu as [Hd _].
    unfold isNot in Hd. apply negb_true_iff in Hd.
    rewrite (N.eqb_sym BACKTICK d), Hd, (N.eqb_sym BACKTICK c), Ec. reflexivity.
Qed.

Lemma indexOf_skip_plain (u r : jsstring) :
  forallb (isNot BACKTICK) u = true ->
  indexOf fence (u ++ r) = option_map (Nat.add (length u)) (indexOf fence r).
Proof.
  induction u as [|c u IH]; intros H.
  - cbn [app length]. now destruct (indexOf fence r).
  - cbn [forallb] in H. apply andb_true_iff in H as [Hc Hu].
    unfold isNot in Hc. apply negb_true_iff in Hc.
    cbn [app length indexOf]. unfold fence at 1. cbn [startsWith].
    rewrite (N.eqb_sym BACKTICK c), Hc. cbn [andb]. rewrite IH by assumption.
    now destruct (indexOf fence r).
Qed.

Lemma fence_backticks : backticks fence.
Proof. repeat constructor. Qed.

Lemma indexOf_escaped (x : jsstring) :
  match indexOf fence x with
  | None => indexOf fence (flat_map escapeOne x) = None
  | Some i =>
      exists j, indexOf fence (flat_map escapeOne x) = Some j
                /\ skipn (j + 3) (flat_map escapeOne x) = flat_map escapeOne (skipn (i + 3) x)
  end.
Proof.
  induction x as [|c x IH]; [reflexivity|].
  cbn [indexOf]. destruct (startsWith fence (c :: x)) eqn:Es.
  - exists 0. split.
    + unfold indexOf. destruct (flat_map escapeOne (c :: x)) eqn:E;
        rewrite <- E, (startsWith_escaped fence (c :: x) fence_backticks), Es; reflexivity.
    + apply startsWith_spec in Es as [rest Hrest]. rewrite Hrest.
      unfold fence. cbn [app flat_map skipn Nat.add]. reflexivity.
  - assert (Hstep : indexOf fence (flat_map escapeOne (c :: x))
                    = option_map (Nat.add (length (escapeOne c)))
                                 (indexOf fence (flat_map escapeOne x))).
    { cbn [flat_map]. destruct (escapeOne_backtick c) as [[Ec ->]|[Ec (d & u & -> & Hu)]].
      - cbn [app length]. rewrite indexOf_cons_false.
        + now destruct (indexOf fence (flat_map escapeOne x)).
        + change (c :: flat_map escapeOne x) with ([c] ++ flat_map escapeOne x).
          replace [c] with (escapeOne c) by (apply N.eqb_eq in Ec; now subst c).
          change (escapeOne c ++ flat_map escapeOne x) with (flat_map escapeOne (c :: x)).
          now rewrite (startsWith_escaped fence (c :: x) fence_backticks).
      - now apply indexOf_skip_plain. }
    rewrite Hstep. destruct (indexOf fence x) as [i|].
    + destruct IH as (j & -> & Hj). cbn [option_map]. eexists. split; [reflexivity|].
      cbn [flat_map].
      replace (length (escapeOne c) + j + 3) with ((j + 3) + length (escapeOne c)) by lia.
      rewrite <- skipn_skipn, skipn_app_exact. exact Hj.
    + now rewrite IH.
Qed.

Lemma unterminatedFence_escaped (text : jsstring) :
  unterminatedFence text = true -> unterminatedFence (escapeHtml text) = true.
Proof.
  rewrite escapeHtml_units. unfold unterminatedFence.
  pose proof (indexOf_escaped text) as H1.
  destruct (indexOf fence text) as [i|]; [|discriminate].
  destruct H1 as (j & -> & Hj). rewrite Hj.
  pose proof (indexOf_escaped (skipn (i + 3) text)) as H2.
  destruct (indexOf fence (skipn (i + 3) text)); [discriminate|]. now rewrite H2.
Qed.

Lemma codePass_unterminated (text : jsstring) :
  unterminatedFence text = true ->
  replaceGlobal codeBlock (escapeHtml text) = escapeHtml text.
Proof.
  intros H. apply replaceAll_no_match. intros k b.
  now apply codeBlock_no_match, unterminatedFence_escaped.
Qed.

Lemma guarded_at (mark : N) (V : list jsstring) (s : jsstring) (k : nat) (rest : jsstring) :
  guarded mark V s = true -> skipn k s = mark :: rest -> opens V (mark :: rest) = true.
Proof.
  intros H E. apply (guarded_skipn mark V k) in H. rewrite E in H.
  apply guarded_cons in H as [[Hc|Hc] _]; [|assumption]. now rewrite N.eqb_refl in Hc.
Qed.

End FenceFacts.

Section FenceRendering.
Context {rt : Runtime}.

Lemma parseMarkdown_tags_no_pre (text : jsstring) :
  unterminatedFence text = true ->
  guarded LT rendererTagsNoPre (parseMarkdown text) = true.
Proof.
  intros H. rewrite parseMarkdown_beforeLinks. unfold beforeLinks.
  rewrite codePass_unterminated by assumption.
  apply (blockPasses_guarded LT inlineTagsNoPre rendererTagsNoPre); try reflexivity.
  - intros w. apply In_app_l.
  - apply (inlinePasses_guarded LT inlineTagsNoPre); try reflexivity.
    apply guarded_unmarked, (plain_unmarked LT); [reflexivity|apply escapeHtml_plain].
Qed.

Lemma no_pre (html : jsstring) :
  guarded LT rendererTagsNoPre html = true -> contains (lit "<pre") html = false.
Proof.
  intros H. unfold contains. destruct (indexOf (lit "<pre") html) as [k|] eqn:E; [|reflexivity].
  destruct (indexOf_split _ _ _ E) as [rest Hrest].
  apply (guarded_at LT rendererTagsNoPre html k (lit "pre" ++ rest)) in H; [|exact Hrest].
  discriminate H.
Qed.

End FenceRendering.

(** C6, as amended.  A code block is written only for a fence that has
    its closing marker.  When the text has a fence marker that is not
    terminated (the first one, none after it), the pass of code blocks
    leaves the escaped text as it is and the output holds no [<pre]: the
    fence is not rendered as a code block, and every [<] of the output
    opens one of the other tags of the renderer.  The renderer is a total
    function: no input makes it fail.  (That every tag opened is closed is
    not part of the amended claim.) *)
Theorem C6_unterminated_fence_not_rendered {rt : Runtime} (text : jsstring) :
  (forall bol s r n,
      codeBlock bol s = Some (r, n) ->
      exists lang code rest,
        s = fence ++ lang ++ LF :: code ++ fence ++ rest
        /\ r = lit "<pre><code>" ++ trim code ++ lit "</code></pre>")
  /\ (unterminatedFence text = true ->
      replaceGlobal codeBlock (escapeHtml text) = escapeHtml text
      /\ contains (lit "<pre") (parseMarkdown text) = false
      /\ guarded LT rendererTagsNoPre (parseMarkdown text) = true).
Proof.
  split; [apply codeBlock_shape|].
  intros H. split; [now apply codePass_unterminated|].
  split; [now apply no_pre, parseMarkdown_tags_no_pre|now apply parseMarkdown_tags_no_pre].
Qed.

Lemma C6_unterminated_fence_not_rendered_witness :
  contains (lit "<pre") (parseMarkdown (rt := JsonText.runtime) openFence) = false.
Proof.
  destruct (C6_unterminated_fence_not_rendered (rt := JsonText.runtime) openFence)
    as (_ & H). destruct H as (_ & H & _); [reflexivity|exact H].
Defined.

(** C6 as stated fails: with an unterminated fence in the text, the output
    can open a tag that it does not close.  Here the second code span is
    opened and not closed: its closing tag lies in the target of the link,
    which is refused and replaced as a whole. *)
Lemma C6_counterexample :
  unterminatedFence openFenceAndLink = true
  /\ countTag (lit "<code>") (parseMarkdown (rt := JsonText.runtime) openFenceAndLink) = 2
  /\ countTag (lit "</code>") (parseMarkdown (rt := JsonText.runtime) openFenceAndLink) = 1.
Proof. repeat split. Qed.


(* ================================================================== *)
(** * Part III: further properties                                     *)
(* ================================================================== *)

(** What the code does beyond what the specification states: how the
    router and the handler answer, what the multiplexer keeps of the order
    of its streams, what the decoder and the read loop do at the end of a
    stream, what the renderer makes of ordinary text and of each of its
    constructs, and what a call of [sendMessage] leaves in the history.
    Two statements of the specification on the renderer rest on the lemmas
    on its passes and are proved among them: C4, on the five
    metacharacters in the output, and C5, on the target of a rendered
    link. *)

(** ** The router and the chat handler *)

Section HandlerFacts.
Import Router.

Lemma calls_made (requestMessages : option (list ChatMessage)) (env : Env)
    (upstream : Upstream) (schedule : list Tone) :
  snd (handleChatRequest requestMessages env upstream schedule) =
  match requestMessages with
  | Some messages =>
      if credentialMissing env then []
      else map (fun tone => (tone, messagesWithTone tone (filter notSystem messages))) tones
  | None => []
  end.
Proof.
  unfold handleChatRequest. destruct requestMessages as [messages|]; [|reflexivity].
  destruct (credentialMissing env); [reflexivity|].
  now destruct (allStreams _).
Qed.

Lemma str_eqb_neq (a b : jsstring) : str_eqb a b = false <-> a <> b.
Proof. unfold str_eqb. destruct (list_eq_dec N.eq_dec a b); split; congruence. Qed.

(** The streams that [Promise.all] hands over: all of them, or none. *)
Lemma allStreams_tones (opened : Tone -> option Stream) :
  match allStreams (map (fun tone => (tone, opened tone)) tones) with
  | Some streams => forall tone, opened tone = Some (streams tone)
  | None => exists tone, opened tone = None
  end.
Proof.
  unfold tones. cbn [map allStreams].
  destruct (opened friendly) as [s1|] eqn:E1; [|now exists friendly].
  destruct (opened rude) as [s2|] eqn:E2; [|now exists rude].
  destruct (opened professional) as [s3|] eqn:E3; [|now exists professional].
  cbn [option_map]. intros []; cbn; assumption.
Qed.

End HandlerFacts.

Ltac routes :=
  repeat (split; intros);
  repeat match goal with
         | H : exists _, _ |- _ => destruct H
         | H : _ /\ _ |- _ => destruct H
         end;
  try discriminate; try congruence; try tauto; try (eexists; reflexivity).

(** X1.  The router.  A path outside [/api/] is served by the static assets; a
    path under it is answered by the worker: [/api/chat] by the chat
    handler for a POST and by 405 for any other method, every other path
    by 404.  The model API is called only for a POST to [/api/chat] whose
    body could be read, by a worker whose key is configured. *)
Theorem X1_fetch_routing (request : Router.Request) (env : Env)
    (upstream : Upstream) (schedule : list Tone) :
  let reply := Router.fetch request env upstream schedule in
  (fst reply = Router.FromAssets request
     <-> startsWith (lit "/api/") (Router.pathname request) = false)
  /\ ((exists response, fst reply = Router.FromChat response)
     <-> Router.pathname request = lit "/api/chat" /\ Router.method request = lit "POST")
  /\ (fst reply = Router.Plain 405 (lit "Method not allowed")
     <-> Router.pathname request = lit "/api/chat" /\ Router.method request <> lit "POST")
  /\ (fst reply = Router.Plain 404 (lit "Not found")
     <-> startsWith (lit "/api/") (Router.pathname request) = true
         /\ Router.pathname request <> lit "/api/chat")
  /\ (snd reply <> []
     <-> Router.pathname request = lit "/api/chat" /\ Router.method request = lit "POST"
         /\ credentialMissing env = false /\ Router.messages request <> None).
Proof.
  cbv zeta. unfold Router.fetch.
  destruct (str_eqb (Router.pathname request) (lit "/")) eqn:Eroot.
  { (* the root *)
    apply str_eqb_eq in Eroot. rewrite Eroot. cbn [orb fst snd]. routes. }
  cbn [orb].
  destruct (startsWith (lit "/api/") (Router.pathname request)) eqn:Eapi; cbn [negb].
  2:{ (* outside /api/ *)
    cbn [fst snd].
    assert (Hne : Router.pathname request <> lit "/api/chat")
      by (intros E; rewrite E in Eapi; discriminate).
    routes. }
  destruct (str_eqb (Router.pathname request) (lit "/api/chat")) eqn:Echat.
  2:{ (* another path under /api/ *)
    apply str_eqb_neq in Echat. cbn [fst snd]. routes. }
  apply str_eqb_eq in Echat.
  destruct (str_eqb (Router.method request) (lit "POST")) eqn:Epost.
  2:{ apply str_eqb_neq in Epost. cbn [fst snd]. routes. }
  apply str_eqb_eq in Epost. cbn [fst snd]. rewrite calls_made.
  destruct (Router.messages request) as [messages|]; [destruct (credentialMissing env)|];
    routes.
Qed.

Section PromptFacts.

Lemma filter_idem (A : Type) (p : A -> bool) (l : list A) :
  filter p (filter p l) = filter p l.
Proof.
  induction l as [|x l IH]; [reflexivity|]. cbn [filter].
  destruct (p x) eqn:E; [|exact IH]. cbn [filter]. now rewrite E, IH.
Qed.

Lemma filter_none (A : Type) (p : A -> bool) (l : list A) :
  filter (fun x => negb (p x)) (filter p l) = [].
Proof.
  induction l as [|x l IH]; [reflexivity|]. cbn [filter].
  destruct (p x) eqn:E; [|exact IH]. cbn [filter]. now rewrite E.
Qed.

Lemma filter_all (A : Type) (p : A -> bool) (l : list A) :
  forallb p l = true -> filter p l = l.
Proof.
  induction l as [|x l IH]; [reflexivity|]. cbn [forallb filter].
  intros H. apply andb_true_iff in H as [Hx Hl]. now rewrite Hx, IH.
Qed.

End PromptFacts.

(** X2.  The prompts.  When the handler calls the model API it makes one call
    per tone, in the order friendly, rude, professional, also when one of
    them is refused.  The messages of a call hold exactly one system
    message, the first: the prompt of the tone.  After it come the messages
    of the request that are not system messages, in their order: a system
    message sent by the client never reaches the model. *)
Theorem X2_calls_carry_tone_prompt (messages : list ChatMessage) (env : Env)
    (upstream : Upstream) (schedule : list Tone) :
  credentialMissing env = false ->
  let calls := snd (handleChatRequest (Some messages) env upstream schedule) in
  map fst calls = tones
  /\ forall tone sent, In (tone, sent) calls ->
       hd_error sent = Some {| role := system; content := TONE_PROMPTS tone |}
       /\ filter isSystem sent = [{| role := system; content := TONE_PROMPTS tone |}]
       /\ filter notSystem sent = filter notSystem messages
       /\ (forallb notSystem messages = true -> tl sent = messages).
Proof.
  intros Hkey. cbv zeta. rewrite calls_made, Hkey. split; [reflexivity|].
  intros tone sent Hin. apply in_map_iff in Hin as (tone' & [= <- <-] & _).
  unfold messagesWithTone. cbn [hd_error tl filter isSystem role].
  split; [reflexivity|].
  split; [|split].
  - f_equal.
    rewrite (filter_ext isSystem (fun msg => negb (notSystem msg)))
      by (intros msg; unfold notSystem; now rewrite negb_involutive).
    apply filter_none.
  - unfold notSystem at 1. cbn [isSystem role negb]. apply filter_idem.
  - intros H. now apply filter_all.
Qed.

Lemma X2_calls_carry_tone_prompt_witness :
  map fst (snd (handleChatRequest (Some intruded) configured greetingUpstream fairSchedule))
  = tones
  /\ In (rude, {| role := system; content := TONE_PROMPTS rude |} :: question)
        (snd (handleChatRequest (Some intruded) configured greetingUpstream fairSchedule)).
Proof.
  pose proof (X2_calls_carry_tone_prompt intruded configured greetingUpstream fairSchedule eq_refl)
    as [H _].
  split; [exact H|]. right. left. reflexivity.
Defined.

Section MuxExtensional.

(** Two runs of the multiplexer that agree task by task go on agreeing. *)
Lemma sameMux_step (m m' : Mux) (tone : Tone) :
  (forall t, tasks m t = tasks m' t) /\ enqueued m = enqueued m' /\ channel m = channel m' ->
  (forall t, tasks (step m tone) t = tasks (step m' tone) t)
  /\ enqueued (step m tone) = enqueued (step m' tone)
  /\ channel (step m tone) = channel (step m' tone).
Proof.
  intros (Ht & He & Hc). unfold step. rewrite <- Hc, <- (Ht tone), <- He.
  destruct (channel m) eqn:Ech; [|repeat split; auto; congruence..].
  assert (Hset : forall t tone', setTask (tasks m) tone t tone' = setTask (tasks m') tone t tone')
    by (intros t tone'; unfold setTask; now rewrite Ht).
  destruct (tasks m tone) as [[|chunk rest] [|]|]; repeat split; cbn [tasks enqueued channel];
    try assumption; try reflexivity; try congruence; try (intros tone'; apply Hset).
  unfold tones. cbn [forallb]. now rewrite !Hset.
Qed.

Lemma sameMux_fold (schedule : list Tone) (m m' : Mux) :
  (forall t, tasks m t = tasks m' t) /\ enqueued m = enqueued m' /\ channel m = channel m' ->
  enqueued (fold_left step schedule m) = enqueued (fold_left step schedule m')
  /\ channel (fold_left step schedule m) = channel (fold_left step schedule m').
Proof.
  revert m m'. induction schedule as [|tone rest IH]; intros m m' H; [tauto|].
  cbn [fold_left]. now apply IH, sameMux_step.
Qed.

Lemma multiplex_ext (streams streams' : Tone -> Stream) (schedule : list Tone) :
  (forall tone, streams tone = streams' tone) ->
  enqueued (multiplex streams schedule) = enqueued (multiplex streams' schedule)
  /\ channel (multiplex streams schedule) = channel (multiplex streams' schedule).
Proof.
  intros H. apply (sameMux_fold schedule (startMux streams) (startMux streams')).
  repeat split. intros tone. cbn. now rewrite H.
Qed.

End MuxExtensional.

(** X3.  The outcomes of the chat handler.  It answers 200 with an event stream
    or 500 with a JSON error, nothing else.  The error is the general one
    exactly when the body of the request cannot be read or, the key being
    configured, the model API refuses one of the three calls; no stream is
    opened then.  When the body is read, the key is configured and the
    three calls succeed, the response is the stream that the multiplexer
    writes from the three streams obtained. *)
Theorem X3_handler_outcomes (requestMessages : option (list ChatMessage)) (env : Env)
    (upstream : Upstream) (schedule : list Tone) :
  let response := fst (handleChatRequest requestMessages env upstream schedule) in
  (status response = 200 \/ status response = 500)
  /\ (status response = 500 -> exists message, response = jsonError message)
  /\ (response = jsonError (lit "Failed to process request")
      <-> requestMessages = None
          \/ (credentialMissing env = false
              /\ exists messages tone, requestMessages = Some messages
                  /\ upstream tone (messagesWithTone tone (filter notSystem messages)) = None))
  /\ (forall messages streams,
        requestMessages = Some messages -> credentialMissing env = false ->
        (forall tone,
           upstream tone (messagesWithTone tone (filter notSystem messages))
           = Some (streams tone)) ->
        response = {| status := 200;
                      contentType := lit "text/event-stream; charset=utf-8";
                      body := StreamBody (enqueued (multiplex streams schedule))
                                         (channel (multiplex streams schedule)) |}).
Proof.
  cbv zeta. unfold handleChatRequest.
  destruct requestMessages as [messages|]; cbn [fst].
  2:{ split; [now right|]. split; [intros _; now eexists|].
      split; [split; [now left|reflexivity]|]. discriminate. }
  destruct (credentialMissing env) eqn:Ekey; cbn [fst].
  { split; [now right|]. split; [intros _; now eexists|].
    split; [|discriminate]. split; [discriminate|].
    intros [H|(H & _)]; discriminate. }
  change (fun msg : ChatMessage => negb (isSystem msg)) with notSystem.
  rewrite map_map. cbn [fst snd].
  pose proof (allStreams_tones
                (fun tone => upstream tone (messagesWithTone tone (filter notSystem messages))))
    as Hall.
  cbv beta in Hall.
  destruct (allStreams _) as [streams|]; cbn [fst status].
  - split; [now left|]. split; [discriminate|].
    split.
    + split; [discriminate|]. intros [H|(_ & ms & tone & [= <-] & H)]; [discriminate|].
      rewrite Hall in H. discriminate.
    + intros ms streams' [= <-] _ Hs.
      destruct (multiplex_ext streams streams' schedule) as [-> ->]; [|reflexivity].
      intros tone. specialize (Hs tone). rewrite Hall in Hs. now injection Hs.
  - destruct Hall as [tone Htone].
    split; [now right|]. split; [intros _; now eexists|].
    split.
    + split; [|reflexivity]. intros _. right. split; [reflexivity|]. now exists messages, tone.
    + intros ms streams' [= <-] _ Hs. rewrite Hs in Htone. discriminate.
Qed.

(** ** The multiplexer: order and completeness *)

Section ServedFacts.
Variable streams : Tone -> Stream.

Lemma framesOfServed_snoc (served : Served) (tone : Tone) (chunk : option Delta) :
  framesOfServed (served ++ [(tone, chunk)]) = framesOfServed served ++ framesOfChunk tone chunk.
Proof.
  unfold framesOfServed. rewrite flat_map_app. cbn [flat_map fst snd]. now rewrite app_nil_r.
Qed.

Lemma servedTo_snoc_same (served : Served) (tone : Tone) (chunk : option Delta) :
  servedTo tone (served ++ [(tone, chunk)]) = servedTo tone served ++ [chunk].
Proof.
  unfold servedTo. rewrite filter_app, map_app. cbn [filter fst].
  now rewrite Tone_eqb_refl.
Qed.

Lemma servedTo_snoc_other (served : Served) (tone tone' : Tone) (chunk : option Delta) :
  tone' <> tone -> servedTo tone' (served ++ [(tone, chunk)]) = servedTo tone' served.
Proof.
  intros H. unfold servedTo. rewrite filter_app, map_app. cbn [filter fst].
  destruct (Tone_eqb tone tone') eqn:E; [apply Tone_eqb_eq in E; congruence|].
  cbn [map]. now rewrite app_nil_r.
Qed.

Lemma firstn_snoc (A : Type) (k : nat) (l : list A) (x : A) (rest : list A) :
  skipn k l = x :: rest -> firstn (S k) l = firstn k l ++ [x].
Proof.
  revert l. induction k as [|k IH]; intros l H.
  - cbn in H. now subst l.
  - destruct l as [|y l]; [discriminate|]. cbn [skipn] in H.
    cbn [firstn app]. f_equal. exact (IH _ H).
Qed.

Lemma turns_snoc_le (tone tone' : Tone) (done : list Tone) :
  turns tone' done <= turns tone' (done ++ [tone]).
Proof.
  unfold turns. rewrite filter_app, length_app. lia.
Qed.

Lemma accounts_start : accounts streams [] (startMux streams) [].
Proof.
  split; [reflexivity|]. intros tone. exists 0.
  repeat split; try (cbn; lia). now left.
Qed.

(** A turn that changes neither the tasks nor the channel content. *)
Lemma accounts_idle (done : list Tone) (m m' : Mux) (served : Served) (tone : Tone) :
  accounts streams done m served ->
  tasks m' = tasks m -> enqueued m' = enqueued m ->
  accounts streams (done ++ [tone]) m' served.
Proof.
  intros [He Ht] Htasks Henq. split; [congruence|].
  intros tone'. destruct (Ht tone') as (k & Hk & Hl & Hs & Hr). exists k.
  rewrite Htasks. repeat split; try assumption.
  pose proof (turns_snoc_le tone tone' done). lia.
Qed.

Lemma accounts_step (done : list Tone) (m : Mux) (served : Served) (tone : Tone) :
  accounts streams done m served ->
  exists served', accounts streams (done ++ [tone]) (step m tone) served'.
Proof.
  intros H. pose proof H as [He Ht]. unfold step.
  destruct (channel m) eqn:Ech;
    [|exists served; now apply (accounts_idle done m)..].
  destruct (Ht tone) as (k & Hk & Hl & Hs & Hr).
  destruct (tasks m tone) as [[|chunk rest] [|]|] eqn:Etask.
  - (* the stream ends *)
    exists served. split; [exact He|]. intros tone'. cbn [tasks].
    destruct (Tone_eq_dec tone' tone) as [->|Hne].
    + exists k. rewrite setTask_same, turns_snoc_same.
      destruct Hr as [Hr|[_ Hr]]; [|repeat split; try assumption; try lia; now right].
      injection Hr as Hskip _.
      assert (k = length (chunks (streams tone))).
      { apply (f_equal (@length _)) in Hskip. rewrite length_skipn in Hskip. cbn in Hskip. lia. }
      repeat split; try assumption; try lia. now right.
    + destruct (Ht tone') as (k' & Hk' & Hl' & Hs' & Hr'). exists k'.
      rewrite setTask_other, turns_snoc_other by assumption. now repeat split.
  - (* the stream fails *)
    exists served. now apply (accounts_idle done m).
  - (* a chunk is served *)
    destruct Hr as [Hr|[Hr _]]; [|discriminate].
    injection Hr as Hskip He'. symmetry in Hskip.
    destruct (skipn_cons_inv _ _ _ _ _ Hskip) as [Hrest Hlt].
    exists (served ++ [(tone, chunk)]). split.
    + cbn [enqueued]. now rewrite framesOfServed_snoc, He.
    + intros tone'. cbn [tasks]. destruct (Tone_eq_dec tone' tone) as [->|Hne].
      * exists (S k). rewrite setTask_same, turns_snoc_same, servedTo_snoc_same, Hs.
        repeat split; try lia.
        -- symmetry. exact (firstn_snoc _ _ _ _ _ Hskip).
        -- left. now rewrite Hrest, He'.
      * destruct (Ht tone') as (k' & Hk' & Hl' & Hs' & Hr'). exists k'.
        rewrite setTask_other, turns_snoc_other, servedTo_snoc_other by assumption.
        now repeat split.
  - destruct Hr as [Hr|[Hr _]]; [|discriminate].
    injection Hr as Hskip He'. symmetry in Hskip.
    destruct (skipn_cons_inv _ _ _ _ _ Hskip) as [Hrest Hlt].
    exists (served ++ [(tone, chunk)]). split.
    + cbn [enqueued]. now rewrite framesOfServed_snoc, He.
    + intros tone'. cbn [tasks]. destruct (Tone_eq_dec tone' tone) as [->|Hne].
      * exists (S k). rewrite setTask_same, turns_snoc_same, servedTo_snoc_same, Hs.
        repeat split; try lia.
        -- symmetry. exact (firstn_snoc _ _ _ _ _ Hskip).
        -- left. now rewrite Hrest, He'.
      * destruct (Ht tone') as (k' & Hk' & Hl' & Hs' & Hr'). exists k'.
        rewrite setTask_other, turns_snoc_other, servedTo_snoc_other by assumption.
        now repeat split.
  - exists served. now apply (accounts_idle done m).
Qed.

Lemma accounts_fold (schedule done : list Tone) (m : Mux) (served : Served) :
  accounts streams done m served ->
  exists served', accounts streams (done ++ schedule) (fold_left step schedule m) served'.
Proof.
  revert done m served. induction schedule as [|tone rest IH]; intros done m served H.
  - exists served. now rewrite app_nil_r.
  - cbn [fold_left]. replace (done ++ tone :: rest) with ((done ++ [tone]) ++ rest)
      by now rewrite <- app_assoc.
    destruct (accounts_step done m served tone H) as [served' H'].
    exact (IH _ _ _ H').
Qed.

End ServedFacts.

(** X4.  The multiplexer keeps the order of each stream.  Whatever the order in
    which the three tasks take their turns, what is on the channel is the
    frames of a sequence of served chunks in which the chunks of each tone
    are the first chunks of its stream, in the order of the stream, none
    skipped and none repeated; a task is served at most one chunk per turn.
    When the channel has been closed every stream has been served whole. *)
Theorem X4_multiplexer_preserves_stream_order (streams : Tone -> Stream) (schedule : list Tone) :
  let m := multiplex streams schedule in
  exists served,
    enqueued m = framesOfServed served
    /\ (forall tone, exists k,
          k <= turns tone schedule
          /\ servedTo tone served = firstn k (chunks (streams tone)))
    /\ (channel m = Closed -> forall tone, servedTo tone served = chunks (streams tone)).
Proof.
  cbv zeta. unfold multiplex.
  destruct (accounts_fold streams schedule [] _ _ (accounts_start streams)) as [served [He Ht]].
  cbn [app] in Ht. exists served. split; [exact He|]. split.
  - intros tone. destruct (Ht tone) as (k & Hk & _ & Hs & _). now exists k.
  - intros Hclosed tone.
    destruct (consistent_fold streams schedule _ (consistent_start streams)) as (_ & _ & Hall).
    specialize (Hall Hclosed tone).
    destruct (Ht tone) as (k & _ & _ & Hs & [Hr|[_ ->]]); [congruence|].
    now rewrite Hs, firstn_all.
Qed.

Section ChannelFacts.
Variable streams : Tone -> Stream.

Lemma step_appends (m : Mux) (tone : Tone) :
  exists frames, enqueued (step m tone) = enqueued m ++ frames.
Proof.
  unfold step. destruct (channel m); [|exists []; now rewrite app_nil_r..].
  destruct (tasks m tone) as [[|chunk rest] [|]|]; cbn [enqueued];
    try (exists []; now rewrite app_nil_r); now eexists.
Qed.

Lemma fold_step_appends (schedule : list Tone) (m : Mux) :
  exists frames, enqueued (fold_left step schedule m) = enqueued m ++ frames.
Proof.
  revert m. induction schedule as [|tone rest IH]; intros m.
  - exists []. now rewrite app_nil_r.
  - cbn [fold_left]. destruct (IH (step m tone)) as [later ->].
    destruct (step_appends m tone) as [now_ ->].
    exists (now_ ++ later). now rewrite app_assoc.
Qed.

Lemma fold_step_settled (schedule : list Tone) (m : Mux) :
  channel m <> Open -> fold_left step schedule m = m.
Proof.
  intros H. induction schedule as [|tone rest IH]; [reflexivity|].
  cbn [fold_left]. replace (step m tone) with m; [exact IH|].
  unfold step. now destruct (channel m).
Qed.

Lemma errored_step (m : Mux) (tone : Tone) :
  consistent streams m ->
  (channel m = Errored -> exists failed, ending (streams failed) = Failed) ->
  channel (step m tone) = Errored -> exists failed, ending (streams failed) = Failed.
Proof.
  intros (_ & HR & _) Hm. unfold step.
  destruct (channel m) eqn:Ech; [|now rewrite Ech|now rewrite Ech].
  destruct (tasks m tone) as [[|chunk rest] [|]|] eqn:Etask; cbn [channel];
    try discriminate; try (now rewrite Ech).
  - now destruct (forallb _ tones).
  - intros _. exists tone. symmetry. exact (HR _ _ _ Etask).
Qed.

Lemma errored_fold (schedule : list Tone) (m : Mux) :
  consistent streams m ->
  (channel m = Errored -> exists failed, ending (streams failed) = Failed) ->
  channel (fold_left step schedule m) = Errored ->
  exists failed, ending (streams failed) = Failed.
Proof.
  revert m. induction schedule as [|tone rest IH]; intros m Hc Hm; [exact Hm|].
  cbn [fold_left]. apply IH; [now apply consistent_step|now apply errored_step].
Qed.

End ChannelFacts.

(** X5.  The channel only grows, and it is final once it is closed or in
    error.  More turns of the tasks add frames after those already on the
    channel, never before or between them; when the channel has been
    closed or put in error no later turn changes anything.  The channel is
    put in error only when one of the streams fails. *)
Theorem X5_channel_grows_then_settles (streams : Tone -> Stream) (schedule more : list Tone) :
  let m := multiplex streams schedule in
  let m' := multiplex streams (schedule ++ more) in
  (exists frames, enqueued m' = enqueued m ++ frames)
  /\ (channel m <> Open -> m' = m)
  /\ (channel m = Errored -> exists failed, ending (streams failed) = Failed).
Proof.
  cbv zeta. unfold multiplex. rewrite fold_left_app. split; [|split].
  - apply fold_step_appends.
  - apply fold_step_settled.
  - apply errored_fold; [apply consistent_start|discriminate].
Qed.

(** ** The frames of the worker, read by the decoder of the client *)

Section FrameText.

Lemma unbroken_app (a b : jsstring) :
  unbroken (a ++ b) = unbroken a && unbroken b.
Proof. apply forallb_app. Qed.

Lemma hexDigit_large (n : N) : (48 <= hexDigit n)%N.
Proof. unfold hexDigit. destruct (N.ltb n 10); lia. Qed.

Lemma unbroken_large (s : jsstring) :
  Forall (fun c => (32 <= c)%N) s -> unbroken s = true.
Proof.
  induction 1 as [|c s Hc _ IH]; [reflexivity|].
  unfold unbroken in *. cbn [forallb]. rewrite IH, andb_true_r.
  unfold LF, CR.
  destruct (N.eqb_spec c 10); [lia|]. destruct (N.eqb_spec c 13); [lia|]. reflexivity.
Qed.

Lemma unicodeEscape_unbroken (c : N) : unbroken (unicodeEscape c) = true.
Proof.
  apply unbroken_large. unfold unicodeEscape.
  repeat constructor; try lia;
    match goal with |- (_ <= hexDigit ?n)%N => pose proof (hexDigit_large n); lia end.
Qed.

Lemma quoteUnit_unbroken (c : N) : unbroken (quoteUnit c) = true.
Proof.
  unfold quoteUnit.
  repeat match goal with
         | |- context [if N.eqb c ?k then _ else _] =>
             destruct (N.eqb_spec c k); [reflexivity|]
         end.
  destruct (N.ltb_spec c 32); [apply unicodeEscape_unbroken|].
  apply unbroken_large. repeat constructor. assumption.
Qed.

Lemma surrogate_large (c : N) :
  isHighSurrogate c = true \/ isLowSurrogate c = true -> (32 <= c)%N.
Proof.
  unfold isHighSurrogate, isLowSurrogate.
  intros [H|H]; apply andb_true_iff in H as [H _]; apply N.leb_le in H; lia.
Qed.

Lemma quoteUnits_unbroken (s : jsstring) : unbroken (quoteUnits s) = true.
Proof.
  remember (length s) as n eqn:En. revert s En.
  induction n as [n IH] using lt_wf_ind. intros s En.
  destruct s as [|c s]; [reflexivity|]. cbn [quoteUnits].
  assert (Hs : unbroken (quoteUnits s) = true)
    by (apply (IH (length s)); [subst n; cbn; lia|reflexivity]).
  destruct (isHighSurrogate c) eqn:Eh.
  - destruct s as [|d s']; [apply unicodeEscape_unbroken|].
    destruct (isLowSurrogate d) eqn:El.
    + change (c :: d :: quoteUnits s') with ([c; d] ++ quoteUnits s').
      rewrite unbroken_app. apply andb_true_iff. split.
      * apply unbroken_large. repeat constructor; apply surrogate_large; auto.
      * apply (IH (length s')); [subst n; cbn; lia|reflexivity].
    + now rewrite unbroken_app, unicodeEscape_unbroken, Hs.
  - destruct (isLowSurrogate c).
    + now rewrite unbroken_app, unicodeEscape_unbroken, Hs.
    + now rewrite unbroken_app, quoteUnit_unbroken, Hs.
Qed.

Lemma quote_unbroken (s : jsstring) : unbroken (quote s) = true.
Proof.
  unfold quote. now rewrite !unbroken_app, quoteUnits_unbroken.
Qed.

(** [JSON.stringify] writes the object on one line, and the line starts
    with the brace. *)
Lemma stringifyObject_unbroken (members : list (jsstring * jsstring)) :
  unbroken (stringifyObject members) = true.
Proof.
  unfold stringifyObject. rewrite !unbroken_app. cbn [lit]. 
  change (unbroken (lit "{")) with true. change (unbroken (lit "}")) with true.
  rewrite andb_true_r. cbn [andb].
  induction members as [|kv rest IH]; [reflexivity|].
  cbn [map]. destruct rest as [|kv' rest].
  - cbn [map join]. now rewrite !unbroken_app, !quote_unbroken.
  - change (join (lit ",") (?x :: map ?f (kv' :: rest)))
      with (x ++ lit "," ++ join (lit ",") (map f (kv' :: rest))).
    rewrite !unbroken_app, !quote_unbroken, IH. reflexivity.
Qed.

Lemma stringifyObject_trimmed (members : list (jsstring * jsstring)) :
  trimStart (stringifyObject members) = stringifyObject members.
Proof. reflexivity. Qed.

Lemma stringifyObject_not_sentinel (members : list (jsstring * jsstring)) :
  str_eqb (stringifyObject members) sentinel = false.
Proof. apply str_eqb_neq. discriminate. Qed.

End FrameText.

(** X6.  Frames survive the trip.  The text that the worker writes for a
    sequence of JSON objects, one frame after the other, is cut by the
    decoder of the client into exactly these JSON texts, in order, with
    nothing left over: whatever the strings hold (newlines, blank lines,
    carriage returns, the text of a sentinel), [JSON.stringify] keeps each
    payload on one line, so that a payload never ends a frame early. *)
Theorem X6_worker_frames_are_decoded (objects : list (list (jsstring * jsstring)))
    (rest : jsstring) :
  consumeSseEvents (concat (map (fun members => sseFrame (stringifyObject members)) objects)
                    ++ rest)
  = (map stringifyObject objects ++ fst (consumeSseEvents rest),
     snd (consumeSseEvents rest)).
Proof.
  induction objects as [|members objects IH].
  - cbn [map concat app]. now destruct (consumeSseEvents rest).
  - cbn [map concat]. rewrite <- app_assoc.
    change (sseFrame (stringifyObject members)) with (dataFrame (stringifyObject members)).
    rewrite dataFrame_events, IH.
    + reflexivity.
    + apply stringifyObject_unbroken.
    + apply stringifyObject_trimmed.
Qed.

(** ** The decoder: what it leaves over *)

Section RemainderFacts.

Lemma decode_remainder_open (s : jsstring) :
  indexOf delimiter (snd (decode s)) = None.
Proof.
  remember (length s) as n eqn:En. revert s En.
  induction n as [n IH] using lt_wf_ind. intros s En.
  destruct (indexOf delimiter s) as [i|] eqn:Hi.
  - pose proof (indexOf_bound _ _ _ Hi) as Hb. simpl in Hb.
    rewrite (decode_some _ _ Hi). cbn [snd].
    apply (IH (length (skipn (i + 2) s))); [rewrite length_skipn; lia|reflexivity].
  - now rewrite (decode_none _ Hi).
Qed.

Lemma indexOf_app_r (needle a : jsstring) :
  indexOf needle (a ++ needle) <> None.
Proof.
  induction a as [|c a IH].
  - cbn [app]. destruct needle as [|x needle]; [discriminate|].
    cbn [indexOf]. rewrite <- (app_nil_r (x :: needle)) at 2.
    now rewrite startsWith_app.
  - cbn [app indexOf]. destruct (startsWith needle (c :: a ++ needle)); [discriminate|].
    destruct (indexOf needle (a ++ needle)); [discriminate|contradiction].
Qed.

(** After a closing delimiter the remainder is empty or one newline. *)
Lemma remainder_closed (s : jsstring) :
  snd (decode (s ++ delimiter)) = [] \/ snd (decode (s ++ delimiter)) = [LF].
Proof.
  pose proof (decode_remainder_open (s ++ delimiter)) as Hopen.
  destruct (decode_remainder_suffix (s ++ delimiter)) as [k Hk].
  rewrite Hk in *. clear Hk.
  destruct (Nat.le_gt_cases k (length s)) as [Hle|Hgt].
  - exfalso. rewrite skipn_app in Hopen.
    replace (k - length s) with 0 in Hopen by lia. cbn [skipn] in Hopen.
    exact (indexOf_app_r _ _ Hopen).
  - rewrite skipn_app, skipn_all2 by lia. cbn [app].
    destruct (k - length s) as [|[|[|j]]] eqn:E; [lia|now right|now left|now left].
Qed.

Lemma closing_twice (s : jsstring) :
  fst (consumeSseEvents (s ++ delimiter ++ delimiter)) = fst (consumeSseEvents (s ++ delimiter)).
Proof.
  rewrite app_assoc, consumeSseEvents_app. cbn [fst].
  rewrite (consumeSseEvents_decode (s ++ delimiter)), normalize_app.
  change (normalize delimiter) with delimiter.
  destruct (remainder_closed (normalize s)) as [-> | ->]; cbn [app];
    change (fst (consumeSseEvents _)) with (@nil jsstring); now rewrite app_nil_r.
Qed.

End RemainderFacts.

(** X7.  What the decoder leaves over.  The remainder it returns is the end of
    the normalized buffer, holds no carriage return and no delimiter, and
    therefore no complete frame: decoding it again yields no payload and
    the same remainder. *)
Theorem X7_remainder_holds_no_frame (buffer : jsstring) :
  let remainder := snd (consumeSseEvents buffer) in
  (exists k, remainder = skipn k (normalize buffer))
  /\ normalize remainder = remainder
  /\ indexOf delimiter remainder = None
  /\ consumeSseEvents remainder = ([], remainder).
Proof.
  cbv zeta. split; [|split; [|split]].
  - rewrite consumeSseEvents_decode. apply decode_remainder_suffix.
  - apply remainder_normalized.
  - rewrite consumeSseEvents_decode. apply decode_remainder_open.
  - apply remainder_fixed.
Qed.

(** ** The read loop: the end of the stream and the sentinel *)

Section LoopFacts.
Context {rt : Runtime}.

Lemma beforeSentinel_cut (events later : list jsstring) :
  beforeSentinel (events ++ sentinel :: later) = beforeSentinel events.
Proof.
  induction events as [|data events IH]; cbn [app beforeSentinel].
  - now rewrite str_eqb_refl.
  - destruct (str_eqb data sentinel); [reflexivity|]. now rewrite IH.
Qed.

Lemma decodedFrames_closed (stream : jsstring) :
  decodedFrames (stream ++ delimiter) = decodedFrames stream.
Proof.
  unfold decodedFrames. now rewrite <- app_assoc, closing_twice.
Qed.

End LoopFacts.

(** X8.  The sentinel ends the exchange.  When the stream holds the frame
    [data: [DONE]] on a frame boundary, the buffers end as they do for the
    stream cut before that frame: nothing that follows the sentinel is
    routed, however the stream is cut into chunks. *)
Theorem X8_frames_after_sentinel_are_ignored {rt : Runtime}
    (chunks : list jsstring) (before after : jsstring) (t : Tone) :
  concat chunks = before ++ dataFrame sentinel ++ after ->
  snd (consumeSseEvents before) = [] ->
  sendMessage chunks t = sendMessage [before] t.
Proof.
  intros Hc Hb. rewrite !sendMessage_frames, Hc. cbn [concat]. rewrite app_nil_r.
  rewrite decodedFrames_with_frame by (assumption || reflexivity).
  rewrite beforeSentinel_cut.
  rewrite <- (app_nil_r before) at 2.
  rewrite decodedFrames_app by assumption.
  change (fst (consumeSseEvents ([] ++ delimiter))) with (@nil jsstring).
  now rewrite app_nil_r.
Qed.

Lemma X8_frames_after_sentinel_are_ignored_witness :
  responseText (sendMessage (rt := JsonText.runtime)
                  [frameBefore; dataFrame sentinel ++ frameAfter] friendly)
  = lit "Hello".
Proof.
  rewrite (X8_frames_after_sentinel_are_ignored (rt := JsonText.runtime)
             [frameBefore; dataFrame sentinel ++ frameAfter] frameBefore frameAfter friendly).
  - reflexivity.
  - reflexivity.
  - reflexivity.
Defined.

(** X9.  The last frame needs no closing blank line.  When the reads are over
    the loop decodes what is left as if a delimiter followed it, so a
    stream and the same stream followed by a delimiter leave the same
    buffers: a final frame is routed whether or not the server closed it. *)
Theorem X9_final_frame_needs_no_delimiter {rt : Runtime}
    (chunks chunks' : list jsstring) (t : Tone) :
  concat chunks' = concat chunks ++ delimiter ->
  sendMessage chunks' t = sendMessage chunks t.
Proof.
  intros H. rewrite !sendMessage_frames, H. now rewrite decodedFrames_closed.
Qed.

Lemma X9_final_frame_needs_no_delimiter_witness :
  sendMessage (rt := JsonText.runtime) (mixedChunks ++ [[LF]; [LF]]) friendly
  = sendMessage (rt := JsonText.runtime) mixedChunks friendly.
Proof.
  apply (X9_final_frame_needs_no_delimiter (rt := JsonText.runtime)).
  rewrite concat_app. reflexivity.
Defined.

(** ** Routing: one frame, one tone *)

Section RoutingFacts.
Context {rt : Runtime}.

Lemma appendTruthy_extends (text : jsstring) (v : option value) (text' : jsstring) :
  appendTruthy text v = Some text' -> exists added, text' = text ++ added.
Proof.
  rewrite appendTruthy_from_empty.
  destruct (appendTruthy [] v) as [added|]; [|discriminate].
  intros [= <-]. now exists added.
Qed.

Lemma update_same (els : ResponseElements) (t : Tone) (b : StreamBuffer) :
  update els t b t = b.
Proof. unfold update. now rewrite Tone_eqb_refl. Qed.

Lemma update_other (els : ResponseElements) (t t' : Tone) (b : StreamBuffer) :
  t' <> t -> update els t b t' = els t'.
Proof.
  intros H. unfold update. destruct (Tone_eqb t' t) eqn:E; [|reflexivity].
  now apply Tone_eqb_eq in E.
Qed.

End RoutingFacts.

(** X10.  One frame, one tone.  Handling a payload leaves the buffers of all
    tones but one as they are, and to the two texts of that tone it only
    appends: nothing received earlier is dropped or rewritten, whatever
    the payload holds. *)
Theorem X10_frame_extends_one_buffer {rt : Runtime} (els : ResponseElements) (data : jsstring) :
  exists t thinking response,
    (forall t', t' <> t -> handleData els data t' = els t')
    /\ thinkingText (handleData els data t) = thinkingText (els t) ++ thinking
    /\ responseText (handleData els data t) = responseText (els t) ++ response.
Proof.
  assert (Hsame : forall els', els' = els ->
            exists t thinking response,
              (forall t', t' <> t -> els' t' = els t')
              /\ thinkingText (els' t) = thinkingText (els t) ++ thinking
              /\ responseText (els' t) = responseText (els t) ++ response).
  { intros els' ->. exists friendly, [], []. now rewrite !app_nil_r. }
  unfold handleData.
  destruct (JSON_parse data) as [jsonData|]; [|now apply Hsame].
  destruct (getProp jsonData (lit "tone")) as [tone|]; [|now apply Hsame].
  destruct (negb (truthy tone)); [now apply Hsame|].
  destruct tone as [toneValue|]; [|now apply Hsame].
  destruct (ToString toneValue) as [key|]; [|now apply Hsame].
  destruct (ownEntry key) as [t|]; [|now apply Hsame].
  destruct (getProp jsonData (lit "thinking")) as [thinking|]; [|now apply Hsame].
  destruct (getProp jsonData (lit "response")) as [response|]; [|now apply Hsame].
  destruct (appendTruthy (thinkingText (els t)) thinking) as [thinkingText'|] eqn:Eth;
    [|now apply Hsame].
  destruct (appendTruthy_extends _ _ _ Eth) as [added ->].
  destruct (appendTruthy (responseText (els t)) response) as [responseText'|] eqn:Er.
  - destruct (appendTruthy_extends _ _ _ Er) as [added' ->].
    exists t, added, added'. split; [|split].
    + intros t' Hne. now rewrite !update_other.
    + now rewrite update_same.
    + now rewrite update_same.
  - exists t, added, []. split; [|split].
    + intros t' Hne. now rewrite update_other.
    + now rewrite update_same.
    + rewrite update_same. cbn [responseText]. now rewrite app_nil_r.
Qed.


(** ** From the streams of the model to the buffers of the client *)

Section Reassembly.
Context {rt : Runtime}.

Lemma framesOfChunk_encoded (tone : Tone) (chunk : option Delta) :
  framesOfChunk tone chunk = map encode (dataOfChunk tone chunk).
Proof.
  unfold framesOfChunk, dataOfChunk, payloadsOfChunk.
  change (match chunk with Some delta => orEmpty (reasoning_content delta) | None => [] end)
    with (thinkingOf chunk).
  change (match chunk with Some delta => orEmpty (delta_content delta) | None => [] end)
    with (contentOf chunk).
  rewrite !map_app.
  destruct (nonEmpty (thinkingOf chunk)), (nonEmpty (contentOf chunk)); reflexivity.
Qed.

Lemma framesOfServed_encoded (served : Served) :
  framesOfServed served = map encode (flat_map (fun tc => dataOfChunk (fst tc) (snd tc)) served).
Proof.
  unfold framesOfServed. induction served as [|[tone chunk] served IH]; [reflexivity|].
  cbn [flat_map fst snd]. now rewrite map_app, IH, framesOfChunk_encoded.
Qed.

Lemma stringified_frame_events (members : list (jsstring * jsstring)) (rest : jsstring) :
  consumeSseEvents (sseFrame (stringifyObject members) ++ rest)
  = (stringifyObject members :: fst (consumeSseEvents rest), snd (consumeSseEvents rest)).
Proof.
  change (sseFrame (stringifyObject members)) with (dataFrame (stringifyObject members)).
  apply dataFrame_events; [apply stringifyObject_unbroken|apply stringifyObject_trimmed].
Qed.

Lemma payloads_events (payloads : list jsstring) (rest : jsstring) :
  Forall (fun p => exists members, p = stringifyObject members) payloads ->
  consumeSseEvents (concat (map sseFrame payloads) ++ rest)
  = (payloads ++ fst (consumeSseEvents rest), snd (consumeSseEvents rest)).
Proof.
  induction 1 as [|p payloads [members ->] _ IH].
  - cbn [map concat app]. now destruct (consumeSseEvents rest).
  - cbn [map concat]. now rewrite <- app_assoc, stringified_frame_events, IH.
Qed.

Lemma payloadsOfChunk_stringified (tone : Tone) (chunk : option Delta) :
  Forall (fun p => exists members, p = stringifyObject members) (payloadsOfChunk tone chunk).
Proof.
  unfold payloadsOfChunk. apply Forall_app.
  split; destruct (nonEmpty _); repeat constructor; eexists; reflexivity.
Qed.

Lemma payloadsOfServed_stringified (served : Served) :
  Forall (fun p => exists members, p = stringifyObject members) (payloadsOfServed served).
Proof.
  unfold payloadsOfServed. induction served as [|[tone chunk] served IH]; [constructor|].
  cbn [flat_map]. apply Forall_app. split; [apply payloadsOfChunk_stringified|exact IH].
Qed.

Lemma textOfServed_frames (served : Served) :
  textOfServed served = concat (map sseFrame (payloadsOfServed served)).
Proof.
  unfold textOfServed, payloadsOfServed, dataOfChunk. f_equal.
  induction served as [|[tone chunk] served IH]; [reflexivity|].
  cbn [flat_map]. now rewrite map_app, IH.
Qed.

Lemma beforeSentinel_stringified (payloads : list jsstring) :
  Forall (fun p => exists members, p = stringifyObject members) payloads ->
  beforeSentinel payloads = payloads.
Proof.
  induction 1 as [|p payloads [members ->] _ IH]; [reflexivity|].
  cbn [beforeSentinel]. now rewrite stringifyObject_not_sentinel, IH.
Qed.

Lemma decodedFrames_served (served : Served) :
  decodedFrames (textOfServed served) = payloadsOfServed served.
Proof.
  unfold decodedFrames.
  rewrite textOfServed_frames, payloads_events by apply payloadsOfServed_stringified.
  change (fst (consumeSseEvents delimiter)) with (@nil jsstring).
  rewrite app_nil_r. apply beforeSentinel_stringified, payloadsOfServed_stringified.
Qed.

Lemma toneName_eqb (a b : Tone) : str_eqb (toneName a) (toneName b) = Tone_eqb a b.
Proof. now destruct a, b. Qed.

Lemma wellFormed_parsed (payload : jsstring) (members : list (jsstring * value)) (f : Frame) :
  JSON_parse payload = Some (JObject members) -> frameOf (JObject members) = Some f ->
  malformedOrWellFormed payload = true.
Proof. intros Hp Hf. unfold malformedOrWellFormed. now rewrite Hp, Hf. Qed.

(** What the two frames of a chunk add to the texts of a tone. *)
Lemma routed_chunk (tone : Tone) (chunk : option Delta) (t : Tone) :
  readsBack [(tone, chunk)] ->
  concat (map (routedResponse t) (payloadsOfChunk tone chunk))
  = (if Tone_eqb tone t then contentOf chunk else [])
  /\ concat (map (routedThinking t) (payloadsOfChunk tone chunk))
     = (if Tone_eqb tone t then thinkingOf chunk else []).
Proof.
  intros Hr. destruct (Hr tone chunk (or_introl eq_refl)) as [Hth Hre].
  assert (Wth : malformedOrWellFormed (thinkingPayload tone (thinkingOf chunk)) = true)
    by (eapply wellFormed_parsed; [exact Hth|reflexivity]).
  assert (Wre : malformedOrWellFormed (responsePayload tone (contentOf chunk)) = true)
    by (eapply wellFormed_parsed; [exact Hre|reflexivity]).
  assert (R1 : routedResponse t (thinkingPayload tone (thinkingOf chunk)) = []).
  { rewrite (routedResponse_fragment t _ Wth). unfold responseFragment. rewrite Hth.
    cbn. reflexivity. }
  assert (R2 : routedResponse t (responsePayload tone (contentOf chunk))
               = if Tone_eqb tone t then contentOf chunk else []).
  { rewrite (routedResponse_fragment t _ Wre). unfold responseFragment. rewrite Hre.
    cbn. now rewrite toneName_eqb. }
  assert (T1 : routedThinking t (thinkingPayload tone (thinkingOf chunk))
               = if Tone_eqb tone t then thinkingOf chunk else []).
  { rewrite (routedThinking_fragment t _ Wth). unfold thinkingFragment. rewrite Hth.
    cbn. now rewrite toneName_eqb. }
  assert (T2 : routedThinking t (responsePayload tone (contentOf chunk)) = []).
  { rewrite (routedThinking_fragment t _ Wre). unfold thinkingFragment. rewrite Hre.
    cbn. reflexivity. }
  unfold payloadsOfChunk. rewrite !map_app, !concat_app.
  destruct (nonEmpty (thinkingOf chunk)) eqn:Eth, (nonEmpty (contentOf chunk)) eqn:Ere;
    cbn [map concat app]; rewrite ?R1, ?R2, ?T1, ?T2, ?app_nil_r; cbn [app].
  all: try (destruct (thinkingOf chunk); [|discriminate]).
  all: try (destruct (contentOf chunk); [|discriminate]).
  all: split; try reflexivity; now destruct (Tone_eqb tone t).
Qed.

Lemma readsBack_cons (tc : Tone * option Delta) (served : Served) :
  readsBack (tc :: served) -> readsBack [tc] /\ readsBack served.
Proof.
  intros H. split; intros tone chunk Hin; apply H.
  - destruct Hin as [<-|[]]. now left.
  - now right.
Qed.

Lemma routed_served (served : Served) (t : Tone) :
  readsBack served ->
  concat (map (routedResponse t) (payloadsOfServed served))
  = concat (map contentOf (servedTo t served))
  /\ concat (map (routedThinking t) (payloadsOfServed served))
     = concat (map thinkingOf (servedTo t served)).
Proof.
  unfold payloadsOfServed, servedTo.
  induction served as [|[tone chunk] served IH]; intros Hr; [now split|].
  apply readsBack_cons in Hr as [Hone Hrest].
  destruct (IH Hrest) as [IHr IHt]. destruct (routed_chunk tone chunk t Hone) as [Hc Ht].
  cbn [flat_map filter fst snd]. rewrite !map_app, !concat_app, IHr, IHt, Hc, Ht.
  destruct (Tone_eqb tone t); cbn [map concat app]; split; reflexivity.
Qed.

End Reassembly.

(** X12.  From the streams to the buffers.  Take the chunks that the tasks of
    the worker were served, in any interleaving, and let the client
    receive the text of their frames, cut into reads in any way.  If
    [JSON.parse] reads these payloads as the objects that were written,
    the client decodes exactly the payloads written, and when its read
    loop is left the response text of a tone is the concatenation of the
    [content] fragments of the chunks served from the stream of that tone,
    in the order of the stream, and its thinking text that of their
    [reasoning_content] fragments: what is meant for one tone never
    reaches another.  The bytes on the channel are the encoding of these
    frames. *)
Theorem X12_client_reassembles_streams {rt : Runtime}
    (served : Served) (chunks : list jsstring) (t : Tone) :
  readsBack served ->
  concat chunks = textOfServed served ->
  framesOfServed served
    = map encode (flat_map (fun tc => dataOfChunk (fst tc) (snd tc)) served)
  /\ decodedFrames (concat chunks) = payloadsOfServed served
  /\ responseText (sendMessage chunks t) = concat (map contentOf (servedTo t served))
  /\ thinkingText (sendMessage chunks t) = concat (map thinkingOf (servedTo t served)).
Proof.
  intros Hr Hc. destruct (routed_served served t Hr) as [Hresp Hthink].
  split; [apply framesOfServed_encoded|].
  split; [rewrite Hc; apply decodedFrames_served|].
  rewrite sendMessage_frames, Hc, decodedFrames_served.
  rewrite fold_handleData_routed, fold_handleData_routedThinking.
  cbn [initialElements responseText thinkingText app]. now split.
Qed.

Lemma X12_client_reassembles_streams_witness :
  responseText (sendMessage (rt := JsonText.runtime) talkReads friendly)
  = lit "Hello" ++ [LF; LF] ++ lit "you"
  /\ thinkingText (sendMessage (rt := JsonText.runtime) talkReads friendly) = lit "hm"
  /\ responseText (sendMessage (rt := JsonText.runtime) talkReads rude) = lit "No.".
Proof.
  assert (Hr : readsBack (rt := JsonText.runtime) talk).
  { intros tone chunk [E|[E|[E|[E|[]]]]]; injection E as <- <-; split; reflexivity. }
  destruct (X12_client_reassembles_streams (rt := JsonText.runtime) talk talkReads friendly
              Hr eq_refl) as (_ & _ & Hf & Ht).
  destruct (X12_client_reassembles_streams (rt := JsonText.runtime) talk talkReads rude
              Hr eq_refl) as (_ & _ & Hrude & _).
  rewrite Hf, Ht, Hrude. repeat split.
Defined.

(** ** The renderer on ordinary text *)

Section PassFacts.

(** *** The scan of a replacement *)

Lemma bolAfter_app (bol : bool) (u v : jsstring) :
  bolAfter bol (u ++ v) = bolAfter (bolAfter bol u) v.
Proof. apply fold_left_app. Qed.

(** Text without line terminator: after it a line has started only if it
    is empty and a line started before it. *)
Lemma bolAfter_line (bol : bool) (u : jsstring) :
  forallb (fun c => negb (isLineTerminator c)) u = true ->
  bolAfter bol u = match u with [] => bol | _ :: _ => false end.
Proof.
  revert bol. induction u as [|c u IH]; intros bol H; [reflexivity|].
  cbn [forallb] in H. apply andb_true_iff in H as [Hc Hu]. apply negb_true_iff in Hc.
  change (bolAfter bol (c :: u)) with (bolAfter (isLineTerminator c) u).
  rewrite (IH _ Hu), Hc. now destruct u.
Qed.

(** The units of a match are passed over. *)
Lemma replaceAll_skip (m : Matcher) (u t : jsstring) (bol : bool) :
  replaceAll m (length u) bol (u ++ t) = replaceAll m 0 (bolAfter bol u) t.
Proof.
  revert bol. induction u as [|c u IH]; intros bol.
  - cbn [length app]. now destruct t.
  - cbn [length app replaceAll]. apply IH.
Qed.

Lemma replaceAll_match (m : Matcher) (x t r : jsstring) (bol : bool) :
  x <> [] -> m bol (x ++ t) = Some (r, length x) ->
  replaceAll m 0 bol (x ++ t) = r ++ replaceAll m 0 (bolAfter bol x) t.
Proof.
  intros Hx Hm. destruct x as [|c x]; [congruence|].
  cbn [app replaceAll]. cbn [app] in Hm. rewrite Hm. cbn [length pred].
  now rewrite replaceAll_skip.
Qed.

Lemma replaceAll_miss (m : Matcher) (c : N) (s : jsstring) (bol : bool) :
  m bol (c :: s) = None ->
  replaceAll m 0 bol (c :: s) = c :: replaceAll m 0 (isLineTerminator c) s.
Proof. intros H. cbn [replaceAll]. now rewrite H. Qed.

(** Units at which the expression never matches are copied. *)
Lemma replaceAll_pass (m : Matcher) (p : N -> bool) (u t : jsstring) (bol : bool) :
  (forall b c s, p c = true -> m b (c :: s) = None) ->
  forallb p u = true ->
  replaceAll m 0 bol (u ++ t) = u ++ replaceAll m 0 (bolAfter bol u) t.
Proof.
  intros Hm. revert bol. induction u as [|c u IH]; intros bol H; [reflexivity|].
  cbn [forallb] in H. apply andb_true_iff in H as [Hc Hu].
  cbn [app]. rewrite replaceAll_miss by now apply Hm.
  now rewrite (IH _ Hu).
Qed.

Lemma replaceGlobal_pass (m : Matcher) (p : N -> bool) (s : jsstring) :
  (forall b c t, p c = true -> m b (c :: t) = None) ->
  forallb p s = true -> replaceGlobal m s = s.
Proof.
  intros Hm Hs. unfold replaceGlobal.
  rewrite <- (app_nil_r s) at 1. rewrite (replaceAll_pass m p s [] true Hm Hs).
  cbn [replaceAll]. apply app_nil_r.
Qed.

(** *** Where the expressions cannot match *)

Lemma startsWith_head (o c : N) (opening s : jsstring) :
  isNot o c = true -> startsWith (o :: opening) (c :: s) = false.
Proof.
  unfold isNot. intros H. apply negb_true_iff in H. cbn [startsWith].
  now rewrite (N.eqb_sym o c), H.
Qed.

Lemma wrapDelimited_miss (o : N) (opening closing before after : jsstring) (stop : N)
    (b : bool) (c : N) (s : jsstring) :
  isNot o c = true -> wrapDelimited (o :: opening) stop closing before after b (c :: s) = None.
Proof.
  intros H. unfold wrapDelimited, delimited. now rewrite startsWith_head.
Qed.

Lemma codeBlock_miss (b : bool) (c : N) (s : jsstring) :
  isNot BACKTICK c = true -> codeBlock b (c :: s) = None.
Proof.
  intros H. unfold codeBlock, fence. now rewrite startsWith_head.
Qed.

Lemma lineRule_miss (o : N) (marker before after : jsstring) (needsText : bool)
    (b : bool) (c : N) (s : jsstring) :
  b = false \/ isNot o c = true ->
  lineRule (o :: marker) needsText before after b (c :: s) = None.
Proof.
  intros [-> | H]; unfold lineRule; [reflexivity|].
  rewrite startsWith_head by assumption. now rewrite andb_false_r.
Qed.

(** A line rule copies a text in which its first unit starts no line. *)
Lemma lineRule_pass (o : N) (marker before after : jsstring) (needsText : bool)
    (u t : jsstring) (bol : bool) :
  offBol o bol u = true ->
  replaceAll (lineRule (o :: marker) needsText before after) 0 bol (u ++ t)
  = u ++ replaceAll (lineRule (o :: marker) needsText before after) 0 (bolAfter bol u) t.
Proof.
  revert bol. induction u as [|c u IH]; intros bol H; [reflexivity|].
  cbn [offBol] in H. apply andb_true_iff in H as [Hc Hu].
  cbn [app]. rewrite replaceAll_miss.
  - now rewrite (IH _ Hu).
  - apply lineRule_miss. destruct bol; [right|now left].
    cbn [andb] in Hc. exact Hc.
Qed.

Lemma lineRule_global_pass (o : N) (marker before after : jsstring) (needsText : bool)
    (s : jsstring) :
  offBol o true s = true ->
  replaceGlobal (lineRule (o :: marker) needsText before after) s = s.
Proof.
  intros H. unfold replaceGlobal. rewrite <- (app_nil_r s) at 1.
  rewrite lineRule_pass by assumption. cbn [replaceAll]. apply app_nil_r.
Qed.

End PassFacts.

Section LinkPass.
Context {rt : Runtime}.

Lemma link_miss (b : bool) (c : N) (s : jsstring) :
  isNot 91 c = true -> link b (c :: s) = None.
Proof.
  intros H. unfold link, delimited. change (lit "[") with [91%N].
  now rewrite startsWith_head.
Qed.

End LinkPass.

Section OrdinaryFacts.

Lemma forallb_join (p : N -> bool) (sep : jsstring) (parts : list jsstring) :
  forallb p sep = true -> forallb (forallb p) parts = true ->
  forallb p (join sep parts) = true.
Proof.
  intros Hsep. induction parts as [|x parts IH]; [reflexivity|].
  cbn [forallb]. intros H. apply andb_true_iff in H as [Hx Hparts].
  destruct parts as [|y parts]; [exact Hx|].
  change (join sep (x :: y :: parts)) with (x ++ sep ++ join sep (y :: parts)).
  now rewrite !forallb_app, Hx, Hsep, IH.
Qed.

Lemma forallb_impl (p q : N -> bool) (s : jsstring) :
  (forall c, p c = true -> q c = true) -> forallb p s = true -> forallb q s = true.
Proof.
  intros H. rewrite !forallb_forall. auto.
Qed.

(** An ordinary text holds none of the special units. *)
Lemma ordinary_avoids (x : N) (s : jsstring) :
  special x = true -> ordinary s = true -> forallb (isNot x) s = true.
Proof.
  intros Hx. apply forallb_impl. intros c Hc. unfold isNot.
  destruct (N.eqb_spec c x) as [->|]; [|reflexivity]. now rewrite Hx in Hc.
Qed.

Lemma ordinary_line (s : jsstring) :
  ordinary s = true -> forallb (fun c => negb (isLineTerminator c)) s = true.
Proof.
  apply forallb_impl. intros c Hc. unfold special in Hc.
  destruct (isLineTerminator c); [|reflexivity]. now rewrite !orb_true_r in Hc.
Qed.

Lemma ordinary_unbroken (s : jsstring) : ordinary s = true -> noLF s.
Proof.
  intros H. apply ordinary_line in H. rewrite forallb_forall in H.
  apply Forall_forall. intros c Hc. specialize (H c Hc).
  destruct (N.eqb_spec c LF) as [->|]; [discriminate|reflexivity].
Qed.

Lemma ordinary_app (a b : jsstring) :
  ordinary (a ++ b) = ordinary a && ordinary b.
Proof. apply forallb_app. Qed.

(** Escaping changes nothing in a text without metacharacter. *)
Lemma escapeHtml_same (s : jsstring) :
  forallb (fun c => negb (isMeta c || N.eqb c AMP)) s = true -> escapeHtml s = s.
Proof.
  intros H. rewrite escapeHtml_units.
  induction s as [|c s IH]; [reflexivity|].
  cbn [forallb] in H. apply andb_true_iff in H as [Hc Hs].
  cbn [flat_map]. rewrite (IH Hs). unfold escapeOne.
  apply negb_true_iff in Hc. unfold isMeta in Hc.
  destruct (N.eqb c AMP); [now rewrite orb_true_r in Hc|].
  destruct (N.eqb c LT); [discriminate|].
  destruct (N.eqb c GT); [discriminate|].
  destruct (N.eqb c QUOT); [discriminate|].
  destruct (N.eqb c APOS); [discriminate|reflexivity].
Qed.

Lemma offBol_absent (mark : N) (bol : bool) (s : jsstring) :
  forallb (isNot mark) s = true -> offBol mark bol s = true.
Proof.
  revert bol. induction s as [|c s IH]; intros bol H; [reflexivity|].
  cbn [forallb] in H. apply andb_true_iff in H as [Hc Hs]. cbn [offBol].
  rewrite (IH _ Hs), andb_true_r. unfold isNot in Hc.
  apply negb_true_iff in Hc. now rewrite Hc, andb_false_r.
Qed.

Lemma offBol_app (mark : N) (bol : bool) (u v : jsstring) :
  offBol mark bol (u ++ v) = offBol mark bol u && offBol mark (bolAfter bol u) v.
Proof.
  revert bol. induction u as [|c u IH]; intros bol; [reflexivity|].
  cbn [app offBol]. rewrite IH. now rewrite andb_assoc.
Qed.

(** A line that does not begin with the mark: the mark starts no line
    of it. *)
Lemma offBol_line (mark : N) (bol : bool) (s : jsstring) :
  forallb (fun c => negb (isLineTerminator c)) s = true ->
  match s with [] => true | c :: _ => isNot mark c end = true ->
  offBol mark bol s = true.
Proof.
  destruct s as [|c s]; [reflexivity|]. cbn [forallb offBol]. intros H Hc.
  apply andb_true_iff in H as [Hlt Hs]. apply negb_true_iff in Hlt. rewrite Hlt.
  unfold isNot in Hc. apply negb_true_iff in Hc. rewrite Hc, andb_false_r. cbn [negb andb].
  clear Hc Hlt. induction s as [|d s IH]; [reflexivity|].
  cbn [forallb] in Hs. apply andb_true_iff in Hs as [Hd Hs]. apply negb_true_iff in Hd.
  cbn [offBol andb negb]. now rewrite Hd, (IH Hs).
Qed.

(** Lines joined by newlines. *)
Lemma offBol_lines (mark : N) (lines : list jsstring) :
  mark <> LF ->
  Forall (fun line => forallb (fun c => negb (isLineTerminator c)) line = true
                      /\ match line with [] => true | c :: _ => isNot mark c end = true) lines ->
  offBol mark true (join [LF] lines) = true.
Proof.
  intros Hmark. induction 1 as [|line lines [Hl Hc] _ IH]; [reflexivity|].
  destruct lines as [|next lines]; [now apply offBol_line|].
  change (join [LF] (line :: next :: lines)) with (line ++ [LF] ++ join [LF] (next :: lines)).
  rewrite !offBol_app, (offBol_line _ _ _ Hl Hc). cbn [andb].
  change (bolAfter (bolAfter true line) [LF]) with true.
  rewrite IH, andb_true_r. cbn [offBol]. rewrite andb_true_r.
  destruct (N.eqb_spec LF mark); [congruence|]. now rewrite andb_false_r.
Qed.

Lemma split_lines (lines : list jsstring) :
  lines <> [] -> Forall noLF lines -> split LF (join [LF] lines) = lines.
Proof.
  intros Hne H. induction H as [|line lines Hl _ IH]; [congruence|].
  destruct lines as [|next lines]; [now apply split_plain|].
  change (join [LF] (line :: next :: lines)) with (line ++ [LF] ++ join [LF] (next :: lines)).
  cbn [app]. rewrite split_plain_app by assumption. f_equal. now apply IH.
Qed.

End OrdinaryFacts.

Section BlockFacts.

(** A line that is no list item. *)
Lemma ulItem_none (line : jsstring) :
  match line with [] => true | c :: _ => isNot STAR c && isNot 45 c end = true ->
  ulItem line = None.
Proof.
  destruct line as [|c [|sp rest]]; try reflexivity.
  intros H. apply andb_true_iff in H as [H1 H2]. unfold isNot in *.
  apply negb_true_iff in H1, H2. cbn [ulItem]. now rewrite H1, H2.
Qed.

Lemma olItem_none (line : jsstring) :
  match line with [] => true | c :: _ => negb (Markdown.isDigit c) end = true ->
  olItem line = None.
Proof.
  destruct line as [|c rest]; [reflexivity|]. intros H. apply negb_true_iff in H.
  unfold olItem. cbn [takeWhile]. now rewrite H.
Qed.

Lemma listLoop_none (lines : list jsstring) :
  Forall (fun line => ulItem line = None /\ olItem line = None) lines ->
  listLoop lines false false = lines.
Proof.
  induction 1 as [|line lines [Hu Ho] _ IH]; [reflexivity|].
  cbn [listLoop]. rewrite Hu, Ho. cbn [app]. now rewrite IH.
Qed.

Lemma processLists_none (lines : list jsstring) :
  lines <> [] -> Forall noLF lines ->
  Forall (fun line => ulItem line = None /\ olItem line = None) lines ->
  processLists (join [LF] lines) = join [LF] lines.
Proof.
  intros Hne Hl Hi. unfold processLists. now rewrite split_lines, listLoop_none.
Qed.

Lemma lazyBlock_miss (opening closing : jsstring) (o c : N) (s : jsstring) :
  isNot o c = true -> lazyBlock (o :: opening) closing (c :: s) = None.
Proof. intros H. unfold lazyBlock. now rewrite startsWith_head. Qed.

Lemma blockAt_miss (c : N) (s : jsstring) : isNot LT c = true -> blockAt (c :: s) = None.
Proof.
  intros H. unfold blockAt.
  change (lit "<pre><code>") with (LT :: lit "pre><code>").
  change (lit "<ul>") with (LT :: lit "ul>").
  change (lit "<ol>") with (LT :: lit "ol>").
  now rewrite !lazyBlock_miss.
Qed.

Lemma noBlock_absent (s : jsstring) : forallb (isNot LT) s = true -> noBlock s = true.
Proof.
  induction s as [|c s IH]; [reflexivity|]. cbn [forallb]. intros H.
  apply andb_true_iff in H as [Hc Hs]. cbn [noBlock].
  now rewrite (blockAt_miss _ _ Hc), IH.
Qed.

(** Where no block starts, every newline becomes a line break. *)
Lemma newlinesOutside_noBlock (s : jsstring) :
  noBlock s = true -> newlinesOutside 0 s = replaceUnit LF (lit "<br>") s.
Proof.
  induction s as [|c s IH]; [reflexivity|]. cbn [noBlock]. intros H.
  destruct (blockAt (c :: s)) eqn:E; [discriminate|].
  cbn [newlinesOutside]. rewrite E, (IH H). reflexivity.
Qed.

Lemma replaceUnit_app (c : N) (by_ a b : jsstring) :
  replaceUnit c by_ (a ++ b) = replaceUnit c by_ a ++ replaceUnit c by_ b.
Proof. apply flat_map_app. Qed.

Lemma replaceUnit_absent (c : N) (by_ s : jsstring) :
  forallb (isNot c) s = true -> replaceUnit c by_ s = s.
Proof.
  induction s as [|x s IH]; [reflexivity|]. cbn [forallb]. intros H.
  apply andb_true_iff in H as [Hx Hs]. unfold isNot in Hx. apply negb_true_iff in Hx.
  unfold replaceUnit in *. cbn [flat_map]. now rewrite Hx, (IH Hs).
Qed.

Lemma lineBreaks_join (lines : list jsstring) :
  Forall (fun line => forallb (isNot LF) line = true) lines ->
  replaceUnit LF (lit "<br>") (join [LF] lines) = join (lit "<br>") lines.
Proof.
  induction 1 as [|line lines Hl _ IH]; [reflexivity|].
  destruct lines as [|next lines]; [now apply replaceUnit_absent|].
  change (join [LF] (line :: next :: lines)) with (line ++ [LF] ++ join [LF] (next :: lines)).
  change (join (lit "<br>") (line :: next :: lines))
    with (line ++ lit "<br>" ++ join (lit "<br>") (next :: lines)).
  now rewrite !replaceUnit_app, IH, (replaceUnit_absent _ _ _ Hl).
Qed.

End BlockFacts.

Section TextLines.
Context {rt : Runtime}.

Lemma textLine_inv (line : jsstring) :
  textLine line = true -> ordinary line = true /\ plainStart line = true.
Proof. unfold textLine. intros H. now apply andb_true_iff in H. Qed.

Lemma ordinary_head (x : N) (line : jsstring) :
  special x = true -> ordinary line = true ->
  match line with [] => true | c :: _ => isNot x c end = true.
Proof.
  intros Hx H. apply (ordinary_avoids x) in H; [|exact Hx].
  destruct line; [reflexivity|]. cbn [forallb] in H. now apply andb_true_iff in H as [H _].
Qed.

Lemma plainStart_head (x : N) (line : jsstring) :
  x = 35%N \/ x = 45%N -> plainStart line = true ->
  match line with [] => true | c :: _ => isNot x c end = true.
Proof.
  destruct line as [|c line]; [reflexivity|]. cbn [plainStart]. intros Hx H.
  apply negb_true_iff in H. apply orb_false_iff in H as [H Hd].
  apply orb_false_iff in H as [H35 H45]. unfold isNot.
  destruct Hx as [-> | ->]; now (rewrite H35 || rewrite H45).
Qed.

Lemma plainStart_noDigit (line : jsstring) :
  plainStart line = true ->
  match line with [] => true | c :: _ => negb (Markdown.isDigit c) end = true.
Proof.
  destruct line as [|c line]; [reflexivity|]. cbn [plainStart]. intros H.
  apply negb_true_iff in H. apply orb_false_iff in H as [_ Hd]. now rewrite Hd.
Qed.

(** The joined lines hold a unit only if a line or the newline does. *)
Lemma lines_avoid (x : N) (lines : list jsstring) :
  special x = true -> x <> LF -> forallb textLine lines = true ->
  forallb (isNot x) (join [LF] lines) = true.
Proof.
  intros Hx Hlf H. apply forallb_join.
  - cbn. unfold isNot. destruct (N.eqb_spec LF x); [congruence|reflexivity].
  - rewrite forallb_forall in *. intros line Hin.
    apply ordinary_avoids; [exact Hx|]. now apply textLine_inv, H.
Qed.

Lemma lines_offBol (lines : list jsstring) :
  forallb textLine lines = true -> offBol 35 true (join [LF] lines) = true.
Proof.
  intros H. apply offBol_lines; [discriminate|].
  apply Forall_forall. intros line Hin. rewrite forallb_forall in H.
  destruct (textLine_inv _ (H _ Hin)) as [Ho Hp]. split.
  - now apply ordinary_line.
  - apply plainStart_head; auto.
Qed.

Lemma lines_no_item (lines : list jsstring) :
  forallb textLine lines = true ->
  Forall (fun line => ulItem line = None /\ olItem line = None) lines.
Proof.
  intros H. apply Forall_forall. intros line Hin. rewrite forallb_forall in H.
  destruct (textLine_inv _ (H _ Hin)) as [Ho Hp]. split.
  - apply ulItem_none.
    pose proof (ordinary_head STAR line eq_refl Ho) as H1.
    pose proof (plainStart_head 45 line (or_intror eq_refl) Hp) as H2.
    destruct line; [reflexivity|]. now rewrite H1, H2.
  - apply olItem_none. now apply plainStart_noDigit.
Qed.

Lemma lines_noLF (lines : list jsstring) :
  forallb textLine lines = true -> Forall noLF lines.
Proof.
  intros H. apply Forall_forall. intros line Hin. rewrite forallb_forall in H.
  now apply ordinary_unbroken, textLine_inv, H.
Qed.

End TextLines.

(** X13.  Ordinary text is rendered as it is.  For lines of ordinary units,
    none of which begins with a hash, a dash or a digit, the renderer
    returns the lines unchanged, joined by line breaks where they were
    joined by newlines: no expression matches and nothing is escaped. *)
Theorem X13_ordinary_lines_are_kept {rt : Runtime} (lines : list jsstring) :
  lines <> [] -> forallb textLine lines = true ->
  parseMarkdown (join [LF] lines) = join (lit "<br>") lines.
Proof.
  intros Hne H.
  assert (Hno : forall x, special x = true -> x <> LF ->
                          forallb (isNot x) (join [LF] lines) = true)
    by (intros x Hx Hlf; now apply lines_avoid).
  unfold parseMarkdown, inlinePasses, blockPasses.
  (* nothing to escape *)
  rewrite escapeHtml_same.
  2:{ apply forallb_join; [reflexivity|].
      rewrite forallb_forall in *. intros line Hin.
      destruct (textLine_inv _ (H _ Hin)) as [Ho _]. revert Ho. apply forallb_impl.
      intros c Hc. unfold special in Hc. apply negb_true_iff in Hc.
      rewrite !orb_false_iff in Hc. destruct Hc as [[[[[[Hm Ha] _] _] _] _] _].
      now rewrite Hm, Ha. }
  (* no fence, no emphasis *)
  rewrite (replaceGlobal_pass codeBlock (isNot BACKTICK))
    by (first [exact codeBlock_miss | apply Hno; [reflexivity|discriminate]]).
  unfold inlineCode, boldStars, boldUnderscores, italicStar, italicUnderscore.
  rewrite (replaceGlobal_pass (wrapDelimited [BACKTICK] _ _ _ _) (isNot BACKTICK))
    by (first [intros; now apply wrapDelimited_miss | apply Hno; [reflexivity|discriminate]]).
  rewrite (replaceGlobal_pass (wrapDelimited [STAR; STAR] _ _ _ _) (isNot STAR))
    by (first [intros; now apply wrapDelimited_miss | apply Hno; [reflexivity|discriminate]]).
  rewrite (replaceGlobal_pass (wrapDelimited [UNDERSCORE; UNDERSCORE] _ _ _ _) (isNot UNDERSCORE))
    by (first [intros; now apply wrapDelimited_miss | apply Hno; [reflexivity|discriminate]]).
  rewrite (replaceGlobal_pass (wrapDelimited [STAR] _ _ _ _) (isNot STAR))
    by (first [intros; now apply wrapDelimited_miss | apply Hno; [reflexivity|discriminate]]).
  rewrite (replaceGlobal_pass (wrapDelimited [UNDERSCORE] _ _ _ _) (isNot UNDERSCORE))
    by (first [intros; now apply wrapDelimited_miss | apply Hno; [reflexivity|discriminate]]).
  (* no header *)
  unfold header3, header2, header1.
  change (lit "### ") with (35%N :: lit "## ").
  change (lit "## ") with (35%N :: lit "# ").
  change (lit "# ") with (35%N :: lit " ").
  rewrite (lineRule_global_pass 35 (35%N :: 35%N :: lit " ")) by now apply lines_offBol.
  rewrite (lineRule_global_pass 35 (35%N :: lit " ")) by now apply lines_offBol.
  rewrite (lineRule_global_pass 35 (lit " ")) by now apply lines_offBol.
  (* no link, no list, no quotation *)
  rewrite (replaceGlobal_pass link (isNot 91))
    by (first [exact link_miss | apply Hno; [reflexivity|discriminate]]).
  rewrite processLists_none by (assumption || now apply lines_noLF || now apply lines_no_item).
  unfold blockquote. change (lit "> ") with (GT :: lit " ").
  rewrite lineRule_global_pass by (apply offBol_absent, Hno; [reflexivity|discriminate]).
  (* the newlines *)
  unfold replaceNewlinesOutsideBlocks.
  rewrite newlinesOutside_noBlock by (apply noBlock_absent, Hno; [reflexivity|discriminate]).
  apply lineBreaks_join. apply Forall_forall. intros line Hin.
  rewrite forallb_forall in H. apply ordinary_avoids; [reflexivity|].
  now apply textLine_inv, H.
Qed.

Lemma X13_ordinary_lines_are_kept_witness :
  parseMarkdown (rt := JsonText.runtime) (join [LF] prose) = join (lit "<br>") prose.
Proof.
  apply (X13_ordinary_lines_are_kept (rt := JsonText.runtime) prose).
  - discriminate.
  - reflexivity.
Defined.

(** ** The renderer on one marked line *)

Section HitFacts.

Lemma replaceAll_end (m : Matcher) (p : N -> bool) (u : jsstring) (bol : bool) :
  (forall b c s, p c = true -> m b (c :: s) = None) ->
  forallb p u = true -> replaceAll m 0 bol u = u.
Proof.
  intros Hm Hu. rewrite <- (app_nil_r u) at 1.
  rewrite (replaceAll_pass m p u [] bol Hm Hu). cbn [replaceAll]. apply app_nil_r.
Qed.

(** The expression of a delimited group, in a line where its delimiter
    occurs only around one group. *)
Lemma replaceGlobal_hit (o : N) (mark before after pre w post : jsstring) :
  mark = [o] \/ mark = [o; o] ->
  forallb (isNot o) pre = true -> forallb (isNot o) w = true -> w <> [] ->
  forallb (isNot o) post = true ->
  replaceGlobal (wrapDelimited mark o mark before after) (pre ++ mark ++ w ++ mark ++ post)
  = pre ++ before ++ w ++ after ++ post.
Proof.
  intros Hmark Hpre Hw Hne Hpost. unfold replaceGlobal.
  assert (Hmiss : forall b c s, isNot o c = true ->
                    wrapDelimited mark o mark before after b (c :: s) = None)
    by (destruct Hmark as [-> | ->]; intros; now apply wrapDelimited_miss).
  rewrite (replaceAll_pass _ (isNot o) pre _ true Hmiss Hpre).
  f_equal.
  replace (mark ++ w ++ mark ++ post) with ((mark ++ w ++ mark) ++ post)
    by now rewrite <- !app_assoc.
  rewrite (replaceAll_match _ (mark ++ w ++ mark) post (before ++ w ++ after)).
  - rewrite (replaceAll_end _ (isNot o) post _ Hmiss Hpost). now rewrite <- !app_assoc.
  - destruct Hmark as [-> | ->]; discriminate.
  - unfold wrapDelimited. rewrite <- !app_assoc.
    rewrite (delimited_built mark mark w post o Hne Hw).
    + rewrite !length_app. do 2 f_equal. lia.
    + destruct Hmark as [-> | ->]; cbn [startsWith]; now rewrite N.eqb_refl.
Qed.

(** An expression that needs its delimiter twice in a row, in a line
    where the delimiter stands alone around one group. *)
Lemma replaceGlobal_near (m : Matcher) (o : N) (pre w post : jsstring) :
  (forall b c s, isNot o c = true -> m b (c :: s) = None) ->
  (forall b c s, isNot o c = true -> m b (o :: c :: s) = None) ->
  (forall b, m b [o] = None) ->
  forallb (isNot o) pre = true -> forallb (isNot o) w = true -> w <> [] ->
  forallb (isNot o) post = true ->
  replaceGlobal m (pre ++ [o] ++ w ++ [o] ++ post) = pre ++ [o] ++ w ++ [o] ++ post.
Proof.
  intros H1 H2 H3 Hpre Hw Hne Hpost. unfold replaceGlobal.
  rewrite (replaceAll_pass m (isNot o) pre _ true H1 Hpre). f_equal.
  destruct w as [|c w]; [congruence|]. cbn [app].
  pose proof Hw as Hw'. cbn [forallb] in Hw'. apply andb_true_iff in Hw' as [Hc _].
  rewrite replaceAll_miss by now apply H2. f_equal.
  change (c :: w ++ o :: post) with ((c :: w) ++ o :: post).
  rewrite (replaceAll_pass m (isNot o) (c :: w) _ _ H1 Hw). f_equal.
  rewrite replaceAll_miss.
  - f_equal. now apply (replaceAll_end m (isNot o)).
  - destruct post as [|d post]; [apply H3|].
    cbn [forallb] in Hpost. apply andb_true_iff in Hpost as [Hd _]. now apply H2.
Qed.

Lemma startsWith_second (o c : N) (opening s : jsstring) :
  isNot o c = true -> startsWith (o :: o :: opening) (o :: c :: s) = false.
Proof.
  intros H. cbn [startsWith]. rewrite N.eqb_refl. cbn [andb].
  unfold isNot in H. apply negb_true_iff in H. now rewrite (N.eqb_sym o c), H.
Qed.

Lemma codeBlock_near (pre w post : jsstring) :
  forallb (isNot BACKTICK) pre = true -> forallb (isNot BACKTICK) w = true -> w <> [] ->
  forallb (isNot BACKTICK) post = true ->
  replaceGlobal codeBlock (pre ++ [BACKTICK] ++ w ++ [BACKTICK] ++ post)
  = pre ++ [BACKTICK] ++ w ++ [BACKTICK] ++ post.
Proof.
  apply replaceGlobal_near.
  - exact codeBlock_miss.
  - intros b c s H. unfold codeBlock, fence. now rewrite startsWith_second.
  - reflexivity.
Qed.

Lemma bold_near (o : N) (before after pre w post : jsstring) :
  forallb (isNot o) pre = true -> forallb (isNot o) w = true -> w <> [] ->
  forallb (isNot o) post = true ->
  replaceGlobal (wrapDelimited [o; o] o [o; o] before after) (pre ++ [o] ++ w ++ [o] ++ post)
  = pre ++ [o] ++ w ++ [o] ++ post.
Proof.
  apply replaceGlobal_near.
  - intros. now apply wrapDelimited_miss.
  - intros b c s H. unfold wrapDelimited, delimited. now rewrite startsWith_second.
  - intros b. unfold wrapDelimited, delimited. cbn [startsWith].
    now rewrite N.eqb_refl.
Qed.

End HitFacts.

Section TailFacts.
Context {rt : Runtime}.

Lemma noBlock_pass (a b : jsstring) :
  forallb (isNot LT) a = true -> noBlock (a ++ b) = noBlock b.
Proof.
  induction a as [|c a IH]; [reflexivity|]. cbn [forallb]. intros H.
  apply andb_true_iff in H as [Hc Ha]. cbn [app noBlock].
  now rewrite (blockAt_miss _ _ Hc), IH.
Qed.

(** A tag that opens no block: its name begins with none of p, u, o. *)
Lemma blockAt_tag (c : N) (s : jsstring) :
  negb (N.eqb c 112 || N.eqb c 117 || N.eqb c 111) = true -> blockAt (LT :: c :: s) = None.
Proof.
  intros H. apply negb_true_iff in H. rewrite !orb_false_iff in H. destruct H as [[Hp Hu] Ho].
  unfold blockAt, lazyBlock. cbn [lit list_ascii_of_string map startsWith].
  change (N_of_ascii "<") with LT. rewrite N.eqb_refl. cbn [andb].
  change (N_of_ascii "p") with 112%N. change (N_of_ascii "u") with 117%N.
  change (N_of_ascii "o") with 111%N.
  rewrite (N.eqb_sym 112 c), (N.eqb_sym 117 c), (N.eqb_sym 111 c), Hp, Hu, Ho.
  reflexivity.
Qed.

Lemma noBlock_tag (c : N) (name rest : jsstring) :
  negb (N.eqb c 112 || N.eqb c 117 || N.eqb c 111) = true ->
  forallb (isNot LT) (c :: name) = true ->
  noBlock (LT :: c :: name ++ rest) = noBlock rest.
Proof.
  intros Hc Hname. cbn [noBlock]. rewrite (blockAt_tag _ _ Hc).
  change (c :: name ++ rest) with ((c :: name) ++ rest).
  change (match blockAt ((c :: name) ++ rest) with
          | Some _ => false
          | None => noBlock (name ++ rest)
          end) with (noBlock ((c :: name) ++ rest)).
  now apply noBlock_pass.
Qed.

Lemma headers_pass (s : jsstring) :
  offBol 35 true s = true ->
  replaceGlobal header1 (replaceGlobal header2 (replaceGlobal header3 s)) = s.
Proof.
  intros H. unfold header3, header2, header1.
  change (lit "### ") with (35%N :: lit "## ").
  change (lit "## ") with (35%N :: lit "# ").
  change (lit "# ") with (35%N :: lit " ").
  rewrite (lineRule_global_pass 35 (35%N :: 35%N :: lit " ")) by assumption.
  rewrite (lineRule_global_pass 35 (35%N :: lit " ")) by assumption.
  now rewrite (lineRule_global_pass 35 (lit " ")) by assumption.
Qed.

(** The passes after the headers leave a line alone when it holds no
    bracket, begins like no list item and no quotation, and opens no
    block. *)
Lemma blockPasses_line (s : jsstring) :
  forallb (fun c => negb (isLineTerminator c)) s = true ->
  forallb (isNot 91) s = true -> freeStart s = true -> noBlock s = true ->
  blockPasses s = s.
Proof.
  intros Hline Hbr Hstart Hblock. unfold blockPasses.
  assert (Hlf : forallb (isNot LF) s = true).
  { revert Hline. apply forallb_impl. intros c Hc. unfold isNot.
    destruct (N.eqb_spec c LF) as [->|]; [discriminate|reflexivity]. }
  assert (Hnl : noLF s).
  { apply Forall_forall. intros c Hc. rewrite forallb_forall in Hlf.
    specialize (Hlf c Hc). unfold isNot in Hlf. now apply negb_true_iff in Hlf. }
  assert (Hhead : forall x, (x = 45%N \/ x = STAR \/ x = GT) ->
            match s with [] => true | c :: _ => isNot x c end = true).
  { intros x Hx. destruct s as [|c s]; [reflexivity|]. cbn [freeStart] in Hstart.
    apply negb_true_iff in Hstart. rewrite !orb_false_iff in Hstart.
    destruct Hstart as [[[[H35 H45] Hst] Hgt] Hd]. unfold isNot.
    destruct Hx as [-> | [-> | ->]]; now (rewrite H45 || rewrite Hst || rewrite Hgt). }
  rewrite (replaceGlobal_pass link (isNot 91)) by (exact link_miss || assumption).
  change s with (join [LF] [s]) at 1.
  rewrite processLists_none.
  - cbn [join]. unfold blockquote. change (lit "> ") with (GT :: lit " ").
    rewrite lineRule_global_pass by (apply offBol_line; auto).
    unfold replaceNewlinesOutsideBlocks.
    rewrite newlinesOutside_noBlock by assumption. now apply replaceUnit_absent.
  - discriminate.
  - now repeat constructor.
  - repeat constructor.
    + apply ulItem_none. pose proof (Hhead STAR) as H1. pose proof (Hhead 45%N) as H2.
      destruct s; [reflexivity|]. rewrite H1, H2; auto.
    + apply olItem_none. destruct s as [|c s]; [reflexivity|]. cbn [freeStart] in Hstart.
      apply negb_true_iff in Hstart. rewrite !orb_false_iff in Hstart.
      destruct Hstart as [_ Hd]. now rewrite Hd.
Qed.

End TailFacts.

Section EmphasisFacts.
Context {rt : Runtime}.

Lemma ordinary_meta (s : jsstring) :
  ordinary s = true -> forallb (fun c => negb (isMeta c || N.eqb c AMP)) s = true.
Proof.
  apply forallb_impl. intros c Hc. unfold special in Hc. apply negb_true_iff in Hc.
  rewrite !orb_false_iff in Hc. destruct Hc as [[[[[[Hm Ha] _] _] _] _] _].
  now rewrite Hm, Ha.
Qed.

Lemma freeStart_app (pre rest : jsstring) :
  ordinary pre = true -> plainStart pre = true -> freeStart rest = true ->
  freeStart (pre ++ rest) = true.
Proof.
  intros Ho Hp Hr. destruct pre as [|c pre]; [exact Hr|].
  cbn [app freeStart]. cbn [plainStart] in Hp. cbn [ordinary forallb] in Ho.
  apply andb_true_iff in Ho as [Hc _]. unfold special, isMeta in Hc.
  apply negb_true_iff in Hc. rewrite !orb_false_iff in Hc.
  destruct Hc as [[[[[[[[[_ Hgt] _] _] _] _] Hst] _] _] _].
  apply negb_true_iff in Hp. rewrite !orb_false_iff in Hp. destruct Hp as [[H35 H45] Hd].
  now rewrite H35, H45, Hst, Hgt, Hd.
Qed.

Lemma freeStart_hash (s : jsstring) :
  freeStart s = true -> match s with [] => true | c :: _ => isNot 35 c end = true.
Proof.
  destruct s as [|c s]; [reflexivity|]. cbn [freeStart]. intros H.
  apply negb_true_iff in H. rewrite !orb_false_iff in H.
  destruct H as [[[[H35 _] _] _] _]. unfold isNot. now rewrite H35.
Qed.

End EmphasisFacts.

Ltac avoids :=
  rewrite ?forallb_app;
  repeat (apply andb_true_iff; split);
  first [ reflexivity
        | apply ordinary_avoids; [reflexivity|assumption]
        | apply ordinary_line; assumption
        | apply ordinary_meta; assumption ].

Section EmphasisPasses.
Context {rt : Runtime}.
Variables pre w post : jsstring.
Hypothesis Hpre : ordinary pre = true.
Hypothesis Hw : ordinary w = true.
Hypothesis Hne : w <> [].
Hypothesis Hpost : ordinary post = true.

(** The passes before the headers, on a line with one emphasised group. *)
Lemma emphasis_passes (mark tag : jsstring) :
  In (mark, tag) inlineMarks ->
  replaceGlobal italicUnderscore
    (replaceGlobal italicStar
      (replaceGlobal boldUnderscores
        (replaceGlobal boldStars
          (replaceGlobal inlineCode
            (replaceGlobal codeBlock (pre ++ mark ++ w ++ mark ++ post))))))
  = pre ++ openTag tag ++ w ++ closeTag tag ++ post.
Proof.
  unfold inlineMarks, inlineCode, boldStars, boldUnderscores, italicStar, italicUnderscore.
  intros [E|[E|[E|[E|[E|[]]]]]]; injection E as <- <-.
  - (* a code span *)
    rewrite codeBlock_near by (assumption || avoids).
    rewrite (replaceGlobal_hit BACKTICK [BACKTICK]) by (auto || avoids).
    rewrite (replaceGlobal_pass (wrapDelimited [STAR; STAR] _ _ _ _) (isNot STAR))
      by (first [intros; now apply wrapDelimited_miss | avoids]).
    rewrite (replaceGlobal_pass (wrapDelimited [UNDERSCORE; UNDERSCORE] _ _ _ _) (isNot UNDERSCORE))
      by (first [intros; now apply wrapDelimited_miss | avoids]).
    rewrite (replaceGlobal_pass (wrapDelimited [STAR] _ _ _ _) (isNot STAR))
      by (first [intros; now apply wrapDelimited_miss | avoids]).
    rewrite (replaceGlobal_pass (wrapDelimited [UNDERSCORE] _ _ _ _) (isNot UNDERSCORE))
      by (first [intros; now apply wrapDelimited_miss | avoids]).
    reflexivity.
  - (* two stars *)
    rewrite (replaceGlobal_pass codeBlock (isNot BACKTICK)) by (exact codeBlock_miss || avoids).
    rewrite (replaceGlobal_pass (wrapDelimited [BACKTICK] _ _ _ _) (isNot BACKTICK))
      by (first [intros; now apply wrapDelimited_miss | avoids]).
    rewrite (replaceGlobal_hit STAR [STAR; STAR]) by (auto || avoids).
    rewrite (replaceGlobal_pass (wrapDelimited [UNDERSCORE; UNDERSCORE] _ _ _ _) (isNot UNDERSCORE))
      by (first [intros; now apply wrapDelimited_miss | avoids]).
    rewrite (replaceGlobal_pass (wrapDelimited [STAR] _ _ _ _) (isNot STAR))
      by (first [intros; now apply wrapDelimited_miss | avoids]).
    rewrite (replaceGlobal_pass (wrapDelimited [UNDERSCORE] _ _ _ _) (isNot UNDERSCORE))
      by (first [intros; now apply wrapDelimited_miss | avoids]).
    reflexivity.
  - (* two underscores *)
    rewrite (replaceGlobal_pass codeBlock (isNot BACKTICK)) by (exact codeBlock_miss || avoids).
    rewrite (replaceGlobal_pass (wrapDelimited [BACKTICK] _ _ _ _) (isNot BACKTICK))
      by (first [intros; now apply wrapDelimited_miss | avoids]).
    rewrite (replaceGlobal_pass (wrapDelimited [STAR; STAR] _ _ _ _) (isNot STAR))
      by (first [intros; now apply wrapDelimited_miss | avoids]).
    rewrite (replaceGlobal_hit UNDERSCORE [UNDERSCORE; UNDERSCORE]) by (auto || avoids).
    rewrite (replaceGlobal_pass (wrapDelimited [STAR] _ _ _ _) (isNot STAR))
      by (first [intros; now apply wrapDelimited_miss | avoids]).
    rewrite (replaceGlobal_pass (wrapDelimited [UNDERSCORE] _ _ _ _) (isNot UNDERSCORE))
      by (first [intros; now apply wrapDelimited_miss | avoids]).
    reflexivity.
  - (* one star *)
    rewrite (replaceGlobal_pass codeBlock (isNot BACKTICK)) by (exact codeBlock_miss || avoids).
    rewrite (replaceGlobal_pass (wrapDelimited [BACKTICK] _ _ _ _) (isNot BACKTICK))
      by (first [intros; now apply wrapDelimited_miss | avoids]).
    rewrite bold_near by (assumption || avoids).
    rewrite (replaceGlobal_pass (wrapDelimited [UNDERSCORE; UNDERSCORE] _ _ _ _) (isNot UNDERSCORE))
      by (first [intros; now apply wrapDelimited_miss | avoids]).
    rewrite (replaceGlobal_hit STAR [STAR]) by (auto || avoids).
    rewrite (replaceGlobal_pass (wrapDelimited [UNDERSCORE] _ _ _ _) (isNot UNDERSCORE))
      by (first [intros; now apply wrapDelimited_miss | avoids]).
    reflexivity.
  - (* one underscore *)
    rewrite (replaceGlobal_pass codeBlock (isNot BACKTICK)) by (exact codeBlock_miss || avoids).
    rewrite (replaceGlobal_pass (wrapDelimited [BACKTICK] _ _ _ _) (isNot BACKTICK))
      by (first [intros; now apply wrapDelimited_miss | avoids]).
    rewrite (replaceGlobal_pass (wrapDelimited [STAR; STAR] _ _ _ _) (isNot STAR))
      by (first [intros; now apply wrapDelimited_miss | avoids]).
    rewrite bold_near by (assumption || avoids).
    rewrite (replaceGlobal_pass (wrapDelimited [STAR] _ _ _ _) (isNot STAR))
      by (first [intros; now apply wrapDelimited_miss | avoids]).
    rewrite (replaceGlobal_hit UNDERSCORE [UNDERSCORE]) by (auto || avoids).
    reflexivity.
Qed.

End EmphasisPasses.

Section EmphasisTail.
Context {rt : Runtime}.

Lemma noBlock_emphasis (tag w post : jsstring) :
  In tag [lit "code"; lit "strong"; lit "em"] ->
  ordinary w = true -> ordinary post = true ->
  noBlock (openTag tag ++ w ++ closeTag tag ++ post) = true.
Proof.
  intros Htag Hw Hpost.
  assert (Hopen : exists c name, openTag tag = LT :: c :: name
                    /\ negb (N.eqb c 112 || N.eqb c 117 || N.eqb c 111) = true
                    /\ forallb (isNot LT) (c :: name) = true).
  { destruct Htag as [<-|[<-|[<-|[]]]]; eexists _, _; split; try reflexivity; now split. }
  assert (Hclose : exists name, closeTag tag = LT :: 47%N :: name
                     /\ forallb (isNot LT) (47%N :: name) = true).
  { destruct Htag as [<-|[<-|[<-|[]]]]; eexists; split; reflexivity. }
  destruct Hopen as (c & name & -> & Hc & Hname).
  destruct Hclose as (name' & -> & Hname').
  change ((LT :: c :: name) ++ ?x) with (LT :: c :: name ++ x).
  rewrite noBlock_tag by assumption.
  rewrite noBlock_pass by (apply ordinary_avoids; [reflexivity|assumption]).
  change ((LT :: 47%N :: name') ++ ?x) with (LT :: 47%N :: name' ++ x).
  rewrite noBlock_tag by (reflexivity || assumption).
  apply noBlock_absent, ordinary_avoids; [reflexivity|assumption].
Qed.

Lemma inlineMarks_tags (mark tag : jsstring) :
  In (mark, tag) inlineMarks -> In tag [lit "code"; lit "strong"; lit "em"].
Proof.
  unfold inlineMarks. intros [E|[E|[E|[E|[E|[]]]]]]; injection E as <- <-; cbn; tauto.
Qed.

End EmphasisTail.

(** X14.  Emphasis.  In a line of ordinary text that holds one group between
    two marks of emphasis (a backtick, two stars, two underscores, one
    star or one underscore), the group is wrapped in the tag of the mark
    ([code], [strong], [strong], [em], [em]), the marks are dropped and
    the text around the group is kept as it is. *)
Theorem X14_emphasis_is_wrapped {rt : Runtime} (mark tag pre w post : jsstring) :
  In (mark, tag) inlineMarks ->
  ordinary pre = true -> plainStart pre = true ->
  ordinary w = true -> w <> [] -> ordinary post = true ->
  parseMarkdown (pre ++ mark ++ w ++ mark ++ post)
  = pre ++ openTag tag ++ w ++ closeTag tag ++ post.
Proof.
  intros Hin Hpre Hstart Hw Hne Hpost.
  pose proof (inlineMarks_tags _ _ Hin) as Htag.
  assert (Hmark : forallb (fun c => negb (isMeta c || N.eqb c AMP)
                                    && negb (isLineTerminator c) && isNot 91 c) mark = true).
  { unfold inlineMarks in Hin.
    destruct Hin as [E|[E|[E|[E|[E|[]]]]]]; injection E as <- <-; reflexivity. }
  assert (Htags : forallb (fun c => negb (isLineTerminator c)) (openTag tag) = true
                  /\ forallb (fun c => negb (isLineTerminator c)) (closeTag tag) = true
                  /\ forallb (isNot 91) (openTag tag) = true
                  /\ forallb (isNot 91) (closeTag tag) = true).
  { destruct Htag as [<-|[<-|[<-|[]]]]; repeat split; reflexivity. }
  destruct Htags as (Hopen & Hclose & Hopen' & Hclose').
  unfold parseMarkdown, inlinePasses.
  (* nothing to escape *)
  rewrite escapeHtml_same.
  2:{ assert (Hm : forallb (fun c => negb (isMeta c || N.eqb c AMP)) mark = true).
      { revert Hmark. apply forallb_impl. intros c Hc.
        apply andb_true_iff in Hc as [Hc _]. now apply andb_true_iff in Hc as [Hc _]. }
      rewrite !forallb_app, Hm.
      now rewrite (ordinary_meta pre), (ordinary_meta w), (ordinary_meta post). }
  (* the mark is found by its pass and by no other *)
  rewrite (emphasis_passes pre w post Hpre Hw Hne Hpost mark tag Hin).
  (* what is left is one line that no later pass takes *)
  set (line := pre ++ openTag tag ++ w ++ closeTag tag ++ post).
  assert (Hline : forallb (fun c => negb (isLineTerminator c)) line = true).
  { unfold line. rewrite !forallb_app, Hopen, Hclose.
    now rewrite (ordinary_line pre), (ordinary_line w), (ordinary_line post). }
  assert (Hfree : freeStart line = true).
  { unfold line. apply freeStart_app; [assumption..|].
    destruct Htag as [<-|[<-|[<-|[]]]]; reflexivity. }
  rewrite headers_pass by (apply offBol_line; [exact Hline|now apply freeStart_hash]).
  apply blockPasses_line; [exact Hline| |exact Hfree|].
  - unfold line.
    rewrite !forallb_app, Hopen', Hclose'.
    now rewrite (ordinary_avoids 91 pre), (ordinary_avoids 91 w), (ordinary_avoids 91 post).
  - unfold line. rewrite noBlock_pass by (apply ordinary_avoids; [reflexivity|assumption]).
    now apply noBlock_emphasis.
Qed.

Lemma X14_emphasis_is_wrapped_witness :
  parseMarkdown (rt := JsonText.runtime) (lit "It is **very** good!")
  = lit "It is <strong>very</strong> good!".
Proof.
  apply (X14_emphasis_is_wrapped (rt := JsonText.runtime)
           [STAR; STAR] (lit "strong") (lit "It is ") (lit "very") (lit " good!")).
  - right. left. reflexivity.
  - reflexivity.
  - reflexivity.
  - reflexivity.
  - discriminate.
  - reflexivity.
Defined.

(** ** Headers *)

Section HeaderFacts.
Context {rt : Runtime}.

Lemma takeWhile_all (p : N -> bool) (s : jsstring) :
  forallb p s = true -> takeWhile p s = s.
Proof.
  induction s as [|c s IH]; [reflexivity|]. cbn [forallb takeWhile]. intros H.
  apply andb_true_iff in H as [Hc Hs]. now rewrite Hc, IH.
Qed.

Lemma offBol_inside (mark : N) (s : jsstring) :
  forallb (fun c => negb (isLineTerminator c)) s = true -> offBol mark false s = true.
Proof.
  induction s as [|c s IH]; [reflexivity|]. cbn [forallb offBol]. intros H.
  apply andb_true_iff in H as [Hc Hs]. apply negb_true_iff in Hc.
  now rewrite Hc, (IH Hs).
Qed.

(** A line rule on the line it is made for. *)
Lemma lineRule_hit (marker before after w : jsstring) :
  marker <> [] -> forallb (fun c => negb (isLineTerminator c)) w = true ->
  replaceGlobal (lineRule marker false before after) (marker ++ w) = before ++ w ++ after.
Proof.
  intros Hm Hw. unfold replaceGlobal.
  rewrite <- (app_nil_r (marker ++ w)).
  rewrite (replaceAll_match _ (marker ++ w) [] (before ++ w ++ after)).
  - cbn [replaceAll]. now rewrite app_nil_r.
  - destruct marker; [congruence|discriminate].
  - unfold lineRule. rewrite app_nil_r, startsWith_app, skipn_app_exact. cbn [andb].
    rewrite (takeWhile_all _ _ Hw). cbn [andb negb]. now rewrite length_app.
Qed.

(** A line rule on a line that begins otherwise. *)
Lemma lineRule_other (o : N) (marker before after : jsstring) (needsText : bool)
    (s : jsstring) :
  startsWith (o :: marker) s = false ->
  forallb (fun c => negb (isLineTerminator c)) s = true ->
  replaceGlobal (lineRule (o :: marker) needsText before after) s = s.
Proof.
  intros Hs Hline. unfold replaceGlobal. destruct s as [|c s]; [reflexivity|].
  cbn [forallb] in Hline. apply andb_true_iff in Hline as [Hc Hrest].
  apply negb_true_iff in Hc.
  rewrite replaceAll_miss by (unfold lineRule; now rewrite Hs).
  f_equal. rewrite Hc. rewrite <- (app_nil_r s) at 1.
  rewrite lineRule_pass by now apply offBol_inside.
  cbn [replaceAll]. apply app_nil_r.
Qed.

Lemma header_passes (level : nat) (w : jsstring) :
  1 <= level <= 3 -> ordinary w = true ->
  replaceGlobal header1 (replaceGlobal header2 (replaceGlobal header3 (headerMarker level ++ w)))
  = openTag (headerTag level) ++ w ++ closeTag (headerTag level).
Proof.
  intros Hlevel Hw. pose proof (ordinary_line _ Hw) as Hline.
  assert (Hall : forallb (fun c => negb (isLineTerminator c)) (headerMarker level ++ w) = true).
  { rewrite forallb_app, Hline, andb_true_r.
    destruct level as [|[|[|[|]]]]; try lia; reflexivity. }
  assert (Hout : forall before after : jsstring,
            startsWith (lit "#") (before ++ w ++ after) = false ->
            forallb (fun c => negb (isLineTerminator c)) after = true ->
            forallb (fun c => negb (isLineTerminator c)) before = true ->
            forall marker needsText b a,
              replaceGlobal (lineRule (35%N :: marker) needsText b a) (before ++ w ++ after)
              = before ++ w ++ after).
  { intros before after Hs Ha Hb marker needsText b a. apply lineRule_other.
    - destruct (before ++ w ++ after) as [|c s]; [reflexivity|].
      cbn [startsWith lit list_ascii_of_string map] in Hs. rewrite andb_true_r in Hs.
      cbn [startsWith]. change (N_of_ascii "#") with 35%N in Hs. now rewrite Hs.
    - now rewrite !forallb_app, Hb, Hline, Ha. }
  unfold header3, header2, header1.
  destruct level as [|[|[|[|]]]]; try lia.
  - (* level 1 *)
    rewrite (lineRule_other 35 (lit "## ")) by (reflexivity || exact Hall).
    rewrite (lineRule_other 35 (lit "# ")) by (reflexivity || exact Hall).
    now rewrite (lineRule_hit (lit "# ")) by (discriminate || assumption).
  - (* level 2 *)
    rewrite (lineRule_other 35 (lit "## ")) by (reflexivity || exact Hall).
    rewrite (lineRule_hit (lit "## ")) by (discriminate || assumption).
    change (lit "# ") with (35%N :: lit " ").
    now rewrite (Hout (lit "<h2>") (lit "</h2>")).
  - (* level 3 *)
    rewrite (lineRule_hit (lit "### ")) by (discriminate || assumption).
    change (lit "## ") with (35%N :: lit "# ").
    rewrite (Hout (lit "<h3>") (lit "</h3>")) by reflexivity.
    change (lit "# ") with (35%N :: lit " ").
    now rewrite (Hout (lit "<h3>") (lit "</h3>")).
Qed.

End HeaderFacts.

(** X15.  Headers.  A line made of one, two or three hashes, a space and
    ordinary text is rendered as a header of that level holding the text;
    the rule of a lower level does not take the line of a higher one. *)
Theorem X15_header_is_rendered {rt : Runtime} (level : nat) (w : jsstring) :
  1 <= level <= 3 -> ordinary w = true ->
  parseMarkdown (headerMarker level ++ w)
  = openTag (headerTag level) ++ w ++ closeTag (headerTag level).
Proof.
  intros Hlevel Hw.
  assert (Hmarker : forallb (fun c => negb (special c)) (headerMarker level) = true)
    by (destruct level as [|[|[|[|]]]]; try lia; reflexivity).
  assert (Hs : ordinary (headerMarker level ++ w) = true)
    by (unfold ordinary in *; now rewrite forallb_app, Hmarker, Hw).
  assert (Htags : forallb (fun c => negb (isLineTerminator c))
                          (openTag (headerTag level) ++ closeTag (headerTag level)) = true
                  /\ forallb (isNot 91) (openTag (headerTag level) ++ closeTag (headerTag level))
                     = true
                  /\ exists name name',
                       openTag (headerTag level) = LT :: 104%N :: name
                       /\ closeTag (headerTag level) = LT :: 47%N :: name'
                       /\ forallb (isNot LT) (104%N :: name) = true
                       /\ forallb (isNot LT) (47%N :: name') = true).
  { destruct level as [|[|[|[|]]]]; try lia;
      (split; [reflexivity|split; [reflexivity|eexists _, _; repeat split; reflexivity]]). }
  destruct Htags as (Hline & Hbr & name & name' & Eopen & Eclose & Hname & Hname').
  rewrite forallb_app in Hline, Hbr.
  apply andb_true_iff in Hline as [Hl1 Hl2]. apply andb_true_iff in Hbr as [Hb1 Hb2].
  unfold parseMarkdown, inlinePasses.
  rewrite escapeHtml_same by now apply ordinary_meta.
  (* no fence and no emphasis *)
  rewrite (replaceGlobal_pass codeBlock (isNot BACKTICK))
    by (exact codeBlock_miss || (apply ordinary_avoids; [reflexivity|assumption])).
  unfold inlineCode, boldStars, boldUnderscores, italicStar, italicUnderscore.
  rewrite (replaceGlobal_pass (wrapDelimited [BACKTICK] _ _ _ _) (isNot BACKTICK))
    by (first [intros; now apply wrapDelimited_miss
              | apply ordinary_avoids; [reflexivity|assumption]]).
  rewrite (replaceGlobal_pass (wrapDelimited [STAR; STAR] _ _ _ _) (isNot STAR))
    by (first [intros; now apply wrapDelimited_miss
              | apply ordinary_avoids; [reflexivity|assumption]]).
  rewrite (replaceGlobal_pass (wrapDelimited [UNDERSCORE; UNDERSCORE] _ _ _ _) (isNot UNDERSCORE))
    by (first [intros; now apply wrapDelimited_miss
              | apply ordinary_avoids; [reflexivity|assumption]]).
  rewrite (replaceGlobal_pass (wrapDelimited [STAR] _ _ _ _) (isNot STAR))
    by (first [intros; now apply wrapDelimited_miss
              | apply ordinary_avoids; [reflexivity|assumption]]).
  rewrite (replaceGlobal_pass (wrapDelimited [UNDERSCORE] _ _ _ _) (isNot UNDERSCORE))
    by (first [intros; now apply wrapDelimited_miss
              | apply ordinary_avoids; [reflexivity|assumption]]).
  (* the header of the level *)
  rewrite header_passes by assumption.
  (* the tag opens no block and the line is no list item *)
  apply blockPasses_line.
  - now rewrite !forallb_app, Hl1, Hl2, (ordinary_line w).
  - now rewrite !forallb_app, Hb1, Hb2, (ordinary_avoids 91 w).
  - now rewrite Eopen.
  - rewrite Eopen, Eclose.
    change ((LT :: 104%N :: name) ++ ?x) with (LT :: 104%N :: name ++ x).
    rewrite noBlock_tag by (reflexivity || assumption).
    rewrite noBlock_pass by (apply ordinary_avoids; [reflexivity|assumption]).
    replace (LT :: 47%N :: name') with (LT :: 47%N :: name' ++ []) by now rewrite app_nil_r.
    now rewrite noBlock_tag by (reflexivity || assumption).
Qed.

Lemma X15_header_is_rendered_witness :
  parseMarkdown (rt := JsonText.runtime) (lit "## Results (draft)")
  = lit "<h2>Results (draft)</h2>".
Proof.
  apply (X15_header_is_rendered (rt := JsonText.runtime) 2 (lit "Results (draft)")).
  - split; repeat constructor.
  - reflexivity.
Defined.

(** ** Lists *)

Section ListFacts.
Context {rt : Runtime}.

Lemma indexOf_pass (o : N) (needle a b : jsstring) :
  forallb (isNot o) a = true ->
  indexOf (o :: needle) (a ++ b) = option_map (Nat.add (length a)) (indexOf (o :: needle) b).
Proof.
  induction a as [|c a IH]; cbn [forallb]; intros H.
  - cbn [app length]. now destruct (indexOf (o :: needle) b).
  - apply andb_true_iff in H as [Hc Ha]. cbn [app].
    rewrite indexOf_cons_false by now apply startsWith_head.
    rewrite (IH Ha). now destruct (indexOf (o :: needle) b).
Qed.

(** The closing tag of the list is not found in an item. *)
Lemma indexOf_item (item rest : jsstring) :
  ordinary item = true ->
  indexOf (lit "</ul>") (LF :: listItem item ++ rest)
  = option_map (Nat.add (length (LF :: listItem item))) (indexOf (lit "</ul>") rest).
Proof.
  intros Hi. unfold listItem. rewrite <- !app_assoc.
  change (LF :: lit "<li>" ++ item ++ lit "</li>" ++ rest)
    with (LF :: LT :: lit "li>" ++ item ++ LT :: lit "/li>" ++ rest).
  change (lit "</ul>") with (LT :: lit "/ul>").
  rewrite indexOf_cons_false by reflexivity.
  rewrite indexOf_cons_false by reflexivity.
  rewrite (indexOf_pass LT _ (lit "li>")) by reflexivity.
  rewrite (indexOf_pass LT _ item) by (apply ordinary_avoids; [reflexivity|assumption]).
  rewrite indexOf_cons_false by reflexivity.
  rewrite (indexOf_pass LT _ (lit "/li>")) by reflexivity.
  destruct (indexOf (LT :: lit "/ul>") rest) as [k|]; [|reflexivity].
  cbn [option_map]. f_equal. cbn [length]. rewrite !length_app.
  change (length (lit "<li>")) with 4. change (length (lit "</li>")) with 5.
  change (length (lit "li>")) with 3. change (length (lit "/li>")) with 4. cbn [length]. lia.
Qed.

Lemma indexOf_items (items : list jsstring) (rest : jsstring) :
  forallb ordinary items = true ->
  indexOf (lit "</ul>") (flat_map (fun l => LF :: l) (map listItem items)
                         ++ LF :: lit "</ul>" ++ rest)
  = Some (length (flat_map (fun l => LF :: l) (map listItem items)) + 1).
Proof.
  induction items as [|item items IH]; [reflexivity|]. cbn [forallb]. intros H.
  apply andb_true_iff in H as [Hi Hitems].
  cbn [map flat_map]. rewrite <- app_assoc.
  change ((LF :: listItem item) ++ ?x) with (LF :: listItem item ++ x).
  rewrite indexOf_item by assumption. rewrite (IH Hitems). cbn [option_map].
  f_equal. cbn [length]. rewrite length_app. lia.
Qed.

Lemma newlinesOutside_skip (u t : jsstring) :
  newlinesOutside (length u) (u ++ t) = u ++ newlinesOutside 0 t.
Proof.
  induction u as [|c u IH]; [now destruct t|].
  cbn [length app newlinesOutside]. now rewrite IH.
Qed.

(** A block is copied as it is. *)
Lemma newlinesOutside_block (block rest : jsstring) :
  blockAt (block ++ rest) = Some (length block) -> block <> [] ->
  newlinesOutside 0 (block ++ rest) = block ++ newlinesOutside 0 rest.
Proof.
  intros H Hne. destruct block as [|c block]; [congruence|].
  cbn [app newlinesOutside]. cbn [app] in H. rewrite H. cbn [length pred].
  now rewrite newlinesOutside_skip.
Qed.

Lemma ulItem_dash (item : jsstring) :
  ordinary item = true -> nonEmpty item = true -> ulItem (lit "- " ++ item) = Some item.
Proof.
  intros Ho Hn. cbn [lit list_ascii_of_string map app ulItem].
  unfold plainRest. now rewrite Hn, (ordinary_line _ Ho).
Qed.

Lemma listLoop_dashes (items : list jsstring) (inUl : bool) :
  forallb (fun item => ordinary item && nonEmpty item) items = true -> items <> [] ->
  listLoop (map (app (lit "- ")) items) inUl false
  = (if inUl then [] else [lit "<ul>"]) ++ map listItem items ++ [lit "</ul>"].
Proof.
  revert inUl. induction items as [|item items IH]; intros inUl H Hne; [congruence|].
  cbn [forallb] in H. apply andb_true_iff in H as [Hi Hitems].
  apply andb_true_iff in Hi as [Ho Hn].
  cbn [map listLoop]. rewrite ulItem_dash by assumption.
  destruct items as [|next items].
  - cbn [map listLoop app]. reflexivity.
  - rewrite (IH true Hitems) by discriminate. reflexivity.
Qed.

End ListFacts.

Section DashList.
Context {rt : Runtime}.
Variable items : list jsstring.
Hypothesis Hitems : forallb (fun item => ordinary item && nonEmpty item) items = true.
Hypothesis Hne : items <> [].

Lemma items_ordinary : forallb ordinary items = true.
Proof.
  revert Hitems. rewrite !forallb_forall. intros H item Hin.
  specialize (H item Hin). now apply andb_true_iff in H as [H _].
Qed.

Lemma dashes_ordinary : forallb ordinary (map (app (lit "- ")) items) = true.
Proof.
  pose proof items_ordinary as H. rewrite forallb_forall in *. intros line Hin.
  apply in_map_iff in Hin as (item & <- & Hin). rewrite ordinary_app.
  now rewrite (H item Hin).
Qed.

Lemma dashes_avoid (x : N) :
  special x = true -> x <> LF ->
  forallb (isNot x) (join [LF] (map (app (lit "- ")) items)) = true.
Proof.
  intros Hx Hlf. apply forallb_join.
  - cbn. unfold isNot. destruct (N.eqb_spec LF x); [congruence|reflexivity].
  - pose proof dashes_ordinary as H. rewrite forallb_forall in *. intros line Hin.
    apply ordinary_avoids; [exact Hx|]. now apply H.
Qed.

Lemma dashes_offBol : offBol 35 true (join [LF] (map (app (lit "- ")) items)) = true.
Proof.
  apply offBol_lines; [discriminate|]. apply Forall_forall. intros line Hin.
  pose proof dashes_ordinary as H. rewrite forallb_forall in H.
  split; [now apply ordinary_line, H|].
  apply in_map_iff in Hin as (item & <- & _). reflexivity.
Qed.

(** The list as the list pass writes it. *)
Lemma listed_shape :
  join [LF] (lit "<ul>" :: map listItem items ++ [lit "</ul>"])
  = lit "<ul>" ++ flat_map (fun l => LF :: l) (map listItem items) ++ LF :: lit "</ul>".
Proof.
  rewrite join_first, flat_map_app. cbn [flat_map]. now rewrite app_nil_r.
Qed.

Lemma listed_offBol :
  offBol GT true (join [LF] (lit "<ul>" :: map listItem items ++ [lit "</ul>"])) = true.
Proof.
  apply offBol_lines; [discriminate|]. constructor; [now split|].
  apply Forall_app. split; [|now repeat constructor].
  apply Forall_forall. intros line Hin. apply in_map_iff in Hin as (item & <- & Hin).
  pose proof items_ordinary as H. rewrite forallb_forall in H.
  split; [|reflexivity]. unfold listItem.
  now rewrite !forallb_app, (ordinary_line item) by now apply H.
Qed.

Lemma listed_block :
  newlinesOutside 0 (join [LF] (lit "<ul>" :: map listItem items ++ [lit "</ul>"]))
  = join [LF] (lit "<ul>" :: map listItem items ++ [lit "</ul>"]).
Proof.
  rewrite listed_shape.
  set (middle := flat_map (fun l => LF :: l) (map listItem items)).
  rewrite <- (app_nil_r (lit "<ul>" ++ middle ++ LF :: lit "</ul>")) at 1.
  rewrite newlinesOutside_block; [now rewrite app_nil_r|..|discriminate].
  rewrite app_nil_r. unfold blockAt.
  change (lazyBlock (lit "<pre><code>") (lit "</code></pre>")
            (lit "<ul>" ++ middle ++ LF :: lit "</ul>")) with (@None nat).
  unfold lazyBlock. rewrite startsWith_app, skipn_app_exact.
  unfold middle. rewrite <- (app_nil_r (lit "</ul>")) at 2.
  rewrite indexOf_items by exact items_ordinary.
  f_equal. rewrite ?app_nil_r, !length_app. cbn [length]. rewrite ?app_nil_r.
  change (length (lit "<ul>")) with 4. change (length (lit "</ul>")) with 5. lia.
Qed.

End DashList.

(** X16.  Lists.  Consecutive lines that each begin with a dash and a space,
    followed by ordinary text, are grouped into one unordered list with
    one entry per line, in order; the list is opened before the first
    entry and closed after the last, and the newlines between its lines
    are kept, not turned into line breaks. *)
Theorem X16_dash_list_is_grouped {rt : Runtime} (items : list jsstring) :
  items <> [] ->
  forallb (fun item => ordinary item && nonEmpty item) items = true ->
  parseMarkdown (join [LF] (map (app (lit "- ")) items))
  = join [LF] (lit "<ul>" :: map listItem items ++ [lit "</ul>"]).
Proof.
  intros Hne Hitems.
  assert (Hno : forall x, special x = true -> x <> LF ->
                  forallb (isNot x) (join [LF] (map (app (lit "- ")) items)) = true)
    by (intros; now apply dashes_avoid).
  unfold parseMarkdown, inlinePasses, blockPasses.
  (* nothing to escape *)
  rewrite escapeHtml_same.
  2:{ apply forallb_join; [reflexivity|].
      pose proof (dashes_ordinary items Hitems) as H. rewrite forallb_forall in *.
      intros line Hin. now apply ordinary_meta, H. }
  (* no fence, no emphasis, no header, no link *)
  rewrite (replaceGlobal_pass codeBlock (isNot BACKTICK))
    by (first [exact codeBlock_miss | apply Hno; [reflexivity|discriminate]]).
  unfold inlineCode, boldStars, boldUnderscores, italicStar, italicUnderscore.
  rewrite (replaceGlobal_pass (wrapDelimited [BACKTICK] _ _ _ _) (isNot BACKTICK))
    by (first [intros; now apply wrapDelimited_miss | apply Hno; [reflexivity|discriminate]]).
  rewrite (replaceGlobal_pass (wrapDelimited [STAR; STAR] _ _ _ _) (isNot STAR))
    by (first [intros; now apply wrapDelimited_miss | apply Hno; [reflexivity|discriminate]]).
  rewrite (replaceGlobal_pass (wrapDelimited [UNDERSCORE; UNDERSCORE] _ _ _ _) (isNot UNDERSCORE))
    by (first [intros; now apply wrapDelimited_miss | apply Hno; [reflexivity|discriminate]]).
  rewrite (replaceGlobal_pass (wrapDelimited [STAR] _ _ _ _) (isNot STAR))
    by (first [intros; now apply wrapDelimited_miss | apply Hno; [reflexivity|discriminate]]).
  rewrite (replaceGlobal_pass (wrapDelimited [UNDERSCORE] _ _ _ _) (isNot UNDERSCORE))
    by (first [intros; now apply wrapDelimited_miss | apply Hno; [reflexivity|discriminate]]).
  rewrite headers_pass by now apply dashes_offBol.
  rewrite (replaceGlobal_pass link (isNot 91))
    by (first [exact link_miss | apply Hno; [reflexivity|discriminate]]).
  (* every line is an item of the same list *)
  unfold processLists. rewrite split_lines.
  2:{ destruct items; [congruence|discriminate]. }
  2:{ apply Forall_forall. intros line Hin.
      pose proof (dashes_ordinary items Hitems) as H. rewrite forallb_forall in H.
      now apply ordinary_unbroken, H. }
  rewrite listLoop_dashes by assumption. cbn [app].
  (* no quotation; the list is a block *)
  unfold blockquote. change (lit "> ") with (GT :: lit " ").
  rewrite lineRule_global_pass by now apply listed_offBol.
  unfold replaceNewlinesOutsideBlocks. now apply listed_block.
Qed.

Lemma X16_dash_list_is_grouped_witness :
  parseMarkdown (rt := JsonText.runtime)
    (lit "- milk" ++ [LF] ++ lit "- 2 eggs" ++ [LF] ++ lit "- bread (sliced)")
  = lit "<ul>" ++ [LF] ++ lit "<li>milk</li>" ++ [LF] ++ lit "<li>2 eggs</li>" ++ [LF]
    ++ lit "<li>bread (sliced)</li>" ++ [LF] ++ lit "</ul>".
Proof.
  apply (X16_dash_list_is_grouped (rt := JsonText.runtime) shopping).
  - discriminate.
  - reflexivity.
Defined.

(** ** Quotations: a rule that never applies *)

Section OffBol.
Variable mark : N.

Lemma offBol_weaken (b : bool) (s : jsstring) :
  offBol mark b s = true -> offBol mark false s = true.
Proof.
  destruct s as [|c s]; [reflexivity|]. cbn [offBol andb negb]. intros H.
  now apply andb_true_iff in H as [_ H].
Qed.

Lemma offBol_skipn (b : bool) (k : nat) (s : jsstring) :
  offBol mark b s = true -> offBol mark false (skipn k s) = true.
Proof.
  revert b s. induction k as [|k IH]; intros b s H; [now apply offBol_weaken in H|].
  destruct s as [|c s]; [reflexivity|]. cbn [skipn]. cbn [offBol] in H.
  apply andb_true_iff in H as [_ H]. exact (IH _ _ H).
Qed.

Lemma offBol_prefix (b : bool) (a c : jsstring) :
  offBol mark b (a ++ c) = true -> offBol mark b a = true.
Proof. rewrite offBol_app. intros H. now apply andb_true_iff in H as [H _]. Qed.

Lemma offBol_firstn (b : bool) (k : nat) (s : jsstring) :
  offBol mark b s = true -> offBol mark b (firstn k s) = true.
Proof. rewrite <- (firstn_skipn k s) at 1. apply offBol_prefix. Qed.

Lemma offBol_takeWhile (p : N -> bool) (b : bool) (s : jsstring) :
  offBol mark b s = true -> offBol mark b (takeWhile p s) = true.
Proof. rewrite <- (takeWhile_dropWhile p s) at 1. apply offBol_prefix. Qed.

Lemma offBol_dropWhile (p : N -> bool) (b : bool) (s : jsstring) :
  offBol mark b s = true -> offBol mark false (dropWhile p s) = true.
Proof. destruct (dropWhile_skipn p s) as [k ->]. apply offBol_skipn. Qed.

Lemma offBol_trim (b : bool) (s : jsstring) :
  offBol mark b s = true -> offBol mark false (trim s) = true.
Proof.
  intros H. unfold trim, trimStart.
  apply (offBol_dropWhile isWhiteSpace) in H.
  destruct (trimEnd_tail (dropWhile isWhiteSpace s)) as (tail & E & _).
  rewrite E in H. now apply offBol_prefix in H.
Qed.

Lemma offBol_wrapped (b : bool) (before group after : jsstring) :
  template mark before -> template mark after -> offBol mark false group = true ->
  offBol mark b (before ++ group ++ after) = true
  /\ bolAfter b (before ++ group ++ after) = false.
Proof.
  intros [Hb1 Hb2] [Ha1 Ha2] Hg. split.
  - now rewrite !offBol_app, Hb1, Hb2, Hg, Ha1.
  - now rewrite !bolAfter_app, Ha2.
Qed.

End OffBol.

Section OffBolPasses.
Variable mark : N.

(** A replacement keeps the mark off the line starts. *)
Lemma replaceAll_offBol (m : Matcher) :
  (forall bol s r n, m bol s = Some (r, n) -> offBol mark bol s = true ->
     offBol mark bol r = true /\ bolAfter bol r = false) ->
  forall s skip bol, offBol mark bol s = true ->
    offBol mark false (replaceAll m skip bol s) = true
    /\ offBol mark bol (replaceAll m 0 bol s) = true.
Proof.
  intros Hm. induction s as [|c s IH]; intros skip bol H; [now split|].
  pose proof H as Hcs. cbn [offBol] in H. apply andb_true_iff in H as [Hc Hs].
  assert (Hzero : offBol mark bol (replaceAll m 0 bol (c :: s)) = true).
  { cbn [replaceAll]. destruct (m bol (c :: s)) as [[r n]|] eqn:Em.
    - destruct (Hm _ _ _ _ Em Hcs) as [Hr Hlast].
      rewrite offBol_app, Hr, Hlast. now apply IH.
    - cbn [offBol]. rewrite Hc. now apply IH. }
  split; [|exact Hzero].
  destruct skip as [|k]; [now apply offBol_weaken in Hzero|].
  cbn [replaceAll]. now apply IH.
Qed.

Lemma replaceGlobal_offBol (m : Matcher) (s : jsstring) :
  (forall bol s r n, m bol s = Some (r, n) -> offBol mark bol s = true ->
     offBol mark bol r = true /\ bolAfter bol r = false) ->
  offBol mark true s = true -> offBol mark true (replaceGlobal m s) = true.
Proof. intros Hm H. now apply (replaceAll_offBol m Hm s 0 true). Qed.

Lemma wrapDelimited_offBol (opening closing before after : jsstring) (stop : N)
    (bol : bool) (s r : jsstring) (n : nat) :
  template mark before -> template mark after ->
  wrapDelimited opening stop closing before after bol s = Some (r, n) ->
  offBol mark bol s = true ->
  offBol mark bol r = true /\ bolAfter bol r = false.
Proof.
  intros Hb Ha. unfold wrapDelimited, delimited.
  destruct (startsWith opening s); [|discriminate].
  destruct (_ && _); [|discriminate]. intros E Hs. replacement_of E.
  apply offBol_wrapped; try assumption.
  now apply offBol_takeWhile, (offBol_skipn mark bol).
Qed.

Lemma lineRule_offBol (marker before after : jsstring) (needsText : bool)
    (bol : bool) (s r : jsstring) (n : nat) :
  template mark before -> template mark after ->
  lineRule marker needsText before after bol s = Some (r, n) ->
  offBol mark bol s = true ->
  offBol mark bol r = true /\ bolAfter bol r = false.
Proof.
  intros Hb Ha. unfold lineRule.
  destruct (bol && startsWith marker s); [|discriminate].
  destruct (_ && _); [discriminate|]. intros E Hs. replacement_of E.
  apply offBol_wrapped; try assumption.
  now apply offBol_takeWhile, (offBol_skipn mark bol).
Qed.

Lemma codeBlock_offBol (bol : bool) (s r : jsstring) (n : nat) :
  template mark (lit "<pre><code>") -> template mark (lit "</code></pre>") ->
  codeBlock bol s = Some (r, n) -> offBol mark bol s = true ->
  offBol mark bol r = true /\ bolAfter bol r = false.
Proof.
  intros Hb Ha. unfold codeBlock.
  destruct (startsWith fence s); [|discriminate].
  destruct (dropWhile isWordChar (skipn 3 s)) as [|c s3] eqn:Ed; [discriminate|].
  destruct (N.eqb c LF); [|discriminate].
  destruct (indexOf fence s3) as [k|]; [|discriminate].
  intros E Hs. replacement_of E.
  apply offBol_wrapped; try assumption.
  apply (offBol_trim mark false), offBol_firstn.
  apply (offBol_skipn mark bol 3), (offBol_dropWhile mark isWordChar) in Hs.
  rewrite Ed in Hs. cbn [offBol andb negb] in Hs. now apply offBol_weaken in Hs.
Qed.

End OffBolPasses.

Section OffBolBlocks.
Context {rt : Runtime}.
Variable mark : N.

Lemma delimited_parts (opening closing : jsstring) (stop : N) (b : bool)
    (s group rest : jsstring) :
  delimited opening stop closing s = Some (group, rest) ->
  offBol mark b s = true ->
  offBol mark false group = true /\ offBol mark false rest = true.
Proof.
  unfold delimited. destruct (startsWith opening s); [|discriminate].
  destruct (_ && _); [|discriminate]. intros [= <- <-] Hs.
  apply (offBol_skipn mark b (length opening)) in Hs. split.
  - now apply offBol_takeWhile.
  - eapply offBol_skipn. eapply offBol_dropWhile. exact Hs.
Qed.

Lemma link_offBol (bol : bool) (s r : jsstring) (n : nat) :
  template mark anchorOpen -> template mark anchorMiddle -> template mark (lit "</a>") ->
  offBol mark false placeholder = true ->
  link bol s = Some (r, n) -> offBol mark bol s = true ->
  offBol mark bol r = true /\ bolAfter bol r = false.
Proof.
  intros [Ho1 Ho2] [Hm1 Hm2] [Hc1 Hc2] Hph. unfold link.
  destruct (delimited (lit "[") 93 (lit "](") s) as [[text s1]|] eqn:E1; [|discriminate].
  destruct (delimited [] 41 (lit ")") s1) as [[url s2]|] eqn:E2; [|discriminate].
  intros E Hs. replacement_of E.
  destruct (delimited_parts _ _ _ _ _ _ _ E1 Hs) as [Htext Hs1].
  destruct (delimited_parts _ _ _ _ _ _ _ E2 Hs1) as [Hurl _].
  assert (Hsafe : offBol mark false (safeUrl url) = true).
  { destruct (safeUrl_cases url) as [[-> _]|[-> _]]; [|exact Hph].
    now apply (offBol_trim mark false). }
  change (anchor text url)
    with (anchorOpen ++ safeUrl url ++ anchorMiddle ++ text ++ lit "</a>").
  split.
  - now rewrite !offBol_app, Ho1, Ho2, Hsafe, Hm1, Hm2, Htext, Hc1.
  - now rewrite !bolAfter_app, Hc2.
Qed.

End OffBolBlocks.

Section QuotationFacts.
Context {rt : Runtime}.

Lemma template_GT (t : jsstring) :
  offBol GT true t = true -> bolAfter true t = false -> template GT t.
Proof.
  intros H1 H2. split; intros []; try assumption.
  - now apply offBol_weaken in H1.
  - destruct t as [|c t]; [discriminate|exact H2].
Qed.

(** Lines: the mark is off the line starts of a text when it is off the
    start of each of its lines, and conversely. *)
Lemma offBol_join (lines : list jsstring) :
  Forall (fun line => offBol GT true line = true) lines ->
  offBol GT true (join [LF] lines) = true.
Proof.
  induction 1 as [|line lines Hl _ IH]; [reflexivity|].
  destruct lines as [|next lines]; [exact Hl|].
  change (join [LF] (line :: next :: lines)) with (line ++ LF :: join [LF] (next :: lines)).
  rewrite offBol_app, Hl. cbn [offBol andb].
  change (isLineTerminator LF) with true. rewrite IH.
  change (N.eqb LF GT) with false. now rewrite andb_false_r.
Qed.

Lemma offBol_split (s : jsstring) (b : bool) :
  offBol GT b s = true ->
  match split LF s with
  | [] => False
  | first :: others =>
      offBol GT b first = true /\ Forall (fun line => offBol GT true line = true) others
  end.
Proof.
  revert b. induction s as [|c s IH]; intros b H; [now split|].
  cbn [offBol] in H. apply andb_true_iff in H as [Hc Hs]. specialize (IH _ Hs).
  cbn [split]. destruct (N.eqb c LF) eqn:Ec.
  - apply N.eqb_eq in Ec. subst c. split; [reflexivity|].
    destruct (split LF s) as [|l ls]; [contradiction|]. destruct IH as [Hl Hls].
    now constructor.
  - destruct (split LF s) as [|l ls]; [contradiction|]. destruct IH as [Hl Hls].
    split; [|exact Hls]. cbn [offBol]. now rewrite Hc, Hl.
Qed.

Lemma listItem_offBol (line item : jsstring) (k : nat) :
  item = skipn k line -> offBol GT true line = true ->
  offBol GT true (listItem item) = true.
Proof.
  intros -> H. unfold listItem.
  apply offBol_wrapped; try (apply template_GT; reflexivity).
  now apply (offBol_skipn GT true).
Qed.

Lemma listLoop_offBol (lines : list jsstring) (inUl inOl : bool) :
  Forall (fun line => offBol GT true line = true) lines ->
  Forall (fun line => offBol GT true line = true) (listLoop lines inUl inOl).
Proof.
  intros H. revert inUl inOl. induction H as [|line lines Hl _ IH]; intros inUl inOl.
  - cbn [listLoop]. destruct inUl, inOl; repeat constructor.
  - cbn [listLoop]. destruct (ulItem line) as [item|] eqn:Eu.
    + apply Forall_app. split; [destruct inUl; repeat constructor|].
      constructor; [|apply IH].
      exact (listItem_offBol line item 2 (ulItem_suffix _ _ Eu) Hl).
    + destruct (olItem line) as [item|] eqn:Eo.
      * apply Forall_app. split; [destruct inOl; repeat constructor|].
        constructor; [|apply IH].
        destruct (olItem_suffix _ _ Eo) as [k Hk].
        exact (listItem_offBol line item k Hk Hl).
      * apply Forall_app. split; [destruct inUl; repeat constructor|].
        apply Forall_app. split; [destruct inOl; repeat constructor|].
        constructor; [exact Hl|apply IH].
Qed.

Lemma processLists_offBol (html : jsstring) :
  offBol GT true html = true -> offBol GT true (processLists html) = true.
Proof.
  intros H. unfold processLists. apply offBol_join, listLoop_offBol.
  apply offBol_split in H. destruct (split LF html) as [|first others]; [contradiction|].
  destruct H as [Hf Ho]. now constructor.
Qed.

Lemma escapeHtml_offBol (text : jsstring) : offBol GT true (escapeHtml text) = true.
Proof.
  apply offBol_absent. generalize (escapeHtml_plain text). apply forallb_impl.
  intros c Hc. unfold isMeta in Hc. apply negb_true_iff in Hc.
  rewrite !orb_false_iff in Hc. destruct Hc as [[[_ Hgt] _] _].
  unfold isNot. now rewrite Hgt.
Qed.

(** Up to the list pass no closing bracket starts a line. *)
Lemma beforeQuotes_offBol (text : jsstring) :
  offBol GT true (processLists (replaceGlobal link (beforeLinks text))) = true.
Proof.
  apply processLists_offBol.
  apply replaceGlobal_offBol.
  { intros bol s r n.
    apply link_offBol; first [apply template_GT; reflexivity | reflexivity]. }
  unfold beforeLinks, inlinePasses.
  unfold header1, header2, header3.
  do 3 (apply replaceGlobal_offBol;
        [intros bol s r n; apply lineRule_offBol; apply template_GT; reflexivity|]).
  unfold inlineCode, boldStars, boldUnderscores, italicStar, italicUnderscore.
  do 5 (apply replaceGlobal_offBol;
        [intros bol s r n; apply wrapDelimited_offBol; apply template_GT; reflexivity|]).
  apply replaceGlobal_offBol.
  { intros bol s r n. apply codeBlock_offBol; apply template_GT; reflexivity. }
  apply escapeHtml_offBol.
Qed.

Lemma parseMarkdown_unquoted (text : jsstring) :
  parseMarkdown text
  = replaceNewlinesOutsideBlocks (processLists (replaceGlobal link (beforeLinks text))).
Proof.
  rewrite parseMarkdown_beforeLinks. unfold blockPasses, blockquote.
  change (lit "> ") with (GT :: lit " ").
  now rewrite lineRule_global_pass by apply beforeQuotes_offBol.
Qed.

Lemma parseMarkdown_tags_no_quote (text : jsstring) :
  guarded LT rendererTagsNoQuote (parseMarkdown text) = true.
Proof.
  rewrite parseMarkdown_unquoted. unfold replaceNewlinesOutsideBlocks.
  apply (newlinesOutside_guarded LT rendererTagsNoQuote); try reflexivity.
  apply (processLists_guarded LT rendererTagsNoQuote); try reflexivity.
  apply (replaceGlobal_guarded LT inlineTags eq_refl rendererTagsNoQuote).
  - intros w. apply In_app_l.
  - apply (link_guarded LT inlineTags eq_refl eq_refl rendererTagsNoQuote);
      try reflexivity. intros w. apply In_app_l.
  - now apply (link_inert LT inlineTags).
  - apply beforeLinks_guarded; try reflexivity.
    apply guarded_unmarked, (plain_unmarked LT); [reflexivity|apply escapeHtml_plain].
Qed.

End QuotationFacts.

(** X17.  Quotations are never rendered.  The renderer escapes [>] before it
    looks for lines that begin with it, and no pass writes one at the
    start of a line: when the rule of quotations is tried no line begins
    with [>], so that the rule changes nothing, whatever the text.  The
    output of the renderer holds no [blockquote] tag: every [<] of it opens
    one of the other tags of the renderer. *)
Theorem X17_quotation_is_never_rendered {rt : Runtime} (text : jsstring) :
  let html := processLists (replaceGlobal link (beforeLinks text)) in
  offBol GT true html = true
  /\ replaceGlobal blockquote html = html
  /\ parseMarkdown text = replaceNewlinesOutsideBlocks html
  /\ guarded LT rendererTagsNoQuote (parseMarkdown text) = true
  /\ contains (lit "<blockquote") (parseMarkdown text) = false.
Proof.
  cbv zeta. split; [apply beforeQuotes_offBol|].
  split.
  { unfold blockquote. change (lit "> ") with (GT :: lit " ").
    apply lineRule_global_pass, beforeQuotes_offBol. }
  split; [apply parseMarkdown_unquoted|].
  pose proof (parseMarkdown_tags_no_quote text) as H. split; [exact H|].
  unfold contains.
  destruct (indexOf (lit "<blockquote") (parseMarkdown text)) as [k|] eqn:E; [|reflexivity].
  destruct (indexOf_split _ _ _ E) as [rest Hrest].
  apply (guarded_at LT rendererTagsNoQuote _ k (lit "blockquote" ++ rest)) in H; [|exact Hrest].
  discriminate H.
Qed.

(** A quoted line, rendered: the mark is escaped and the line is kept. *)
Example quoted_line_is_not_a_quotation :
  parseMarkdown (rt := JsonText.runtime) (lit "> so it is said")
  = lit "&gt; so it is said".
Proof. reflexivity. Qed.

(** ** What the output is made of *)

Section Tokens.
Variable W : list jsstring.

Lemma Composed_nil : Composed W [].
Proof. exists []. split; [constructor|reflexivity]. Qed.

Lemma Composed_app (a b : jsstring) : Composed W a -> Composed W b -> Composed W (a ++ b).
Proof.
  intros (ta & Ha & ->) (tb & Hb & ->). exists (ta ++ tb).
  split; [now apply Forall_app|now rewrite concat_app].
Qed.

Lemma Composed_template (w : jsstring) : In w W -> Composed W w.
Proof.
  intros H. exists [w]. split; [constructor; [now left|constructor]|].
  cbn. now rewrite app_nil_r.
Qed.

Lemma Composed_unit (c : N) (s : jsstring) :
  safeUnit c = true -> Composed W s -> Composed W (c :: s).
Proof.
  intros Hc (toks & Ht & ->). exists ([c] :: toks).
  split; [constructor; [right; now exists c|assumption]|reflexivity].
Qed.

Lemma Composed_safe (s : jsstring) : forallb safeUnit s = true -> Composed W s.
Proof.
  induction s as [|c s IH]; [intros _; apply Composed_nil|].
  cbn [forallb]. intros H. apply andb_true_iff in H as [Hc Hs].
  now apply Composed_unit, IH.
Qed.

Lemma Composed_concat (parts : list jsstring) :
  Forall (Composed W) parts -> Composed W (concat parts).
Proof.
  induction 1 as [|p parts Hp _ IH]; [apply Composed_nil|].
  cbn [concat]. now apply Composed_app.
Qed.

Hypothesis Wproper : properTemplates W = true.

Lemma template_shape (w : jsstring) :
  In w W ->
  exists c t, w = c :: t /\ safeUnit c = false
              /\ forallb (fun x => negb (isLineTerminator x)) t = true.
Proof.
  intros H. unfold properTemplates in Wproper. rewrite forallb_forall in Wproper.
  specialize (Wproper w H). destruct w as [|c t]; [discriminate|].
  apply andb_true_iff in Wproper as [Hc Ht]. apply negb_true_iff in Hc.
  now exists c, t.
Qed.

Lemma inWindows_in (w : jsstring) (x : N) :
  In w W -> In x (tl w) -> inWindows W x = true.
Proof.
  intros Hw Hx. unfold inWindows. apply existsb_exists. exists w. split; [assumption|].
  apply existsb_exists. exists x. split; [assumption|apply N.eqb_refl].
Qed.

Lemma inWindows_line (x : N) : inWindows W x = true -> isLineTerminator x = false.
Proof.
  intros H. unfold inWindows in H. apply existsb_exists in H as (w & Hw & Hx).
  apply existsb_exists in Hx as (y & Hy & E). apply N.eqb_eq in E. subst y.
  destruct (template_shape w Hw) as (c & t & -> & _ & Ht). cbn [tl] in Hy.
  rewrite forallb_forall in Ht. specialize (Ht x Hy). now apply negb_true_iff in Ht.
Qed.

(** A text that is composed is cut into two texts that are, where the
    second starts with a unit that no template holds after its first. *)
Lemma Composed_cut (a b : jsstring) :
  Composed W (a ++ b) -> cutSafe W b = true -> Composed W a /\ Composed W b.
Proof.
  intros (toks & Ht & E) Hb. revert a E.
  induction Ht as [|t toks Htok Ht' IH]; intros a E.
  - cbn in E. apply app_eq_nil in E as [-> ->]. split; apply Composed_nil.
  - cbn [concat] in E. symmetry in E. apply app_eq_app in E as [l [[E1 E2]|[E1 E2]]].
    + (* the cut falls in the token, or before it *)
      destruct l as [|x l].
      * rewrite app_nil_r in E1. subst a. cbn [app] in E2.
        destruct (IH [] E2) as [_ Hb'].
        split; [|exact Hb'].
        exists [t]. split; [constructor; [assumption|constructor]|cbn; now rewrite app_nil_r].
      * destruct a as [|c a].
        -- cbn [app] in E1. split; [apply Composed_nil|].
           subst b t. apply Composed_app;
             [exists [x :: l]; split; [constructor; [assumption|constructor]|cbn; now rewrite app_nil_r]
             |now exists toks].
        -- exfalso. subst b. cbn [cutSafe app] in Hb. apply negb_true_iff in Hb.
           destruct Htok as [Hin|(y & Ey & _)].
           ++ rewrite (inWindows_in t x Hin) in Hb; [discriminate|].
              rewrite E1. cbn [app tl]. apply in_or_app. right. now left.
           ++ rewrite E1 in Ey. cbn [app] in Ey. injection Ey as _ Ey.
              now destruct a.
    + (* the token lies in [a] *)
      subst a. destruct (IH l (eq_sym E2)) as [Hl Hb'].
      split; [|exact Hb'].
      apply Composed_app; [|exact Hl].
      exists [t]. split; [constructor; [assumption|constructor]|cbn; now rewrite app_nil_r].
Qed.

(** Units that are not metacharacters are tokens of their own: what
    follows them in a composed text is composed. *)
Lemma Composed_plain (a b : jsstring) :
  forallb safeUnit a = true -> Composed W (a ++ b) -> Composed W b.
Proof.
  induction a as [|c a IH]; [intros _ H; exact H|].
  cbn [forallb app]. intros Ha (toks & Ht & E).
  apply andb_true_iff in Ha as [Hc Ha]. apply IH; [exact Ha|].
  destruct Ht as [|t toks Htok Ht]; [discriminate|].
  cbn [concat] in E. destruct Htok as [Hin|(y & -> & _)].
  - destruct (template_shape t Hin) as (c' & t' & -> & Hc' & _).
    cbn [app] in E. injection E as <- _. congruence.
  - cbn [app] in E. injection E as _ E. now exists toks.
Qed.

Lemma Composed_skipn_plain (k : nat) (s : jsstring) :
  forallb safeUnit (firstn k s) = true -> Composed W s -> Composed W (skipn k s).
Proof.
  intros Hk Hs. apply (Composed_plain (firstn k s)); [exact Hk|].
  now rewrite firstn_skipn.
Qed.

Lemma Composed_takeWhile (p : N -> bool) (s : jsstring) :
  (forall x, p x = false -> inWindows W x = false) ->
  Composed W s -> Composed W (takeWhile p s) /\ Composed W (dropWhile p s).
Proof.
  intros Hp Hs. apply Composed_cut; [now rewrite takeWhile_dropWhile|].
  clear Hs. induction s as [|c s IH]; [reflexivity|].
  cbn [dropWhile]. destruct (p c) eqn:E; [exact IH|].
  cbn [cutSafe]. now rewrite (Hp c E).
Qed.

Lemma Composed_dropWhile_plain (p : N -> bool) (s : jsstring) :
  (forall x, p x = true -> safeUnit x = true) ->
  Composed W s -> Composed W (dropWhile p s).
Proof.
  intros Hp Hs. apply (Composed_plain (takeWhile p s)); [|now rewrite takeWhile_dropWhile].
  clear Hs. induction s as [|c s IH]; [reflexivity|].
  cbn [takeWhile]. destruct (p c) eqn:E; [|reflexivity].
  cbn [forallb]. now rewrite (Hp c E).
Qed.

Lemma Composed_started (p s : jsstring) :
  forallb safeUnit p = true -> startsWith p s = true ->
  Composed W s -> Composed W (skipn (length p) s).
Proof.
  intros Hp Hs H. apply startsWith_spec in Hs as [t ->].
  rewrite skipn_app_exact. now apply (Composed_plain p).
Qed.

Lemma Composed_mono (V : list jsstring) (s : jsstring) :
  (forall w, In w W -> In w V) -> Composed W s -> Composed V s.
Proof.
  intros Hsub (toks & Ht & ->). exists toks. split; [|reflexivity].
  revert Ht. apply Forall_impl. intros t [H|H]; [left; now apply Hsub|now right].
Qed.

End Tokens.

(** *** The units that are not metacharacters *)

Lemma unsafe_cases (c : N) :
  safeUnit c = false -> c = LT \/ c = GT \/ c = QUOT \/ c = APOS \/ c = AMP.
Proof.
  unfold safeUnit, isMeta. intros H. apply negb_false_iff in H.
  repeat (apply orb_true_iff in H as [H|H]); apply N.eqb_eq in H; tauto.
Qed.

Ltac safe_by_cases c H :=
  destruct (safeUnit c) eqn:E; [reflexivity|];
  destruct (unsafe_cases c E) as [-> | [-> | [-> | [-> | ->] ] ] ]; discriminate H.

Lemma safeUnit_line (c : N) : isLineTerminator c = true -> safeUnit c = true.
Proof. intros H. safe_by_cases c H. Qed.

Lemma safeUnit_space (c : N) : isWhiteSpace c = true -> safeUnit c = true.
Proof. intros H. safe_by_cases c H. Qed.

Lemma safeUnit_word (c : N) : isWordChar c = true -> safeUnit c = true.
Proof. intros H. safe_by_cases c H. Qed.

Lemma safeUnit_digit (c : N) : isDigit c = true -> safeUnit c = true.
Proof. intros H. safe_by_cases c H. Qed.

Lemma safeUnit_delimiter (c : N) : isDelimiter c = true -> safeUnit c = true.
Proof. intros H. safe_by_cases c H. Qed.

Lemma unsafe_line (c : N) : safeUnit c = false -> isLineTerminator c = false.
Proof.
  intros H. destruct (isLineTerminator c) eqn:E; [|reflexivity].
  apply safeUnit_line in E. congruence.
Qed.

Lemma skipn_past (x : jsstring) (n : nat) (rest : jsstring) :
  skipn (length x + n) (x ++ rest) = skipn n rest.
Proof. now rewrite Nat.add_comm, <- skipn_skipn, skipn_app_exact. Qed.

(** *** A global replacement on a composed text *)

Section Replace.
Variables (W V : list jsstring) (m : Matcher).
Hypothesis Wproper : properTemplates W = true.
Hypothesis Hsub : forall w, In w W -> In w V.
Hypothesis Hm : forall bol s r n,
  Composed W s -> m bol s = Some (r, n) ->
  Composed V r /\ Composed W (skipn n s) /\ 0 < n.
Hypothesis Hinert : forall x s, inWindows W x = true -> m false (x :: s) = None.

Lemma replaceAll_window (t rest : jsstring) :
  (forall x, In x t -> inWindows W x = true) ->
  replaceAll m 0 false (t ++ rest) = t ++ replaceAll m 0 false rest.
Proof.
  induction t as [|c t IH]; intros H; [reflexivity|].
  cbn [app]. rewrite replaceAll_miss by (apply Hinert, H; now left).
  rewrite (inWindows_line W Wproper c) by (apply H; now left).
  now rewrite IH by (intros x Hx; apply H; now right).
Qed.

Lemma replaceAll_skipn (n : nat) (b : bool) (s : jsstring) :
  exists b', replaceAll m n b s = replaceAll m 0 b' (skipn n s).
Proof.
  revert b s. induction n as [|n IH]; intros b s; [now exists b|].
  destruct s as [|c s]; [now exists b|]. cbn [replaceAll skipn]. apply IH.
Qed.

Lemma replaceAll_Composed (s : jsstring) (bol : bool) :
  Composed W s -> Composed V (replaceAll m 0 bol s).
Proof.
  remember (length s) as k eqn:Ek. assert (Hk : length s <= k) by lia. clear Ek.
  revert s bol Hk. induction k as [|k IH]; intros s bol Hk Hs.
  - destruct s; [apply Composed_nil|cbn in Hk; lia].
  - destruct s as [|c s']; [apply Composed_nil|]. cbn [length] in Hk.
    destruct (m bol (c :: s')) as [[r n]|] eqn:E.
    + destruct (Hm _ _ _ _ Hs E) as (Hr & Hrest & Hn).
      cbn [replaceAll]. rewrite E. destruct n as [|n]; [lia|]. cbn [pred].
      destruct (replaceAll_skipn n (isLineTerminator c) s') as [b' ->].
      apply Composed_app; [exact Hr|]. apply IH; [|exact Hrest].
      rewrite length_skipn. lia.
    + rewrite (replaceAll_miss _ _ _ _ E).
      destruct Hs as (toks & Ht & Es). destruct Ht as [|t toks Htok Ht]; [discriminate|].
      cbn [concat] in Es. destruct Htok as [Hin|(y & -> & Hy)].
      * destruct (template_shape W Wproper t Hin) as (c0 & t0 & -> & Hc0 & _).
        cbn [app] in Es. injection Es as -> ->.
        rewrite (unsafe_line _ Hc0).
        rewrite replaceAll_window by (intros x Hx; now apply (inWindows_in W (c0 :: t0))).
        change (c0 :: t0 ++ replaceAll m 0 false (concat toks))
          with ((c0 :: t0) ++ replaceAll m 0 false (concat toks)).
        apply Composed_app; [now apply Composed_template, Hsub|].
        apply IH; [rewrite length_app in Hk; lia|now exists toks].
      * cbn [app] in Es. injection Es as -> ->.
        apply Composed_unit; [exact Hy|]. apply IH; [lia|now exists toks].
Qed.

Lemma replaceGlobal_Composed (s : jsstring) :
  Composed W s -> Composed V (replaceGlobal m s).
Proof. apply replaceAll_Composed. Qed.

End Replace.

(** *** The expressions of the renderer on a composed text *)

Section Expressions.
Variable W : list jsstring.
Hypothesis Wproper : properTemplates W = true.
Hypothesis Wplain : plainTemplates W = true.

Lemma inWindows_plainly (x : N) :
  inWindows W x = true -> isDelimiter x = false /\ isWhiteSpace x = false.
Proof.
  intros H. unfold inWindows in H. apply existsb_exists in H as (w & Hw & Hx).
  apply existsb_exists in Hx as (y & Hy & E). apply N.eqb_eq in E. subst y.
  unfold plainTemplates in Wplain. rewrite forallb_forall in Wplain.
  specialize (Wplain w Hw). rewrite forallb_forall in Wplain. specialize (Wplain x Hy).
  apply andb_true_iff in Wplain as [A B]. now apply negb_true_iff in A, B.
Qed.

Lemma delimiter_outside (x : N) : isDelimiter x = true -> inWindows W x = false.
Proof.
  intros H. destruct (inWindows W x) eqn:E; [|reflexivity].
  apply inWindows_plainly in E as [E _]. congruence.
Qed.

Lemma Composed_trim (s : jsstring) : Composed W s -> Composed W (trim s).
Proof.
  intros H. unfold trim.
  assert (Hs : Composed W (trimStart s))
    by (apply Composed_dropWhile_plain; [assumption|exact safeUnit_space|exact H]).
  destruct (trimEnd_tail (trimStart s)) as (tail & E & Htail).
  rewrite E in Hs. apply (Composed_cut W) in Hs; [tauto|].
  destruct tail as [|x tail]; [reflexivity|]. cbn [cutSafe].
  cbn [forallb] in Htail. apply andb_true_iff in Htail as [Hx _].
  destruct (inWindows W x) eqn:Ex; [|reflexivity].
  apply inWindows_plainly in Ex as [_ Ex]. congruence.
Qed.

Lemma delimited_Composed (opening closing : jsstring) (stop : N) (s group rest : jsstring) :
  forallb safeUnit opening = true -> forallb safeUnit closing = true ->
  isDelimiter stop = true ->
  Composed W s -> delimited opening stop closing s = Some (group, rest) ->
  Composed W group /\ Composed W rest /\ group <> []
  /\ skipn (length opening + length group + length closing) s = rest.
Proof.
  intros Ho Hc Hstop Hs. unfold delimited.
  destruct (startsWith opening s) eqn:Eo; [|discriminate].
  apply startsWith_spec in Eo as [s1 ->]. rewrite skipn_app_exact.
  apply (Composed_plain W Wproper opening) in Hs; [|exact Ho].
  destruct (Composed_takeWhile W (isNot stop) s1) as [Hrun Hs2]; [|exact Hs|].
  { intros x Hx. unfold isNot in Hx. apply negb_false_iff, N.eqb_eq in Hx. subst x.
    now apply delimiter_outside. }
  pose proof (takeWhile_dropWhile (isNot stop) s1) as Hsplit.
  destruct (nonEmpty (takeWhile (isNot stop) s1)) eqn:En; [|discriminate].
  destruct (startsWith closing (dropWhile (isNot stop) s1)) eqn:Ec; [|discriminate].
  cbn [andb]. intros [= <- <-].
  split; [exact Hrun|]. split; [now apply (Composed_started W Wproper)|].
  split; [now destruct (takeWhile (isNot stop) s1)|].
  apply startsWith_spec in Ec as [r Er]. rewrite Er, skipn_app_exact.
  rewrite <- Hsplit at 2. rewrite Er.
  now rewrite <- !Nat.add_assoc, !skipn_past, <- (Nat.add_0_r (length closing)), skipn_past.
Qed.

Section Into.
Variable V : list jsstring.
Hypothesis Hsub : forall w, In w W -> In w V.

Lemma wrapDelimited_Composed (o : N) (opening closing before after : jsstring) (stop : N)
    (s : jsstring) :
  isDelimiter o = true -> forallb safeUnit opening = true ->
  forallb safeUnit closing = true -> isDelimiter stop = true ->
  Composed V before -> Composed V after ->
  Composed W s ->
  Composed V (replaceGlobal (wrapDelimited (o :: opening) stop closing before after) s).
Proof.
  intros Ho Hop Hcl Hstop Hb Ha. apply (replaceGlobal_Composed W V); try assumption.
  - intros bol t r n Ht. unfold wrapDelimited.
    destruct (delimited (o :: opening) stop closing t) as [[group rest]|] eqn:E; [|discriminate].
    intros [= <- <-].
    assert (Hopen : forallb safeUnit (o :: opening) = true)
      by (cbn [forallb]; now rewrite safeUnit_delimiter).
    destruct (delimited_Composed _ _ _ _ _ _ Hopen Hcl Hstop Ht E)
      as (Hg & Hr & Hne & Hskip).
    split; [|split].
    + apply Composed_app; [assumption|]. apply Composed_app; [|assumption].
      now apply (Composed_mono W V).
    + cbn [length Nat.add] in Hskip. now rewrite Hskip.
    + cbn [length]. lia.
  - intros x t Hx. apply wrapDelimited_miss. unfold isNot. apply negb_true_iff.
    apply N.eqb_neq. intros ->. rewrite delimiter_outside in Hx; [discriminate|assumption].
Qed.

Lemma lineRule_Composed (o : N) (marker before after : jsstring) (needsText : bool)
    (s : jsstring) :
  forallb safeUnit (o :: marker) = true ->
  Composed V before -> Composed V after ->
  Composed W s ->
  Composed V (replaceGlobal (lineRule (o :: marker) needsText before after) s).
Proof.
  intros Hmk Hb Ha. apply (replaceGlobal_Composed W V); try assumption.
  - intros bol t r n Ht. unfold lineRule.
    destruct (bol && startsWith (o :: marker) t) eqn:E; [|discriminate].
    apply andb_true_iff in E as [_ E]. apply startsWith_spec in E as [t1 ->].
    rewrite skipn_app_exact.
    destruct (needsText && _); [discriminate|]. intros [= <- <-].
    apply (Composed_plain W Wproper (o :: marker)) in Ht; [|exact Hmk].
    destruct (Composed_takeWhile W (fun c => negb (isLineTerminator c)) t1)
      as [Hrun Hrest]; [|exact Ht|].
    { intros x Hx. apply negb_false_iff in Hx.
      destruct (inWindows W x) eqn:Ex; [|reflexivity].
      apply (inWindows_line W Wproper) in Ex. congruence. }
    split; [|split].
    + apply Composed_app; [assumption|]. apply Composed_app; [|assumption].
      now apply (Composed_mono W V).
    + change (Composed W (skipn (length (o :: marker)
                                 + length (takeWhile (fun c => negb (isLineTerminator c)) t1))
                                ((o :: marker) ++ t1))).
      rewrite skipn_past.
      rewrite <- (takeWhile_dropWhile (fun c => negb (isLineTerminator c)) t1) at 2.
      now rewrite skipn_app_exact.
    + cbn [length]. lia.
  - reflexivity.
Qed.

End Into.

Lemma codeBlock_Composed (s : jsstring) :
  (forall w, In w (firstn 4 inlineTags) -> In w W) ->
  Composed W s -> Composed W (replaceGlobal codeBlock s).
Proof.
  intros Htags. apply (replaceGlobal_Composed W W); try assumption; [now intros w|..].
  - intros bol t r n Ht. unfold codeBlock.
    destruct (startsWith fence t) eqn:E; [|discriminate].
    apply startsWith_spec in E as [t1 ->]. change (skipn 3 (fence ++ t1)) with t1.
    apply (Composed_plain W Wproper fence) in Ht; [|reflexivity].
    pose proof (takeWhile_dropWhile isWordChar t1) as Hsplit.
    pose proof (Composed_dropWhile_plain W Wproper isWordChar t1 safeUnit_word Ht) as Hd.
    destruct (dropWhile isWordChar t1) as [|c t3]; [discriminate|].
    destruct (N.eqb c LF) eqn:Ec; [|discriminate].
    apply (Composed_plain W Wproper [c]) in Hd;
      [|apply N.eqb_eq in Ec; subst c; reflexivity].
    destruct (indexOf fence t3) as [k|] eqn:Ek; [|discriminate].
    intros [= <- <-].
    destruct (indexOf_split _ _ _ Ek) as [rest Hrest].
    rewrite <- (firstn_skipn k t3), Hrest in Hd.
    apply (Composed_cut W) in Hd as [Hcode Hafter].
    2:{ cbn [cutSafe fence app]. now rewrite delimiter_outside. }
    apply (Composed_plain W Wproper fence) in Hafter; [|reflexivity].
    split; [|split].
    + change (Composed W ((lit "<pre>" ++ lit "<code>") ++ trim (firstn k t3)
                          ++ (lit "</code>" ++ lit "</pre>"))).
      apply Composed_app;
        [apply Composed_app; apply Composed_template, Htags; cbn; tauto|].
      apply Composed_app; [now apply Composed_trim|].
      apply Composed_app; apply Composed_template, Htags; cbn; tauto.
    + match goal with
      | |- Composed W (skipn ?n ?l) =>
          replace n
            with (length fence + (length (takeWhile isWordChar t1) + (length [c] + (3 + k))))
            by (cbn [length fence]; lia);
          replace l with (fence ++ takeWhile isWordChar t1 ++ [c] ++ t3)
            by (cbn [app]; now rewrite Hsplit)
      end.
      rewrite !skipn_past, <- skipn_skipn, Hrest. exact Hafter.
    + lia.
  - intros x t Hx. apply codeBlock_miss. unfold isNot. apply negb_true_iff.
    apply N.eqb_neq. intros ->. rewrite delimiter_outside in Hx; [discriminate|reflexivity].
Qed.

End Expressions.

(** *** Links *)

Section LinkExpression.
Context {rt : Runtime}.
Variables W V : list jsstring.
Hypothesis Wproper : properTemplates W = true.
Hypothesis Wplain : plainTemplates W = true.
Hypothesis Hsub : forall w, In w W -> In w V.
Hypothesis Hopen : In anchorOpen V.
Hypothesis Hmiddle : In anchorMiddle V.
Hypothesis Hclose : In (lit "</a>") V.

Lemma safeUrl_Composed (url : jsstring) : Composed W url -> Composed W (safeUrl url).
Proof.
  intros H. destruct (safeUrl_cases url) as [[-> _]|[-> _]].
  - now apply Composed_trim.
  - now apply Composed_safe.
Qed.

Lemma anchor_parts (text url : jsstring) :
  anchor text url = anchorOpen ++ safeUrl url ++ anchorMiddle ++ text ++ lit "</a>".
Proof. unfold anchor, anchorOpen, anchorMiddle. now rewrite <- !app_assoc. Qed.

Lemma link_Composed (s : jsstring) :
  Composed W s -> Composed V (replaceGlobal link s).
Proof.
  apply (replaceGlobal_Composed W V); try assumption.
  - intros bol t r n Ht. unfold link.
    destruct (delimited (lit "[") 93 (lit "](") t) as [[text t1]|] eqn:E1; [|discriminate].
    destruct (delimited [] 41 (lit ")") t1) as [[url t2]|] eqn:E2; [|discriminate].
    intros [= <- <-].
    destruct (delimited_Composed W Wproper Wplain (lit "[") (lit "](") 93 t text t1
                eq_refl eq_refl eq_refl Ht E1)
      as (Htext & Ht1 & _ & Hskip1).
    destruct (delimited_Composed W Wproper Wplain [] (lit ")") 41 t1 url t2
                eq_refl eq_refl eq_refl Ht1 E2)
      as (Hurl & Ht2 & _ & Hskip2).
    split; [|split].
    + rewrite anchor_parts.
      apply Composed_app; [now apply Composed_template|].
      apply Composed_app; [now apply (Composed_mono W V), safeUrl_Composed|].
      apply Composed_app; [now apply Composed_template|].
      apply Composed_app; [now apply (Composed_mono W V)|now apply Composed_template].
    + match goal with
      | |- Composed W (skipn ?n t) =>
          replace n
            with ((length (@nil N) + length url + length (lit ")"))
                  + (length (lit "[") + length text + length (lit "](")))
            by (cbn; lia)
      end.
      now rewrite <- skipn_skipn, Hskip1, Hskip2.
    + lia.
  - intros x t Hx. apply link_miss. unfold isNot. apply negb_true_iff.
    apply N.eqb_neq. intros ->.
    rewrite (delimiter_outside W Wplain) in Hx; [discriminate|reflexivity].
Qed.

End LinkExpression.

(** *** Lists and line breaks *)

Section LinePasses.
Variable W : list jsstring.
Hypothesis Wproper : properTemplates W = true.
Hypothesis Wlists : forall w, In w listTemplates -> In w W.

Lemma split_cases (s : jsstring) :
  exists l ls, split LF s = l :: ls
               /\ ((s = l /\ ls = []) \/ exists rest, s = l ++ LF :: rest /\ ls = split LF rest).
Proof.
  induction s as [|c s (l & ls & E & IH)].
  - exists [], []. split; [reflexivity|now left].
  - cbn [split]. destruct (N.eqb c LF) eqn:Ec.
    + apply N.eqb_eq in Ec. subst c. exists [], (split LF s).
      split; [reflexivity|]. right. now exists s.
    + rewrite E. exists (c :: l), ls. split; [reflexivity|].
      destruct IH as [[-> ->]|(rest & -> & ->)]; [now left|].
      right. now exists rest.
Qed.

Lemma LF_outside : inWindows W LF = false.
Proof.
  destruct (inWindows W LF) eqn:E; [|reflexivity].
  apply (inWindows_line W Wproper) in E. discriminate.
Qed.

Lemma split_Composed (s : jsstring) :
  Composed W s -> Forall (Composed W) (split LF s).
Proof.
  remember (length s) as k eqn:Ek. assert (Hk : length s <= k) by lia. clear Ek.
  revert s Hk. induction k as [|k IH]; intros s Hk Hs.
  - destruct s; [|cbn in Hk; lia]. cbn. constructor; [assumption|constructor].
  - destruct (split_cases s) as (l & ls & E & [[-> ->]|(rest & -> & ->)]); rewrite E.
    + constructor; [assumption|constructor].
    + apply (Composed_cut W) in Hs as [Hl Hrest];
        [|cbn [cutSafe]; now rewrite LF_outside].
      apply (Composed_plain W Wproper [LF]) in Hrest; [|reflexivity].
      constructor; [assumption|]. apply IH; [|assumption].
      rewrite length_app in Hk. cbn [length] in Hk. lia.
Qed.

Lemma join_Composed (sep : jsstring) (parts : list jsstring) :
  Composed W sep -> Forall (Composed W) parts -> Composed W (join sep parts).
Proof.
  intros Hsep. induction 1 as [|p parts Hp Hparts IH]; [apply Composed_nil|].
  destruct parts as [|p2 parts]; [exact Hp|].
  change (join sep (p :: p2 :: parts)) with (p ++ sep ++ join sep (p2 :: parts)).
  apply Composed_app; [assumption|]. now apply Composed_app.
Qed.

Lemma ulItem_Composed (line item : jsstring) :
  Composed W line -> ulItem line = Some item -> Composed W item.
Proof.
  unfold ulItem. destruct line as [|c [|sp rest]]; try discriminate.
  destruct ((N.eqb c STAR || N.eqb c 45) && N.eqb sp 32 && plainRest rest) eqn:E;
    [|discriminate].
  intros H [= <-]. apply andb_true_iff in E as [E _]. apply andb_true_iff in E as [Ec Esp].
  apply N.eqb_eq in Esp. subst sp.
  apply (Composed_plain W Wproper [c; 32%N]); [|exact H].
  apply orb_true_iff in Ec as [Ec|Ec]; apply N.eqb_eq in Ec; now subst c.
Qed.

Lemma olItem_Composed (line item : jsstring) :
  Composed W line -> olItem line = Some item -> Composed W item.
Proof.
  intros H. unfold olItem.
  pose proof (Composed_dropWhile_plain W Wproper isDigit line safeUnit_digit H) as Hd.
  destruct (takeWhile isDigit line); [discriminate|].
  destruct (dropWhile isDigit line) as [|dot [|sp rest]]; try discriminate.
  destruct (N.eqb dot 46 && N.eqb sp 32 && plainRest rest) eqn:E; [|discriminate].
  intros [= <-]. apply andb_true_iff in E as [E _]. apply andb_true_iff in E as [Edot Esp].
  apply N.eqb_eq in Edot, Esp. subst dot sp.
  now apply (Composed_plain W Wproper [46%N; 32%N]).
Qed.

Lemma listTag_Composed (tag : jsstring) : In tag listTemplates -> Composed W tag.
Proof. intros H. now apply Composed_template, Wlists. Qed.

Lemma listItem_Composed (item : jsstring) : Composed W item -> Composed W (listItem item).
Proof.
  intros H. unfold listItem.
  apply Composed_app; [apply listTag_Composed; cbn; tauto|].
  apply Composed_app; [assumption|apply listTag_Composed; cbn; tauto].
Qed.

Lemma listLoop_Composed (lines : list jsstring) (inUl inOl : bool) :
  Forall (Composed W) lines -> Forall (Composed W) (listLoop lines inUl inOl).
Proof.
  assert (Hul := listTag_Composed (lit "<ul>") ltac:(cbn; tauto)).
  assert (Hul' := listTag_Composed (lit "</ul>") ltac:(cbn; tauto)).
  assert (Hol := listTag_Composed (lit "<ol>") ltac:(cbn; tauto)).
  assert (Hol' := listTag_Composed (lit "</ol>") ltac:(cbn; tauto)).
  intros H. revert inUl inOl. induction H as [|line rest Hline Hrest IH]; intros inUl inOl.
  - cbn [listLoop]. apply Forall_app.
    split; [destruct inUl|destruct inOl]; repeat constructor; assumption.
  - cbn [listLoop]. destruct (ulItem line) as [item|] eqn:Eu.
    + apply Forall_app. split; [destruct inUl; repeat constructor; assumption|].
      constructor; [|apply IH]. apply listItem_Composed. now apply (ulItem_Composed line).
    + destruct (olItem line) as [item|] eqn:Eo.
      * apply Forall_app. split; [destruct inOl; repeat constructor; assumption|].
        constructor; [|apply IH]. apply listItem_Composed. now apply (olItem_Composed line).
      * apply Forall_app. split; [destruct inUl; repeat constructor; assumption|].
        apply Forall_app. split; [destruct inOl; repeat constructor; assumption|].
        constructor; [assumption|apply IH].
Qed.

Lemma processLists_Composed (html : jsstring) :
  Composed W html -> Composed W (processLists html).
Proof.
  intros H. unfold processLists. apply join_Composed.
  - now apply Composed_safe.
  - now apply listLoop_Composed, split_Composed.
Qed.

Lemma newlinesOutside_Composed (s : jsstring) (skip : nat) :
  Composed W s -> Composed W (newlinesOutside skip s).
Proof.
  assert (Hbr := listTag_Composed (lit "<br>") ltac:(cbn; tauto)).
  intros (toks & Ht & ->). revert skip.
  induction Ht as [|t toks Htok Ht IH]; intros skip; [apply Composed_nil|].
  cbn [concat]. destruct Htok as [Hin|(c & -> & Hc)].
  - destruct (newlinesOutside_copy t (concat toks) skip) as [skip' ->].
    + destruct (template_shape W Wproper t Hin) as (c & t0 & -> & Hc & Ht0).
      cbn [forallb]. apply andb_true_iff. split.
      * unfold isNot. apply negb_true_iff, N.eqb_neq. intros ->. discriminate.
      * apply forallb_forall. intros x Hx. rewrite forallb_forall in Ht0.
        specialize (Ht0 x Hx). unfold isNot. apply negb_true_iff, N.eqb_neq.
        intros ->. discriminate.
    + apply Composed_app; [now apply Composed_template|apply IH].
  - cbn [app newlinesOutside].
    destruct skip as [|k]; [|now apply Composed_unit].
    destruct (blockAt (c :: concat toks)); [now apply Composed_unit|].
    destruct (N.eqb c LF); [now apply Composed_app|].
    cbn [app]. now apply Composed_unit.
Qed.

End LinePasses.

(** *** The escaping *)

Lemma escapeOne_Composed (c : N) : Composed entities (escapeOne c).
Proof.
  unfold escapeOne.
  destruct (N.eqb c AMP) eqn:E1; [apply Composed_template; cbn; tauto|].
  destruct (N.eqb c LT) eqn:E2; [apply Composed_template; cbn; tauto|].
  destruct (N.eqb c GT) eqn:E3; [apply Composed_template; cbn; tauto|].
  destruct (N.eqb c QUOT) eqn:E4; [apply Composed_template; cbn; tauto|].
  destruct (N.eqb c APOS) eqn:E5; [apply Composed_template; cbn; tauto|].
  apply Composed_safe. cbn [forallb]. unfold safeUnit, isMeta.
  now rewrite E1, E2, E3, E4, E5.
Qed.

Lemma escapeHtml_Composed (text : jsstring) : Composed entities (escapeHtml text).
Proof.
  rewrite escapeHtml_units. induction text as [|c text IH]; [apply Composed_nil|].
  cbn [flat_map]. apply Composed_app; [apply escapeOne_Composed|exact IH].
Qed.

(** *** Reading a composed text from the left *)

Section Reading.
Variable W : list jsstring.
Hypothesis Wproper : properTemplates W = true.
Hypothesis Wfree : prefixFree W = true.

Lemma composedFrom_skip (t rest : jsstring) :
  composedFrom W (length t) (t ++ rest) = composedFrom W 0 rest.
Proof.
  induction t as [|c t IH]; [now destruct rest|]. cbn [length app composedFrom]. exact IH.
Qed.

Lemma startsWith_comparable (a b s : jsstring) :
  startsWith a s = true -> startsWith b s = true ->
  startsWith a b = true \/ startsWith b a = true.
Proof.
  revert b s. induction a as [|x a IH]; intros b s Ha Hb; [now left|].
  destruct b as [|y b]; [now right|]. destruct s as [|z s]; [discriminate|].
  cbn [startsWith] in *. apply andb_true_iff in Ha as [Hx Ha], Hb as [Hy Hb].
  apply N.eqb_eq in Hx, Hy. subst x y. rewrite N.eqb_refl. cbn [andb].
  now apply (IH b s).
Qed.

Lemma startsWith_same (a b : jsstring) :
  startsWith a b = true -> length b <= length a -> a = b.
Proof.
  revert b. induction a as [|x a IH]; intros b H Hl.
  - destruct b; [reflexivity|cbn in Hl; lia].
  - destruct b as [|y b]; [discriminate|]. cbn [startsWith] in H.
    apply andb_true_iff in H as [Hx H]. apply N.eqb_eq in Hx. subst y.
    cbn [length] in Hl. f_equal. apply IH; [assumption|lia].
Qed.

Lemma template_read (a b s : jsstring) :
  In a W -> In b W -> startsWith a s = true -> startsWith b s = true -> a = b.
Proof.
  intros Ha Hb Has Hbs. unfold prefixFree in Wfree. rewrite forallb_forall in Wfree.
  pose proof (Wfree a Ha) as Fa. pose proof (Wfree b Hb) as Fb.
  rewrite forallb_forall in Fa, Fb. specialize (Fa b Hb). specialize (Fb a Ha).
  destruct (startsWith_comparable a b s Has Hbs) as [H|H].
  - rewrite H in Fa. cbn [negb orb] in Fa. apply Nat.leb_le in Fa.
    now apply startsWith_same.
  - rewrite H in Fb. cbn [negb orb] in Fb. apply Nat.leb_le in Fb.
    symmetry. now apply startsWith_same.
Qed.

(** The reading accepts what is composed, *)
Lemma composed_intro (s : jsstring) : Composed W s -> composed W s = true.
Proof.
  intros (toks & Ht & ->). unfold composed.
  induction Ht as [|t toks Htok Ht IH]; [reflexivity|].
  cbn [concat]. destruct Htok as [Hin|(c & -> & Hc)].
  - destruct (template_shape W Wproper t Hin) as (c & t0 & -> & Hc & _).
    cbn [app composedFrom]. rewrite Hc.
    destruct (find (fun w => startsWith w (c :: t0 ++ concat toks)) W) as [w|] eqn:Ef.
    + apply find_some in Ef as [Hw Hs].
      assert (E : w = c :: t0).
      { apply (template_read _ _ (c :: t0 ++ concat toks)); try assumption.
        change (c :: t0 ++ concat toks) with ((c :: t0) ++ concat toks).
        apply startsWith_app. }
      subst w. cbn [nonEmpty length pred andb]. now rewrite composedFrom_skip.
    + apply (find_none _ _ Ef) in Hin.
      change (c :: t0 ++ concat toks) with ((c :: t0) ++ concat toks) in Hin.
      now rewrite startsWith_app in Hin.
  - cbn [app composedFrom]. now rewrite Hc.
Qed.

(** and only that. *)
Lemma composed_elim (s : jsstring) : composed W s = true -> Composed W s.
Proof.
  unfold composed.
  remember (length s) as k eqn:Ek. assert (Hk : length s <= k) by lia. clear Ek.
  revert s Hk. induction k as [|k IH]; intros s Hk H.
  - destruct s; [apply Composed_nil|cbn in Hk; lia].
  - destruct s as [|c s]; [apply Composed_nil|]. cbn [length] in Hk.
    cbn [composedFrom] in H. destruct (safeUnit c) eqn:Ec.
    + apply Composed_unit; [assumption|]. apply IH; [lia|assumption].
    + destruct (find (fun w => startsWith w (c :: s)) W) as [w|] eqn:Ef; [|discriminate].
      apply find_some in Ef as [Hw Hs]. apply startsWith_spec in Hs as [rest Hs].
      destruct w as [|c' t]; [discriminate|]. cbn [nonEmpty andb length pred] in H.
      cbn [app] in Hs. injection Hs as -> ->. rewrite composedFrom_skip in H.
      change (c' :: t ++ rest) with ((c' :: t) ++ rest).
      apply Composed_app; [now apply Composed_template|].
      apply IH; [rewrite length_app in Hk; lia|assumption].
Qed.

End Reading.

(** A metacharacter of a composed text lies in a template that occurs
    there. *)
Lemma Composed_written (W : list jsstring) (s : jsstring) :
  Composed W s ->
  forall k c, nth_error s k = Some c -> safeUnit c = false ->
  exists w j, In w W /\ j <= k /\ j < length w
              /\ startsWith w (skipn (k - j) s) = true.
Proof.
  intros (toks & Ht & ->). induction Ht as [|t toks Htok Ht IH]; intros k c Hk Hc.
  - now destruct k.
  - cbn [concat] in *. destruct (Nat.lt_ge_cases k (length t)) as [Hlt|Hge].
    + rewrite nth_error_app1 in Hk by assumption.
      destruct Htok as [Hin|(y & -> & Hy)].
      * exists t, k. rewrite Nat.sub_diag. cbn [skipn].
        repeat split; [assumption|lia|assumption|apply startsWith_app].
      * destruct k; [|cbn in Hlt; lia]. cbn in Hk. injection Hk as ->. congruence.
    + rewrite nth_error_app2 in Hk by assumption.
      destruct (IH _ _ Hk Hc) as (w & j & Hw & Hj & Hjw & Hs).
      exists w, j. repeat split; [assumption|lia|assumption|].
      rewrite skipn_app, skipn_all2 by lia. cbn [app].
      now replace (k - j - length t) with (k - length t - j) by lia.
Qed.

(** *** The output of the renderer *)

Section Output.
Context {rt : Runtime}.

Lemma inline_subset (w : jsstring) : In w inlineTemplatesAll -> In w templates.
Proof.
  unfold inlineTemplatesAll, templates, rendererTags. rewrite !in_app_iff.
  intros [H|H]; [tauto|]. right. now right.
Qed.

Lemma beforeLinks_Composed (text : jsstring) :
  Composed inlineTemplatesAll (beforeLinks text).
Proof.
  assert (Hin : forall tag, In tag inlineTags -> Composed inlineTemplatesAll tag)
    by (intros tag H; apply Composed_template, in_or_app; now left).
  unfold beforeLinks, inlinePasses.
  unfold header1, header2, header3.
  do 3 (apply (lineRule_Composed inlineTemplatesAll eq_refl inlineTemplatesAll
                 (fun w H => H) 35);
        [reflexivity|apply Hin; cbn; tauto|apply Hin; cbn; tauto|]).
  unfold italicUnderscore, italicStar, boldUnderscores, boldStars, inlineCode.
  do 5 (apply (wrapDelimited_Composed inlineTemplatesAll eq_refl eq_refl inlineTemplatesAll
                 (fun w H => H));
        [reflexivity|reflexivity|reflexivity|reflexivity
        |apply Hin; cbn; tauto|apply Hin; cbn; tauto|]).
  apply (codeBlock_Composed inlineTemplatesAll eq_refl eq_refl).
  - intros w H. apply in_or_app. left. revert H. cbn. tauto.
  - apply (Composed_mono entities); [|apply escapeHtml_Composed].
    intros w H. apply in_or_app. now right.
Qed.

Lemma parseMarkdown_Composed (text : jsstring) : Composed templates (parseMarkdown text).
Proof.
  assert (Hlists : forall w, In w listTemplates -> In w templates)
    by (intros w H; revert H; cbn; tauto).
  rewrite parseMarkdown_unquoted. unfold replaceNewlinesOutsideBlocks.
  apply (newlinesOutside_Composed templates eq_refl Hlists).
  apply (processLists_Composed templates eq_refl Hlists).
  apply (link_Composed inlineTemplatesAll templates eq_refl eq_refl inline_subset).
  - cbn. tauto.
  - cbn. tauto.
  - cbn. tauto.
  - apply beforeLinks_Composed.
Qed.

End Output.


(** What the reading refuses: a metacharacter that is not in a text of
    the renderer. *)
Example raw_markup_is_refused :
  composed templates (lit "a > b") = false
  /\ composed templates (lit "<script>") = false
  /\ composed templates (lit "Q&A") = false
  /\ composed templates (lit "say " ++ [QUOT] ++ lit "x" ++ [QUOT]) = false
  /\ composed templates (lit "<em>a</em> &gt; b<br>") = true.
Proof. repeat split. Qed.

(** All five metacharacters in one text, among the expressions of the
    renderer. *)
Example metacharacters_rendered :
  parseMarkdown (rt := JsonText.runtime)
    (lit "*a < b* & [" ++ [QUOT] ++ lit "x'" ++ [QUOT] ++ lit "](/p?q=" ++ [QUOT] ++ lit "1>2" ++ [QUOT] ++ lit ")")
  = lit "<em>a &lt; b</em> &amp; " ++ anchorWith (lit "/p?q=&quot;1&gt;2&quot;") (lit "&quot;x&#039;&quot;").
Proof. reflexivity. Qed.

(** ** Numbered lists *)

Section NumberedList.
Context {rt : Runtime}.

Lemma digit_ordinary (digits : jsstring) :
  forallb Markdown.isDigit digits = true -> ordinary digits = true.
Proof.
  apply forallb_impl. intros c Hc. unfold Markdown.isDigit in Hc.
  apply andb_true_iff in Hc as [H1 H2]. apply N.leb_le in H1, H2.
  unfold special, isMeta, isLineTerminator, AMP, BACKTICK, STAR, UNDERSCORE, LT, GT, QUOT, APOS.
  repeat match goal with
         | |- context [N.eqb c ?k] => destruct (N.eqb_spec c k); [lia|]
         end.
  reflexivity.
Qed.

Lemma indexOf_numbered (item rest : jsstring) :
  ordinary item = true ->
  indexOf (lit "</ol>") (LF :: listItem item ++ rest)
  = option_map (Nat.add (length (LF :: listItem item))) (indexOf (lit "</ol>") rest).
Proof.
  intros Hi. unfold listItem. rewrite <- !app_assoc.
  change (LF :: lit "<li>" ++ item ++ lit "</li>" ++ rest)
    with (LF :: LT :: lit "li>" ++ item ++ LT :: lit "/li>" ++ rest).
  change (lit "</ol>") with (LT :: lit "/ol>").
  rewrite indexOf_cons_false by reflexivity.
  rewrite indexOf_cons_false by reflexivity.
  rewrite (indexOf_pass LT _ (lit "li>")) by reflexivity.
  rewrite (indexOf_pass LT _ item) by (apply ordinary_avoids; [reflexivity|assumption]).
  rewrite indexOf_cons_false by reflexivity.
  rewrite (indexOf_pass LT _ (lit "/li>")) by reflexivity.
  destruct (indexOf (LT :: lit "/ol>") rest) as [k|]; [|reflexivity].
  cbn [option_map]. f_equal. cbn [length]. rewrite !length_app.
  change (length (lit "<li>")) with 4. change (length (lit "</li>")) with 5.
  change (length (lit "li>")) with 3. change (length (lit "/li>")) with 4. cbn [length]. lia.
Qed.

Lemma indexOf_numbereds (items : list jsstring) (rest : jsstring) :
  forallb ordinary items = true ->
  indexOf (lit "</ol>") (flat_map (fun l => LF :: l) (map listItem items)
                         ++ LF :: lit "</ol>" ++ rest)
  = Some (length (flat_map (fun l => LF :: l) (map listItem items)) + 1).
Proof.
  induction items as [|item items IH]; [reflexivity|]. cbn [forallb]. intros H.
  apply andb_true_iff in H as [Hi Hitems].
  cbn [map flat_map]. rewrite <- app_assoc.
  change ((LF :: listItem item) ++ ?x) with (LF :: listItem item ++ x).
  rewrite indexOf_numbered by assumption. rewrite (IH Hitems). cbn [option_map].
  f_equal. cbn [length]. rewrite length_app. lia.
Qed.

Lemma numberedEntry_inv (entry : jsstring * jsstring) :
  numberedEntry entry = true ->
  fst entry <> [] /\ forallb Markdown.isDigit (fst entry) = true
  /\ ordinary (snd entry) = true /\ nonEmpty (snd entry) = true.
Proof.
  unfold numberedEntry. rewrite !andb_true_iff. intros [[[H1 H2] H3] H4].
  repeat split; try assumption. now destruct (fst entry).
Qed.

Lemma numberedLine_ordinary (entry : jsstring * jsstring) :
  numberedEntry entry = true -> ordinary (numberedLine entry) = true.
Proof.
  intros H. destruct (numberedEntry_inv _ H) as (_ & Hd & Ho & _).
  unfold numberedLine. rewrite !ordinary_app, (digit_ordinary _ Hd), Ho. reflexivity.
Qed.

Lemma numberedLine_head (entry : jsstring * jsstring) :
  numberedEntry entry = true ->
  exists d rest, numberedLine entry = d :: rest /\ Markdown.isDigit d = true.
Proof.
  intros H. destruct (numberedEntry_inv _ H) as (Hne & Hd & _).
  unfold numberedLine. destruct (fst entry) as [|d digits]; [congruence|].
  cbn [forallb] in Hd. apply andb_true_iff in Hd as [Hd _]. now exists d, (digits ++ lit ". " ++ snd entry).
Qed.

Lemma digit_neq (d x : N) :
  Markdown.isDigit d = true -> Markdown.isDigit x = false -> isNot x d = true.
Proof.
  intros Hd Hx. unfold isNot. destruct (N.eqb_spec d x); [congruence|reflexivity].
Qed.

Lemma ulItem_numbered (entry : jsstring * jsstring) :
  numberedEntry entry = true -> ulItem (numberedLine entry) = None.
Proof.
  intros H. destruct (numberedLine_head _ H) as (d & rest & -> & Hd).
  apply ulItem_none. now rewrite !(digit_neq d) by (assumption || reflexivity).
Qed.

Lemma olItem_numbered (entry : jsstring * jsstring) :
  numberedEntry entry = true -> olItem (numberedLine entry) = Some (snd entry).
Proof.
  intros H. destruct (numberedEntry_inv _ H) as (Hne & Hd & Ho & Hn).
  unfold olItem, numberedLine.
  change (lit ". " ++ snd entry) with (46%N :: 32%N :: snd entry).
  destruct (takeWhile_app_stop Markdown.isDigit (fst entry) (32%N :: snd entry) 46 Hd eq_refl)
    as [-> ->].
  destruct (fst entry) as [|d digits]; [congruence|].
  cbn [N.eqb andb]. change (N.eqb 46 46) with true. change (N.eqb 32 32) with true.
  cbn [andb]. unfold plainRest. now rewrite Hn, (ordinary_line _ Ho).
Qed.

Lemma listLoop_numbered (entries : list (jsstring * jsstring)) (inOl : bool) :
  forallb numberedEntry entries = true -> entries <> [] ->
  listLoop (map numberedLine entries) false inOl
  = (if inOl then [] else [lit "<ol>"])
    ++ map (fun entry => listItem (snd entry)) entries ++ [lit "</ol>"].
Proof.
  revert inOl. induction entries as [|entry entries IH]; intros inOl H Hne; [congruence|].
  cbn [forallb] in H. apply andb_true_iff in H as [He Hentries].
  cbn [map listLoop]. rewrite ulItem_numbered, olItem_numbered by assumption.
  destruct entries as [|next entries].
  - cbn [map listLoop app]. reflexivity.
  - rewrite (IH true Hentries) by discriminate. reflexivity.
Qed.

Variable entries : list (jsstring * jsstring).
Hypothesis Hentries : forallb numberedEntry entries = true.
Hypothesis Hne : entries <> [].

Lemma numbered_ordinary : forallb ordinary (map numberedLine entries) = true.
Proof.
  rewrite forallb_forall in *. intros line Hin.
  apply in_map_iff in Hin as (entry & <- & Hin). now apply numberedLine_ordinary, Hentries.
Qed.

Lemma numbered_texts : forallb ordinary (map snd entries) = true.
Proof.
  rewrite forallb_forall in *. intros item Hin.
  apply in_map_iff in Hin as (entry & <- & Hin).
  now destruct (numberedEntry_inv _ (Hentries entry Hin)) as (_ & _ & Ho & _).
Qed.

Lemma numbered_avoid (x : N) :
  special x = true -> x <> LF ->
  forallb (isNot x) (join [LF] (map numberedLine entries)) = true.
Proof.
  intros Hx Hlf. apply forallb_join.
  - cbn. unfold isNot. destruct (N.eqb_spec LF x); [congruence|reflexivity].
  - pose proof numbered_ordinary as H. rewrite forallb_forall in *. intros line Hin.
    apply ordinary_avoids; [exact Hx|]. now apply H.
Qed.

Lemma numbered_offBol : offBol 35 true (join [LF] (map numberedLine entries)) = true.
Proof.
  apply offBol_lines; [discriminate|]. apply Forall_forall. intros line Hin.
  pose proof numbered_ordinary as H. rewrite forallb_forall in H.
  split; [now apply ordinary_line, H|].
  apply in_map_iff in Hin as (entry & <- & Hin). rewrite forallb_forall in Hentries.
  destruct (numberedLine_head _ (Hentries entry Hin)) as (d & rest & -> & Hd).
  now apply digit_neq.
Qed.

Lemma numbered_shape :
  join [LF] (lit "<ol>" :: map (fun entry => listItem (snd entry)) entries ++ [lit "</ol>"])
  = lit "<ol>" ++ flat_map (fun l => LF :: l) (map listItem (map snd entries))
    ++ LF :: lit "</ol>".
Proof.
  rewrite join_first, flat_map_app, map_map. cbn [flat_map]. now rewrite app_nil_r.
Qed.

Lemma numbered_block :
  newlinesOutside 0
    (join [LF] (lit "<ol>" :: map (fun entry => listItem (snd entry)) entries ++ [lit "</ol>"]))
  = join [LF] (lit "<ol>" :: map (fun entry => listItem (snd entry)) entries ++ [lit "</ol>"]).
Proof.
  rewrite numbered_shape.
  set (middle := flat_map (fun l => LF :: l) (map listItem (map snd entries))).
  rewrite <- (app_nil_r (lit "<ol>" ++ middle ++ LF :: lit "</ol>")) at 1.
  rewrite newlinesOutside_block; [now rewrite app_nil_r|..|discriminate].
  rewrite app_nil_r. unfold blockAt.
  change (lazyBlock (lit "<pre><code>") (lit "</code></pre>")
            (lit "<ol>" ++ middle ++ LF :: lit "</ol>")) with (@None nat).
  change (lazyBlock (lit "<ul>") (lit "</ul>")
            (lit "<ol>" ++ middle ++ LF :: lit "</ol>")) with (@None nat).
  unfold lazyBlock. rewrite startsWith_app, skipn_app_exact.
  unfold middle. rewrite <- (app_nil_r (lit "</ol>")) at 2.
  rewrite indexOf_numbereds by exact numbered_texts.
  f_equal. rewrite ?app_nil_r, !length_app. cbn [length]. rewrite ?app_nil_r.
  change (length (lit "<ol>")) with 4. change (length (lit "</ol>")) with 5. lia.
Qed.

End NumberedList.

(** X18.  Numbered lists.  Consecutive lines that each begin with a number, a
    dot and a space, followed by ordinary text, are grouped into one
    ordered list with one entry per line, in order.  The numbers written
    are dropped, whatever they are: the list is numbered by the browser. *)
Theorem X18_numbered_list_is_grouped {rt : Runtime} (entries : list (jsstring * jsstring)) :
  entries <> [] -> forallb numberedEntry entries = true ->
  parseMarkdown (join [LF] (map numberedLine entries))
  = join [LF] (lit "<ol>" :: map (fun entry => listItem (snd entry)) entries ++ [lit "</ol>"]).
Proof.
  intros Hne Hentries.
  assert (Hno : forall x, special x = true -> x <> LF ->
                  forallb (isNot x) (join [LF] (map numberedLine entries)) = true)
    by (intros; now apply numbered_avoid).
  rewrite parseMarkdown_unquoted. unfold beforeLinks, inlinePasses.
  rewrite escapeHtml_same.
  2:{ apply forallb_join; [reflexivity|].
      pose proof (numbered_ordinary entries Hentries) as H. rewrite forallb_forall in *.
      intros line Hin. now apply ordinary_meta, H. }
  rewrite (replaceGlobal_pass codeBlock (isNot BACKTICK))
    by (first [exact codeBlock_miss | apply Hno; [reflexivity|discriminate]]).
  unfold inlineCode, boldStars, boldUnderscores, italicStar, italicUnderscore.
  rewrite (replaceGlobal_pass (wrapDelimited [BACKTICK] _ _ _ _) (isNot BACKTICK))
    by (first [intros; now apply wrapDelimited_miss | apply Hno; [reflexivity|discriminate]]).
  rewrite (replaceGlobal_pass (wrapDelimited [STAR; STAR] _ _ _ _) (isNot STAR))
    by (first [intros; now apply wrapDelimited_miss | apply Hno; [reflexivity|discriminate]]).
  rewrite (replaceGlobal_pass (wrapDelimited [UNDERSCORE; UNDERSCORE] _ _ _ _) (isNot UNDERSCORE))
    by (first [intros; now apply wrapDelimited_miss | apply Hno; [reflexivity|discriminate]]).
  rewrite (replaceGlobal_pass (wrapDelimited [STAR] _ _ _ _) (isNot STAR))
    by (first [intros; now apply wrapDelimited_miss | apply Hno; [reflexivity|discriminate]]).
  rewrite (replaceGlobal_pass (wrapDelimited [UNDERSCORE] _ _ _ _) (isNot UNDERSCORE))
    by (first [intros; now apply wrapDelimited_miss | apply Hno; [reflexivity|discriminate]]).
  rewrite headers_pass by now apply numbered_offBol.
  rewrite (replaceGlobal_pass link (isNot 91))
    by (first [exact link_miss | apply Hno; [reflexivity|discriminate]]).
  unfold processLists. rewrite split_lines.
  2:{ destruct entries; [congruence|discriminate]. }
  2:{ apply Forall_forall. intros line Hin.
      pose proof (numbered_ordinary entries Hentries) as H. rewrite forallb_forall in H.
      now apply ordinary_unbroken, H. }
  rewrite listLoop_numbered by assumption. cbn [app].
  unfold replaceNewlinesOutsideBlocks. now apply numbered_block.
Qed.

Lemma X18_numbered_list_is_grouped_witness :
  parseMarkdown (rt := JsonText.runtime)
    (lit "1. boil" ++ [LF] ++ lit "1. pour" ++ [LF] ++ lit "10. wait (3 min)")
  = lit "<ol>" ++ [LF] ++ lit "<li>boil</li>" ++ [LF] ++ lit "<li>pour</li>" ++ [LF]
    ++ lit "<li>wait (3 min)</li>" ++ [LF] ++ lit "</ol>".
Proof.
  apply (X18_numbered_list_is_grouped (rt := JsonText.runtime)
           [(lit "1", lit "boil"); (lit "1", lit "pour"); (lit "10", lit "wait (3 min)")]).
  - discriminate.
  - reflexivity.
Defined.

(** ** Fenced code *)

Section FenceFacts.
Context {rt : Runtime}.

Lemma dropWhile_length (p : N -> bool) (s : jsstring) :
  length (dropWhile p s) <= length s.
Proof.
  induction s as [|c s IH]; [reflexivity|]. cbn [dropWhile].
  destruct (p c); cbn [length]; lia.
Qed.

Lemma trim_length (s : jsstring) : length (trim s) <= length s.
Proof.
  unfold trim, trimEnd, trimStart. rewrite length_rev.
  etransitivity; [apply dropWhile_length|]. rewrite length_rev. apply dropWhile_length.
Qed.

(** A text that [trim] leaves as it is does not begin with white space. *)
Lemma trimmed_head (c : N) (s : jsstring) :
  trim (c :: s) = c :: s -> isWhiteSpace c = false.
Proof.
  intros H. destruct (isWhiteSpace c) eqn:E; [|reflexivity].
  assert (Hl : length (trim (c :: s)) <= length s).
  { unfold trim, trimEnd, trimStart. cbn [dropWhile]. rewrite E, length_rev.
    etransitivity; [apply dropWhile_length|]. rewrite length_rev. apply dropWhile_length. }
  rewrite H in Hl. cbn [length] in Hl. lia.
Qed.

(** The newline before the closing fence is trimmed away. *)
Lemma trim_newline (s : jsstring) : trim s = s -> trim (s ++ [LF]) = s.
Proof.
  intros H. destruct s as [|c s]; [reflexivity|].
  pose proof (trimmed_head c s H) as Hc.
  unfold trim, trimStart in *. cbn [app dropWhile] in *. rewrite Hc in *.
  unfold trimEnd in *. change (c :: s ++ [LF]) with ((c :: s) ++ [LF]).
  rewrite rev_app_distr. cbn [rev app dropWhile].
  change (isWhiteSpace LF) with true. cbn iota. exact H.
Qed.

Lemma firstn_app_exact (A : Type) (a b : list A) : firstn (length a) (a ++ b) = a.
Proof. induction a as [|x a IH]; [now destruct b|]. cbn. now rewrite IH. Qed.

(** The expression of code blocks, on a fenced block. *)
Lemma codeBlock_fenced (bol : bool) (lang code rest : jsstring) :
  forallb isWordChar lang = true -> forallb (isNot BACKTICK) code = true ->
  codeBlock bol (fenced lang code ++ rest)
  = Some (codeOpen ++ trim (code ++ [LF]) ++ codeClose, length (fenced lang code)).
Proof.
  intros Hlang Hcode. unfold codeBlock, fenced. rewrite <- !app_assoc.
  rewrite startsWith_app.
  change (skipn 3 (fence ++ ?x)) with x.
  change ([LF] ++ code ++ [LF] ++ fence ++ rest) with (LF :: code ++ [LF] ++ fence ++ rest).
  destruct (takeWhile_app_stop isWordChar lang (code ++ [LF] ++ fence ++ rest) LF Hlang eq_refl)
    as [-> ->].
  change (N.eqb LF LF) with true. cbn iota.
  replace (code ++ [LF] ++ fence ++ rest) with ((code ++ [LF]) ++ fence ++ rest)
    by now rewrite <- app_assoc.
  unfold fence at 1. rewrite (indexOf_pass BACKTICK).
  2:{ rewrite forallb_app, Hcode. reflexivity. }
  change (indexOf [BACKTICK; BACKTICK; BACKTICK] (fence ++ rest)) with (Some 0).
  cbn [option_map]. rewrite Nat.add_0_r, firstn_app_exact.
  f_equal. f_equal. rewrite !length_app. change (length fence) with 3. cbn [length]. lia.
Qed.

Lemma replaceGlobal_whole (m : Matcher) (x r : jsstring) :
  x <> [] -> m true x = Some (r, length x) -> replaceGlobal m x = r.
Proof.
  intros Hne H. unfold replaceGlobal. rewrite <- (app_nil_r x) at 1.
  rewrite (replaceAll_match m x [] r true) by (rewrite ?app_nil_r; assumption).
  destruct (bolAfter true x); cbn [replaceAll]; now rewrite app_nil_r.
Qed.

Lemma fenced_pass (lang code : jsstring) :
  forallb isWordChar lang = true -> forallb (isNot BACKTICK) code = true ->
  replaceGlobal codeBlock (fenced lang code) = codeOpen ++ trim (code ++ [LF]) ++ codeClose.
Proof.
  intros Hlang Hcode. apply replaceGlobal_whole.
  - unfold fenced. discriminate.
  - rewrite <- (app_nil_r (fenced lang code)) at 1. now apply codeBlock_fenced.
Qed.

Lemma fenced_escaped (lang code : jsstring) :
  forallb isWordChar lang = true ->
  forallb (fun c => negb (isMeta c || N.eqb c AMP)) code = true ->
  escapeHtml (fenced lang code) = fenced lang code.
Proof.
  intros Hlang Hcode. apply escapeHtml_same. unfold fenced.
  rewrite !forallb_app, Hcode.
  assert (Hl : forallb (fun c => negb (isMeta c || N.eqb c AMP)) lang = true).
  { revert Hlang. apply forallb_impl.
    intros c Hc. unfold isWordChar in Hc. unfold isMeta, LT, GT, QUOT, APOS, AMP.
    repeat match goal with
           | |- context [N.eqb c ?k] =>
               destruct (N.eqb_spec c k); [subst c; discriminate Hc|]
           end.
    reflexivity. }
  rewrite Hl. reflexivity.
Qed.

(** A block that reaches the end of the text is copied as it is. *)
Lemma newlinesOutside_whole (body : jsstring) :
  indexOf codeClose (body ++ codeClose) = Some (length body) ->
  replaceNewlinesOutsideBlocks (codeOpen ++ body ++ codeClose) = codeOpen ++ body ++ codeClose.
Proof.
  intros E. unfold replaceNewlinesOutsideBlocks.
  rewrite <- (app_nil_r (codeOpen ++ body ++ codeClose)) at 1.
  rewrite newlinesOutside_block; [now rewrite app_nil_r| |discriminate].
  rewrite app_nil_r. unfold blockAt, lazyBlock.
  change (lit "<pre><code>") with codeOpen. change (lit "</code></pre>") with codeClose.
  rewrite startsWith_app, skipn_app_exact, E.
  f_equal. rewrite !length_app. lia.
Qed.

Lemma indexOf_close (body : jsstring) :
  forallb (isNot LT) body = true ->
  indexOf codeClose (body ++ codeClose) = Some (length body).
Proof.
  intros H. change codeClose with (LT :: lit "/code></pre>") at 1.
  rewrite indexOf_pass by assumption.
  change (indexOf (LT :: lit "/code></pre>") codeClose) with (Some 0).
  cbn [option_map]. now rewrite Nat.add_0_r.
Qed.

(** The lines between two tags, one at the start of the first line and one
    at the end of the last. *)
Lemma framed_lines (opening closing : jsstring) (lines : list jsstring) :
  lines <> [] ->
  exists first last middle,
    opening ++ join [LF] lines ++ closing = join [LF] (first :: middle)
    /\ (first = opening ++ hd [] lines
        \/ first = opening ++ hd [] lines ++ closing)
    /\ Forall (fun line => In line lines \/ exists l, In l lines /\ line = l ++ closing) middle
    /\ last = closing.
Proof.
  intros Hne. destruct lines as [|first others]; [congruence|]. clear Hne.
  destruct others as [|second others].
  - exists (opening ++ first ++ closing), closing, []. cbn [join hd].
    repeat split; [now right|constructor].
  - destruct (exists_last (l := second :: others)) as (init & last & E); [discriminate|].
    rewrite E. exists (opening ++ first), closing, (init ++ [last ++ closing]).
    repeat split.
    + rewrite !join_first, !flat_map_app. cbn [flat_map]. rewrite !app_nil_r.
      now rewrite <- !app_assoc.
    + now left.
    + apply Forall_app. split.
      * apply Forall_forall. intros l Hl. left. right. apply in_or_app. now left.
      * constructor; [|constructor]. right. exists last. split; [|reflexivity].
        right. apply in_or_app. right. now left.
Qed.

Lemma textLine_no_item (l closing : jsstring) :
  textLine l = true -> startsWith [LT] closing = true ->
  ulItem (l ++ closing) = None /\ olItem (l ++ closing) = None.
Proof.
  intros Hl Hc. destruct (textLine_inv _ Hl) as [Ho Hp].
  destruct closing as [|x closing]; [discriminate|].
  cbn [startsWith] in Hc. rewrite andb_true_r in Hc. apply N.eqb_eq in Hc. subst x.
  split.
  - apply ulItem_none. destruct l as [|c l]; [reflexivity|]. cbn [app].
    pose proof (ordinary_head STAR (c :: l) eq_refl Ho) as H1.
    pose proof (plainStart_head 45 (c :: l) (or_intror eq_refl) Hp) as H2.
    cbn in H1, H2. now rewrite H1, H2.
  - apply olItem_none. destruct l as [|c l]; [reflexivity|]. cbn [app].
    exact (plainStart_noDigit (c :: l) Hp).
Qed.

End FenceFacts.

Section FencedLines.
Context {rt : Runtime}.
Variable lines : list jsstring.
Hypothesis Hlines : forallb textLine lines = true.
Hypothesis Hne : lines <> [].

Lemma code_avoids (x : N) :
  special x = true -> x <> LF ->
  forallb (isNot x) codeOpen = true -> forallb (isNot x) codeClose = true ->
  forallb (isNot x) (codeOpen ++ join [LF] lines ++ codeClose) = true.
Proof.
  intros Hx Hlf Ho Hc. now rewrite !forallb_app, (lines_avoid x lines Hx Hlf Hlines), Ho, Hc.
Qed.

Lemma code_offBol : offBol 35 true (codeOpen ++ join [LF] lines ++ codeClose) = true.
Proof.
  rewrite !offBol_app.
  change (offBol 35 true codeOpen) with true. change (bolAfter true codeOpen) with false.
  rewrite (offBol_weaken 35 true) by now apply lines_offBol.
  now destruct (bolAfter false (join [LF] lines)).
Qed.

Lemma code_lists :
  processLists (codeOpen ++ join [LF] lines ++ codeClose)
  = codeOpen ++ join [LF] lines ++ codeClose.
Proof.
  destruct (framed_lines codeOpen codeClose lines Hne)
    as (first & last & middle & E & Hfirst & Hmiddle & _).
  rewrite E.
  assert (Hall : Forall (fun l => textLine l = true) lines)
    by now apply Forall_forall, forallb_forall.
  assert (Hline : forall l, In l lines ->
            forallb (fun c => negb (isLineTerminator c)) l = true).
  { intros l Hl. rewrite Forall_forall in Hall.
    destruct (textLine_inv _ (Hall l Hl)) as [Ho _]. now apply ordinary_line. }
  assert (HnoLF : forall l, forallb (fun c => negb (isLineTerminator c)) l = true -> noLF l).
  { intros l Hl. apply Forall_forall. intros c Hc. rewrite forallb_forall in Hl.
    specialize (Hl c Hc). apply negb_true_iff in Hl. unfold isLineTerminator in Hl.
    rewrite !orb_false_iff in Hl. now destruct Hl as [[[Hl _] _] _]. }
  assert (Hhd : In (hd [] lines) lines) by (destruct lines; [congruence|now left]).
  apply processLists_none; [discriminate|..].
  - constructor.
    + apply HnoLF.
      destruct Hfirst as [->| ->]; rewrite !forallb_app, (Hline _ Hhd); reflexivity.
    + revert Hmiddle. apply Forall_impl. intros l [Hl|(l' & Hl' & ->)]; apply HnoLF.
      * now apply Hline.
      * now rewrite forallb_app, (Hline _ Hl').
  - constructor.
    + destruct Hfirst as [->| ->]; split;
        (apply ulItem_none || apply olItem_none); reflexivity.
    + revert Hmiddle. apply Forall_impl. intros l [Hl|(l' & Hl' & ->)].
      * rewrite Forall_forall in Hall.
        pose proof (lines_no_item [l]) as H. cbn [forallb] in H.
        rewrite (Hall l Hl) in H. specialize (H eq_refl). now inversion H.
      * rewrite Forall_forall in Hall. now apply textLine_no_item; [apply Hall|].
Qed.

End FencedLines.



Section CodeEmphasis.
Context {rt : Runtime}.

Lemma unmarked_avoids (x : N) (s : jsstring) :
  x = BACKTICK \/ x = STAR \/ x = UNDERSCORE ->
  forallb unmarked s = true -> forallb (isNot x) s = true.
Proof.
  intros Hx. apply forallb_impl. intros c Hc. unfold unmarked in Hc.
  apply andb_true_iff in Hc as [Hc H3]. apply andb_true_iff in Hc as [H1 H2].
  now destruct Hx as [->|[->| ->]].
Qed.

Lemma ordinary_unmarked (s : jsstring) : ordinary s = true -> forallb unmarked s = true.
Proof.
  intros H. apply forallb_forall. intros c Hc. unfold unmarked.
  pose proof (ordinary_avoids BACKTICK s eq_refl H) as H1.
  pose proof (ordinary_avoids STAR s eq_refl H) as H2.
  pose proof (ordinary_avoids UNDERSCORE s eq_refl H) as H3.
  rewrite forallb_forall in H1, H2, H3. now rewrite H1, H2, H3.
Qed.

Lemma unmarked_app (a b : jsstring) :
  forallb unmarked (a ++ b) = forallb unmarked a && forallb unmarked b.
Proof. apply forallb_app. Qed.

End CodeEmphasis.

Ltac unmarks :=
  rewrite ?forallb_app;
  repeat (apply andb_true_iff; split);
  first [ reflexivity
        | apply unmarked_avoids; [tauto|assumption] ].

Section MarkPasses.
Context {rt : Runtime}.
Variables pre w post : jsstring.
Hypothesis Hpre : forallb unmarked pre = true.
Hypothesis Hw : forallb unmarked w = true.
Hypothesis Hne : w <> [].
Hypothesis Hpost : forallb unmarked post = true.

(** The passes of emphasis on a text with one group between two marks,
    whatever else the text holds. *)
Lemma marks_pass (mark tag : jsstring) :
  In (mark, tag) emphasisMarks ->
  replaceGlobal italicUnderscore
    (replaceGlobal italicStar
      (replaceGlobal boldUnderscores
        (replaceGlobal boldStars
          (replaceGlobal inlineCode (pre ++ mark ++ w ++ mark ++ post)))))
  = pre ++ openTag tag ++ w ++ closeTag tag ++ post.
Proof.
  unfold emphasisMarks, inlineCode, boldStars, boldUnderscores, italicStar, italicUnderscore.
  intros [E|[E|[E|[E|[]]]]]; injection E as <- <-.
  - (* two stars *)
    rewrite (replaceGlobal_pass (wrapDelimited [BACKTICK] _ _ _ _) (isNot BACKTICK))
      by (first [intros; now apply wrapDelimited_miss | unmarks]).
    rewrite (replaceGlobal_hit STAR [STAR; STAR]) by (auto || unmarks).
    rewrite (replaceGlobal_pass (wrapDelimited [UNDERSCORE; UNDERSCORE] _ _ _ _) (isNot UNDERSCORE))
      by (first [intros; now apply wrapDelimited_miss | unmarks]).
    rewrite (replaceGlobal_pass (wrapDelimited [STAR] _ _ _ _) (isNot STAR))
      by (first [intros; now apply wrapDelimited_miss | unmarks]).
    rewrite (replaceGlobal_pass (wrapDelimited [UNDERSCORE] _ _ _ _) (isNot UNDERSCORE))
      by (first [intros; now apply wrapDelimited_miss | unmarks]).
    reflexivity.
  - (* two underscores *)
    rewrite (replaceGlobal_pass (wrapDelimited [BACKTICK] _ _ _ _) (isNot BACKTICK))
      by (first [intros; now apply wrapDelimited_miss | unmarks]).
    rewrite (replaceGlobal_pass (wrapDelimited [STAR; STAR] _ _ _ _) (isNot STAR))
      by (first [intros; now apply wrapDelimited_miss | unmarks]).
    rewrite (replaceGlobal_hit UNDERSCORE [UNDERSCORE; UNDERSCORE]) by (auto || unmarks).
    rewrite (replaceGlobal_pass (wrapDelimited [STAR] _ _ _ _) (isNot STAR))
      by (first [intros; now apply wrapDelimited_miss | unmarks]).
    rewrite (replaceGlobal_pass (wrapDelimited [UNDERSCORE] _ _ _ _) (isNot UNDERSCORE))
      by (first [intros; now apply wrapDelimited_miss | unmarks]).
    reflexivity.
  - (* one star *)
    rewrite (replaceGlobal_pass (wrapDelimited [BACKTICK] _ _ _ _) (isNot BACKTICK))
      by (first [intros; now apply wrapDelimited_miss | unmarks]).
    rewrite bold_near by (assumption || unmarks).
    rewrite (replaceGlobal_pass (wrapDelimited [UNDERSCORE; UNDERSCORE] _ _ _ _) (isNot UNDERSCORE))
      by (first [intros; now apply wrapDelimited_miss | unmarks]).
    rewrite (replaceGlobal_hit STAR [STAR]) by (auto || unmarks).
    rewrite (replaceGlobal_pass (wrapDelimited [UNDERSCORE] _ _ _ _) (isNot UNDERSCORE))
      by (first [intros; now apply wrapDelimited_miss | unmarks]).
    reflexivity.
  - (* one underscore *)
    rewrite (replaceGlobal_pass (wrapDelimited [BACKTICK] _ _ _ _) (isNot BACKTICK))
      by (first [intros; now apply wrapDelimited_miss | unmarks]).
    rewrite (replaceGlobal_pass (wrapDelimited [STAR; STAR] _ _ _ _) (isNot STAR))
      by (first [intros; now apply wrapDelimited_miss | unmarks]).
    rewrite bold_near by (assumption || unmarks).
    rewrite (replaceGlobal_pass (wrapDelimited [STAR] _ _ _ _) (isNot STAR))
      by (first [intros; now apply wrapDelimited_miss | unmarks]).
    rewrite (replaceGlobal_hit UNDERSCORE [UNDERSCORE]) by (auto || unmarks).
    reflexivity.
Qed.

End MarkPasses.

Section CodeTail.
Context {rt : Runtime}.

(** The closing tag of the block is looked for past a text without [<]
    and past a tag of emphasis. *)
Lemma close_past_text (a b : jsstring) :
  forallb (isNot LT) a = true ->
  indexOf codeClose (b ++ codeClose) = Some (length b) ->
  indexOf codeClose ((a ++ b) ++ codeClose) = Some (length (a ++ b)).
Proof.
  intros Ha Hb. rewrite <- app_assoc. change codeClose with (LT :: lit "/code></pre>") at 1.
  rewrite indexOf_pass by assumption.
  change (LT :: lit "/code></pre>") with codeClose. rewrite Hb. cbn [option_map].
  now rewrite length_app.
Qed.

Lemma close_past_tag (name b : jsstring) :
  In name [lit "strong"; lit "em"; lit "/strong"; lit "/em"] ->
  indexOf codeClose (b ++ codeClose) = Some (length b) ->
  indexOf codeClose ((lit "<" ++ name ++ lit ">") ++ b ++ codeClose)
  = Some (length ((lit "<" ++ name ++ lit ">") ++ b)).
Proof.
  intros Hname Hb.
  assert (H : forallb (isNot LT) (name ++ lit ">") = true
              /\ forall rest, startsWith codeClose (LT :: (name ++ lit ">") ++ rest) = false).
  { destruct Hname as [<-|[<-|[<-|[<-|[]]]]]; split; reflexivity. }
  destruct H as [Hn Hs].
  change ((lit "<" ++ name ++ lit ">") ++ b ++ codeClose)
    with (LT :: (name ++ lit ">") ++ b ++ codeClose).
  rewrite indexOf_cons_false by apply Hs.
  change codeClose with (LT :: lit "/code></pre>") at 1.
  rewrite indexOf_pass by assumption.
  change (LT :: lit "/code></pre>") with codeClose. rewrite Hb. cbn [option_map].
  f_equal. change (lit "<" ++ name ++ lit ">") with (LT :: (name ++ lit ">")).
  cbn [app length]. rewrite !length_app. lia.
Qed.

End CodeTail.

(** X20.  Fenced code is not verbatim.  The fence only wraps the code: the
    passes of emphasis run over it as over any other text.  A group of
    ordinary text between two marks of stars or underscores in a line of
    code is wrapped in [strong] or [em] and its marks are dropped, as it
    is outside a fence. *)
Theorem X20_fenced_code_is_not_verbatim {rt : Runtime} (lang mark tag pre w post : jsstring) :
  forallb isWordChar lang = true ->
  In (mark, tag) emphasisMarks ->
  ordinary pre = true -> ordinary w = true -> w <> [] -> ordinary post = true ->
  trim (pre ++ mark ++ w ++ mark ++ post) = pre ++ mark ++ w ++ mark ++ post ->
  parseMarkdown (fenced lang (pre ++ mark ++ w ++ mark ++ post))
  = codeOpen ++ (pre ++ openTag tag ++ w ++ closeTag tag ++ post) ++ codeClose.
Proof.
  intros Hlang Hin Hpre Hw Hne Hpost Htrim.
  assert (Hmark : forallb (fun c => negb (isMeta c || N.eqb c AMP)) mark = true
                  /\ forallb (isNot BACKTICK) mark = true).
  { unfold emphasisMarks in Hin.
    destruct Hin as [E|[E|[E|[E|[]]]]]; injection E as <- <-; split; reflexivity. }
  destruct Hmark as [Hmeta Htick].
  assert (Htag : In tag [lit "strong"; lit "em"]).
  { unfold emphasisMarks in Hin.
    destruct Hin as [E|[E|[E|[E|[]]]]]; injection E as <- <-; cbn; tauto. }
  rewrite parseMarkdown_unquoted. unfold beforeLinks, inlinePasses.
  rewrite fenced_escaped; [|assumption|].
  2:{ rewrite !forallb_app, Hmeta.
      now rewrite (ordinary_meta pre), (ordinary_meta w), (ordinary_meta post). }
  rewrite fenced_pass; [|assumption|].
  2:{ rewrite !forallb_app, Htick.
      now rewrite (ordinary_avoids BACKTICK pre), (ordinary_avoids BACKTICK w),
        (ordinary_avoids BACKTICK post). }
  rewrite trim_newline by assumption.
  replace (codeOpen ++ (pre ++ mark ++ w ++ mark ++ post) ++ codeClose)
    with ((codeOpen ++ pre) ++ mark ++ w ++ mark ++ (post ++ codeClose))
    by now rewrite <- !app_assoc.
  assert (H1 : forallb unmarked (codeOpen ++ pre) = true)
    by now rewrite unmarked_app, (ordinary_unmarked pre).
  assert (H2 : forallb unmarked (post ++ codeClose) = true)
    by now rewrite unmarked_app, (ordinary_unmarked post).
  rewrite (marks_pass (codeOpen ++ pre) w (post ++ codeClose) H1
             (ordinary_unmarked w Hw) Hne H2 mark tag Hin).
  set (body := pre ++ openTag tag ++ w ++ closeTag tag ++ post).
  replace ((codeOpen ++ pre) ++ openTag tag ++ w ++ closeTag tag ++ post ++ codeClose)
    with (codeOpen ++ body ++ codeClose) by (unfold body; now rewrite <- !app_assoc).
  assert (Htags : forallb (fun c => negb (isLineTerminator c)) (openTag tag) = true
                  /\ forallb (fun c => negb (isLineTerminator c)) (closeTag tag) = true
                  /\ forallb (isNot 91) (openTag tag) = true
                  /\ forallb (isNot 91) (closeTag tag) = true).
  { destruct Htag as [<-|[<-|[]]]; repeat split; reflexivity. }
  destruct Htags as (Hopen & Hclose & Hopen' & Hclose').
  assert (Hline : forallb (fun c => negb (isLineTerminator c)) (codeOpen ++ body ++ codeClose)
                  = true).
  { unfold body. rewrite !forallb_app, Hopen, Hclose.
    now rewrite (ordinary_line pre), (ordinary_line w), (ordinary_line post). }
  rewrite headers_pass by (apply offBol_line; [exact Hline|reflexivity]).
  rewrite (replaceGlobal_pass link (isNot 91)); [|exact link_miss|].
  2:{ unfold body. rewrite !forallb_app, Hopen', Hclose'.
      now rewrite (ordinary_avoids 91 pre), (ordinary_avoids 91 w), (ordinary_avoids 91 post). }
  change (codeOpen ++ body ++ codeClose) with (join [LF] [codeOpen ++ body ++ codeClose]) at 1.
  rewrite processLists_none; [|discriminate|..].
  2:{ constructor; [|constructor]. apply Forall_forall. intros c Hc.
      rewrite forallb_forall in Hline. specialize (Hline c Hc).
      apply negb_true_iff in Hline. unfold isLineTerminator in Hline.
      rewrite !orb_false_iff in Hline. now destruct Hline as [[[Hl _] _] _]. }
  2:{ constructor; [|constructor]. split; [apply ulItem_none|apply olItem_none]; reflexivity. }
  cbn [join]. apply newlinesOutside_whole. unfold body, openTag, closeTag.
  apply close_past_text; [now apply ordinary_avoids|].
  rewrite <- app_assoc.
  apply close_past_tag; [destruct Htag as [<-|[<-|[]]]; cbn; tauto|].
  apply close_past_text; [now apply ordinary_avoids|].
  replace ((lit "</" ++ tag ++ lit ">") ++ post) with ((lit "<" ++ (47%N :: tag) ++ lit ">") ++ post)
    by reflexivity.
  rewrite <- app_assoc.
  apply close_past_tag; [destruct Htag as [<-|[<-|[]]]; cbn; tauto|].
  apply indexOf_close. now apply ordinary_avoids.
Qed.

Lemma X20_fenced_code_is_not_verbatim_witness :
  parseMarkdown (rt := JsonText.runtime)
    (lit "```py" ++ [LF] ++ lit "max_len = buf_size" ++ [LF] ++ lit "```")
  = lit "<pre><code>max<em>len = buf</em>size</code></pre>".
Proof.
  apply (X20_fenced_code_is_not_verbatim (rt := JsonText.runtime)
           (lit "py") [UNDERSCORE] (lit "em") (lit "max") (lit "len = buf") (lit "size")).
  - reflexivity.
  - cbn. tauto.
  - reflexivity.
  - reflexivity.
  - discriminate.
  - reflexivity.
  - reflexivity.
Defined.

(** ** Links *)

Section LinkLine.
Context {rt : Runtime}.

Lemma forallb_dropWhile (p q : N -> bool) (s : jsstring) :
  forallb p s = true -> forallb p (dropWhile q s) = true.
Proof.
  induction s as [|c s IH]; [reflexivity|]. cbn [forallb dropWhile]. intros H.
  destruct (q c); [apply andb_true_iff in H as [_ H]; now apply IH|exact H].
Qed.

Lemma forallb_rev (p : N -> bool) (s : jsstring) :
  forallb p s = true -> forallb p (rev s) = true.
Proof.
  rewrite !forallb_forall. intros H x Hx. apply H. now apply in_rev.
Qed.

Lemma forallb_trim (p : N -> bool) (s : jsstring) :
  forallb p s = true -> forallb p (trim s) = true.
Proof.
  intros H. unfold trim, trimEnd, trimStart.
  now apply forallb_rev, forallb_dropWhile, forallb_rev, forallb_dropWhile.
Qed.

Lemma forallb_safeUrl (p : N -> bool) (url : jsstring) :
  p 35%N = true -> forallb p url = true -> forallb p (safeUrl url) = true.
Proof.
  intros Hp Hu. unfold safeUrl.
  match goal with |- context [if ?c then _ else _] => destruct c end.
  - now apply forallb_trim.
  - cbn. now rewrite Hp.
Qed.

(** The units of an anchor, given those of its text and of its target. *)
Lemma forallb_anchor (p : N -> bool) (text url : jsstring) :
  forallb p (anchorOpen ++ anchorMiddle ++ lit "</a>#") = true ->
  forallb p text = true -> forallb p url = true ->
  forallb p (anchor text url) = true.
Proof.
  intros Ha Ht Hu. rewrite anchor_parts. rewrite !forallb_app in *.
  apply andb_true_iff in Ha as [H1 Ha]. apply andb_true_iff in Ha as [H2 H3].
  change (lit "</a>#") with (lit "</a>" ++ lit "#") in H3. rewrite forallb_app in H3.
  apply andb_true_iff in H3 as [H3 H4]. cbn in H4. rewrite andb_true_r in H4.
  now rewrite H1, H2, H3, Ht, (forallb_safeUrl p url H4 Hu).
Qed.

Lemma noBlock_anchor (text url post : jsstring) :
  ordinary text = true -> ordinary url = true -> ordinary post = true ->
  noBlock (anchor text url ++ post) = true.
Proof.
  intros Ht Hu Hpost. rewrite anchor_parts.
  set (inside := lit " href=" ++ [QUOT] ++ safeUrl url ++ anchorMiddle ++ text).
  replace ((anchorOpen ++ safeUrl url ++ anchorMiddle ++ text ++ lit "</a>") ++ post)
    with (LT :: 97%N :: inside ++ LT :: 47%N :: lit "a>" ++ post).
  2:{ unfold inside, anchorOpen. rewrite <- !app_assoc. reflexivity. }
  rewrite noBlock_tag; [|reflexivity|].
  2:{ cbn [forallb]. apply andb_true_iff. split; [reflexivity|]. unfold inside.
      rewrite !forallb_app. rewrite (ordinary_avoids LT text) by (reflexivity || assumption).
      rewrite forallb_safeUrl;
        [reflexivity|reflexivity|now apply ordinary_avoids]. }
  rewrite noBlock_tag by reflexivity.
  apply noBlock_absent. now apply ordinary_avoids.
Qed.

End LinkLine.

Section LinkRendered.
Context {rt : Runtime}.

(** A link in a line of ordinary text, through all the passes. *)
Lemma link_line (pre text url post : jsstring) :
  ordinary pre = true -> plainStart pre = true ->
  ordinary text = true -> text <> [] -> forallb (isNot 93) text = true ->
  ordinary url = true -> url <> [] -> forallb (isNot 41) url = true ->
  ordinary post = true ->
  parseMarkdown (pre ++ lit "[" ++ text ++ lit "](" ++ url ++ lit ")" ++ post)
  = pre ++ anchor text url ++ post.
Proof.
  intros Hpre Hstart Htext Htne Hbr Hurl Hune Hpar Hpost.
  set (source := pre ++ lit "[" ++ text ++ lit "](" ++ url ++ lit ")" ++ post).
  assert (Hsrc : forallb (fun c => negb (isLineTerminator c)) source = true).
  { unfold source. avoids. }
  assert (Hrendered : replaceGlobal link source = pre ++ anchor text url ++ post).
  { unfold source, replaceGlobal.
    rewrite (replaceAll_pass link (isNot 91)) by (exact link_miss || avoids).
    replace (lit "[" ++ text ++ lit "](" ++ url ++ lit ")" ++ post)
      with ((lit "[" ++ text ++ lit "](" ++ url ++ lit ")") ++ post)
      by now rewrite <- !app_assoc.
    rewrite (replaceAll_match link _ post (anchor text url)); [|discriminate|].
    2:{ rewrite <- !app_assoc. rewrite link_built by assumption.
        f_equal. f_equal. rewrite !length_app. cbn [length].
        change (length (lit "[")) with 1. change (length (lit "](")) with 2.
        change (length (lit ")")) with 1. lia. }
    now rewrite (replaceAll_end link (isNot 91)) by (exact link_miss || avoids). }
  unfold parseMarkdown, inlinePasses. fold source.
  rewrite escapeHtml_same by (unfold source; avoids).
  rewrite (replaceGlobal_pass codeBlock (isNot BACKTICK))
    by (first [exact codeBlock_miss | unfold source; avoids]).
  unfold inlineCode, boldStars, boldUnderscores, italicStar, italicUnderscore.
  rewrite (replaceGlobal_pass (wrapDelimited [BACKTICK] _ _ _ _) (isNot BACKTICK))
    by (first [intros; now apply wrapDelimited_miss | unfold source; avoids]).
  rewrite (replaceGlobal_pass (wrapDelimited [STAR; STAR] _ _ _ _) (isNot STAR))
    by (first [intros; now apply wrapDelimited_miss | unfold source; avoids]).
  rewrite (replaceGlobal_pass (wrapDelimited [UNDERSCORE; UNDERSCORE] _ _ _ _) (isNot UNDERSCORE))
    by (first [intros; now apply wrapDelimited_miss | unfold source; avoids]).
  rewrite (replaceGlobal_pass (wrapDelimited [STAR] _ _ _ _) (isNot STAR))
    by (first [intros; now apply wrapDelimited_miss | unfold source; avoids]).
  rewrite (replaceGlobal_pass (wrapDelimited [UNDERSCORE] _ _ _ _) (isNot UNDERSCORE))
    by (first [intros; now apply wrapDelimited_miss | unfold source; avoids]).
  rewrite headers_pass.
  2:{ apply offBol_line; [exact Hsrc|]. apply freeStart_hash. unfold source.
      now apply freeStart_app. }
  (* the anchor is a line that no later pass takes *)
  set (line := pre ++ anchor text url ++ post) in *.
  assert (Hline : forallb (fun c => negb (isLineTerminator c)) line = true).
  { unfold line. rewrite !forallb_app, (ordinary_line pre), (ordinary_line post) by assumption.
    rewrite forallb_anchor; [reflexivity|reflexivity|..]; now apply ordinary_line. }
  assert (Hnone : forallb (isNot 91) line = true).
  { unfold line. rewrite !forallb_app.
    rewrite (ordinary_avoids 91 pre), (ordinary_avoids 91 post) by (reflexivity || assumption).
    rewrite forallb_anchor; [reflexivity|reflexivity|..]; now apply ordinary_avoids. }
  pose proof (blockPasses_line line Hline Hnone) as Hblock.
  unfold blockPasses in *.
  rewrite (replaceGlobal_pass link (isNot 91) line) in Hblock by (exact link_miss || exact Hnone).
  rewrite Hrendered, Hblock; [reflexivity| |].
  - unfold line. now apply freeStart_app.
  - unfold line. rewrite noBlock_pass by now apply ordinary_avoids.
    now apply noBlock_anchor.
Qed.

Lemma safeUrl_kept (url : jsstring) :
  safeUrl url = if keptTarget (trim url) then trim url else placeholder.
Proof. reflexivity. Qed.

Lemma anchor_href (text url : jsstring) : anchor text url = anchorWith (safeUrl url) text.
Proof. reflexivity. Qed.

End LinkRendered.



(** X21.  Links.  In a line of ordinary text, a text between brackets followed
    by a target between parentheses is rendered as an anchor around the
    text, which opens in a new tab without access to the page that opened
    it; its target is what the sanitizer returns for the target written,
    the trimmed target or the placeholder [#].  The text around the link
    is kept as it is. *)
Theorem X21_link_is_rendered {rt : Runtime} (pre text url post : jsstring) :
  ordinary pre = true -> plainStart pre = true ->
  ordinary text = true -> text <> [] -> forallb (isNot 93) text = true ->
  ordinary url = true -> url <> [] -> forallb (isNot 41) url = true ->
  ordinary post = true ->
  parseMarkdown (pre ++ lit "[" ++ text ++ lit "](" ++ url ++ lit ")" ++ post)
  = pre ++ anchor text url ++ post.
Proof. apply link_line. Qed.

Lemma X21_link_is_rendered_witness :
  parseMarkdown (rt := JsonText.runtime) (lit "See [the docs](javascript:alert(1) for more.")
  = lit "See <a href=" ++ [QUOT] ++ lit "#" ++ [QUOT] ++ lit " target=" ++ [QUOT]
    ++ lit "_blank" ++ [QUOT] ++ lit " rel=" ++ [QUOT] ++ lit "noopener noreferrer" ++ [QUOT]
    ++ lit ">the docs</a> for more.".
Proof.
  apply (X21_link_is_rendered (rt := JsonText.runtime)
           (lit "See ") (lit "the docs") (lit "javascript:alert(1") (lit " for more.")).
  - reflexivity.
  - reflexivity.
  - reflexivity.
  - discriminate.
  - reflexivity.
  - reflexivity.
  - discriminate.
  - reflexivity.
  - reflexivity.
Defined.

(** ** Emphasis in the target of a link *)

Section BlockStarts.
Context {rt : Runtime}.

Lemma noBlockStart_noBlock (s : jsstring) : noBlockStart s = true -> noBlock s = true.
Proof.
  induction s as [|c s IH]; [reflexivity|]. cbn [noBlockStart noBlock]. intros H.
  apply andb_true_iff in H as [Hc Hs]. rewrite (IH Hs).
  destruct (N.eqb_spec c LT) as [->|Hne].
  - destruct s as [|d s]; [reflexivity|]. cbn [andb] in Hc. now rewrite blockAt_tag.
  - rewrite blockAt_miss; [reflexivity|]. unfold isNot. now apply negb_true_iff, N.eqb_neq.
Qed.

Lemma noBlockStart_pass (a b : jsstring) :
  forallb (isNot LT) a = true -> noBlockStart (a ++ b) = noBlockStart b.
Proof.
  induction a as [|c a IH]; [reflexivity|]. cbn [forallb]. intros H.
  apply andb_true_iff in H as [Hc Ha]. cbn [app noBlockStart]. rewrite (IH Ha).
  unfold isNot in Hc. apply negb_true_iff in Hc. now rewrite Hc.
Qed.

Lemma noBlockStart_tag (c : N) (rest : jsstring) :
  negb (N.eqb c 112 || N.eqb c 117 || N.eqb c 111) = true ->
  noBlockStart (LT :: c :: rest) = noBlockStart (c :: rest).
Proof.
  intros Hc. cbn [noBlockStart]. apply negb_true_iff in Hc. rewrite Hc.
  now rewrite andb_false_r.
Qed.

(** Two such texts put together are one, when the second does not begin
    with the letter of a block. *)
Lemma noBlockStart_app (a b : jsstring) :
  noBlockStart a = true -> noBlockStart b = true ->
  match b with
  | d :: _ => negb (N.eqb d 112 || N.eqb d 117 || N.eqb d 111)
  | [] => true
  end = true ->
  noBlockStart (a ++ b) = true.
Proof.
  intros Ha Hb Hhead. induction a as [|c a IH]; [exact Hb|].
  cbn [noBlockStart] in Ha. apply andb_true_iff in Ha as [Hc Ha].
  cbn [app noBlockStart]. rewrite (IH Ha), andb_true_r.
  destruct a as [|d a]; [|exact Hc]. cbn [app].
  destruct b as [|d b]; [now rewrite andb_false_r|].
  apply negb_true_iff in Hhead. now rewrite Hhead, andb_false_r.
Qed.

Lemma noBlockStart_suffix (p : N -> bool) (s : jsstring) :
  noBlockStart s = true -> noBlockStart (dropWhile p s) = true.
Proof.
  induction s as [|c s IH]; [reflexivity|]. intros H. cbn [dropWhile].
  destruct (p c); [|exact H]. cbn [noBlockStart] in H.
  apply andb_true_iff in H as [_ H]. now apply IH.
Qed.

Lemma noBlockStart_prefix (a b : jsstring) :
  noBlockStart (a ++ b) = true -> noBlockStart a = true.
Proof.
  induction a as [|c a IH]; [reflexivity|]. cbn [app noBlockStart]. intros H.
  apply andb_true_iff in H as [Hc H]. rewrite (IH H), andb_true_r.
  destruct a as [|d a]; [now rewrite andb_false_r|exact Hc].
Qed.

Lemma noBlockStart_trim (s : jsstring) :
  noBlockStart s = true -> noBlockStart (trim s) = true.
Proof.
  intros H. unfold trim.
  destruct (trimEnd_tail (trimStart s)) as (tail & E & _).
  apply (noBlockStart_prefix _ tail). rewrite <- E. now apply noBlockStart_suffix.
Qed.

Lemma noBlockStart_safeUrl (url : jsstring) :
  noBlockStart url = true -> noBlockStart (safeUrl url) = true.
Proof.
  intros H. unfold safeUrl.
  match goal with |- context [if ?c then _ else _] => destruct c end;
    [now apply noBlockStart_trim|reflexivity].
Qed.

Lemma noBlockStart_plain (s : jsstring) :
  forallb (isNot LT) s = true -> noBlockStart s = true.
Proof.
  intros H. rewrite <- (app_nil_r s). now rewrite noBlockStart_pass.
Qed.

(** A tag whose name does not begin like that of a block. *)
Lemma noBlockStart_named (c : N) (name rest : jsstring) :
  negb (N.eqb c 112 || N.eqb c 117 || N.eqb c 111) = true ->
  forallb (isNot LT) (c :: name) = true ->
  noBlockStart ((LT :: c :: name) ++ rest) = noBlockStart rest.
Proof.
  intros Hc Hname. cbn [app]. rewrite noBlockStart_tag by assumption.
  change (c :: name ++ rest) with ((c :: name) ++ rest).
  now apply noBlockStart_pass.
Qed.

Lemma noBlockStart_emphasised (tag u1 w u2 : jsstring) :
  In tag [lit "strong"; lit "em"] ->
  ordinary u1 = true -> ordinary w = true -> ordinary u2 = true ->
  noBlockStart (u1 ++ openTag tag ++ w ++ closeTag tag ++ u2) = true.
Proof.
  intros Htag H1 Hw H2.
  assert (Hopen : exists c name, openTag tag = LT :: c :: name
                    /\ negb (N.eqb c 112 || N.eqb c 117 || N.eqb c 111) = true
                    /\ forallb (isNot LT) (c :: name) = true).
  { destruct Htag as [<-|[<-|[]]]; eexists _, _; split; try reflexivity; now split. }
  assert (Hclose : exists name, closeTag tag = LT :: 47%N :: name
                     /\ forallb (isNot LT) (47%N :: name) = true).
  { destruct Htag as [<-|[<-|[]]]; eexists; split; reflexivity. }
  destruct Hopen as (c & name & -> & Hc & Hname).
  destruct Hclose as (name' & -> & Hname').
  rewrite noBlockStart_pass by now apply ordinary_avoids.
  rewrite noBlockStart_named by assumption.
  rewrite noBlockStart_pass by now apply ordinary_avoids.
  rewrite noBlockStart_named by (reflexivity || assumption).
  now apply noBlockStart_plain, ordinary_avoids.
Qed.

Lemma noBlockStart_anchor (text url post : jsstring) :
  ordinary text = true -> noBlockStart url = true -> ordinary post = true ->
  noBlockStart (anchor text url ++ post) = true.
Proof.
  intros Ht Hu Hpost. rewrite anchor_parts. rewrite <- !app_assoc.
  change anchorOpen with (LT :: 97%N :: lit " href=" ++ [QUOT]).
  rewrite noBlockStart_named by reflexivity.
  apply noBlockStart_app; [now apply noBlockStart_safeUrl| |reflexivity].
  rewrite noBlockStart_pass by reflexivity.
  rewrite noBlockStart_pass by now apply ordinary_avoids.
  change (lit "</a>") with (LT :: 47%N :: lit "a>").
  rewrite noBlockStart_named by reflexivity.
  now apply noBlockStart_plain, ordinary_avoids.
Qed.

End BlockStarts.

(** X22.  Emphasis in the target of a link.  The passes of emphasis run before
    the links are looked for, over the whole line: a group between two
    marks of stars or underscores in the target of a link is wrapped in
    [strong] or [em] like any other, and the anchor is written with the
    target that results, which holds the tags in place of the marks. *)
Theorem X22_link_target_is_emphasised {rt : Runtime} (mark tag pre text u1 w u2 post : jsstring) :
  In (mark, tag) emphasisMarks ->
  ordinary pre = true -> plainStart pre = true ->
  ordinary text = true -> text <> [] -> forallb (isNot 93) text = true ->
  ordinary u1 = true -> ordinary w = true -> w <> [] -> ordinary u2 = true ->
  forallb (isNot 41) (u1 ++ w ++ u2) = true ->
  ordinary post = true ->
  parseMarkdown (pre ++ lit "[" ++ text ++ lit "](" ++ (u1 ++ mark ++ w ++ mark ++ u2)
                 ++ lit ")" ++ post)
  = pre ++ anchor text (u1 ++ openTag tag ++ w ++ closeTag tag ++ u2) ++ post.
Proof.
  intros Hin Hpre Hstart Htext Htne Hbr Hu1 Hw Hwne Hu2 Hpar Hpost.
  rewrite !forallb_app in Hpar.
  apply andb_true_iff in Hpar as [Hp1 Hpar]. apply andb_true_iff in Hpar as [Hpw Hp2].
  assert (Htag : In tag [lit "strong"; lit "em"]).
  { unfold emphasisMarks in Hin.
    destruct Hin as [E|[E|[E|[E|[]]]]]; injection E as <- <-; cbn; tauto. }
  assert (Hmark : forallb (fun c => negb (isMeta c || N.eqb c AMP)
                                    && negb (isLineTerminator c) && isNot 91 c
                                    && isNot BACKTICK c) mark = true).
  { unfold emphasisMarks in Hin.
    destruct Hin as [E|[E|[E|[E|[]]]]]; injection E as <- <-; reflexivity. }
  assert (Hm : forall p : N -> bool,
             (forall c, negb (isMeta c || N.eqb c AMP) && negb (isLineTerminator c)
                        && isNot 91 c && isNot BACKTICK c = true -> p c = true) ->
             forallb p mark = true).
  { intros p Hp. revert Hmark. now apply forallb_impl. }
  set (url := u1 ++ openTag tag ++ w ++ closeTag tag ++ u2).
  assert (Htags : forall p : N -> bool,
             forallb p (lit "<strong></strong><em></em>") = true ->
             forallb p (openTag tag) = true /\ forallb p (closeTag tag) = true).
  { intros p Hp.
    change (lit "<strong></strong><em></em>")
      with (lit "<strong>" ++ lit "</strong>" ++ lit "<em>" ++ lit "</em>") in Hp.
    rewrite !forallb_app in Hp.
    apply andb_true_iff in Hp as [H1 Hp]. apply andb_true_iff in Hp as [H2 Hp].
    apply andb_true_iff in Hp as [H3 H4].
    destruct Htag as [<-|[<-|[]]]; now split. }
  assert (Hurl : forall p : N -> bool,
             forallb p (lit "<strong></strong><em></em>") = true ->
             forallb p u1 = true -> forallb p w = true -> forallb p u2 = true ->
             forallb p url = true).
  { intros p Hp H1 H2 H3. destruct (Htags p Hp) as [Ho Hc].
    unfold url. now rewrite !forallb_app, H1, H2, H3, Ho, Hc. }
  (* the passes of emphasis *)
  set (before := pre ++ lit "[" ++ text ++ lit "](" ++ u1).
  set (after := u2 ++ lit ")" ++ post).
  replace (pre ++ lit "[" ++ text ++ lit "](" ++ (u1 ++ mark ++ w ++ mark ++ u2)
           ++ lit ")" ++ post)
    with (before ++ mark ++ w ++ mark ++ after)
    by (unfold before, after; now rewrite <- !app_assoc).
  assert (Hbefore : forallb unmarked before = true).
  { unfold before. rewrite !unmarked_app.
    now rewrite (ordinary_unmarked pre), (ordinary_unmarked text), (ordinary_unmarked u1). }
  assert (Hafter : forallb unmarked after = true).
  { unfold after. rewrite !unmarked_app.
    now rewrite (ordinary_unmarked u2), (ordinary_unmarked post). }
  unfold parseMarkdown, inlinePasses.
  rewrite escapeHtml_same.
  2:{ unfold before, after. rewrite !forallb_app.
      rewrite (Hm (fun c => negb (isMeta c || N.eqb c AMP))).
      2:{ intros c Hc. now rewrite !andb_true_iff in Hc. }
      now rewrite (ordinary_meta pre), (ordinary_meta text), (ordinary_meta u1),
        (ordinary_meta w), (ordinary_meta u2), (ordinary_meta post). }
  rewrite (replaceGlobal_pass codeBlock (isNot BACKTICK)); [|exact codeBlock_miss|].
  2:{ rewrite !forallb_app.
      rewrite (Hm (isNot BACKTICK)) by (intros c Hc; now rewrite !andb_true_iff in Hc).
      rewrite (unmarked_avoids BACKTICK before), (unmarked_avoids BACKTICK after),
        (ordinary_avoids BACKTICK w) by (tauto || reflexivity || assumption).
      reflexivity. }
  rewrite (marks_pass before w after Hbefore (ordinary_unmarked w Hw) Hwne Hafter mark tag Hin).
  (* the header rules find nothing *)
  set (source := pre ++ lit "[" ++ text ++ lit "](" ++ url ++ lit ")" ++ post).
  replace (before ++ openTag tag ++ w ++ closeTag tag ++ after) with source
    by (unfold source, url, before, after; now rewrite <- !app_assoc).
  assert (Hsrc : forallb (fun c => negb (isLineTerminator c)) source = true).
  { unfold source. rewrite !forallb_app.
    rewrite Hurl by (reflexivity || now apply ordinary_line).
    now rewrite (ordinary_line pre), (ordinary_line text), (ordinary_line post). }
  rewrite headers_pass.
  2:{ apply offBol_line; [exact Hsrc|]. apply freeStart_hash. unfold source.
      now apply freeStart_app. }
  (* the link *)
  assert (Hrendered : replaceGlobal link source = pre ++ anchor text url ++ post).
  { unfold source, replaceGlobal.
    rewrite (replaceAll_pass link (isNot 91)) by (exact link_miss || avoids).
    replace (lit "[" ++ text ++ lit "](" ++ url ++ lit ")" ++ post)
      with ((lit "[" ++ text ++ lit "](" ++ url ++ lit ")") ++ post)
      by now rewrite <- !app_assoc.
    rewrite (replaceAll_match link _ post (anchor text url)); [|discriminate|].
    2:{ rewrite <- !app_assoc. rewrite link_built; try assumption.
        - f_equal. f_equal. rewrite !length_app. cbn [length].
          change (length (lit "[")) with 1. change (length (lit "](")) with 2.
          change (length (lit ")")) with 1. lia.
        - unfold url. destruct u1; discriminate.
        - now apply Hurl. }
    now rewrite (replaceAll_end link (isNot 91)) by (exact link_miss || avoids). }
  set (line := pre ++ anchor text url ++ post) in *.
  assert (Hline : forallb (fun c => negb (isLineTerminator c)) line = true).
  { unfold line. rewrite !forallb_app, (ordinary_line pre), (ordinary_line post) by assumption.
    rewrite forallb_anchor; [reflexivity|reflexivity|now apply ordinary_line|].
    apply Hurl; (reflexivity || now apply ordinary_line). }
  assert (Hnone : forallb (isNot 91) line = true).
  { unfold line. rewrite !forallb_app.
    rewrite (ordinary_avoids 91 pre), (ordinary_avoids 91 post) by (reflexivity || assumption).
    rewrite forallb_anchor; [reflexivity|reflexivity|now apply ordinary_avoids|].
    apply Hurl; (reflexivity || now apply ordinary_avoids). }
  pose proof (blockPasses_line line Hline Hnone) as Hblock.
  unfold blockPasses in *.
  rewrite (replaceGlobal_pass link (isNot 91) line) in Hblock by (exact link_miss || exact Hnone).
  rewrite Hrendered, Hblock; [reflexivity| |].
  - unfold line. now apply freeStart_app.
  - apply noBlockStart_noBlock. unfold line.
    rewrite noBlockStart_pass by now apply ordinary_avoids.
    apply noBlockStart_anchor; try assumption.
    now apply noBlockStart_emphasised.
Qed.

Lemma X22_link_target_is_emphasised_witness :
  parseMarkdown (rt := JsonText.runtime) (lit "[docs](https://x.org/my_page_2)")
  = lit "<a href=" ++ [QUOT] ++ lit "https://x.org/my<em>page</em>2" ++ [QUOT]
    ++ lit " target=" ++ [QUOT] ++ lit "_blank" ++ [QUOT] ++ lit " rel=" ++ [QUOT]
    ++ lit "noopener noreferrer" ++ [QUOT] ++ lit ">docs</a>".
Proof.
  apply (X22_link_target_is_emphasised (rt := JsonText.runtime) [UNDERSCORE] (lit "em")
           [] (lit "docs") (lit "https://x.org/my") (lit "page") (lit "2") []).
  - cbn. tauto.
  - reflexivity.
  - reflexivity.
  - reflexivity.
  - discriminate.
  - reflexivity.
  - reflexivity.
  - reflexivity.
  - discriminate.
  - reflexivity.
  - reflexivity.
  - reflexivity.
Defined.

(** ** Lists written with stars *)

Section StarFacts.
Context {rt : Runtime}.

(** A mark that is opened and not closed is left as it is. *)
Lemma wrapDelimited_open (o : N) (mark before after rest : jsstring) (b : bool) :
  mark = [o] \/ mark = [o; o] ->
  forallb (isNot o) rest = true ->
  wrapDelimited mark o mark before after b (o :: rest) = None.
Proof.
  intros Hm Hrest. unfold wrapDelimited, delimited.
  destruct Hm as [-> | ->].
  - cbn [startsWith]. rewrite N.eqb_refl. cbn [andb length skipn].
    rewrite (takeWhile_all _ _ Hrest).
    assert (E : dropWhile (isNot o) rest = []).
    { clear -Hrest. induction rest as [|c rest IH]; [reflexivity|].
      cbn [forallb] in Hrest. apply andb_true_iff in Hrest as [Hc Hrest].
      cbn [dropWhile]. rewrite Hc. now apply IH. }
    rewrite E. cbn [startsWith]. now rewrite andb_false_r.
  - destruct rest as [|c rest]; [cbn [startsWith]; now rewrite N.eqb_refl|].
    cbn [forallb] in Hrest. apply andb_true_iff in Hrest as [Hc _].
    now rewrite startsWith_second.
Qed.

Lemma replaceGlobal_open (o : N) (mark before after rest : jsstring) :
  mark = [o] \/ mark = [o; o] ->
  forallb (isNot o) rest = true ->
  replaceGlobal (wrapDelimited mark o mark before after) (o :: rest) = o :: rest.
Proof.
  intros Hm Hrest. unfold replaceGlobal.
  rewrite replaceAll_miss by now apply wrapDelimited_open.
  f_equal. apply (replaceAll_end _ (isNot o)); [|assumption].
  intros b c s Hc. destruct Hm as [-> | ->]; now apply wrapDelimited_miss.
Qed.

Lemma ulItem_star (item : jsstring) :
  ordinary item = true -> item <> [] -> ulItem (lit "* " ++ item) = Some item.
Proof.
  intros Ho Hn. cbn [lit list_ascii_of_string map app ulItem].
  unfold plainRest. rewrite (ordinary_line _ Ho). now destruct item.
Qed.

End StarFacts.

(** X23.  Lists written with stars.  One line that begins with a star and a
    space is rendered as a list of one entry.  Two such lines are not: the
    expression of emphasis, which runs before the lists are looked for and
    whose group may hold newlines, takes the two stars for the marks of a
    group, and the lines are rendered as emphasised text cut by a line
    break, with no list. *)
Theorem X23_star_items_become_emphasis {rt : Runtime} (x y : jsstring) :
  ordinary x = true -> x <> [] -> ordinary y = true ->
  parseMarkdown (lit "* " ++ x) = join [LF] [lit "<ul>"; listItem x; lit "</ul>"]
  /\ parseMarkdown (lit "* " ++ x ++ [LF] ++ lit "* " ++ y)
     = lit "<em> " ++ x ++ lit "<br></em> " ++ y.
Proof.
  intros Hx Hne Hy.
  assert (Hspace : forall s, ordinary s = true -> ordinary (32%N :: s) = true)
    by (intros s Hs; cbn [ordinary forallb]; exact Hs).
  split.
  - (* one line *)
    change (lit "* " ++ x) with (STAR :: 32%N :: x).
    pose proof (Hspace x Hx) as Hsx. set (rest := 32%N :: x) in *.
    rewrite parseMarkdown_unquoted. unfold beforeLinks, inlinePasses.
    rewrite escapeHtml_same by (cbn [forallb]; now rewrite (ordinary_meta rest)).
    rewrite (replaceGlobal_pass codeBlock (isNot BACKTICK))
      by (first [exact codeBlock_miss
                | cbn [forallb]; now rewrite (ordinary_avoids BACKTICK rest)]).
    unfold inlineCode, boldStars, boldUnderscores, italicStar, italicUnderscore.
    rewrite (replaceGlobal_pass (wrapDelimited [BACKTICK] _ _ _ _) (isNot BACKTICK))
      by (first [intros; now apply wrapDelimited_miss
                | cbn [forallb]; now rewrite (ordinary_avoids BACKTICK rest)]).
    rewrite (replaceGlobal_open STAR [STAR; STAR]) by (auto; now apply ordinary_avoids).
    rewrite (replaceGlobal_pass (wrapDelimited [UNDERSCORE; UNDERSCORE] _ _ _ _) (isNot UNDERSCORE))
      by (first [intros; now apply wrapDelimited_miss
                | cbn [forallb]; now rewrite (ordinary_avoids UNDERSCORE rest)]).
    rewrite (replaceGlobal_open STAR [STAR]) by (auto; now apply ordinary_avoids).
    rewrite (replaceGlobal_pass (wrapDelimited [UNDERSCORE] _ _ _ _) (isNot UNDERSCORE))
      by (first [intros; now apply wrapDelimited_miss
                | cbn [forallb]; now rewrite (ordinary_avoids UNDERSCORE rest)]).
    rewrite headers_pass.
    2:{ apply offBol_line; [|reflexivity]. cbn [forallb].
        now rewrite (ordinary_line rest). }
    rewrite (replaceGlobal_pass link (isNot 91))
      by (first [exact link_miss
                | cbn [forallb]; now rewrite (ordinary_avoids 91%N rest)]).
    unfold processLists.
    change (STAR :: rest) with (join [LF] [STAR :: rest]).
    rewrite split_lines; [|discriminate|].
    2:{ constructor; [|constructor]. constructor; [reflexivity|].
        now apply ordinary_unbroken. }
    cbn [listLoop]. unfold rest. change (STAR :: 32%N :: x) with (lit "* " ++ x).
    rewrite ulItem_star by assumption. cbn [app].
    unfold replaceNewlinesOutsideBlocks.
    apply (listed_block [x]).
    cbn [forallb]. rewrite Hx. now destruct x.
  - (* two lines *)
    pose proof (Hspace y Hy) as Hsy. set (post := 32%N :: y) in *.
    set (w := 32%N :: x ++ [LF]).
    assert (Hw : forall o, special o = true -> o <> LF -> forallb (isNot o) w = true).
    { intros o Ho Hlf. unfold w. change (32%N :: x ++ [LF]) with ((32%N :: x) ++ [LF]).
      rewrite forallb_app, (ordinary_avoids o _ Ho (Hspace x Hx)). cbn.
      unfold isNot. destruct (N.eqb_spec LF o); [congruence|reflexivity]. }
    assert (Hwm : forallb (fun c => negb (isMeta c || N.eqb c AMP)) w = true).
    { unfold w. change (32%N :: x ++ [LF]) with ((32%N :: x) ++ [LF]).
      now rewrite forallb_app, (ordinary_meta _ (Hspace x Hx)). }
    replace (lit "* " ++ x ++ [LF] ++ lit "* " ++ y)
      with ([] ++ [STAR] ++ w ++ [STAR] ++ post).
    2:{ unfold w, post. cbn [app lit list_ascii_of_string map].
        do 2 f_equal. now rewrite <- app_assoc. }
    rewrite parseMarkdown_unquoted. unfold beforeLinks, inlinePasses.
    rewrite escapeHtml_same
      by (cbn [app forallb]; now rewrite forallb_app, Hwm; cbn [forallb];
          rewrite (ordinary_meta post)).
    assert (Hsrc : forall o, special o = true -> o <> LF -> o <> STAR ->
              forallb (isNot o) ([] ++ [STAR] ++ w ++ [STAR] ++ post) = true).
    { intros o Ho Hlf Hst. cbn [app forallb]. rewrite forallb_app, (Hw o Ho Hlf).
      cbn [forallb]. rewrite (ordinary_avoids o post Ho Hsy).
      unfold isNot. destruct (N.eqb_spec STAR o); [congruence|reflexivity]. }
    rewrite (replaceGlobal_pass codeBlock (isNot BACKTICK))
      by (first [exact codeBlock_miss | apply Hsrc; (reflexivity || discriminate)]).
    unfold inlineCode, boldStars, boldUnderscores, italicStar, italicUnderscore.
    rewrite (replaceGlobal_pass (wrapDelimited [BACKTICK] _ _ _ _) (isNot BACKTICK))
      by (first [intros; now apply wrapDelimited_miss
                | apply Hsrc; (reflexivity || discriminate)]).
    rewrite bold_near;
      [|reflexivity|apply Hw; (reflexivity || discriminate)|discriminate
       |now apply ordinary_avoids].
    rewrite (replaceGlobal_pass (wrapDelimited [UNDERSCORE; UNDERSCORE] _ _ _ _) (isNot UNDERSCORE))
      by (first [intros; now apply wrapDelimited_miss
                | apply Hsrc; (reflexivity || discriminate)]).
    rewrite (replaceGlobal_hit STAR [STAR]);
      [|now left|reflexivity|apply Hw; (reflexivity || discriminate)|discriminate
       |now apply ordinary_avoids].
    cbn [app].
    replace (lit "<em>" ++ w ++ lit "</em>" ++ post)
      with (join [LF] [lit "<em>" ++ 32%N :: x; lit "</em>" ++ post]).
    2:{ unfold w. cbn [join]. rewrite <- !app_assoc. cbn [app].
        now rewrite <- !app_assoc. }
    set (first := lit "<em>" ++ 32%N :: x).
    set (second := lit "</em>" ++ post).
    assert (Hfirst : forallb (fun c => negb (special c) || N.eqb c LT || N.eqb c GT) first = true).
    { unfold first. rewrite forallb_app. cbn [forallb]. apply andb_true_iff. split; [reflexivity|].
      revert Hx. apply forallb_impl. intros c Hc. now rewrite Hc. }
    assert (Hsecond : forallb (fun c => negb (special c) || N.eqb c LT || N.eqb c GT) second = true).
    { unfold second. rewrite forallb_app. apply andb_true_iff. split; [reflexivity|].
      revert Hsy. apply forallb_impl. intros c Hc. now rewrite Hc. }
    assert (Hlines : forall o, special o = true -> o <> LT -> o <> GT ->
              forall l, In l [first; second] -> forallb (isNot o) l = true).
    { assert (Hany : forall o l, special o = true -> o <> LT -> o <> GT ->
                forallb (fun c => negb (special c) || N.eqb c LT || N.eqb c GT) l = true ->
                forallb (isNot o) l = true).
      { intros o l Ho H1 H2. apply forallb_impl. intros c Hc.
        unfold isNot. destruct (N.eqb_spec c o) as [->|]; [|reflexivity].
        apply N.eqb_neq in H1, H2. now rewrite Ho, H1, H2 in Hc. }
      intros o Ho H1 H2 l [<-|[<-|[]]]; now apply Hany. }
    assert (Hall : forall o, special o = true -> o <> LT -> o <> GT -> o <> LF ->
              forallb (isNot o) (join [LF] [first; second]) = true).
    { intros o Ho H1 H2 H3. apply forallb_join.
      - cbn. unfold isNot. destruct (N.eqb_spec LF o); [congruence|reflexivity].
      - cbn [forallb]. now rewrite !(Hlines o Ho H1 H2) by (cbn; tauto). }
    rewrite (replaceGlobal_pass (wrapDelimited [UNDERSCORE] _ _ _ _) (isNot UNDERSCORE))
      by (first [intros; now apply wrapDelimited_miss
                | apply Hall; (reflexivity || discriminate)]).
    assert (Hterm : forall l, In l [first; second] ->
              forallb (fun c => negb (isLineTerminator c)) l = true).
    { intros l Hl.
      pose proof (Hlines 10%N eq_refl ltac:(discriminate) ltac:(discriminate) l Hl) as A.
      pose proof (Hlines 13%N eq_refl ltac:(discriminate) ltac:(discriminate) l Hl) as B.
      pose proof (Hlines 8232%N eq_refl ltac:(discriminate) ltac:(discriminate) l Hl) as C.
      pose proof (Hlines 8233%N eq_refl ltac:(discriminate) ltac:(discriminate) l Hl) as D.
      rewrite forallb_forall in *. intros c Hc.
      specialize (A c Hc). specialize (B c Hc). specialize (C c Hc). specialize (D c Hc).
      unfold isNot in *. unfold isLineTerminator.
      apply negb_true_iff in A, B, C, D. now rewrite A, B, C, D. }
    rewrite headers_pass.
    2:{ apply offBol_lines; [discriminate|].
        constructor; [|constructor; [|constructor]]; (split; [apply Hterm; cbn; tauto|reflexivity]). }
    rewrite (replaceGlobal_pass link (isNot 91))
      by (first [exact link_miss | apply Hall; (reflexivity || discriminate)]).
    rewrite processLists_none; [|discriminate|..].
    2:{ constructor; [|constructor; [|constructor]]; apply Forall_forall; intros c Hc.
        - pose proof (Hlines 10%N eq_refl ltac:(discriminate) ltac:(discriminate) first
                        ltac:(cbn; tauto)) as A.
          rewrite forallb_forall in A. specialize (A c Hc). now apply negb_true_iff in A.
        - pose proof (Hlines 10%N eq_refl ltac:(discriminate) ltac:(discriminate) second
                        ltac:(cbn; tauto)) as A.
          rewrite forallb_forall in A. specialize (A c Hc). now apply negb_true_iff in A. }
    2:{ constructor; [|constructor; [|constructor]];
          (split; [apply ulItem_none|apply olItem_none]); reflexivity. }
    unfold replaceNewlinesOutsideBlocks. rewrite newlinesOutside_noBlock.
    2:{ cbn [join]. unfold first, second, post.
        replace ((lit "<em>" ++ 32%N :: x) ++ [LF] ++ lit "</em>" ++ 32%N :: y)
          with (LT :: 101%N :: (lit "m> " ++ x ++ [LF])
                ++ LT :: 47%N :: (lit "em> " ++ y) ++ []).
        2:{ rewrite app_nil_r. cbn [lit list_ascii_of_string map app].
            now rewrite <- app_assoc. }
        rewrite noBlock_tag; [|reflexivity|].
        2:{ cbn [forallb]. apply andb_true_iff. split; [reflexivity|].
            rewrite !forallb_app, (ordinary_avoids LT x) by (reflexivity || assumption).
            reflexivity. }
        rewrite noBlock_tag; [reflexivity|reflexivity|].
        cbn [forallb]. apply andb_true_iff. split; [reflexivity|].
        rewrite forallb_app, (ordinary_avoids LT y) by (reflexivity || assumption).
        reflexivity. }
    rewrite lineBreaks_join.
    2:{ constructor; [|constructor; [|constructor]];
          apply Hlines; (reflexivity || discriminate || (cbn; tauto)). }
    cbn [join]. unfold first, second, post.
    cbn [lit list_ascii_of_string map app]. reflexivity.
Qed.

Lemma X23_star_items_become_emphasis_witness :
  parseMarkdown (rt := JsonText.runtime) (lit "* milk")
  = lit "<ul>" ++ [LF] ++ lit "<li>milk</li>" ++ [LF] ++ lit "</ul>"
  /\ parseMarkdown (rt := JsonText.runtime) (lit "* milk" ++ [LF] ++ lit "* eggs")
     = lit "<em> milk<br></em> eggs".
Proof.
  apply (X23_star_items_become_emphasis (rt := JsonText.runtime) (lit "milk") (lit "eggs")).
  - reflexivity.
  - discriminate.
  - reflexivity.
Defined.

(** ** Every list is closed *)

Section Counting.

Lemma countLine_same (tag : jsstring) (lines : list jsstring) :
  countLine tag (tag :: lines) = S (countLine tag lines).
Proof. unfold countLine. cbn [filter]. now rewrite str_eqb_refl. Qed.

Lemma countLine_other (tag line : jsstring) (lines : list jsstring) :
  tag <> line -> countLine tag (line :: lines) = countLine tag lines.
Proof.
  intros H. unfold countLine. cbn [filter].
  apply str_eqb_neq in H. now rewrite H.
Qed.

Variables opening closing : jsstring.
Hypothesis Hdiff : opening <> closing.

Lemma wellOpened_nil (isOpen : bool) : wellOpened opening closing isOpen [].
Proof. intros k. rewrite firstn_nil. cbn. destruct isOpen; lia. Qed.

Lemma wellOpened_other (isOpen : bool) (line : jsstring) (lines : list jsstring) :
  opening <> line -> closing <> line ->
  wellOpened opening closing isOpen lines ->
  wellOpened opening closing isOpen (line :: lines).
Proof.
  intros Ho Hc H [|k].
  - cbn. destruct isOpen; lia.
  - cbn [firstn]. rewrite !countLine_other by assumption. apply H.
Qed.

Lemma wellOpened_open (lines : list jsstring) :
  wellOpened opening closing true lines ->
  wellOpened opening closing false (opening :: lines).
Proof.
  intros H [|k].
  - cbn. lia.
  - cbn [firstn]. rewrite countLine_same, countLine_other by congruence.
    specialize (H k). cbn beta iota in H. lia.
Qed.

Lemma wellOpened_close (lines : list jsstring) :
  wellOpened opening closing false lines ->
  wellOpened opening closing true (closing :: lines).
Proof.
  intros H [|k].
  - cbn. lia.
  - cbn [firstn]. rewrite countLine_same, countLine_other by assumption.
    specialize (H k). cbn beta iota in H. lia.
Qed.

End Counting.

Section Balance.

Lemma listItem_plain (item : jsstring) : notListTag (listItem item).
Proof.
  unfold notListTag, listItem. repeat split; intros E; vm_compute in E; discriminate E.
Qed.

Ltac other :=
  match goal with
  | |- wellOpened _ _ _ [] => apply wellOpened_nil
  | |- wellOpened _ _ _ (listItem _ :: _) =>
      apply wellOpened_other; [apply listItem_plain..|]
  | H : notListTag ?line |- wellOpened _ _ _ (?line :: _) =>
      apply wellOpened_other; [apply H..|]
  | |- wellOpened _ _ _ (_ :: _) =>
      first [ apply wellOpened_open; [discriminate|]
            | apply wellOpened_close; [discriminate|]
            | apply wellOpened_other; [discriminate|discriminate|] ]
  end.

Ltac count :=
  repeat first [ rewrite countLine_same
               | rewrite countLine_other by
                   first [discriminate | apply listItem_plain
                         | match goal with H : notListTag _ |- _ => apply H end] ].

Ltac balanced := split; (split; [repeat other; try assumption|count; try reflexivity; lia]).

Lemma listLoop_balanced (lines : list jsstring) (inUl inOl : bool) :
  Forall notListTag lines ->
  let out := listLoop lines inUl inOl in
  (wellOpened (lit "<ul>") (lit "</ul>") inUl out
   /\ countLine (lit "<ul>") out + (if inUl then 1 else 0) = countLine (lit "</ul>") out)
  /\ (wellOpened (lit "<ol>") (lit "</ol>") inOl out
      /\ countLine (lit "<ol>") out + (if inOl then 1 else 0) = countLine (lit "</ol>") out).
Proof.
  intros Hplain. revert inUl inOl.
  induction Hplain as [|line lines Hline _ IH]; intros inUl inOl; cbn zeta.
  - cbn [listLoop]. destruct inUl, inOl; cbn [app]; balanced.
  - cbn [listLoop]. destruct (ulItem line) as [item|].
    + destruct (IH true inOl) as [[W1 C1] [W2 C2]].
      destruct inUl; cbn [app]; balanced.
    + destruct (olItem line) as [item|].
      * destruct (IH inUl true) as [[W1 C1] [W2 C2]].
        destruct inOl; cbn [app]; balanced.
      * destruct (IH false false) as [[W1 C1] [W2 C2]].
        destruct inUl, inOl; cbn [app]; balanced.
Qed.

End Balance.

Section ListedLines.
Context {rt : Runtime}.

Lemma beforeLists_guarded (text : jsstring) :
  guarded LT linkTags (replaceGlobal link (beforeLinks text)) = true.
Proof.
  apply (replaceGlobal_guarded LT inlineTags eq_refl linkTags).
  - intros w. apply In_app_l.
  - apply (link_guarded LT inlineTags eq_refl eq_refl linkTags); try reflexivity.
    intros w. apply In_app_l.
  - now apply (link_inert LT inlineTags).
  - apply beforeLinks_guarded; try reflexivity.
    apply guarded_unmarked, (plain_unmarked LT); [reflexivity|apply escapeHtml_plain].
Qed.

(** No line that the loop reads is the tag of a list. *)
Lemma beforeLists_plain (text : jsstring) :
  Forall notListTag (split LF (replaceGlobal link (beforeLinks text))).
Proof.
  pose proof (split_guarded LT linkTags eq_refl _ (beforeLists_guarded text)) as H.
  apply Forall_forall. intros line Hin. rewrite forallb_forall in H. specialize (H line Hin).
  unfold notListTag. repeat split; intros <-; vm_compute in H; discriminate H.
Qed.

End ListedLines.

(** X24.  Every list is closed.  Whatever the text, the loop over the lines
    closes every list it opens: among the lines it pushes there are as
    many closing tags as opening tags, for the unordered lists and for the
    ordered ones, and reading them in order no list is closed that is not
    open, nor opened while one of its kind is open. *)
Theorem X24_lists_are_closed {rt : Runtime} (text : jsstring) :
  parseMarkdown text = replaceNewlinesOutsideBlocks (join [LF] (listedLines text))
  /\ wellOpened (lit "<ul>") (lit "</ul>") false (listedLines text)
  /\ countLine (lit "<ul>") (listedLines text) = countLine (lit "</ul>") (listedLines text)
  /\ wellOpened (lit "<ol>") (lit "</ol>") false (listedLines text)
  /\ countLine (lit "<ol>") (listedLines text) = countLine (lit "</ol>") (listedLines text).
Proof.
  destruct (listLoop_balanced _ false false (beforeLists_plain text))
    as [[W1 C1] [W2 C2]].
  fold (listedLines text) in *. rewrite Nat.add_0_r in C1, C2.
  split; [apply parseMarkdown_unquoted|].
  split; [exact W1|split; [exact C1|split; [exact W2|exact C2]]].
Qed.

(** ** Lists of two kinds *)

Section MixedLists.
Context {rt : Runtime}.

(** Lines of ordinary units that do not begin with a hash reach the loop
    over the lines as they are. *)
Lemma ordinary_lines_pass (lines : list jsstring) :
  forallb ordinary lines = true ->
  Forall (fun line => match line with [] => true | c :: _ => isNot 35 c end = true) lines ->
  replaceGlobal link (beforeLinks (join [LF] lines)) = join [LF] lines.
Proof.
  intros Hlines Hheads.
  assert (Hno : forall x, special x = true -> x <> LF ->
                  forallb (isNot x) (join [LF] lines) = true).
  { intros x Hx Hlf. apply forallb_join.
    - cbn. unfold isNot. destruct (N.eqb_spec LF x); [congruence|reflexivity].
    - rewrite forallb_forall in *. intros line Hin.
      apply ordinary_avoids; [exact Hx|]. now apply Hlines. }
  unfold beforeLinks, inlinePasses.
  rewrite escapeHtml_same.
  2:{ apply forallb_join; [reflexivity|]. rewrite forallb_forall in *.
      intros line Hin. now apply ordinary_meta, Hlines. }
  rewrite (replaceGlobal_pass codeBlock (isNot BACKTICK))
    by (first [exact codeBlock_miss | apply Hno; [reflexivity|discriminate]]).
  unfold inlineCode, boldStars, boldUnderscores, italicStar, italicUnderscore.
  rewrite (replaceGlobal_pass (wrapDelimited [BACKTICK] _ _ _ _) (isNot BACKTICK))
    by (first [intros; now apply wrapDelimited_miss | apply Hno; [reflexivity|discriminate]]).
  rewrite (replaceGlobal_pass (wrapDelimited [STAR; STAR] _ _ _ _) (isNot STAR))
    by (first [intros; now apply wrapDelimited_miss | apply Hno; [reflexivity|discriminate]]).
  rewrite (replaceGlobal_pass (wrapDelimited [UNDERSCORE; UNDERSCORE] _ _ _ _) (isNot UNDERSCORE))
    by (first [intros; now apply wrapDelimited_miss | apply Hno; [reflexivity|discriminate]]).
  rewrite (replaceGlobal_pass (wrapDelimited [STAR] _ _ _ _) (isNot STAR))
    by (first [intros; now apply wrapDelimited_miss | apply Hno; [reflexivity|discriminate]]).
  rewrite (replaceGlobal_pass (wrapDelimited [UNDERSCORE] _ _ _ _) (isNot UNDERSCORE))
    by (first [intros; now apply wrapDelimited_miss | apply Hno; [reflexivity|discriminate]]).
  rewrite headers_pass.
  2:{ apply offBol_lines; [discriminate|]. rewrite Forall_forall in *. intros line Hin.
      split; [|now apply Hheads]. rewrite forallb_forall in Hlines.
      now apply ordinary_line, Hlines. }
  apply (replaceGlobal_pass link (isNot 91));
    first [exact link_miss | apply Hno; [reflexivity|discriminate]].
Qed.

End MixedLists.

(** X25.  Lists of two kinds.  When an entry of a numbered list follows an entry
    of a list written with a dash, the ordered list is opened inside the
    unordered one, which is still open, and at the end of the text the
    unordered list is closed first: the two lists overlap.  The unordered
    list is closed before the ordered one that was opened inside it, and
    the newline before the last tag is turned into a line break. *)
Theorem X25_mixed_lists_overlap {rt : Runtime} (a : jsstring) (entry : jsstring * jsstring) :
  ordinary a = true -> a <> [] -> numberedEntry entry = true ->
  parseMarkdown (lit "- " ++ a ++ [LF] ++ numberedLine entry)
  = join [LF] [lit "<ul>"; listItem a; lit "<ol>"; listItem (snd entry); lit "</ul>"]
    ++ lit "<br></ol>".
Proof.
  intros Ha Hne Hentry.
  destruct (numberedEntry_inv _ Hentry) as (_ & _ & Hb & _).
  pose proof (numberedLine_ordinary _ Hentry) as Hline.
  assert (Hdash : ordinary (lit "- " ++ a) = true) by now rewrite ordinary_app, Ha.
  change (lit "- " ++ a ++ [LF] ++ numberedLine entry)
    with ((lit "- " ++ a) ++ [LF] ++ numberedLine entry).
  replace ((lit "- " ++ a) ++ [LF] ++ numberedLine entry)
    with (join [LF] [lit "- " ++ a; numberedLine entry]) by reflexivity.
  rewrite parseMarkdown_unquoted, ordinary_lines_pass.
  2:{ cbn [forallb]. now rewrite Hdash, Hline. }
  2:{ constructor; [reflexivity|]. constructor; [|constructor].
      destruct (numberedLine_head _ Hentry) as (d & rest & -> & Hd). now apply digit_neq. }
  unfold processLists. rewrite split_lines; [|discriminate|].
  2:{ constructor; [|constructor; [|constructor]]; now apply ordinary_unbroken. }
  cbn [listLoop].
  rewrite ulItem_dash by (assumption || now destruct a).
  rewrite ulItem_numbered, olItem_numbered by assumption. cbn [app].
  unfold replaceNewlinesOutsideBlocks.
  set (block := join [LF] [lit "<ul>"; listItem a; lit "<ol>"; listItem (snd entry); lit "</ul>"]).
  replace (join [LF] [lit "<ul>"; listItem a; lit "<ol>"; listItem (snd entry);
                       lit "</ul>"; lit "</ol>"])
    with (block ++ LF :: lit "</ol>").
  2:{ unfold block. cbn [join]. now rewrite <- !app_assoc. }
  rewrite newlinesOutside_block; [reflexivity| |discriminate].
  unfold blockAt. change (lazyBlock (lit "<pre><code>") (lit "</code></pre>")
                           (block ++ LF :: lit "</ol>")) with (@None nat).
  unfold lazyBlock, block. cbn [join]. rewrite <- !app_assoc.
  rewrite startsWith_app, skipn_app_exact.
  change ([LF] ++ listItem a ++ ?x) with (LF :: listItem a ++ x).
  rewrite indexOf_item by assumption.
  change ([LF] ++ lit "<ol>" ++ [LF] ++ listItem (snd entry) ++ ?x)
    with (LF :: LT :: lit "ol>" ++ LF :: listItem (snd entry) ++ x).
  rewrite indexOf_cons_false by reflexivity.
  rewrite indexOf_cons_false by reflexivity.
  change (lit "</ul>") with (LT :: lit "/ul>") at 1.
  rewrite (indexOf_pass LT _ (lit "ol>")) by reflexivity.
  change (LT :: lit "/ul>") with (lit "</ul>").
  rewrite indexOf_item by assumption.
  change (indexOf (lit "</ul>") ([LF] ++ lit "</ul>" ++ LF :: lit "</ol>")) with (Some 1).
  cbn [option_map]. f_equal.
  repeat (rewrite !length_app; cbn [length]).
  change (length (lit "<ul>")) with 4. change (length (lit "<ol>")) with 4.
  change (length (lit "ol>")) with 3. change (length (lit "</ul>")) with 5. lia.
Qed.

Lemma X25_mixed_lists_overlap_witness :
  parseMarkdown (rt := JsonText.runtime) (lit "- fruit" ++ [LF] ++ lit "1. apples")
  = lit "<ul>" ++ [LF] ++ lit "<li>fruit</li>" ++ [LF] ++ lit "<ol>" ++ [LF]
    ++ lit "<li>apples</li>" ++ [LF] ++ lit "</ul><br></ol>".
Proof.
  apply (X25_mixed_lists_overlap (rt := JsonText.runtime) (lit "fruit") (lit "1", lit "apples")).
  - reflexivity.
  - discriminate.
  - reflexivity.
Defined.

(** ** The page *)

Section PageFacts.
Context {rt : Runtime}.

(** When no read rejects, the loop of the page is the read loop. *)
Lemma readLoop_completes (reads : list jsstring) (els : ResponseElements) (buffer : jsstring) :
  Page.readLoop els buffer reads false = Some (readLoop els buffer reads).
Proof.
  revert els buffer. induction reads as [|value rest IH]; intros els buffer; [reflexivity|].
  cbn [Page.readLoop readLoop].
  destruct (processEvents els (fst (consumeSseEvents (buffer ++ value)))) as [els' sawDone].
  destruct sawDone; [reflexivity|apply IH].
Qed.

Lemma nonEmpty_false (s : jsstring) : nonEmpty s = false <-> s = [].
Proof. destruct s; split; (reflexivity || discriminate). Qed.

End PageFacts.

(** X26.  A call of [sendMessage].  Nothing is sent, and nothing changes, when
    the value typed is blank or a call is being processed.  Otherwise the
    request carries the history followed by the trimmed value as a user
    message, which is shown as text, never as markup; the page is idle
    again when the call is over, however it ends.  If the exchange fails
    before the body is read, the history keeps the user message only and
    an apology is shown.  If the body is read to its end, the history
    receives one more message when the text gathered for the professional
    tone is not empty: that text, as an assistant message; the texts of
    the two other tones are never recorded. *)
Theorem X26_send_records_the_exchange {rt : Runtime} (st : Page.State) (value : jsstring)
    (server : list ChatMessage -> Page.Exchange) :
  let out := Page.sendMessage st value server in
  let sent := Page.chatHistory st ++ [{| role := user; content := trim value |}] in
  (Page.requested out = None <-> trim value = [] \/ Page.isProcessing st = true)
  /\ (Page.requested out = None -> Page.state out = st /\ Page.appended out = [])
  /\ (Page.requested out <> None ->
        Page.requested out = Some sent
        /\ Page.isProcessing (Page.state out) = false
        /\ hd_error (Page.appended out) = Some (Page.TextMessage user (trim value))
        /\ exists reply, Page.chatHistory (Page.state out) = sent ++ reply)
  /\ (Page.requested out <> None ->
        (server sent = Page.NoResponse
         \/ (exists body, server sent = Page.Responded false body)
         \/ (exists ok, server sent = Page.Responded ok None)) ->
        Page.chatHistory (Page.state out) = sent
        /\ Page.rendered out = None
        /\ last (Page.appended out) Page.ResponsesContainer
           = Page.HtmlMessage assistant (parseMarkdown Page.apology))
  /\ (Page.requested out <> None ->
        forall reads, server sent = Page.Responded true
                                      (Some {| Page.texts := reads; Page.rejects := false |}) ->
        let answer := responseText (sendMessage reads professional) in
        Page.chatHistory (Page.state out)
        = sent ++ (if nonEmpty answer then [{| role := assistant; content := answer |}] else [])
        /\ Page.rendered out
           = Some (fun tone => parseMarkdown (responseText (sendMessage reads tone)))).
Proof.
  cbv zeta. unfold Page.sendMessage.
  destruct (nonEmpty (trim value)) eqn:Ev; cbn [negb orb].
  2:{ apply nonEmpty_false in Ev. cbn [Page.requested Page.state Page.appended].
      repeat split; try tauto; try congruence; intros H; now contradiction H. }
  assert (Hv : trim value <> []) by (intros E; rewrite E in Ev; discriminate).
  destruct (Page.isProcessing st) eqn:Eb.
  { cbn [Page.requested Page.state Page.appended].
    repeat split; try tauto; try congruence; intros H; now contradiction H. }
  set (sent := Page.chatHistory st ++ [{| role := user; content := trim value |}]).
  destruct (Page.exchange (server sent)) as [els|] eqn:Ex;
    cbn [Page.requested Page.state Page.appended Page.rendered Page.chatHistory
         Page.isProcessing Page.addMessageToChat hd_error last].
  - (* the body was read *)
    split; [split; [discriminate|intros [H|H]; congruence]|].
    split; [discriminate|].
    split.
    { intros _. split; [reflexivity|]. split; [reflexivity|]. split; [reflexivity|].
      destruct (nonEmpty (responseText (els professional)));
        [eexists; reflexivity|exists []; now rewrite app_nil_r]. }
    split.
    { intros _ [H|[[body H]|[ok H]]]; rewrite H in Ex; try discriminate.
      destruct ok; discriminate. }
    intros _ reads H. rewrite H in Ex. cbn [Page.exchange Page.texts Page.rejects] in Ex.
    rewrite readLoop_completes in Ex. injection Ex as <-.
    change (readLoop initialElements [] reads) with (sendMessage reads).
    split; [|reflexivity].
    destruct (nonEmpty (responseText (sendMessage reads professional)));
      [reflexivity|now rewrite app_nil_r].
  - (* the exchange failed *)
    split; [split; [discriminate|intros [H|H]; congruence]|].
    split; [discriminate|].
    split.
    { intros _. split; [reflexivity|]. split; [reflexivity|]. split; [reflexivity|].
      exists []. now rewrite app_nil_r. }
    split; [intros _ _; now repeat split|].
    intros _ reads H. rewrite H in Ex. cbn [Page.exchange Page.texts Page.rejects] in Ex.
    rewrite readLoop_completes in Ex. discriminate.
Qed.

Section SessionFacts.
Context {rt : Runtime}.

Lemma send_keeps_idle (st : Page.State) (value : jsstring)
    (server : list ChatMessage -> Page.Exchange) :
  Page.isProcessing st = false ->
  forallb notSystem (Page.chatHistory st) = true ->
  Page.isProcessing (Page.state (Page.sendMessage st value server)) = false
  /\ forallb notSystem (Page.chatHistory (Page.state (Page.sendMessage st value server))) = true
  /\ (forall sent, Page.requested (Page.sendMessage st value server) = Some sent ->
        forallb notSystem sent = true).
Proof.
  intros Hidle Hhist. unfold Page.sendMessage. rewrite Hidle.
  destruct (nonEmpty (trim value)); cbn [negb orb];
    [|cbn; repeat split; try assumption; discriminate].
  assert (Hsent : forallb notSystem
                    (Page.chatHistory st ++ [{| role := user; content := trim value |}]) = true)
    by now rewrite forallb_app, Hhist.
  destruct (Page.exchange _) as [els|];
    cbn [Page.state Page.requested Page.chatHistory Page.isProcessing].
  - split; [reflexivity|]. split; [|now intros sent [= <-]].
    destruct (nonEmpty _); [|exact Hsent]. now rewrite forallb_app, Hsent.
  - split; [reflexivity|]. split; [exact Hsent|now intros sent [= <-]].
Qed.

Lemma session_keeps_idle (calls : list (jsstring * (list ChatMessage -> Page.Exchange)))
    (st : Page.State) :
  Page.isProcessing st = false ->
  forallb notSystem (Page.chatHistory st) = true ->
  Page.isProcessing (fst (Page.session st calls)) = false
  /\ forallb notSystem (Page.chatHistory (fst (Page.session st calls))) = true
  /\ Forall (fun sent => forallb notSystem sent = true) (snd (Page.session st calls)).
Proof.
  revert st. induction calls as [|[value server] calls IH]; intros st Hidle Hhist.
  - cbn. now repeat split.
  - cbn [Page.session].
    destruct (send_keeps_idle st value server Hidle Hhist) as (H1 & H2 & H3).
    specialize (IH _ H1 H2).
    destruct (Page.session (Page.state (Page.sendMessage st value server)) calls)
      as [final requests].
    cbn [fst snd] in *. destruct IH as (I1 & I2 & I3).
    split; [exact I1|]. split; [exact I2|].
    destruct (Page.requested (Page.sendMessage st value server)) as [sent|]; [|exact I3].
    constructor; [now apply H3|exact I3].
Qed.

End SessionFacts.

(** X27.  The history of a session.  Through any sequence of calls of
    [sendMessage] from the state in which the script is loaded, whatever
    is typed and whatever the server does, the page is idle between the
    calls and neither the history nor any request sent holds a system
    message.  The worker therefore drops nothing of what this client
    sends: each of its three calls to the model carries the prompt of its
    tone followed by the whole history received. *)
Theorem X27_session_sends_no_system_message {rt : Runtime}
    (calls : list (jsstring * (list ChatMessage -> Page.Exchange))) :
  let result := Page.session Page.initialState calls in
  Page.isProcessing (fst result) = false
  /\ forallb notSystem (Page.chatHistory (fst result)) = true
  /\ Forall (fun sent => forallb notSystem sent = true) (snd result)
  /\ (forall sent env upstream schedule,
        In sent (snd result) -> credentialMissing env = false ->
        snd (handleChatRequest (Some sent) env upstream schedule)
        = map (fun tone => (tone, {| role := system; content := TONE_PROMPTS tone |} :: sent))
              tones).
Proof.
  cbv zeta.
  destruct (session_keeps_idle calls Page.initialState eq_refl eq_refl) as (H1 & H2 & H3).
  split; [exact H1|]. split; [exact H2|]. split; [exact H3|].
  intros sent env upstream schedule Hin Hkey.
  rewrite calls_made, Hkey. rewrite Forall_forall in H3.
  now rewrite (filter_all _ notSystem sent (H3 _ Hin)).
Qed.

Section Interrupted.
Context {rt : Runtime}.

Lemma processEvents_no_sentinel (els : ResponseElements) (events : list jsstring) :
  existsb (fun data => str_eqb data sentinel) events = false ->
  snd (processEvents els events) = false.
Proof.
  revert els. induction events as [|data rest IH]; intros els H; [reflexivity|].
  cbn [existsb] in H. apply orb_false_iff in H as [Hd Hrest].
  cbn [processEvents]. rewrite Hd. now apply IH.
Qed.

(** Without a sentinel the loop is left by the end of the stream only: a
    read that rejects is reached. *)
Lemma readLoop_rejects (reads : list jsstring) (els : ResponseElements) (buffer : jsstring) :
  consumeSseEvents buffer = ([], buffer) ->
  existsb (fun data => str_eqb data sentinel)
          (fst (consumeSseEvents (buffer ++ concat reads))) = false ->
  Page.readLoop els buffer reads true = None.
Proof.
  revert els buffer. induction reads as [|value rest IH]; intros els buffer Hb H;
    [reflexivity|].
  cbn [Page.readLoop concat] in *.
  rewrite (app_assoc buffer value), (consumeSseEvents_app (buffer ++ value)) in H.
  cbn [fst] in H. rewrite existsb_app in H. apply orb_false_iff in H as [H1 H2].
  pose proof (processEvents_no_sentinel els _ H1) as Hs.
  destruct (processEvents els (fst (consumeSseEvents (buffer ++ value)))) as [els' sawDone].
  cbn [snd] in Hs. subst sawDone. apply IH; [apply remainder_fixed|exact H2].
Qed.

Lemma served_no_sentinel (served : Served) :
  existsb (fun data => str_eqb data sentinel) (fst (consumeSseEvents (textOfServed served)))
  = false.
Proof.
  rewrite textOfServed_frames.
  rewrite <- (app_nil_r (concat (map sseFrame (payloadsOfServed served)))).
  rewrite payloads_events by apply payloadsOfServed_stringified.
  change (fst (consumeSseEvents [])) with (@nil jsstring). cbn [fst]. rewrite app_nil_r.
  induction (payloadsOfServed_stringified served) as [|p payloads [members ->] _ IH];
    [reflexivity|].
  cbn [existsb]. now rewrite stringifyObject_not_sentinel.
Qed.

End Interrupted.

(** X28.  An answer that is interrupted is forgotten.  The worker writes no
    sentinel, so the page leaves its read loop by the end of the stream
    only.  When a read of the body rejects after the frames of the chunks
    served have been received, whatever they hold, the call ends with the
    apology: the texts received are not rendered a last time, and the
    history keeps the user message without any answer, also when the text
    of the professional tone had been received whole. *)
Theorem X28_interrupted_answer_is_forgotten {rt : Runtime} (st : Page.State) (value : jsstring)
    (server : list ChatMessage -> Page.Exchange) (served : Served) (reads : list jsstring) :
  trim value <> [] -> Page.isProcessing st = false ->
  concat reads = textOfServed served ->
  let sent := Page.chatHistory st ++ [{| role := user; content := trim value |}] in
  server sent = Page.Responded true (Some {| Page.texts := reads; Page.rejects := true |}) ->
  let out := Page.sendMessage st value server in
  Page.requested out = Some sent
  /\ Page.state out = {| Page.chatHistory := sent; Page.isProcessing := false |}
  /\ Page.rendered out = None
  /\ Page.appended out
     = [Page.TextMessage user (trim value); Page.ResponsesContainer;
        Page.HtmlMessage assistant (parseMarkdown Page.apology)].
Proof.
  intros Hv Hidle Hreads sent Hserver. cbv zeta. unfold Page.sendMessage.
  destruct (trim value) as [|c message] eqn:Ev; [congruence|].
  rewrite Hidle. cbn [nonEmpty negb orb]. fold sent. rewrite Hserver.
  cbn [Page.exchange Page.texts Page.rejects].
  rewrite readLoop_rejects; [now repeat split|reflexivity|].
  cbn [app]. rewrite Hreads. apply served_no_sentinel.
Qed.

Lemma X28_interrupted_answer_is_forgotten_witness :
  Page.state (Page.sendMessage (rt := JsonText.runtime) Page.initialState (lit " Hi ")
                (fun _ => Page.Responded true
                            (Some {| Page.texts := talkReads; Page.rejects := true |})))
  = {| Page.chatHistory := Page.chatHistory Page.initialState
                           ++ [{| role := user; content := lit "Hi" |}];
       Page.isProcessing := false |}.
Proof.
  apply (X28_interrupted_answer_is_forgotten (rt := JsonText.runtime) Page.initialState (lit " Hi ")
           (fun _ => Page.Responded true
                       (Some {| Page.texts := talkReads; Page.rejects := true |}))
           talk talkReads).
  - discriminate.
  - reflexivity.
  - reflexivity.
  - reflexivity.
Defined.

(** ** From the model to the history *)

Section EndToEnd.
Context {rt : Runtime}.

(** What the client gathers for a tone from the text of the chunks served. *)
Lemma sendMessage_served (served : Served) (reads : list jsstring) (t : Tone) :
  readsBack served -> concat reads = textOfServed served ->
  responseText (sendMessage reads t) = concat (map contentOf (servedTo t served)).
Proof.
  intros Hr Hc. destruct (routed_served served t Hr) as [Hresp _].
  rewrite sendMessage_frames, Hc, decodedFrames_served, fold_handleData_routed.
  cbn [initialElements responseText app]. exact Hresp.
Qed.

(** When the channel is closed, every stream has been served whole. *)
Lemma closed_served_whole (streams : Tone -> Stream) (schedule : list Tone) :
  channel (multiplex streams schedule) = Closed ->
  exists served,
    enqueued (multiplex streams schedule) = framesOfServed served
    /\ forall tone, servedTo tone served = chunks (streams tone).
Proof.
  intros Hclosed. unfold multiplex in *.
  destruct (accounts_fold streams schedule [] _ _ (accounts_start streams)) as [served [He Ht]].
  exists served. split; [exact He|]. intros tone.
  destruct (consistent_fold streams schedule _ (consistent_start streams)) as (_ & _ & Hall).
  specialize (Hall Hclosed tone).
  destruct (Ht tone) as (k & _ & _ & Hs & [Hr|[_ ->]]); [congruence|].
  now rewrite Hs, firstn_all.
Qed.

End EndToEnd.

(** X29.  From the model to the history.  Let the three streams of the model be
    written to the channel until it is closed, in any interleaving, and
    let the page receive the text of what was written, cut into reads in
    any way, [JSON.parse] reading the payloads as they were written.
    Then each panel shows, rendered, the concatenation of the [content]
    fragments of the stream of its tone, and the history receives that of
    the professional stream as the answer of the assistant, when it is
    not empty: nothing of the two other streams, and nothing of the
    reasoning. *)
Theorem X29_answer_is_the_professional_stream {rt : Runtime} (st : Page.State) (value : jsstring)
    (streams : Tone -> Stream) (schedule : list Tone) :
  trim value <> [] -> Page.isProcessing st = false ->
  channel (multiplex streams schedule) = Closed ->
  let sent := Page.chatHistory st ++ [{| role := user; content := trim value |}] in
  let answer := concat (map contentOf (chunks (streams professional))) in
  exists served,
    enqueued (multiplex streams schedule) = framesOfServed served
    /\ forall reads server,
         readsBack served -> concat reads = textOfServed served ->
         server sent = Page.Responded true
                         (Some {| Page.texts := reads; Page.rejects := false |}) ->
         Page.chatHistory (Page.state (Page.sendMessage st value server))
         = sent ++ (if nonEmpty answer then [{| role := assistant; content := answer |}] else [])
         /\ exists panels,
              Page.rendered (Page.sendMessage st value server) = Some panels
              /\ forall tone,
                   panels tone
                   = parseMarkdown (concat (map contentOf (chunks (streams tone)))).
Proof.
  intros Hv Hidle Hclosed sent answer.
  destruct (closed_served_whole streams schedule Hclosed) as (served & Hframes & Hwhole).
  exists served. split; [exact Hframes|].
  intros reads server Hr Hreads Hserver.
  assert (Htext : forall tone, responseText (sendMessage reads tone)
                               = concat (map contentOf (chunks (streams tone)))).
  { intros tone. now rewrite (sendMessage_served served reads tone Hr Hreads), Hwhole. }
  unfold Page.sendMessage.
  destruct (trim value) as [|c message] eqn:Ev; [congruence|].
  rewrite Hidle. cbn [nonEmpty negb orb]. fold sent. rewrite Hserver.
  cbn [Page.exchange Page.texts Page.rejects]. rewrite readLoop_completes.
  change (readLoop initialElements [] reads) with (sendMessage reads).
  cbn [Page.state Page.chatHistory Page.rendered]. rewrite (Htext professional). fold answer.
  split.
  - destruct (nonEmpty answer); [reflexivity|now rewrite app_nil_r].
  - eexists. split; [reflexivity|]. intros tone. cbn beta. now rewrite Htext.
Qed.

Lemma X29_answer_is_the_professional_stream_witness :
  exists served,
    enqueued (multiplex briefing fullSchedule) = framesOfServed served
    /\ forall reads server,
         readsBack (rt := JsonText.runtime) served -> concat reads = textOfServed served ->
         server (Page.chatHistory Page.initialState ++ [{| role := user; content := lit "Hi" |}])
         = Page.Responded true (Some {| Page.texts := reads; Page.rejects := false |}) ->
         Page.chatHistory
           (Page.state (Page.sendMessage (rt := JsonText.runtime) Page.initialState
                          (lit " Hi ") server))
         = Page.chatHistory Page.initialState
           ++ [{| role := user; content := lit "Hi" |};
               {| role := assistant; content := lit "Good day." |}].
Proof.
  destruct (X29_answer_is_the_professional_stream (rt := JsonText.runtime) Page.initialState
              (lit " Hi ") briefing fullSchedule) as (served & Hframes & H).
  - discriminate.
  - reflexivity.
  - reflexivity.
  - exists served. split; [exact Hframes|].
    intros reads server Hr Hreads Hserver.
    destruct (H reads server Hr Hreads Hserver) as [Hh _]. exact Hh.
Defined.
